(** * antigravity-server: the protocol-translation pipeline

    A shallow embedding of the transformers of [src/transform]:

    - [schema-cleaner.ts]      ([Module SchemaCleaner]),
    - [openai-to-gemini.ts]    ([Module RequestTransformer]),
    - [gemini-to-openai.ts]    ([Module ResponseTransformer]),
    - [streaming.ts]           ([Module Streaming]),

    over a model of the JavaScript values they manipulate ([Module JS]),
    with [transformResponse] in full ([Module ChatCompletion]), the stream
    loop of [routes/chat.ts] that calls them ([Module ChatRoute]) and
    [getModelFamily] of [api/quota-protection.ts]
    ([Module QuotaProtection]).

    Conventions of the model.

    - A JSON value is a tree; an object is the list of its own enumerable
      properties in insertion order, every key occurring once.  The engine
      enumerates keys that are array indices before the others; no function
      below observes that order, so the list keeps insertion order.  The key
      [__proto__] is not modelled.
    - A number is carried by its canonical rendering, the string that
      [String(n)] produces: the transformers only render numbers and test
      them for truthiness.
    - Strings are sequences of 8-bit characters; case conversion and
      white space are those of ASCII.
    - The conversion of a value to a string, which [String(v)], a template
      literal, [string + v], [join] and the use of a value as a property key
      come down to, throws for an object with an own property [toString]
      (a value of JSON is never callable) and for an array that holds such
      an object; it completes with [Throw] there.
    - A call that throws completes with [Throw].  The tree walkers of the
      schema cleaner recurse on values they have just built, so they take a
      recursion budget and complete with [OutOfFuel] when it is exhausted;
      a budget of the depth of the schema plus twenty is always enough
      ([cleanSchema_enough_fuel]).
    - [JSON.parse], [JSON.stringify] and the clock belong to the runtime and
      are parameters of the functions that call them. *)

From Stdlib Require Import List String Ascii Bool Arith ZArith Lia DecimalString DecimalNat.
Import ListNotations.
Open Scope string_scope.
Open Scope nat_scope.

(* ================================================================== *)
(** * JavaScript values *)
(* ================================================================== *)

Module JS.

(** The canonical rendering of a number. *)
Definition JSNumber := string.

Unset Elimination Schemes.
Inductive JSON : Type :=
| JNull
| JBool (b : bool)
| JNum (repr : JSNumber)
| JStr (s : string)
| JArr (items : list JSON)
| JObj (fields : list (string * JSON)).
Set Elimination Schemes.

(** Completion of a call: a value, an exception, or an exhausted budget. *)
Inductive Completion (A : Type) : Type :=
| Normal (a : A)
| Throw
| OutOfFuel.

Arguments Normal {A} a.
Arguments Throw {A}.
Arguments OutOfFuel {A}.

Definition bind {A B : Type} (c : Completion A) (k : A -> Completion B) : Completion B :=
  match c with
  | Normal a => k a
  | Throw => Throw
  | OutOfFuel => OutOfFuel
  end.

Declare Scope js_scope.
Delimit Scope js_scope with js.
Notation "x <- c1 ;; c2" := (bind c1 (fun x => c2))
  (at level 61, c1 at next level, right associativity) : js_scope.
Open Scope js_scope.

Fixpoint mapM {A B : Type} (f : A -> Completion B) (l : list A) : Completion (list B) :=
  match l with
  | [] => Normal []
  | x :: rest => y <- f x ;; ys <- mapM f rest ;; Normal (y :: ys)
  end.

(** ** Strings *)

Definition dquote : string := String "034"%char EmptyString.
Definition LF : ascii := "010"%char.
Definition CR : ascii := "013"%char.

Definition nonempty (s : string) : bool :=
  match s with EmptyString => false | String _ _ => true end.

(** [s.includes(sub)] *)
Fixpoint includes (s sub : string) : bool :=
  prefix sub s
  || match s with
     | EmptyString => false
     | String _ rest => includes rest sub
     end.

Definition is_upper (c : ascii) : bool :=
  let n := nat_of_ascii c in (65 <=? n) && (n <=? 90).
Definition is_lower (c : ascii) : bool :=
  let n := nat_of_ascii c in (97 <=? n) && (n <=? 122).

Definition lower_char (c : ascii) : ascii :=
  if is_upper c then ascii_of_nat (nat_of_ascii c + 32) else c.
Definition upper_char (c : ascii) : ascii :=
  if is_lower c then ascii_of_nat (nat_of_ascii c - 32) else c.

Fixpoint map_string (f : ascii -> ascii) (s : string) : string :=
  match s with
  | EmptyString => EmptyString
  | String c rest => String (f c) (map_string f rest)
  end.

Definition toLowerCase : string -> string := map_string lower_char.
Definition toUpperCase : string -> string := map_string upper_char.

(** White space of [trim]: TAB, LF, VT, FF, CR and SPACE. *)
Definition is_space (c : ascii) : bool :=
  let n := nat_of_ascii c in ((9 <=? n) && (n <=? 13)) || (n =? 32).

Fixpoint trimStart (s : string) : string :=
  match s with
  | EmptyString => EmptyString
  | String c rest => if is_space c then trimStart rest else s
  end.

Fixpoint trimEnd (s : string) : string :=
  match s with
  | EmptyString => EmptyString
  | String c rest =>
      match trimEnd rest with
      | EmptyString => if is_space c then EmptyString else String c EmptyString
      | r => String c r
      end
  end.

Definition trim (s : string) : string := trimEnd (trimStart s).

(** [s.indexOf(":")] with [None] for [-1]. *)
Fixpoint indexOf (c : ascii) (s : string) : option nat :=
  match s with
  | EmptyString => None
  | String d rest =>
      if Ascii.eqb c d then Some 0
      else match indexOf c rest with Some i => Some (S i) | None => None end
  end.

(** [s.slice(0, n)] and [s.slice(n)] for [n] within the string. *)
Fixpoint slice_to (n : nat) (s : string) : string :=
  match n, s with
  | S n', String c rest => String c (slice_to n' rest)
  | _, _ => EmptyString
  end.

Fixpoint slice_from (n : nat) (s : string) : string :=
  match n, s with
  | S n', String _ rest => slice_from n' rest
  | _, _ => s
  end.

(** [s.split("/").pop()]: what follows the last separator. *)
Fixpoint last_segment (sep : ascii) (s : string) : string :=
  match s with
  | EmptyString => EmptyString
  | String c rest =>
      if includes rest (String sep EmptyString) then last_segment sep rest
      else if Ascii.eqb c sep then rest
      else s
  end.

Definition is_digit (c : ascii) : bool :=
  let n := nat_of_ascii c in (48 <=? n) && (n <=? 57).

Definition starts_with_digit (k : string) : bool :=
  match k with
  | String c _ => is_digit c
  | EmptyString => false
  end.

(** The decimal rendering of an array index or of a length. *)
Definition nat_key (i : nat) : string := NilZero.string_of_uint (Nat.to_uint i).

(** ** Objects as ordered property lists *)

Definition Fields := list (string * JSON).

Fixpoint lookup (k : string) (fs : Fields) : option JSON :=
  match fs with
  | [] => None
  | (k', v) :: rest => if String.eqb k k' then Some v else lookup k rest
  end.

(** [o[k] = v]: an existing property keeps its place, a new one goes last. *)
Fixpoint set_field (k : string) (v : JSON) (fs : Fields) : Fields :=
  match fs with
  | [] => [(k, v)]
  | (k', v') :: rest =>
      if String.eqb k k' then (k, v) :: rest else (k', v') :: set_field k v rest
  end.

(** [delete o[k]] *)
Fixpoint delete_field (k : string) (fs : Fields) : Fields :=
  match fs with
  | [] => []
  | (k', v') :: rest =>
      if String.eqb k k' then delete_field k rest else (k', v') :: delete_field k rest
  end.

Fixpoint indexed_from {A : Type} (i : nat) (l : list A) : list (string * A) :=
  match l with
  | [] => []
  | x :: rest => (nat_key i, x) :: indexed_from (S i) rest
  end.

Definition indexed {A : Type} (l : list A) : list (string * A) := indexed_from 0 l.

Fixpoint chars (s : string) : list JSON :=
  match s with
  | EmptyString => []
  | String c rest => JStr (String c EmptyString) :: chars rest
  end.

(** [Object.entries(v)], also what [{...v}] copies. *)
Definition entries (v : JSON) : Fields :=
  match v with
  | JObj fs => fs
  | JArr items => indexed items
  | JStr s => indexed (chars s)
  | _ => []
  end.

Definition keys (v : JSON) : list string := map fst (entries v).

(** [v.k] for a value that is not [null]; [None] is [undefined]. *)
Definition get (v : JSON) (k : string) : option JSON :=
  match v with
  | JObj fs => lookup k fs
  | JArr items =>
      if String.eqb k "length" then Some (JNum (nat_key (List.length items)))
      else lookup k (indexed items)
  | JStr s =>
      if String.eqb k "length" then Some (JNum (nat_key (String.length s)))
      else lookup k (indexed (chars s))
  | _ => None
  end.

(** [v.k] where [v] may be [null]: reading a property of [null] throws. *)
Definition get_or_throw (v : JSON) (k : string) : Completion (option JSON) :=
  match v with
  | JNull => Throw
  | _ => Normal (get v k)
  end.

(** [{...o, k: v}] and [delete o.k] on values. *)
Definition obj_set (k : string) (v : JSON) (o : JSON) : JSON :=
  JObj (set_field k v (entries o)).

Definition obj_delete (k : string) (o : JSON) : JSON :=
  JObj (delete_field k (entries o)).

(** [{...base, ...v}] *)
Definition spread_into (base : Fields) (v : JSON) : Fields :=
  fold_left (fun acc kv => set_field (fst kv) (snd kv) acc) (entries v) base.

Definition truthy (v : JSON) : bool :=
  match v with
  | JNull => false
  | JBool b => b
  | JNum r => negb (String.eqb r "0" || String.eqb r "NaN")
  | JStr s => nonempty s
  | JArr _ | JObj _ => true
  end.

Definition truthy_opt (o : option JSON) : bool :=
  match o with Some v => truthy v | None => false end.

(** [typeof v === "object" && v !== null] *)
Definition is_object (v : JSON) : bool :=
  match v with JArr _ | JObj _ => true | _ => false end.

(** [String(v)], which is also how a template literal, [string + v] and a
    property key render [v].  An object is rendered by its [toString]
    method, the inherited one unless the object has an own property of
    that name; a value of JSON is never callable, so with such a property
    the conversion finds no method and throws a TypeError.  An array is
    rendered by joining its elements, [null] as the empty string. *)
Fixpoint to_String (v : JSON) : Completion string :=
  match v with
  | JNull => Normal "null"
  | JBool true => Normal "true"
  | JBool false => Normal "false"
  | JNum r => Normal r
  | JStr s => Normal s
  | JArr items =>
      strs <- (fix each (l : list JSON) : Completion (list string) :=
                 match l with
                 | [] => Normal []
                 | x :: rest =>
                     s <- match x with
                          | JNull => Normal EmptyString
                          | _ => to_String x
                          end ;;
                     ss <- each rest ;;
                     Normal (s :: ss)
                 end) items ;;
      Normal (String.concat "," strs)
  | JObj fs =>
      match lookup "toString" fs with
      | Some _ => Throw
      | None => Normal "[object Object]"
      end
  end.

(** The rendering of an element by [join]. *)
Definition join_element (x : JSON) : Completion string :=
  match x with
  | JNull => Normal EmptyString
  | _ => to_String x
  end.

(** [items.join(sep)]: [null] renders as the empty string. *)
Definition join (sep : string) (items : list JSON) : Completion string :=
  strs <- mapM join_element items ;;
  Normal (String.concat sep strs).

(** SameValueZero, the equality of [Set] and [includes].  Two objects are
    the same only when they are one object; the values compared here come
    from different places of a tree, so objects are never the same. *)
Definition same_value_zero (a b : JSON) : bool :=
  match a, b with
  | JNull, JNull => true
  | JBool x, JBool y => Bool.eqb x y
  | JNum x, JNum y => String.eqb x y
  | JStr x, JStr y => String.eqb x y
  | _, _ => false
  end.

(** [Array.from(new Set(l))]: first occurrences, in order. *)
Fixpoint dedupe_acc (seen : list JSON) (l : list JSON) : list JSON :=
  match l with
  | [] => []
  | x :: rest =>
      if existsb (same_value_zero x) seen then dedupe_acc seen rest
      else x :: dedupe_acc (x :: seen) rest
  end.

Definition dedupe (l : list JSON) : list JSON := dedupe_acc [] l.

(** [[...v]] for a truthy [v]: arrays and strings are iterable. *)
Definition iterate (v : JSON) : Completion (list JSON) :=
  match v with
  | JArr items => Normal items
  | JStr s => Normal (chars s)
  | _ => Throw
  end.

(** [Object.prototype.hasOwnProperty.call(o, k)] for an object or array. *)
Definition hasOwnProperty (o : JSON) (k : string) : bool :=
  match o with
  | JArr _ => String.eqb k "length" || existsb (String.eqb k) (keys o)
  | _ => existsb (String.eqb k) (keys o)
  end.

End JS.

(* ================================================================== *)
(** * schema-cleaner.ts *)
(* ================================================================== *)

Module SchemaCleaner.
Import JS.

Definition EMPTY_SCHEMA_PLACEHOLDER_NAME : string := "_placeholder".
Definition EMPTY_SCHEMA_PLACEHOLDER_DESCRIPTION : string := "Placeholder. Always pass true.".

Definition UNSUPPORTED_CONSTRAINTS : list string :=
  [ "minLength"; "maxLength"; "minimum"; "maximum"; "exclusiveMinimum";
    "exclusiveMaximum"; "multipleOf"; "minItems"; "maxItems"; "uniqueItems";
    "minProperties"; "maxProperties"; "pattern"; "format" ].

Definition UNSUPPORTED_KEYWORDS : list string :=
  UNSUPPORTED_CONSTRAINTS ++
  [ "$schema"; "$defs"; "definitions"; "$ref"; "$id"; "$comment"; "const";
    "additionalProperties"; "title"; "default"; "examples"; "readOnly";
    "writeOnly"; "contentEncoding"; "contentMediaType"; "if"; "then"; "else";
    "not"; "dependentSchemas"; "dependentRequired"; "patternProperties";
    "propertyNames"; "unevaluatedProperties"; "unevaluatedItems";
    "minContains"; "maxContains" ].

(** [typeof schema.description === "string" ? schema.description : ""] *)
Definition description_of (schema : JSON) : string :=
  match get schema "description" with
  | Some (JStr d) => d
  | _ => EmptyString
  end.

Definition appendDescriptionHint (schema : JSON) (hint : string) : JSON :=
  let currentDesc := description_of schema in
  let formattedHint := "(" ++ hint ++ ")" in
  if includes currentDesc formattedHint then schema
  else
    obj_set "description"
      (JStr (if nonempty currentDesc
             then currentDesc ++ " " ++ formattedHint
             else formattedHint))
      schema.

(** ** The common skeleton of the tree walkers

    Ten phases share one body: a value that is not an object is returned
    as it is, an array is mapped, and an object is copied, edited at the
    node, and then every property of the edited copy whose value is an
    object or an array is replaced by the phase applied to it.  [walk] is
    that body; [edit] is the part between the copy and the final loop, and
    receives the phase itself for the two phases that call it there. *)

Section Walk.
Variable edit : (JSON -> Completion JSON) -> JSON -> Completion JSON.

Definition map_children (self : JSON -> Completion JSON) (fs : Fields)
  : Completion Fields :=
  mapM (fun kv =>
          if is_object (snd kv)
          then v' <- self (snd kv) ;; Normal (fst kv, v')
          else Normal kv) fs.

Fixpoint walk (fuel : nat) (schema : JSON) {struct fuel} : Completion JSON :=
  match schema with
  | JArr items =>
      match fuel with
      | 0 => OutOfFuel
      | S fuel' => items' <- mapM (walk fuel') items ;; Normal (JArr items')
      end
  | JObj _ =>
      match fuel with
      | 0 => OutOfFuel
      | S fuel' =>
          result <- edit (walk fuel') schema ;;
          fs <- map_children (walk fuel') (entries result) ;;
          Normal (JObj fs)
      end
  | _ => Normal schema
  end.
End Walk.

(** An edit that does not call the phase, and one that does not throw
    either. *)
Definition node_edit (f : JSON -> Completion JSON)
  : (JSON -> Completion JSON) -> JSON -> Completion JSON :=
  fun _ result => f result.

Definition pure_edit (f : JSON -> JSON)
  : (JSON -> Completion JSON) -> JSON -> Completion JSON :=
  fun _ result => Normal (f result).

(** ** Phase 1: hints *)

Definition or_default (o : option JSON) (d : JSON) : JSON :=
  match o with
  | Some v => if truthy v then v else d
  | None => d
  end.

Definition convertRefsToHints_node (result : JSON) : JSON :=
  match get result "$ref" with
  | Some (JStr ref) =>
      let seg := last_segment "/"%char ref in
      let refName := if nonempty seg then seg else "ref" in
      let result := obj_delete "$ref" result in
      let result := obj_set "type" (or_default (get result "type") (JStr "object")) result in
      appendDescriptionHint result ("See: " ++ refName)
  | _ => result
  end.

Definition convertRefsToHints : nat -> JSON -> Completion JSON :=
  walk (pure_edit convertRefsToHints_node).

Definition convertConstToEnum_node (result : JSON) : Completion JSON :=
  match get result "const" with
  | Some c =>
      s <- to_String c ;;
      let result := obj_set "enum" (JArr [JStr s]) result in
      let result := obj_set "type" (or_default (get result "type") (JStr "string")) result in
      Normal (obj_delete "const" result)
  | None => Normal result
  end.

Definition convertConstToEnum : nat -> JSON -> Completion JSON :=
  walk (node_edit convertConstToEnum_node).

Definition addEnumHints_node (result : JSON) : Completion JSON :=
  match get result "enum" with
  | Some (JArr ((_ :: _) as enum)) =>
      values <- join ", " (firstn 10 enum) ;;
      let suffix := if 10 <? List.length enum then ", ..." else EmptyString in
      Normal (appendDescriptionHint result ("Allowed: " ++ values ++ suffix))
  | _ => Normal result
  end.

Definition addEnumHints : nat -> JSON -> Completion JSON :=
  walk (node_edit addEnumHints_node).

Definition addAdditionalPropertiesHints_node (result : JSON) : JSON :=
  match get result "additionalProperties" with
  | Some (JBool false) => appendDescriptionHint result "no extra properties"
  | _ => result
  end.

Definition addAdditionalPropertiesHints : nat -> JSON -> Completion JSON :=
  walk (pure_edit addAdditionalPropertiesHints_node).

(** The loop [for (const constraint of UNSUPPORTED_CONSTRAINTS)]. *)
Fixpoint move_constraints (constraints : list string) (result : JSON) : Completion JSON :=
  match constraints with
  | [] => Normal result
  | constraint :: rest =>
      match get result constraint with
      | Some v =>
          s <- to_String v ;;
          move_constraints rest (appendDescriptionHint result (constraint ++ ": " ++ s))
      | None => move_constraints rest result
      end
  end.

Definition moveConstraintsToDescription_node (result : JSON) : Completion JSON :=
  move_constraints UNSUPPORTED_CONSTRAINTS result.

Definition moveConstraintsToDescription : nat -> JSON -> Completion JSON :=
  walk (node_edit moveConstraintsToDescription_node).

(** ** Phase 2: flattening *)

(** The loop [for (const sub of result.allOf)] with its two accumulators. *)
Fixpoint merge_subs (self : JSON -> Completion JSON) (subs : list JSON)
    (merged : JSON) (allRequired : list JSON) : Completion (JSON * list JSON) :=
  match subs with
  | [] => Normal (merged, allRequired)
  | sub :: rest =>
      processed <- self sub ;;
      properties <- get_or_throw processed "properties" ;;
      let merged :=
        match properties with
        | Some p =>
            if truthy p
            then obj_set "properties"
                   (JObj (spread_into
                            (match get merged "properties" with
                             | Some mp => entries mp
                             | None => []
                             end) p))
                   merged
            else merged
        | None => merged
        end in
      let allRequired :=
        match get processed "required" with
        | Some (JArr required) => (allRequired ++ required)%list
        | _ => allRequired
        end in
      let merged :=
        match get processed "type" with
        | Some t =>
            if negb (truthy_opt (get merged "type")) && truthy t
            then obj_set "type" t merged
            else merged
        | None => merged
        end in
      let merged :=
        match get processed "description" with
        | Some d =>
            if truthy d && negb (truthy_opt (get merged "description"))
            then obj_set "description" d merged
            else merged
        | None => merged
        end in
      merge_subs self rest merged allRequired
  end.

Definition mergeAllOf_node (self : JSON -> Completion JSON) (result : JSON)
  : Completion JSON :=
  match get result "allOf" with
  | Some (JArr ((_ :: _) as allOf)) =>
      st <- merge_subs self allOf (JObj []) [] ;;
      let merged := fst st in
      let allRequired := snd st in
      let rest := obj_delete "allOf" result in
      let result := JObj (spread_into (entries rest) merged) in
      match allRequired with
      | [] => Normal result
      | _ :: _ =>
          existing <- match get result "required" with
                      | Some required =>
                          if truthy required then iterate required else Normal []
                      | None => Normal []
                      end ;;
          Normal (obj_set "required" (JArr (dedupe (existing ++ allRequired)%list)) result)
      end
  | _ => Normal result
  end.

Definition mergeAllOf : nat -> JSON -> Completion JSON := walk mergeAllOf_node.

Definition is_string (o : option JSON) (s : string) : bool :=
  match o with
  | Some (JStr t) => String.eqb t s
  | _ => false
  end.

Definition scoreSchemaOption (schema : JSON) : Z * JSON :=
  if negb (is_object schema) then (0%Z, JStr "unknown")
  else
    let type := get schema "type" in
    if is_string type "object" || truthy_opt (get schema "properties")
    then (3%Z, JStr "object")
    else if is_string type "array" || truthy_opt (get schema "items")
    then (2%Z, JStr "array")
    else
      match type with
      | Some t =>
          if truthy t && negb (is_string type "null") then (1%Z, t)
          else (0%Z, or_default type (JStr "null"))
      | None => (0%Z, JStr "null")
      end.

(** The body of the loop of [tryMergeEnumFromUnion]. *)
Fixpoint collect_enum (options : list JSON) (enumValues : list string)
  : Completion (option (list string)) :=
  match options with
  | [] => Normal (Some enumValues)
  | option :: rest =>
      if negb (is_object option) then Normal None
      else
        match get option "const" with
        | Some c =>
            s <- to_String c ;;
            collect_enum rest (enumValues ++ [s])%list
        | None =>
            match get option "enum" with
            | Some (JArr ((_ :: _) as enum)) =>
                strs <- mapM to_String enum ;;
                collect_enum rest (enumValues ++ strs)%list
            | _ =>
                if truthy_opt (get option "properties")
                   || truthy_opt (get option "items")
                   || truthy_opt (get option "anyOf")
                   || truthy_opt (get option "oneOf")
                   || truthy_opt (get option "allOf")
                then Normal None
                else if truthy_opt (get option "type")
                        && negb (truthy_opt (get option "const"))
                        && negb (truthy_opt (get option "enum"))
                then Normal None
                else collect_enum rest enumValues
            end
        end
  end.

Definition tryMergeEnumFromUnion (options : list JSON)
  : Completion (option (list string)) :=
  match options with
  | [] => Normal None
  | _ :: _ =>
      collected <- collect_enum options [] ;;
      match collected with
      | Some ((_ :: _) as enumValues) => Normal (Some enumValues)
      | _ => Normal None
      end
  end.

(** The selection loop: index [i], best index and score so far, types seen. *)
Fixpoint select_best (options : list JSON) (i bestIdx : nat) (bestScore : Z)
    (allTypes : list JSON) : nat * list JSON :=
  match options with
  | [] => (bestIdx, allTypes)
  | option :: rest =>
      let st := scoreSchemaOption option in
      let score := fst st in
      let typeName := snd st in
      let allTypes := if truthy typeName then (allTypes ++ [typeName])%list else allTypes in
      if (bestScore <? score)%Z
      then select_best rest (S i) i score allTypes
      else select_best rest (S i) bestIdx bestScore allTypes
  end.

(** One round of the loop over [["anyOf", "oneOf"]]. *)
Definition flatten_union (self : JSON -> Completion JSON) (unionKey : string)
    (result : JSON) : Completion JSON :=
  match get result unionKey with
  | Some (JArr ((_ :: _) as options)) =>
      let parentDesc := description_of result in
      merged <- tryMergeEnumFromUnion options ;;
      match merged with
      | Some mergedEnum =>
          let rest := obj_delete unionKey result in
          let result :=
            obj_set "enum" (JArr (map JStr mergedEnum))
              (obj_set "type" (JStr "string") rest) in
          Normal (if nonempty parentDesc
                  then obj_set "description" (JStr parentDesc) result
                  else result)
      | None =>
          let st := select_best options 0 0 (-1)%Z [] in
          let bestIdx := fst st in
          let allTypes := snd st in
          flattened <- self (nth bestIdx options JNull) ;;
          let selected :=
            if truthy flattened then flattened else JObj [("type", JStr "string")] in
          let selected :=
            if nonempty parentDesc then
              let childDesc := description_of selected in
              if nonempty childDesc && negb (String.eqb childDesc parentDesc)
              then obj_set "description"
                     (JStr (parentDesc ++ " (" ++ childDesc ++ ")")) selected
              else if negb (nonempty childDesc)
              then obj_set "description" (JStr parentDesc) selected
              else selected
            else selected in
          selected <-
            (if 1 <? List.length allTypes
             then types <- join " | " (dedupe allTypes) ;;
                  Normal (appendDescriptionHint selected ("Accepts: " ++ types))
             else Normal selected) ;;
          let rest := obj_delete "description" (obj_delete unionKey result) in
          Normal (JObj (spread_into (entries rest) selected))
      end
  | _ => Normal result
  end.

Definition flattenAnyOfOneOf_node (self : JSON -> Completion JSON) (result : JSON)
  : Completion JSON :=
  result <- flatten_union self "anyOf" result ;;
  flatten_union self "oneOf" result.

Definition flattenAnyOfOneOf : nat -> JSON -> Completion JSON :=
  walk flattenAnyOfOneOf_node.

Definition flattenTypeArrays_node (result : JSON) : Completion JSON :=
  match get result "type" with
  | Some (JArr types) =>
      let hasNull := existsb (same_value_zero (JStr "null")) types in
      let nonNullTypes :=
        filter (fun t => negb (is_string (Some t) "null") && truthy t) types in
      let result :=
        obj_set "type"
          (match nonNullTypes with t :: _ => t | [] => JStr "string" end) result in
      result <-
        (if 1 <? List.length nonNullTypes
         then accepted <- join " | " nonNullTypes ;;
              Normal (appendDescriptionHint result ("Accepts: " ++ accepted))
         else Normal result) ;;
      Normal (if hasNull then appendDescriptionHint result "nullable" else result)
  | _ => Normal result
  end.

Definition flattenTypeArrays : nat -> JSON -> Completion JSON :=
  walk (node_edit flattenTypeArrays_node).

(** ** Phase 3: cleanup *)

Definition is_unsupported (key : string) : bool :=
  existsb (String.eqb key) UNSUPPORTED_KEYWORDS.

Fixpoint removeUnsupportedKeywords (schema : JSON) (insideProperties : bool) : JSON :=
  match schema with
  | JArr items => JArr (map (fun item => removeUnsupportedKeywords item false) items)
  | JObj fs =>
      JObj
        ((fix loop (fs : Fields) : Fields :=
            match fs with
            | [] => []
            | (key, value) :: rest =>
                if negb insideProperties && is_unsupported key then loop rest
                else
                  (key,
                   match value with
                   | JObj props =>
                       if String.eqb key "properties"
                       then JObj (map (fun kv =>
                                         (fst kv, removeUnsupportedKeywords (snd kv) false))
                                    props)
                       else removeUnsupportedKeywords value false
                   | JArr props =>
                       if String.eqb key "properties"
                       then JObj (indexed
                                    (map (fun v => removeUnsupportedKeywords v false) props))
                       else removeUnsupportedKeywords value false
                   | _ => value
                   end) :: loop rest
            end) fs)
  | _ => schema
  end.

Definition to_property_key (v : JSON) : Completion string := to_String v.

(** [required.filter((req) => hasOwnProperty.call(properties, req))] *)
Fixpoint own_required (properties : JSON) (required : list JSON)
  : Completion (list JSON) :=
  match required with
  | [] => Normal []
  | req :: rest =>
      key <- to_property_key req ;;
      valid <- own_required properties rest ;;
      Normal (if hasOwnProperty properties key then req :: valid else valid)
  end.

Definition cleanupRequiredFields_node (result : JSON) : Completion JSON :=
  match get result "required", get result "properties" with
  | Some (JArr required), Some properties =>
      if is_object properties then
        validRequired <- own_required properties required ;;
        match validRequired with
        | [] => Normal (obj_delete "required" result)
        | _ :: _ =>
            if negb (List.length validRequired =? List.length required)
            then Normal (obj_set "required" (JArr validRequired) result)
            else Normal result
        end
      else Normal result
  | _, _ => Normal result
  end.

Definition cleanupRequiredFields : nat -> JSON -> Completion JSON :=
  walk (node_edit cleanupRequiredFields_node).

(** ** Phase 4: placeholder for empty objects *)

Definition addEmptySchemaPlaceholder_node (result : JSON) : JSON :=
  let isObjectType :=
    is_string (get result "type") "object" || is_string (get result "type") "OBJECT" in
  if isObjectType then
    let hasProperties :=
      match get result "properties" with
      | Some properties =>
          is_object properties && (0 <? List.length (keys properties))
      | None => false
      end in
    if negb hasProperties then
      let result :=
        obj_set "properties"
          (JObj [(EMPTY_SCHEMA_PLACEHOLDER_NAME,
                  JObj [("type", JStr "BOOLEAN");
                        ("description", JStr EMPTY_SCHEMA_PLACEHOLDER_DESCRIPTION)])])
          result in
      obj_set "required" (JArr [JStr EMPTY_SCHEMA_PLACEHOLDER_NAME]) result
    else result
  else result.

Definition addEmptySchemaPlaceholder : nat -> JSON -> Completion JSON :=
  walk (pure_edit addEmptySchemaPlaceholder_node).

(** ** Phase 5: the Gemini dialect *)

(** [propertyNames] of a node: the keys of its [properties] object. *)
Definition property_names (fs : Fields) : list string :=
  match lookup "properties" fs with
  | Some properties => if is_object properties then keys properties else []
  | None => []
  end.

Definition is_union_key (key : string) : bool :=
  String.eqb key "anyOf" || String.eqb key "oneOf" || String.eqb key "allOf".

(** The [required] entries that are strings naming a property. *)
Definition valid_required (propertyNames : list string) (value : list JSON) : list JSON :=
  filter (fun prop =>
            match prop with
            | JStr s => existsb (String.eqb s) propertyNames
            | _ => false
            end) value.

Fixpoint toGeminiFormat (schema : JSON) : JSON :=
  match schema with
  | JArr items => JArr (map toGeminiFormat items)
  | JObj fs =>
      let propertyNames := property_names fs in
      let result :=
        (fix loop (fs : Fields) : Fields :=
           match fs with
           | [] => []
           | (key, value) :: rest =>
               match value with
               | JStr s =>
                   if String.eqb key "type" then (key, JStr (toUpperCase s)) :: loop rest
                   else (key, value) :: loop rest
               | JObj props =>
                   if String.eqb key "properties"
                   then (key, JObj (map (fun kv => (fst kv, toGeminiFormat (snd kv))) props))
                          :: loop rest
                   else if String.eqb key "items"
                   then (key, toGeminiFormat value) :: loop rest
                   else (key, value) :: loop rest
               | JArr elems =>
                   if String.eqb key "properties"
                   then (key, JObj (indexed (map toGeminiFormat elems))) :: loop rest
                   else if String.eqb key "items"
                   then (key, toGeminiFormat value) :: loop rest
                   else if is_union_key key
                   then (key, JArr (map toGeminiFormat elems)) :: loop rest
                   else if String.eqb key "required" then
                     match propertyNames with
                     | _ :: _ =>
                         match valid_required propertyNames elems with
                         | [] => loop rest
                         | validRequired => (key, JArr validRequired) :: loop rest
                         end
                     | [] => (key, value) :: loop rest
                     end
                   else (key, value) :: loop rest
               | _ => (key, value) :: loop rest
               end
           end) fs in
      if is_string (lookup "type" result) "ARRAY" && negb (truthy_opt (lookup "items" result))
      then JObj (set_field "items" (JObj [("type", JStr "STRING")]) result)
      else JObj result
  | _ => schema
  end.

(** ** Entry point *)

Definition cleanSchema (fuel : nat) (schema : JSON) : Completion JSON :=
  if negb (truthy schema) || negb (is_object schema)
  then Normal (JObj [("type", JStr "STRING")])
  else
    result <- convertRefsToHints fuel schema ;;
    result <- convertConstToEnum fuel result ;;
    result <- addEnumHints fuel result ;;
    result <- addAdditionalPropertiesHints fuel result ;;
    result <- moveConstraintsToDescription fuel result ;;
    result <- mergeAllOf fuel result ;;
    result <- flattenAnyOfOneOf fuel result ;;
    result <- flattenTypeArrays fuel result ;;
    let result := removeUnsupportedKeywords result false in
    result <- cleanupRequiredFields fuel result ;;
    result <- addEmptySchemaPlaceholder fuel result ;;
    Normal (toGeminiFormat result).

End SchemaCleaner.

(* ================================================================== *)
(** * openai-to-gemini.ts *)
(* ================================================================== *)

Module RequestTransformer.
Import JS SchemaCleaner.

(** ** types.ts: the public protocol *)

Record OpenAIContentPart := {
  part_type : string;
  part_text : option string
}.

Inductive MessageContent :=
| ContentNull
| ContentString (s : string)
| ContentParts (parts : list OpenAIContentPart).

Record OpenAIToolCall := {
  call_id : string;
  call_type : string;
  call_name : string;         (* function.name *)
  call_arguments : string     (* function.arguments *)
}.

Record OpenAIMessage := {
  msg_role : string;
  msg_content : MessageContent;
  msg_name : option string;
  msg_tool_calls : option (list OpenAIToolCall);
  msg_tool_call_id : option string
}.

Record OpenAITool := {
  tool_type : string;
  tool_name : string;                  (* function.name *)
  tool_description : option string;    (* function.description *)
  tool_parameters : option JSON        (* function.parameters *)
}.

Inductive ToolChoice :=
| ChoiceMode (mode : string)
| ChoiceObject (type : string) (name : string).

Inductive StopSpec :=
| StopString (s : string)
| StopList (l : list string).

Record OpenAIRequest := {
  req_model : string;
  req_messages : list OpenAIMessage;
  req_tools : option (list OpenAITool);
  req_tool_choice : option ToolChoice;
  req_max_tokens : option Z;
  req_temperature : option JSNumber;
  req_top_p : option JSNumber;
  req_stop : option StopSpec
}.

(** ** types.ts: the internal protocol *)

(** [{content: msg.content}] or the parsed body of a tool result. *)
Inductive ToolResponse :=
| ResponseParsed (v : JSON)
| ResponseContent (content : MessageContent).

Inductive AntigravityPart :=
| PartText (text : string)
| PartFunctionCall (name : string) (args : JSON)
| PartFunctionResponse (name : string) (response : ToolResponse).

Inductive Role := RoleUser | RoleModel | RoleSystem.

Definition Role_eqb (a b : Role) : bool :=
  match a, b with
  | RoleUser, RoleUser | RoleModel, RoleModel | RoleSystem, RoleSystem => true
  | _, _ => false
  end.

Record AntigravityContent := {
  role : Role;
  parts : list AntigravityPart
}.

Record FunctionDeclaration := {
  decl_name : string;
  decl_description : option string;
  decl_parameters : JSON
}.

Record AntigravityTool := {
  functionDeclarations : list FunctionDeclaration
}.

Inductive Mode := ANY | NONE | AUTO.

Record FunctionCallingConfig := {
  mode : Mode;
  allowedFunctionNames : option (list string)
}.

Record ToolConfig := {
  functionCallingConfig : option FunctionCallingConfig
}.

Record ThinkingConfig := {
  includeThoughts : bool;
  thinkingLevel : option string;
  thinkingBudget : option Z
}.

Record GenerationConfig := {
  temperature : option JSNumber;
  maxOutputTokens : option Z;
  topP : option JSNumber;
  stopSequences : option (list string);
  candidateCount : Z;
  thinkingConfig : option ThinkingConfig
}.

Record AntigravityRequest := {
  contents : list AntigravityContent;
  systemInstruction : option (list AntigravityPart);
  tools : option (list AntigravityTool);
  toolConfig : option ToolConfig;
  generationConfig : GenerationConfig
}.

Section Transform.
(** [JSON.parse]: [None] when it throws a [SyntaxError]. *)
Variable JSON_parse : string -> option JSON.

(** The text parts of [msg.content]. *)
Definition content_parts (content : MessageContent) : list AntigravityPart :=
  match content with
  | ContentNull => []
  | ContentString s => if nonempty s then [PartText s] else []
  | ContentParts ps =>
      flat_map
        (fun part =>
           match part_text part with
           | Some text =>
               if String.eqb (part_type part) "text" && nonempty text
               then [PartText text] else []
           | None => []
           end) ps
  end.

(** The function calls of an assistant message. *)
Definition tool_call_parts (calls : list OpenAIToolCall) : list AntigravityPart :=
  flat_map
    (fun call =>
       if String.eqb (call_type call) "function" then
         match JSON_parse (call_arguments call) with
         | Some args => [PartFunctionCall (call_name call) args]
         | None => [PartFunctionCall (call_name call) (JObj [])]
         end
       else []) calls.

Definition string_truthy (o : option string) : bool :=
  match o with Some s => nonempty s | None => false end.

Definition transformMessage (msg : OpenAIMessage) : option AntigravityContent :=
  let parts := content_parts (msg_content msg) in
  let parts :=
    match msg_tool_calls msg with
    | Some calls =>
        if String.eqb (msg_role msg) "assistant"
        then (parts ++ tool_call_parts calls)%list
        else parts
    | None => parts
    end in
  if String.eqb (msg_role msg) "tool" && string_truthy (msg_tool_call_id msg) then
    let name :=
      match msg_name msg with
      | Some n => if nonempty n then n else "unknown_tool"
      | None => "unknown_tool"
      end in
    let responseObj :=
      match msg_content msg with
      | ContentString s =>
          match JSON_parse s with
          | Some v => ResponseParsed v
          | None => ResponseContent (msg_content msg)
          end
      | _ => ResponseContent (msg_content msg)
      end in
    Some {| role := RoleUser;
            parts := (parts ++ [PartFunctionResponse name responseObj])%list |}
  else
    let role :=
      if String.eqb (msg_role msg) "system" then RoleSystem
      else if String.eqb (msg_role msg) "assistant" then RoleModel
      else RoleUser in
    match parts with
    | [] => None
    | _ :: _ => Some {| role := role; parts := parts |}
    end.

(** The body of the loop over the messages: the node is merged into the
    last content when the roles agree, and appended otherwise. *)
Fixpoint push_content (contents : list AntigravityContent) (content : AntigravityContent)
  : list AntigravityContent :=
  match contents with
  | [] => [content]
  | [last] =>
      if Role_eqb (role last) (role content)
      then [{| role := role last; parts := (parts last ++ parts content)%list |}]
      else [last; content]
  | c :: rest => c :: push_content rest content
  end.

Definition transform_messages (messages : list OpenAIMessage)
  : list AntigravityContent :=
  fold_left
    (fun contents msg =>
       if String.eqb (msg_role msg) "system" then contents
       else
         match transformMessage msg with
         | Some content => push_content contents content
         | None => contents
         end)
    messages [].

Definition extractText (content : MessageContent) : string :=
  match content with
  | ContentNull => EmptyString
  | ContentString s => s
  | ContentParts ps =>
      String.concat (String LF EmptyString)
        (map (fun p => match part_text p with Some t => t | None => EmptyString end) ps)
  end.

Definition transformTools (fuel : nat) (tools : list OpenAITool)
  : Completion (list AntigravityTool) :=
  declarations <-
    mapM (fun tool =>
            parameters <- match tool_parameters tool with
                          | Some schema => cleanSchema fuel schema
                          | None => cleanSchema fuel JNull
                          end ;;
            Normal {| decl_name := tool_name tool;
                      decl_description := tool_description tool;
                      decl_parameters := parameters |})
      (filter (fun tool => String.eqb (tool_type tool) "function") tools) ;;
  match declarations with
  | [] => Normal []
  | _ :: _ => Normal [{| functionDeclarations := declarations |}]
  end.

Definition transform_tool_choice (choice : ToolChoice) : ToolConfig :=
  match choice with
  | ChoiceMode m =>
      if String.eqb m "auto"
      then {| functionCallingConfig :=
                Some {| mode := AUTO; allowedFunctionNames := None |} |}
      else if String.eqb m "none"
      then {| functionCallingConfig :=
                Some {| mode := NONE; allowedFunctionNames := None |} |}
      else if String.eqb m "required"
      then {| functionCallingConfig :=
                Some {| mode := ANY; allowedFunctionNames := None |} |}
      else {| functionCallingConfig := None |}
  | ChoiceObject type name =>
      if String.eqb type "function"
      then {| functionCallingConfig :=
                Some {| mode := ANY; allowedFunctionNames := Some [name] |} |}
      else {| functionCallingConfig := None |}
  end.

Definition isThinkingModel (lowerModel : string) : bool :=
  includes lowerModel "thinking"
  || includes lowerModel "gemini-3"
  || includes lowerModel "opus".

(** [!maxOutputTokens || maxOutputTokens < 8192] *)
Definition low_token_limit (maxOutputTokens : option Z) : bool :=
  match maxOutputTokens with
  | None => true
  | Some n => (n =? 0)%Z || (n <? 8192)%Z
  end.

Definition generation_config (request : OpenAIRequest) : GenerationConfig :=
  let config :=
    {| temperature := req_temperature request;
       maxOutputTokens := req_max_tokens request;
       topP := req_top_p request;
       stopSequences :=
         match req_stop request with
         | Some (StopList l) => Some l
         | Some (StopString s) => if nonempty s then Some [s] else None
         | None => None
         end;
       candidateCount := 1%Z;
       thinkingConfig := None |} in
  let lowerModel := toLowerCase (req_model request) in
  let isGemini3 := includes lowerModel "gemini-3" in
  let isGemini25 := includes lowerModel "gemini-2.5" in
  if isThinkingModel lowerModel then
    let thinking :=
      if isGemini3
      then {| includeThoughts := true; thinkingLevel := Some "medium";
              thinkingBudget := None |}
      else if isGemini25
      then {| includeThoughts := true; thinkingLevel := None;
              thinkingBudget := Some 16000%Z |}
      else {| includeThoughts := true; thinkingLevel := None;
              thinkingBudget := Some 16000%Z |} in
    {| temperature := temperature config;
       maxOutputTokens :=
         if low_token_limit (maxOutputTokens config) then Some 65535%Z
         else maxOutputTokens config;
       topP := topP config;
       stopSequences := stopSequences config;
       candidateCount := candidateCount config;
       thinkingConfig := Some thinking |}
  else config.

Definition transformRequest (fuel : nat) (request : OpenAIRequest)
  : Completion AntigravityRequest :=
  let systemInstruction :=
    match find (fun m => String.eqb (msg_role m) "system") (req_messages request) with
    | Some systemMessage => Some [PartText (extractText (msg_content systemMessage))]
    | None => None
    end in
  let contents := transform_messages (req_messages request) in
  tools <- match req_tools request with
           | Some ((_ :: _) as tools) =>
               ts <- transformTools fuel tools ;; Normal (Some ts)
           | _ => Normal None
           end ;;
  let toolConfig :=
    match req_tool_choice request with
    | Some (ChoiceMode EmptyString) => None
    | Some choice => Some (transform_tool_choice choice)
    | None => None
    end in
  Normal {| contents := contents;
            systemInstruction := systemInstruction;
            tools := tools;
            toolConfig := toolConfig;
            generationConfig := generation_config request |}.
End Transform.

End RequestTransformer.

(* ================================================================== *)
(** * gemini-to-openai.ts *)
(* ================================================================== *)

Module ResponseTransformer.
Import JS.

(** [reason] is [candidate?.finishReason]: any value, or [undefined]. *)
Definition mapFinishReason (reason : option JSON) : option string :=
  match reason with
  | Some (JStr r) =>
      if String.eqb r "STOP" then Some "stop"
      else if String.eqb r "MAX_TOKENS" then Some "length"
      else if String.eqb r "SAFETY" then Some "content_filter"
      else if String.eqb r "RECITATION" then Some "content_filter"
      else if String.eqb r "OTHER" then Some "stop"
      else Some "stop"
  | _ => Some "stop"
  end.

End ResponseTransformer.

(* ================================================================== *)
(** * streaming.ts *)
(* ================================================================== *)

Module Streaming.
Import JS.

(** ** SSE parser *)

(** [Partial<SSEParsedEvent>]; [retry] is never written. *)
Record SSEParsedEvent := {
  event : option string;
  data : option string;
  id : option string
}.

Definition empty_event : SSEParsedEvent :=
  {| event := None; data := None; id := None |}.

(** [chunk.split(/\r?\n/)]; [cur] is the line being read. *)
Fixpoint split_lines (chunk : string) (cur : string) : list string :=
  match chunk with
  | EmptyString => [cur]
  | String c rest =>
      if Ascii.eqb c LF then cur :: split_lines rest EmptyString
      else
        match rest with
        | String d rest' =>
            if Ascii.eqb c CR && Ascii.eqb d LF
            then cur :: split_lines rest' EmptyString
            else split_lines rest (cur ++ String c EmptyString)
        | EmptyString => split_lines rest (cur ++ String c EmptyString)
        end
  end.

Definition data_truthy (e : SSEParsedEvent) : bool :=
  match data e with Some d => nonempty d | None => false end.

(** One iteration of the loop over the lines. *)
Definition parse_line (st : list SSEParsedEvent * SSEParsedEvent) (line : string)
  : list SSEParsedEvent * SSEParsedEvent :=
  let events := fst st in
  let currentEvent := snd st in
  if negb (nonempty (trim line)) then
    ((if data_truthy currentEvent then events ++ [currentEvent] else events)%list,
     empty_event)
  else
    match indexOf ":"%char line with
    | None => (events, currentEvent)
    | Some colonIndex =>
        let field := trim (slice_to colonIndex line) in
        let value := trimStart (slice_from (colonIndex + 1) line) in
        if String.eqb field "data" then
          (events,
           {| event := event currentEvent;
              data := Some ((match data currentEvent with
                             | Some d => if nonempty d then d ++ String LF EmptyString
                                         else EmptyString
                             | None => EmptyString
                             end) ++ value);
              id := id currentEvent |})
        else if String.eqb field "event" then
          (events,
           {| event := Some value; data := data currentEvent; id := id currentEvent |})
        else if String.eqb field "id" then
          (events,
           {| event := event currentEvent; data := data currentEvent; id := Some value |})
        else (events, currentEvent)
    end.

Definition parseSSEChunk (chunk : string) : list SSEParsedEvent :=
  let st := fold_left parse_line (split_lines chunk EmptyString) ([], empty_event) in
  if data_truthy (snd st) then (fst st ++ [snd st])%list else fst st.

(** ** Output transformer *)

Record ToolCallDelta := {
  tc_index : nat;
  tc_id : string;
  tc_name : option JSON;          (* function.name *)
  tc_arguments : option string    (* function.arguments *)
}.

Record Delta := {
  delta_role : option string;
  delta_content : option JSON;
  delta_tool_calls : option (list ToolCallDelta)
}.

(** A chunk; [object] is constant and [choices] holds one choice of
    index 0, whose [delta] and [finish_reason] are kept here. *)
Record OpenAIStreamChunk := {
  chunk_id : string;
  chunk_created : Z;
  chunk_model : string;
  delta : Delta;
  finish_reason : option string
}.

Record TransformState := {
  state_id : string;
  created : Z;
  model : string;
  hasEmittedRole : bool;
  toolCallIndex : nat;
  lastThoughtSignature : option JSON
}.

Definition render_Z (z : Z) : string := NilZero.string_of_int (Z.to_int z).

(** [now] is the reading of [Date.now()]. *)
Definition createTransformState (now : Z) (model : string) : TransformState :=
  {| state_id := "chatcmpl-" ++ render_Z now;
     created := (now / 1000)%Z;
     model := model;
     hasEmittedRole := false;
     toolCallIndex := 0;
     lastThoughtSignature := None |}.

Definition mapFinishReason (reason : option JSON) : option string :=
  match reason with
  | Some (JStr r) =>
      if String.eqb r "STOP" then Some "stop"
      else if String.eqb r "MAX_TOKENS" then Some "length"
      else if String.eqb r "SAFETY" then Some "content_filter"
      else if String.eqb r "RECITATION" then Some "content_filter"
      else if String.eqb r "OTHER" then Some "stop"
      else None
  | _ => None
  end.

Definition make_chunk (state : TransformState) (d : Delta) (reason : option string)
  : OpenAIStreamChunk :=
  {| chunk_id := state_id state;
     chunk_created := created state;
     chunk_model := model state;
     delta := d;
     finish_reason := reason |}.

Definition role_delta : Delta :=
  {| delta_role := Some "assistant"; delta_content := Some (JStr EmptyString);
     delta_tool_calls := None |}.

Definition content_delta (text : JSON) : Delta :=
  {| delta_role := None; delta_content := Some text; delta_tool_calls := None |}.

Definition tool_calls_delta (calls : list ToolCallDelta) : Delta :=
  {| delta_role := None; delta_content := None; delta_tool_calls := Some calls |}.

Definition empty_delta : Delta :=
  {| delta_role := None; delta_content := None; delta_tool_calls := None |}.

Section Transform.
(** [JSON.parse], [None] when it throws; [JSON.stringify]; and the clock,
    read when the tool call of the given index is emitted. *)
Variable JSON_parse : string -> option JSON.
Variable JSON_stringify : option JSON -> option string.
Variable Date_now : nat -> Z.

Definition set_hasEmittedRole (state : TransformState) : TransformState :=
  {| state_id := state_id state; created := created state; model := model state;
     hasEmittedRole := true;
     toolCallIndex := toolCallIndex state;
     lastThoughtSignature := lastThoughtSignature state |}.

Definition set_lastThoughtSignature (state : TransformState) (sig : JSON)
  : TransformState :=
  {| state_id := state_id state; created := created state; model := model state;
     hasEmittedRole := hasEmittedRole state;
     toolCallIndex := toolCallIndex state;
     lastThoughtSignature := Some sig |}.

Definition incr_toolCallIndex (state : TransformState) : TransformState :=
  {| state_id := state_id state; created := created state; model := model state;
     hasEmittedRole := hasEmittedRole state;
     toolCallIndex := S (toolCallIndex state);
     lastThoughtSignature := lastThoughtSignature state |}.

(** The loop over [candidate.content.parts].  The state is returned also
    when the loop throws: it has been mutated up to that point. *)
Fixpoint process_parts (parts : list JSON) (state : TransformState)
    (chunks : list OpenAIStreamChunk)
  : Completion (list OpenAIStreamChunk) * TransformState :=
  match parts with
  | [] => (Normal chunks, state)
  | part :: rest =>
      match part with
      | JNull => (Throw, state)
      | _ =>
          let chunks :=
            match get part "text" with
            | Some text =>
                if truthy text
                then (chunks ++ [make_chunk state (content_delta text) None])%list
                else chunks
            | None => chunks
            end in
          let state :=
            match get part "thoughtSignature" with
            | Some sig => if truthy sig then set_lastThoughtSignature state sig else state
            | None => state
            end in
          match get part "functionCall" with
          | Some functionCall =>
              if truthy functionCall then
                let call :=
                  {| tc_index := toolCallIndex state;
                     tc_id := "call_" ++ render_Z (Date_now (toolCallIndex state))
                              ++ "_" ++ nat_key (toolCallIndex state);
                     tc_name := get functionCall "name";
                     tc_arguments := JSON_stringify (get functionCall "args") |} in
                process_parts rest (incr_toolCallIndex state)
                  (chunks ++ [make_chunk state (tool_calls_delta [call]) None])%list
              else process_parts rest state chunks
          | None => process_parts rest state chunks
          end
      end
  end.

(** [inner.candidates?.[0]] for [inner = payload.response || payload]. *)
Definition first_candidate (payload : JSON) : Completion (option JSON) :=
  response <- get_or_throw payload "response" ;;
  let inner := match response with
               | Some r => if truthy r then r else payload
               | None => payload
               end in
  match get inner "candidates" with
  | None | Some JNull => Normal None
  | Some candidates => Normal (get candidates "0")
  end.

Definition transformAntigravityEvent (event : SSEParsedEvent) (state : TransformState)
  : Completion (list OpenAIStreamChunk) * TransformState :=
  match data event with
  | None => (Normal [], state)
  | Some d =>
      if negb (nonempty d) || String.eqb d "[DONE]" then (Normal [], state)
      else
        match JSON_parse d with
        | None => (Normal [], state)
        | Some payload =>
            match first_candidate payload with
            | Throw => (Throw, state)
            | OutOfFuel => (OutOfFuel, state)
            | Normal None => (Normal [], state)
            | Normal (Some candidate) =>
                if negb (truthy candidate) then (Normal [], state)
                else
                  let chunks :=
                    if hasEmittedRole state then []
                    else [make_chunk state role_delta None] in
                  let state := set_hasEmittedRole state in
                  let processed :=
                    match get candidate "content" with
                    | Some content =>
                        if truthy content then
                          match get content "parts" with
                          | Some parts =>
                              if truthy parts then
                                match iterate parts with
                                | Normal l => process_parts l state chunks
                                | _ => (Throw, state)
                                end
                              else (Normal chunks, state)
                          | None => (Normal chunks, state)
                          end
                        else (Normal chunks, state)
                    | None => (Normal chunks, state)
                    end in
                  match fst processed with
                  | Normal chunks =>
                      let state := snd processed in
                      match get candidate "finishReason" with
                      | Some finishReason =>
                          if truthy finishReason then
                            (Normal (chunks ++
                                     [make_chunk state empty_delta
                                        (mapFinishReason (Some finishReason))])%list,
                             state)
                          else (Normal chunks, state)
                      | None => (Normal chunks, state)
                      end
                  | failure => (failure, snd processed)
                  end
            end
        end
  end.

(** The caller's loop (routes/chat.ts): every event of the stream goes
    through the transformer with the one state of the connection; an
    exception ends the stream. *)
Fixpoint transform_stream (events : list SSEParsedEvent) (state : TransformState)
  : list OpenAIStreamChunk * TransformState :=
  match events with
  | [] => ([], state)
  | event :: rest =>
      match transformAntigravityEvent event state with
      | (Normal chunks, state') =>
          let r := transform_stream rest state' in
          ((chunks ++ fst r)%list, snd r)
      | (_, state') => ([], state')
      end
  end.
End Transform.

End Streaming.

(* ================================================================== *)
(** * A reference instance of the runtime's JSON functions *)
(* ================================================================== *)

(** The transformers are parametric in [JSON.parse] and [JSON.stringify].
    [JSONLite] gives one instance, used to run them on concrete inputs: a
    reader and a writer for the fragment of JSON whose strings hold no
    escape sequence and whose numbers are integers of at most 15 digits.
    On that fragment they agree with the runtime; the reader refuses a
    text outside the fragment, as it refuses a text that is not JSON. *)

Module JSONLite.
Import JS.

Definition is_json_space (c : ascii) : bool :=
  let n := nat_of_ascii c in (n =? 32) || (n =? 9) || (n =? 10) || (n =? 13).

Fixpoint skip_ws (s : string) : string :=
  match s with
  | String c rest => if is_json_space c then skip_ws rest else s
  | EmptyString => s
  end.

(** Characters up to the closing quote; escapes and controls are refused. *)
Fixpoint read_string (s : string) : option (string * string) :=
  match s with
  | EmptyString => None
  | String c rest =>
      if Ascii.eqb c "034"%char then Some (EmptyString, rest)
      else if Ascii.eqb c "092"%char || (nat_of_ascii c <? 32) then None
      else
        match read_string rest with
        | Some (body, rest') => Some (String c body, rest')
        | None => None
        end
  end.

Fixpoint read_digits (s : string) : string * string :=
  match s with
  | String c rest =>
      if is_digit c
      then let r := read_digits rest in (String c (fst r), snd r)
      else (EmptyString, s)
  | EmptyString => (EmptyString, s)
  end.

Definition starts_fraction (s : string) : bool :=
  match s with
  | String c _ => Ascii.eqb c "."%char || Ascii.eqb c "e"%char || Ascii.eqb c "E"%char
  | EmptyString => false
  end.

Definition read_number (s : string) : option (JSON * string) :=
  let negative := prefix "-" s in
  let r := read_digits (if negative then slice_from 1 s else s) in
  let digits := fst r in
  let rest := snd r in
  if negb (nonempty digits) || (15 <? String.length digits) || starts_fraction rest
     || (prefix "0" digits && (1 <? String.length digits))
  then None
  else if negative && negb (String.eqb digits "0")
  then Some (JNum ("-" ++ digits), rest)
  else Some (JNum digits, rest).

Fixpoint read_value (fuel : nat) (s : string) {struct fuel} : option (JSON * string) :=
  match fuel with
  | 0 => None
  | S fuel' =>
      let s := skip_ws s in
      if prefix "null" s then Some (JNull, slice_from 4 s)
      else if prefix "true" s then Some (JBool true, slice_from 4 s)
      else if prefix "false" s then Some (JBool false, slice_from 5 s)
      else
        match s with
        | String c rest =>
            if Ascii.eqb c "034"%char then
              match read_string rest with
              | Some (body, rest') => Some (JStr body, rest')
              | None => None
              end
            else if Ascii.eqb c "["%char then
              if prefix "]" (skip_ws rest)
              then Some (JArr [], slice_from 1 (skip_ws rest))
              else read_elements fuel' rest []
            else if Ascii.eqb c "{"%char then
              if prefix "}" (skip_ws rest)
              then Some (JObj [], slice_from 1 (skip_ws rest))
              else read_members fuel' rest []
            else read_number s
        | EmptyString => None
        end
  end

with read_elements (fuel : nat) (s : string) (acc : list JSON) {struct fuel}
  : option (JSON * string) :=
  match fuel with
  | 0 => None
  | S fuel' =>
      match read_value fuel' s with
      | Some (v, rest) =>
          match skip_ws rest with
          | String c rest' =>
              if Ascii.eqb c ","%char then read_elements fuel' rest' (acc ++ [v])%list
              else if Ascii.eqb c "]"%char then Some (JArr (acc ++ [v])%list, rest')
              else None
          | EmptyString => None
          end
      | None => None
      end
  end

with read_members (fuel : nat) (s : string) (acc : Fields) {struct fuel}
  : option (JSON * string) :=
  match fuel with
  | 0 => None
  | S fuel' =>
      match skip_ws s with
      | String q rest =>
          if Ascii.eqb q "034"%char then
            match read_string rest with
            | Some (key, rest1) =>
                match skip_ws rest1 with
                | String colon rest2 =>
                    if Ascii.eqb colon ":"%char then
                      match read_value fuel' rest2 with
                      | Some (v, rest3) =>
                          match skip_ws rest3 with
                          | String c rest4 =>
                              if Ascii.eqb c ","%char
                              then read_members fuel' rest4 (set_field key v acc)
                              else if Ascii.eqb c "}"%char
                              then Some (JObj (set_field key v acc), rest4)
                              else None
                          | EmptyString => None
                          end
                      | None => None
                      end
                    else None
                | EmptyString => None
                end
            | None => None
            end
          else None
      | EmptyString => None
      end
  end.

Definition parse (text : string) : option JSON :=
  match read_value (2 * String.length text + 2) text with
  | Some (v, rest) => if nonempty (skip_ws rest) then None else Some v
  | None => None
  end.

Fixpoint write (v : JSON) : string :=
  match v with
  | JNull => "null"
  | JBool true => "true"
  | JBool false => "false"
  | JNum r => r
  | JStr s => dquote ++ s ++ dquote
  | JArr items => "[" ++ String.concat "," (map write items) ++ "]"
  | JObj fs =>
      "{" ++ String.concat ","
               (map (fun kv => dquote ++ fst kv ++ dquote ++ ":" ++ write (snd kv)) fs)
          ++ "}"
  end.

Definition stringify (v : option JSON) : option string := option_map write v.

(** A JSON string literal. *)
Definition quoted (s : string) : string := dquote ++ s ++ dquote.

End JSONLite.

(* ================================================================== *)
(** * Vocabulary of the statements *)
(* ================================================================== *)

Module Spec.
Import JS SchemaCleaner RequestTransformer Streaming.

(** ** Schema cleaner *)

(** The union of two constants of the specification. *)
Definition union_of_constants : JSON :=
  JObj [("anyOf", JArr [JObj [("const", JStr "a")]; JObj [("const", JStr "b")]])].

Definition string_enum : JSON :=
  JObj [("type", JStr "STRING"); ("enum", JArr [JStr "a"; JStr "b"])].

Definition string_enum_with_hint : JSON :=
  JObj [("type", JStr "STRING"); ("enum", JArr [JStr "a"; JStr "b"]);
        ("description", JStr "(Allowed: a, b)")].

Definition default_string_schema : JSON := JObj [("type", JStr "STRING")].

(** The nodes of a schema: the schema itself and, recursively, the
    elements of an array, the values of a [properties] object, the [items]
    schema and the branches of a union.  These are the places where
    [toGeminiFormat] treats a value as a schema. *)
Inductive schema_node : JSON -> JSON -> Prop :=
| node_here (v : JSON) : schema_node v v
| node_element (items : list JSON) (x n : JSON) :
    In x items -> schema_node x n -> schema_node (JArr items) n
| node_property (fs : Fields) (properties : JSON) (k : string) (x n : JSON) :
    lookup "properties" fs = Some properties ->
    is_object properties = true ->
    In (k, x) (entries properties) ->
    schema_node x n -> schema_node (JObj fs) n
| node_items (fs : Fields) (x n : JSON) :
    lookup "items" fs = Some x ->
    schema_node x n -> schema_node (JObj fs) n
| node_branch (fs : Fields) (k : string) (branches : list JSON) (x n : JSON) :
    is_union_key k = true ->
    lookup k fs = Some (JArr branches) ->
    In x branches ->
    schema_node x n -> schema_node (JObj fs) n.

(** Every entry of the [required] array of a node names a key of the
    sibling [properties] object. *)
Definition required_names_properties (node : JSON) : Prop :=
  forall required, get node "required" = Some (JArr required) ->
  forall entry, In entry required ->
  exists name, entry = JStr name /\ In name (property_names (entries node)).

Fixpoint size (v : JSON) : nat :=
  match v with
  | JArr items => S (list_sum (map size items))
  | JObj fs => S (list_sum (map (fun kv => size (snd kv)) fs))
  | _ => 0
  end.

(** What [toGeminiFormat] writes for a property other than [required]. *)
Definition gemini_value (key : string) (value : JSON) : JSON :=
  match value with
  | JStr s => if String.eqb key "type" then JStr (toUpperCase s) else value
  | JObj props =>
      if String.eqb key "properties"
      then JObj (map (fun kv => (fst kv, toGeminiFormat (snd kv))) props)
      else if String.eqb key "items" then toGeminiFormat value
      else value
  | JArr elems =>
      if String.eqb key "properties"
      then JObj (indexed (map toGeminiFormat elems))
      else if String.eqb key "items" then toGeminiFormat value
      else if is_union_key key then JArr (map toGeminiFormat elems)
      else value
  | _ => value
  end.

(** One iteration of the loop of [toGeminiFormat]: the properties it
    adds to [result]. *)
Definition gemini_entry (propertyNames : list string) (kv : string * JSON) : Fields :=
  let key := fst kv in
  let value := snd kv in
  match value with
  | JArr elems =>
      if String.eqb key "properties" || String.eqb key "items" || is_union_key key
      then [(key, gemini_value key value)]
      else if String.eqb key "required" then
        match propertyNames with
        | _ :: _ =>
            match valid_required propertyNames elems with
            | [] => []
            | validRequired => [(key, JArr validRequired)]
            end
        | [] => [(key, value)]
        end
      else [(key, value)]
  | _ => [(key, gemini_value key value)]
  end.

Definition placeholder_schema : JSON :=
  JObj [("type", JStr "BOOLEAN");
        ("description", JStr EMPTY_SCHEMA_PLACEHOLDER_DESCRIPTION)].

Definition placeholder_properties : JSON :=
  JObj [(EMPTY_SCHEMA_PLACEHOLDER_NAME, placeholder_schema)].

(** What [removeUnsupportedKeywords] writes for a property it keeps. *)
Definition kept_value (key : string) (value : JSON) : JSON :=
  match value with
  | JObj props =>
      if String.eqb key "properties"
      then JObj (map (fun kv => (fst kv, removeUnsupportedKeywords (snd kv) false)) props)
      else removeUnsupportedKeywords value false
  | JArr props =>
      if String.eqb key "properties"
      then JObj (indexed (map (fun v => removeUnsupportedKeywords v false) props))
      else removeUnsupportedKeywords value false
  | _ => value
  end.

(** One iteration of the loop of [removeUnsupportedKeywords]. *)
Definition kept_entry (kv : string * JSON) : Fields :=
  if is_unsupported (fst kv) then [] else [(fst kv, kept_value (fst kv) (snd kv))].

(** A child of a node after the final loop of a walker: replaced by the
    phase applied to it when it is an object or an array. *)
Definition child_rel (self : JSON -> Completion JSON) (x x' : JSON) : Prop :=
  if is_object x then self x = Normal x' else x' = x.

(** The [properties] of the node is not an array. *)
Definition properties_not_array (node : JSON) : Prop :=
  forall items, get node "properties" <> Some (JArr items).

(** A node whose [properties] is the empty object has no [required] array. *)
Definition no_required_without_keys (node : JSON) : Prop :=
  get node "properties" = Some (JObj []) ->
  forall required, get node "required" <> Some (JArr required).

Definition settled (node : JSON) : Prop :=
  properties_not_array node /\ no_required_without_keys node.

(** The property holds at every node of the schema. *)
Definition at_nodes (P : JSON -> Prop) (schema : JSON) : Prop :=
  forall node, schema_node schema node -> P node.

(** Every entry of the [required] array of a node that has a
    [properties] object names a key of that object; the array is then not
    empty. *)
Definition required_fits_properties (node : JSON) : Prop :=
  forall required properties,
    get node "required" = Some (JArr required) ->
    get node "properties" = Some properties ->
    is_object properties = true ->
    required <> []
    /\ forall entry, In entry required ->
       exists name, entry = JStr name /\ In name (keys properties).

(** ** Schemas that the cleaner leaves as they are *)

Definition nonempty_list {A : Type} (l : list A) : bool :=
  match l with [] => false | _ :: _ => true end.

(** The description of the node holds the hint. *)
Definition has_hint (node : JSON) (hint : string) : bool :=
  includes (description_of node) ("(" ++ hint ++ ")").

Definition is_nonempty_array (o : option JSON) : bool :=
  match o with
  | Some (JArr (_ :: _)) => true
  | _ => false
  end.

(** The hint phases find nothing to add at the node: what they would
    write for its [enum], its [additionalProperties: false] and its
    constraints is in the description already. *)
Definition hints_present (node : JSON) : bool :=
  match get node "enum" with
  | Some (JArr ((_ :: _) as enum)) =>
      match join ", " (firstn 10 enum) with
      | Normal values =>
          has_hint node
            ("Allowed: " ++ values
             ++ (if 10 <? List.length enum then ", ..." else EmptyString))
      | _ => false
      end
  | _ => true
  end
  && match get node "additionalProperties" with
     | Some (JBool false) => has_hint node "no extra properties"
     | _ => true
     end
  && forallb (fun constraint =>
                match get node constraint with
                | Some v =>
                    match to_String v with
                    | Normal s => has_hint node (constraint ++ ": " ++ s)
                    | _ => false
                    end
                | None => true
                end) UNSUPPORTED_CONSTRAINTS.

(** The node holds nothing for the conversions and the flattening: no
    [$ref] string, no [const], no [allOf], [anyOf] or [oneOf] with
    elements, no array of types. *)
Definition nothing_to_flatten (node : JSON) : bool :=
  negb (match get node "$ref" with Some (JStr _) => true | _ => false end)
  && negb (match get node "const" with Some _ => true | None => false end)
  && negb (is_nonempty_array (get node "allOf"))
  && negb (is_nonempty_array (get node "anyOf"))
  && negb (is_nonempty_array (get node "oneOf"))
  && negb (match get node "type" with Some (JArr _) => true | _ => false end).

(** Beside a [properties] object, the [required] array is not empty and
    each of its entries is the key of a property. *)
Definition required_all_own (node : JSON) : bool :=
  match get node "required", get node "properties" with
  | Some (JArr required), Some properties =>
      if is_object properties then
        nonempty_list required
        && forallb (fun req =>
                      match to_property_key req with
                      | Normal key => hasOwnProperty properties key
                      | _ => false
                      end) required
      else true
  | _, _ => true
  end.

(** A node of type object has a property. *)
Definition object_has_property (node : JSON) : bool :=
  negb (is_string (get node "type") "object" || is_string (get node "type") "OBJECT")
  || match get node "properties" with
     | Some properties => is_object properties && (0 <? List.length (keys properties))
     | None => false
     end.

(** What the phases that walk the tree need of an object to leave it as
    it is; they visit every object of the tree, at any place. *)
Definition node_settled (node : JSON) : bool :=
  match node with
  | JObj _ =>
      nothing_to_flatten node && hints_present node && required_all_own node
      && object_has_property node
  | _ => true
  end.

(** The test holds of the value and of every value inside it. *)
Fixpoint everywhere (test : JSON -> bool) (v : JSON) : bool :=
  test v
  && match v with
     | JArr items => forallb (everywhere test) items
     | JObj fs => forallb (fun kv => everywhere test (snd kv)) fs
     | _ => true
     end.

(** [removeUnsupportedKeywords] finds no keyword to remove, where it
    looks for them: in every object but a [properties] object, whose keys
    are names; and no [properties] is an array. *)
Fixpoint keywords_gone (v : JSON) : bool :=
  match v with
  | JArr items => forallb keywords_gone items
  | JObj fs =>
      forallb (fun kv =>
                 negb (is_unsupported (fst kv))
                 && match snd kv with
                    | JObj props =>
                        if String.eqb (fst kv) "properties"
                        then forallb (fun p => keywords_gone (snd p)) props
                        else keywords_gone (snd kv)
                    | JArr _ =>
                        if String.eqb (fst kv) "properties" then false
                        else keywords_gone (snd kv)
                    | _ => true
                    end) fs
  | _ => true
  end.

(** [toGeminiFormat] finds the schema in its dialect already, where it
    reads it as a schema: a [type] string is in upper case, [properties]
    is not an array, a [required] array beside named properties is not
    empty and holds names of properties only, and a node of type ARRAY has
    truthy [items]. *)
Fixpoint in_dialect (v : JSON) : bool :=
  match v with
  | JArr items => forallb in_dialect items
  | JObj fs =>
      forallb (fun kv =>
                 match snd kv with
                 | JStr s =>
                     if String.eqb (fst kv) "type" then String.eqb (toUpperCase s) s
                     else true
                 | JObj props =>
                     if String.eqb (fst kv) "properties"
                     then forallb (fun p => in_dialect (snd p)) props
                     else if String.eqb (fst kv) "items" then in_dialect (snd kv)
                     else true
                 | JArr elems =>
                     if String.eqb (fst kv) "properties" then false
                     else if String.eqb (fst kv) "items" then in_dialect (snd kv)
                     else if is_union_key (fst kv) then forallb in_dialect elems
                     else if String.eqb (fst kv) "required" then
                       match property_names fs with
                       | _ :: _ =>
                           nonempty_list elems
                           && forallb (fun prop =>
                                         match prop with
                                         | JStr s =>
                                             existsb (String.eqb s) (property_names fs)
                                         | _ => false
                                         end) elems
                       | [] => true
                       end
                     else true
                 | _ => true
                 end) fs
      && negb (is_string (lookup "type" fs) "ARRAY"
               && negb (truthy_opt (lookup "items" fs)))
  | _ => true
  end.

(** A schema in cleaned form: an object or an array on which no phase of
    the cleaner finds anything to do. *)
Definition stable (schema : JSON) : bool :=
  is_object schema && everywhere node_settled schema
  && keywords_gone schema && in_dialect schema.

(** ** Depth of a value, and what the walkers need of an edit *)

Fixpoint depth (v : JSON) : nat :=
  match v with
  | JArr items => S (list_max (map depth items))
  | JObj fs => S (list_max (map (fun kv => depth (snd kv)) fs))
  | _ => 0
  end.

(** The call does not run out of fuel, and a value it returns is no deeper
    than the bound. *)
Definition finishes (c : Completion JSON) (bound : nat) : Prop :=
  c = Throw \/ exists r, c = Normal r /\ depth r <= bound.

(** An array without object or array elements. *)
Definition flat_array (v : JSON) : Prop :=
  exists items, v = JArr items /\ forall x, In x items -> is_object x = false.

(** The children that an edit leaves at a node of depth [d]: an object or
    array among them is an old one, at least one level up, or a fresh one. *)
Definition bounded_children (Fresh : JSON -> Prop) (d : nat) (r : JSON) : Prop :=
  forall k c, In (k, c) (entries r) -> is_object c = true ->
              depth c + 1 <= d \/ Fresh c.

(** Every own property of [r] is at least one level above [d]. *)
Definition small_children (d : nat) (r : JSON) : Prop :=
  forall k c, In (k, c) (entries r) -> depth c + 1 <= d.

(** ** Request transformer *)

(** No two adjacent contents have the same role. *)
Fixpoint alternating (contents : list AntigravityContent) : bool :=
  match contents with
  | c1 :: ((c2 :: _) as rest) => negb (Role_eqb (role c1) (role c2)) && alternating rest
  | _ => true
  end.

(** Some content of the list has the given role and holds the given
    parts, in order and without a gap. *)
Definition holds_parts (r : Role) (ps : list AntigravityPart)
    (contents : list AntigravityContent) : Prop :=
  exists before b a after,
    contents
    = (before ++ {| role := r; parts := b ++ ps ++ a |} :: after)%list.

(** [msg.name || "unknown_tool"] *)
Definition tool_result_name (msg : OpenAIMessage) : string :=
  match msg_name msg with
  | Some n => if nonempty n then n else "unknown_tool"
  | None => "unknown_tool"
  end.

(** The body of the loop of [transformRequest] over the messages. *)
Definition message_step (JSON_parse : string -> option JSON)
    (contents : list AntigravityContent) (msg : OpenAIMessage)
  : list AntigravityContent :=
  if String.eqb (msg_role msg) "system" then contents
  else
    match transformMessage JSON_parse msg with
    | Some content => push_content contents content
    | None => contents
    end.

Definition medium_thinking : ThinkingConfig :=
  {| includeThoughts := true; thinkingLevel := Some "medium"; thinkingBudget := None |}.

(** ** Response transformers *)

(** The internal finish reasons of the table. *)
Definition known_reason (reason : option JSON) : bool :=
  is_string reason "STOP" || is_string reason "MAX_TOKENS" || is_string reason "SAFETY"
  || is_string reason "RECITATION" || is_string reason "OTHER".

(** The table of finish reasons, as the specification gives it. *)
Definition finish_reason_table : list (string * string) :=
  [("STOP", "stop"); ("MAX_TOKENS", "length"); ("SAFETY", "content_filter");
   ("RECITATION", "content_filter"); ("OTHER", "stop")].

(** The entry of the table for a reason, if the reason is in the table. *)
Definition table_entry (reason : option JSON) : option string :=
  match reason with
  | Some (JStr r) =>
      option_map snd (find (fun entry => String.eqb r (fst entry)) finish_reason_table)
  | _ => None
  end.

(** A chunk that carries no finish reason. *)
Definition unfinished (c : OpenAIStreamChunk) : Prop := finish_reason c = None.

(** The chunks end with one that carries the given finish reason and an
    empty delta, and no chunk before it carries a finish reason. *)
Definition ends_with_reason (chunks : list OpenAIStreamChunk) (reason : option string)
  : Prop :=
  exists before last,
    chunks = (before ++ [last])%list /\ Forall unfinished before
    /\ delta last = empty_delta /\ finish_reason last = reason.

(** An upstream payload with one part of text and the given finish reason,
    and the event that carries it. *)
Definition finished_payload (reason : JSON) : JSON :=
  JObj [("response",
         JObj [("candidates",
                JArr [JObj [("content",
                             JObj [("role", JStr "model");
                                   ("parts", JArr [JObj [("text", JStr "Hello")]])]);
                            ("finishReason", reason)]])])].

Definition payload_event (payload : JSON) : SSEParsedEvent :=
  {| event := None; data := JSONLite.stringify (Some payload); id := None |}.

(** ** SSE parser *)

(** The line adds a non-empty value to the [data] field. *)
Definition gives_data (line : string) : bool :=
  nonempty (trim line)
  && match indexOf ":"%char line with
     | Some colonIndex =>
         String.eqb (trim (slice_to colonIndex line)) "data"
         && nonempty (trimStart (slice_from (colonIndex + 1) line))
     | None => false
     end.

(** ** Streaming transformer *)

(** The chunk that announces the assistant role. *)
Definition is_preamble (c : OpenAIStreamChunk) : Prop :=
  delta c = role_delta /\ finish_reason c = None.

(** A chunk that announces no role: content, tool call or finish chunk. *)
Definition no_role (c : OpenAIStreamChunk) : Prop := delta_role (delta c) = None.

(** The candidate that the transformer finds in an event, if any. *)
Definition event_candidate (JSON_parse : string -> option JSON) (e : SSEParsedEvent)
  : option JSON :=
  match data e with
  | Some d =>
      if negb (nonempty d) || String.eqb d "[DONE]" then None
      else
        match JSON_parse d with
        | Some payload =>
            match first_candidate payload with
            | Normal (Some candidate) => if truthy candidate then Some candidate else None
            | _ => None
            end
        | None => None
        end
  | None => None
  end.

(** ** Concrete inputs *)

Definition person_schema : JSON :=
  JObj [("type", JStr "object");
        ("properties", JObj [("name", JObj [("type", JStr "string")])]);
        ("required", JArr [JStr "name"; JStr "age"])].

Definition person_schema_cleaned : JSON :=
  JObj [("type", JStr "OBJECT");
        ("properties", JObj [("name", JObj [("type", JStr "STRING")])]);
        ("required", JArr [JStr "name"])].




Definition user_message (text : string) : OpenAIMessage :=
  {| msg_role := "user"; msg_content := ContentString text; msg_name := None;
     msg_tool_calls := None; msg_tool_call_id := None |}.

Definition chat_request (model : string) (messages : list OpenAIMessage)
    (tools : option (list OpenAITool)) : OpenAIRequest :=
  {| req_model := model; req_messages := messages; req_tools := tools;
     req_tool_choice := None; req_max_tokens := None; req_temperature := None;
     req_top_p := None; req_stop := None |}.

Definition plain_config : GenerationConfig :=
  {| temperature := None; maxOutputTokens := None; topP := None;
     stopSequences := None; candidateCount := 1%Z; thinkingConfig := None |}.

Definition thinking_config : GenerationConfig :=
  {| temperature := None; maxOutputTokens := Some 65535%Z; topP := None;
     stopSequences := None; candidateCount := 1%Z;
     thinkingConfig := Some medium_thinking |}.

Definition hi_contents : list AntigravityContent :=
  [{| role := RoleUser; parts := [PartText "hi"] |}].

Definition two_user_messages : OpenAIRequest :=
  chat_request "gemini-2.5-pro" [user_message "hi"; user_message "there"] None.

Definition retrieval_tool : OpenAITool :=
  {| tool_type := "retrieval"; tool_name := "docs"; tool_description := None;
     tool_parameters := None |}.

Definition tool_result (body : string) : OpenAIMessage :=
  {| msg_role := "tool"; msg_content := ContentString body; msg_name := None;
     msg_tool_calls := None; msg_tool_call_id := Some "call_1" |}.

Definition line (s : string) : string := s ++ String LF EmptyString.

Definition no_data_chunk : string :=
  line "event: ping" ++ line "id: 7" ++ line "" ++ line "data:" ++ line "" ++ "id: 8".

Definition fresh_state : TransformState :=
  createTransformState 1700000000000 "gemini-3-pro".

Definition done_event : SSEParsedEvent :=
  {| event := None; data := Some "[DONE]"; id := None |}.

Definition text_event : SSEParsedEvent :=
  {| event := None;
     data := Some ("{" ++ JSONLite.quoted "candidates" ++ ":[{"
                   ++ JSONLite.quoted "content" ++ ":{"
                   ++ JSONLite.quoted "parts" ++ ":[{"
                   ++ JSONLite.quoted "text" ++ ":" ++ JSONLite.quoted "hi"
                   ++ "}]}}]}");
     id := None |}.

End Spec.

(* ================================================================== *)
(** * gemini-to-openai.ts: the whole response *)
(* ================================================================== *)

Module ChatCompletion.
Import JS.

Record ResponseToolCall := {
  rtc_id : string;
  rtc_name : option JSON;          (* function.name *)
  rtc_arguments : option string    (* function.arguments *)
}.

(** An [OpenAIResponse]; [object], the index and the role of the one
    choice and the zero [usage] are constant and left out. *)
Record OpenAIResponse := {
  response_id : string;
  response_created : Z;
  response_model : string;
  message_content : option string;
  message_tool_calls : option (list ResponseToolCall);
  response_finish_reason : option string
}.

(** [o?.k] *)
Definition nullish_get (o : option JSON) (k : string) : option JSON :=
  match o with
  | Some v => get v k
  | None => None
  end.

Section Transform.
(** [JSON.stringify], and the clock: [Date_now n] is its reading at the
    [n]-th call of [Date.now()] made by [transformResponse], from 0. *)
Variable JSON_stringify : option JSON -> option string.
Variable Date_now : nat -> Z.

(** The loop [for (const part of parts)]. *)
Fixpoint collect_parts (parts : list JSON) (content : string)
    (toolCalls : list ResponseToolCall)
  : Completion (string * list ResponseToolCall) :=
  match parts with
  | [] => Normal (content, toolCalls)
  | part :: rest =>
      match part with
      | JNull => Throw
      | _ =>
          content <-
            match get part "text" with
            | Some text =>
                if truthy text then s <- to_String text ;; Normal (content ++ s)
                else Normal content
            | None => Normal content
            end ;;
          let toolCalls :=
            match get part "functionCall" with
            | Some functionCall =>
                if truthy functionCall then
                  (toolCalls
                   ++ [{| rtc_id := "call_"
                                    ++ Streaming.render_Z (Date_now (List.length toolCalls))
                                    ++ "_" ++ nat_key (List.length toolCalls);
                          rtc_name := get functionCall "name";
                          rtc_arguments := JSON_stringify (get functionCall "args") |}])%list
                else toolCalls
            | None => toolCalls
            end in
          collect_parts rest content toolCalls
      end
  end.

(** [inner.candidates?.[0]] is read as in the streaming transformer. *)
Definition transformResponse (antigravityResponse : JSON) (model : string)
  : Completion OpenAIResponse :=
  candidate <- Streaming.first_candidate antigravityResponse ;;
  parts <- match nullish_get (nullish_get candidate "content") "parts" with
           | Some parts => if truthy parts then iterate parts else Normal []
           | None => Normal []
           end ;;
  st <- collect_parts parts EmptyString [] ;;
  let content := fst st in
  let toolCalls := snd st in
  let finishReason :=
    ResponseTransformer.mapFinishReason (nullish_get candidate "finishReason") in
  Normal {| response_id :=
              "chatcmpl-" ++ Streaming.render_Z (Date_now (List.length toolCalls));
            response_created := (Date_now (S (List.length toolCalls)) / 1000)%Z;
            response_model := model;
            message_content := if nonempty content then Some content else None;
            message_tool_calls :=
              match toolCalls with
              | [] => None
              | _ :: _ => Some toolCalls
              end;
            response_finish_reason := finishReason |}.
End Transform.

End ChatCompletion.

(* ================================================================== *)
(** * routes/chat.ts *)
(* ================================================================== *)

Module ChatRoute.
Import JS Streaming.

(** ** The streaming loop of [handleStreamingRequest] *)

Definition cons_first (c : ascii) (pieces : list string) : list string :=
  match pieces with
  | [] => [String c EmptyString]
  | p :: ps => String c p :: ps
  end.

(** [s.split("\n\n")]: the pieces between the occurrences of the
    separator, found from left to right without overlap. *)
Fixpoint split_blank (s : string) : list string :=
  match s with
  | EmptyString => [EmptyString]
  | String c rest =>
      match rest with
      | String d rest' =>
          if Ascii.eqb c LF && Ascii.eqb d LF then EmptyString :: split_blank rest'
          else cons_first c (split_blank rest)
      | EmptyString => [String c EmptyString]
      end
  end.

(** What the route writes to the client: [data: <chunk>] for a chunk, and
    the closing [data: [DONE]]. *)
Inductive Written :=
| Data (chunk : OpenAIStreamChunk)
| Done.

Section Stream.
Variable JSON_parse : string -> option JSON.
Variable JSON_stringify : option JSON -> option string.
Variable Date_now : nat -> Z.

(** [for (const event of events)]: the chunks of every event are written
    as soon as the transformer returns them; the state is [None] when the
    transformer threw, which leaves every loop of the route. *)
Fixpoint send_events (events : list SSEParsedEvent) (state : TransformState)
  : list OpenAIStreamChunk * option TransformState :=
  match events with
  | [] => ([], Some state)
  | event :: rest =>
      match transformAntigravityEvent JSON_parse JSON_stringify Date_now event state with
      | (Normal chunks, state') =>
          let r := send_events rest state' in ((chunks ++ fst r)%list, snd r)
      | (_, _) => ([], None)
      end
  end.

(** [for (const part of parts)] *)
Fixpoint send_parts (parts : list string) (state : TransformState)
  : list OpenAIStreamChunk * option TransformState :=
  match parts with
  | [] => ([], Some state)
  | part :: rest =>
      if negb (nonempty (trim part)) then send_parts rest state
      else
        match send_events (parseSSEChunk (part ++ String LF (String LF EmptyString))) state with
        | (chunks, Some state') =>
            let r := send_parts rest state' in ((chunks ++ fst r)%list, snd r)
        | (chunks, None) => (chunks, None)
        end
  end.

(** The [while (true)] loop.  [reads] are the decoded texts of the
    successive reads; after them the reader reports the end of the body
    ([done] is [true]) or the read throws ([done] is [false]).  The result
    is the list of the chunks written. *)
Fixpoint read_loop (reads : list string) (done : bool) (buffer : string)
    (state : TransformState) : list OpenAIStreamChunk :=
  match reads with
  | [] =>
      if done && nonempty (trim buffer)
      then fst (send_events (parseSSEChunk buffer) state)
      else []
  | value :: rest =>
      let buffer := buffer ++ value in
      let parts := split_blank buffer in
      let buffer := last parts EmptyString in
      match send_parts (removelast parts) state with
      | (chunks, Some state') => (chunks ++ read_loop rest done buffer state')%list
      | (chunks, None) => chunks
      end
  end.

(** The callback given to [stream]: [reader] is [None] when the response
    has no body; [now] is the reading of the clock for the state. *)
Definition stream_callback (now : Z) (originalModel : string)
    (reader : option (list string * bool)) : list Written :=
  match reader with
  | None => [Done]
  | Some (reads, done) =>
      (map Data (read_loop reads done EmptyString (createTransformState now originalModel))
       ++ [Done])%list
  end.
End Stream.

End ChatRoute.

(* ================================================================== *)
(** * api/quota-protection.ts *)
(* ================================================================== *)

Module QuotaProtection.
Import JS.

Inductive ModelFamily := claude | gemini_flash | gemini_pro | unknown.

Definition getModelFamily (modelId : string) : ModelFamily :=
  let lower := toLowerCase modelId in
  if includes lower "claude" then claude
  else if includes lower "gemini-3" || includes lower "gemini-2.5-pro" then
    if includes lower "flash" then gemini_flash else gemini_pro
  else if includes lower "gemini" then
    if includes lower "flash" then gemini_flash else gemini_pro
  else unknown.

End QuotaProtection.

(* ================================================================== *)
(** * Vocabulary of the further statements *)
(* ================================================================== *)

Module Vocabulary.
Import JS SchemaCleaner RequestTransformer Streaming Spec ChatCompletion ChatRoute.

(** ** Schema cleaner *)

(** The string is in upper case already. *)
Definition upper_case (s : string) : Prop := toUpperCase s = s.

(** A node whose type is a string has it in upper case. *)
Definition type_is_upper_case (node : JSON) : Prop :=
  forall s, get node "type" = Some (JStr s) -> upper_case s.

(** A node of type ["ARRAY"] has a truthy [items]. *)
Definition array_has_items (node : JSON) : Prop :=
  is_string (get node "type") "ARRAY" = true -> truthy_opt (get node "items") = true.

(** The node carries none of the keywords that the cleaner removes. *)
Definition no_unsupported_keyword (node : JSON) : Prop :=
  forall fs key, node = JObj fs -> is_unsupported key = true -> lookup key fs = None.

(** ** Request transformer *)

Definition is_system (msg : OpenAIMessage) : bool := String.eqb (msg_role msg) "system".

Definition is_function_tool (tool : OpenAITool) : bool :=
  String.eqb (tool_type tool) "function".

(** The parts that one message contributes to the conversation. *)
Definition message_parts (JSON_parse : string -> option JSON) (msg : OpenAIMessage)
  : list AntigravityPart :=
  if is_system msg then []
  else match transformMessage JSON_parse msg with
       | Some content => parts content
       | None => []
       end.

(** The messages without the system messages that follow the first one. *)
Fixpoint first_system_only (messages : list OpenAIMessage) : list OpenAIMessage :=
  match messages with
  | [] => []
  | msg :: rest =>
      if is_system msg then msg :: filter (fun m => negb (is_system m)) rest
      else msg :: first_system_only rest
  end.

Definition with_messages (request : OpenAIRequest) (messages : list OpenAIMessage)
  : OpenAIRequest :=
  {| req_model := req_model request; req_messages := messages;
     req_tools := req_tools request; req_tool_choice := req_tool_choice request;
     req_max_tokens := req_max_tokens request;
     req_temperature := req_temperature request; req_top_p := req_top_p request;
     req_stop := req_stop request |}.

Definition budget_thinking : ThinkingConfig :=
  {| includeThoughts := true; thinkingLevel := None; thinkingBudget := Some 16000%Z |}.

(** The schema that [transformTools] hands to [cleanSchema] for a tool. *)
Definition tool_schema (tool : OpenAITool) : JSON :=
  match tool_parameters tool with Some schema => schema | None => JNull end.

(** The tools of a request that [transformTools] declares. *)
Definition function_tools (request : OpenAIRequest) : list OpenAITool :=
  match req_tools request with
  | Some tools => filter is_function_tool tools
  | None => []
  end.

(** The recursion budget covers the schema of every function tool: twenty
    levels above its depth. *)
Definition budget_covers_tools (fuel : nat) (request : OpenAIRequest) : bool :=
  forallb (fun tool => depth (tool_schema tool) + 20 <=? fuel) (function_tools request).

Definition is_function_call (call : OpenAIToolCall) : bool :=
  String.eqb (call_type call) "function".

(** The function calls among the parts, as pairs of a name and arguments. *)
Definition function_calls (ps : list AntigravityPart) : list (string * JSON) :=
  flat_map (fun p => match p with
                     | PartFunctionCall name args => [(name, args)]
                     | _ => []
                     end) ps.

(** The arguments of a call: the parsed text, or [{}] when it is not JSON. *)
Definition call_args (JSON_parse : string -> option JSON) (call : OpenAIToolCall) : JSON :=
  match JSON_parse (call_arguments call) with
  | Some args => args
  | None => JObj []
  end.

(** ** SSE parser *)

(** The value fits on one line of the wire. *)
Fixpoint single_line (s : string) : bool :=
  match s with
  | EmptyString => true
  | String c rest => negb (Ascii.eqb c LF) && negb (Ascii.eqb c CR) && single_line rest
  end.

(** A value that a [data:] line carries unchanged: it is not empty, holds
    no line break and does not start with white space. *)
Definition wire_value (s : string) : bool :=
  match s with
  | EmptyString => false
  | String c _ => negb (is_space c) && single_line s
  end.

(** A line of data on the wire, and an event as the chat route writes it:
    one [data:] line for each line of the data, then a blank line. *)
Definition data_line (l : string) : string := "data: " ++ l.

Definition data_frame (lines : list string) : string :=
  String.concat EmptyString
    (map (fun l => data_line l ++ String LF EmptyString) lines)
  ++ String LF EmptyString.

Definition data_event (d : string) : SSEParsedEvent :=
  {| event := None; data := Some d; id := None |}.

Definition wire_frame (lines : list string) : bool :=
  match lines with
  | [] => false
  | _ :: _ => forallb wire_value lines
  end.

(** The data of an event written as [data_frame] writes it, without the
    closing blank line. *)
Definition frame_body (lines : list string) : string :=
  String.concat (String LF EmptyString) (map data_line lines).

(** ** Streaming transformer *)

(** What one element of [candidate.content.parts] adds to the chunks, and
    the state it leaves, for a part that is not [null]. *)
Definition part_has_call (part : JSON) : bool :=
  match get part "functionCall" with Some fc => truthy fc | None => false end.

Definition after_signature (part : JSON) (state : TransformState) : TransformState :=
  match get part "thoughtSignature" with
  | Some sig => if truthy sig then set_lastThoughtSignature state sig else state
  | None => state
  end.

Definition part_state (part : JSON) (state : TransformState) : TransformState :=
  if part_has_call part then incr_toolCallIndex (after_signature part state)
  else after_signature part state.

Definition part_chunks (JSON_stringify : option JSON -> option string)
    (Date_now : nat -> Z) (part : JSON) (state : TransformState)
  : list OpenAIStreamChunk :=
  let state1 := after_signature part state in
  ((match get part "text" with
    | Some text => if truthy text then [make_chunk state (content_delta text) None] else []
    | None => []
    end)
   ++
   (match get part "functionCall" with
    | Some fc =>
        if truthy fc then
          [make_chunk state1
             (tool_calls_delta
                [{| tc_index := toolCallIndex state1;
                    tc_id := "call_" ++ render_Z (Date_now (toolCallIndex state1))
                             ++ "_" ++ nat_key (toolCallIndex state1);
                    tc_name := get fc "name";
                    tc_arguments := JSON_stringify (get fc "args") |}])
             None]
        else []
    | None => []
    end))%list.

(** The id that both transformers give to a tool call: the reading of the
    clock, then the index of the call. *)
Definition tool_call_id (t : Z) (k : nat) : string :=
  "call_" ++ render_Z t ++ "_" ++ nat_key k.

(** A run of the transformer from one state to another, with the chunks
    it emits: a chunk is built from the state of the moment, a tool call
    takes the index of the moment, which ends its id, and advances it, and
    nothing else touches the identity of the stream or the index. *)
Inductive emits : TransformState -> list OpenAIStreamChunk -> TransformState -> Prop :=
| emits_done (s : TransformState) : emits s [] s
| emits_role (s s' : TransformState) (m : list OpenAIStreamChunk) :
    emits (set_hasEmittedRole s) m s' -> emits s m s'
| emits_signature (s s' : TransformState) (sig : JSON) (m : list OpenAIStreamChunk) :
    emits (set_lastThoughtSignature s sig) m s' -> emits s m s'
| emits_chunk (s s' : TransformState) (d : Delta) (r : option string)
    (m : list OpenAIStreamChunk) :
    delta_tool_calls d = None ->
    emits s m s' -> emits s (make_chunk s d r :: m) s'
| emits_call (s s' : TransformState) (t : Z) (call : ToolCallDelta)
    (m : list OpenAIStreamChunk) :
    tc_index call = toolCallIndex s ->
    tc_id call = tool_call_id t (toolCallIndex s) ->
    emits (incr_toolCallIndex s) m s' ->
    emits s (make_chunk s (tool_calls_delta [call]) None :: m) s'.

(** The indices of the tool calls that the chunks carry, in order. *)
Definition tool_indices (chunks : list OpenAIStreamChunk) : list nat :=
  flat_map (fun c => match delta_tool_calls (delta c) with
                     | Some calls => map tc_index calls
                     | None => []
                     end) chunks.

(** The ids of the tool calls that the chunks carry, in order. *)
Definition tool_ids (chunks : list OpenAIStreamChunk) : list string :=
  flat_map (fun c => match delta_tool_calls (delta c) with
                     | Some calls => map tc_id calls
                     | None => []
                     end) chunks.

(** ** The two response transformers side by side *)

(** The text that a part adds to the content: its [text] rendered as a
    string when it is truthy.  The rendering throws for a text that has
    no string form. *)
Definition text_of_part (part : JSON) : Completion string :=
  match get part "text" with
  | Some text => if truthy text then to_String text else Normal EmptyString
  | None => Normal EmptyString
  end.

(** The value that a part gives to a content delta: its [text] as it is,
    when it is truthy. *)
Definition part_contents (part : JSON) : list JSON :=
  match get part "text" with
  | Some text => if truthy text then [text] else []
  | None => []
  end.

(** The values rendered as strings and joined. *)
Definition rendered (values : list JSON) : Completion string :=
  strs <- mapM to_String values ;;
  Normal (String.concat EmptyString strs).

(** The name and the arguments of the function call of a part. *)
Definition part_call (JSON_stringify : option JSON -> option string) (part : JSON)
  : option JSON * option string :=
  match get part "functionCall" with
  | Some fc => (get fc "name", JSON_stringify (get fc "args"))
  | None => (None, None)
  end.

(** The parts that both transformers loop over: [candidate.content.parts]
    of the first candidate when it is truthy. *)
Definition candidate_parts (candidate : option JSON) : option JSON :=
  nullish_get (nullish_get candidate "content") "parts".

(** The values of the content deltas of the chunks, in order, and the
    text they make when each one is rendered as a string and they are
    joined. *)
Definition streamed_contents (chunks : list OpenAIStreamChunk) : list JSON :=
  flat_map (fun c => match delta_content (delta c) with
                     | Some text => [text]
                     | None => []
                     end) chunks.

Definition streamed_text (chunks : list OpenAIStreamChunk) : Completion string :=
  rendered (streamed_contents chunks).

(** The names and arguments of the tool calls of the chunks, in order. *)
Definition streamed_calls (chunks : list OpenAIStreamChunk)
  : list (option JSON * option string) :=
  flat_map (fun c => match delta_tool_calls (delta c) with
                     | Some calls => map (fun tc => (tc_name tc, tc_arguments tc)) calls
                     | None => []
                     end) chunks.

Definition response_text (out : OpenAIResponse) : string :=
  match message_content out with Some s => s | None => EmptyString end.

Definition response_calls (out : OpenAIResponse) : list (option JSON * option string) :=
  match message_tool_calls out with
  | Some calls => map (fun c => (rtc_name c, rtc_arguments c)) calls
  | None => []
  end.

(** What the streaming transformer does with a payload, beside what
    [transformResponse] does with it.  When the first throws, so does the
    second.  When the second returns a response, the first returns chunks
    whose content deltas, rendered and joined, are the text of the message
    and whose tool calls have the same names and arguments in the same
    order.  When the first returns and the second throws, some content
    delta holds a value that has no string form. *)
Definition responses_agree (streamed : Completion (list OpenAIStreamChunk))
    (whole : Completion OpenAIResponse) : Prop :=
  (streamed = Throw -> whole = Throw)
  /\ (forall out,
        whole = Normal out ->
        exists chunks,
          streamed = Normal chunks
          /\ streamed_text chunks = Normal (response_text out)
          /\ streamed_calls chunks = response_calls out)
  /\ (forall chunks,
        streamed = Normal chunks -> whole = Throw -> streamed_text chunks = Throw).

(** The chunk belongs to the stream of the state. *)
Definition of_stream (state : TransformState) (c : OpenAIStreamChunk) : Prop :=
  chunk_id c = state_id state
  /\ chunk_created c = created state
  /\ chunk_model c = model state.

(** An upstream answer with a text and two function calls, and its text
    on the wire. *)
Definition answer_payload : JSON :=
  JObj [("response",
         JObj [("candidates",
                JArr [JObj [("content",
                             JObj [("role", JStr "model");
                                   ("parts",
                                    JArr [JObj [("text", JStr "Looking up. ")];
                                          JObj [("functionCall",
                                                 JObj [("name", JStr "lookup");
                                                       ("args", JObj [("id", JNum "1")])])];
                                          JObj [("functionCall",
                                                 JObj [("name", JStr "lookup");
                                                       ("args", JObj [("id", JNum "2")])])]])]);
                            ("finishReason", JStr "STOP")]])]);
        ("traceId", JStr "t1")].

Definition answer_text : string := JSONLite.write answer_payload.

Definition system_message (text : string) : OpenAIMessage :=
  {| msg_role := "system"; msg_content := ContentString text; msg_name := None;
     msg_tool_calls := None; msg_tool_call_id := None |}.

Definition function_tool (name : string) (parameters : option JSON) : OpenAITool :=
  {| tool_type := "function"; tool_name := name; tool_description := None;
     tool_parameters := parameters |}.

(** A schema with keywords that the cleaner rewrites or removes. *)
Definition catalog_schema : JSON :=
  JObj [("type", JStr "object");
        ("title", JStr "Catalog");
        ("additionalProperties", JBool false);
        ("properties",
         JObj [("tags", JObj [("type", JStr "array"); ("minItems", JNum "1")]);
               ("kind", JObj [("const", JStr "book")]);
               ("item", JObj [("$ref", JStr "#/$defs/Item")])]);
        ("required", JArr [JStr "tags"])].

Definition catalog_schema_cleaned : JSON :=
  JObj [("type", JStr "OBJECT");
        ("properties",
         JObj [("tags", JObj [("type", JStr "ARRAY");
                              ("description", JStr "(minItems: 1)");
                              ("items", JObj [("type", JStr "STRING")])]);
               ("kind", JObj [("enum", JArr [JStr "book"]);
                              ("type", JStr "STRING");
                              ("description", JStr "(Allowed: book)")]);
               ("item", JObj [("type", JStr "OBJECT");
                              ("description", JStr "(See: Item)");
                              ("properties", placeholder_properties);
                              ("required", JArr [JStr EMPTY_SCHEMA_PLACEHOLDER_NAME])])]);
        ("required", JArr [JStr "tags"]);
        ("description", JStr "(no extra properties)")].

Definition assistant_call (name arguments : string) : OpenAIMessage :=
  {| msg_role := "assistant"; msg_content := ContentNull; msg_name := None;
     msg_tool_calls :=
       Some [{| call_id := "call_1"; call_type := "function"; call_name := name;
                call_arguments := arguments |}];
     msg_tool_call_id := None |}.

(** A conversation with two system messages, a tool call whose arguments
    are not JSON, and a tool result. *)
Definition conversation : OpenAIRequest :=
  chat_request "claude-opus-4-5"
    [system_message "be brief"; user_message "hi"; user_message "there";
     system_message "be kind"; assistant_call "lookup" "{oops"; tool_result "{}"]
    (Some [retrieval_tool; function_tool "lookup" (Some person_schema)]).

End Vocabulary.

(* ================================================================== *)
(** * Properties *)
(* ================================================================== *)

Import JS SchemaCleaner RequestTransformer Streaming Spec.

(** ** Strings and property lists *)

Lemma prefix_refl (s : string) : prefix s s = true.
Proof.
  induction s as [|c s IH]; simpl; [reflexivity|].
  destruct (ascii_dec c c) as [_|n]; [exact IH | contradiction].
Qed.

Lemma includes_self (s : string) : includes s s = true.
Proof.
  destruct s; simpl; [reflexivity|].
  rewrite prefix_refl.
  destruct (ascii_dec a a) as [_|n]; [reflexivity | contradiction].
Qed.

Lemma includes_suffix (a s : string) : includes (a ++ s) s = true.
Proof.
  induction a as [|c a IH]; simpl.
  - apply includes_self.
  - rewrite IH. apply orb_true_r.
Qed.

Lemma includes_suffix2 (a b s : string) : includes (a ++ b ++ s) s = true.
Proof.
  induction a as [|c a IH]; simpl.
  - apply includes_suffix.
  - rewrite IH. apply orb_true_r.
Qed.

Lemma lookup_set_field_same (k : string) (v : JSON) (fs : Fields) :
  lookup k (set_field k v fs) = Some v.
Proof.
  induction fs as [|[k' v'] fs IH]; simpl.
  - now rewrite String.eqb_refl.
  - destruct (String.eqb k k') eqn:E; simpl.
    + now rewrite String.eqb_refl.
    + now rewrite E.
Qed.

Lemma description_of_obj_set (d : string) (schema : JSON) :
  description_of (obj_set "description" (JStr d) schema) = d.
Proof.
  unfold description_of, obj_set, get. now rewrite lookup_set_field_same.
Qed.

(** Appending a hint twice is appending it once: the guard of
    [appendDescriptionHint] finds the hint it has just written. *)
Lemma appendDescriptionHint_idempotent (schema : JSON) (hint : string) :
  appendDescriptionHint (appendDescriptionHint schema hint) hint
  = appendDescriptionHint schema hint.
Proof.
  unfold appendDescriptionHint at 2 3.
  destruct (includes (description_of schema) ("(" ++ hint ++ ")")) eqn:E.
  - unfold appendDescriptionHint. now rewrite E.
  - unfold appendDescriptionHint.
    rewrite description_of_obj_set.
    destruct (nonempty (description_of schema)).
    + now rewrite includes_suffix2.
    + now rewrite includes_self.
Qed.

(** ** C8 *)

(** C8.  [cleanSchema] applied to [{anyOf:[{const:"a"},{const:"b"}]}]
    returns exactly [{type:"STRING", enum:["a","b"]}], whatever the
    recursion budget from 4 on. *)
Theorem cleanSchema_union_of_constants (fuel : nat) :
  cleanSchema (4 + fuel) union_of_constants = Normal string_enum.
Proof. destruct fuel; reflexivity. Qed.

(** ** C1 *)


(** ** The loop of [toGeminiFormat] *)

Lemma toGeminiFormat_obj (fs : Fields) :
  toGeminiFormat (JObj fs)
  = let result := flat_map (gemini_entry (property_names fs)) fs in
    if is_string (lookup "type" result) "ARRAY" && negb (truthy_opt (lookup "items" result))
    then JObj (set_field "items" (JObj [("type", JStr "STRING")]) result)
    else JObj result.
Proof.
  cbn [toGeminiFormat].
  set (names := property_names fs).
  match goal with
  | |- context [?f fs] =>
      match f with
      | (fix loop (l : Fields) {struct l} : Fields := _) => set (lp := f)
      end
  end.
  assert (E : forall l, lp l = flat_map (gemini_entry names) l).
  { induction l as [|[key value] l IH]; [reflexivity|].
    cbn [flat_map]. rewrite <- IH. unfold gemini_entry, gemini_value.
    cbn [fst snd].
    destruct value as [| b | r | s | elems | props]; cbn; try reflexivity.
    - destruct (String.eqb key "type"); reflexivity.
    - destruct (String.eqb key "properties"); [reflexivity|].
      destruct (String.eqb key "items"); [reflexivity|].
      cbn. destruct (is_union_key key); [reflexivity|].
      destruct (String.eqb key "required"); [|reflexivity].
      destruct names; [reflexivity|].
      destruct (valid_required _ elems); reflexivity.
    - destruct (String.eqb key "properties"); [reflexivity|].
      destruct (String.eqb key "items"); reflexivity. }
  rewrite E. reflexivity.
Qed.

Lemma lookup_set_field_other (k k' : string) (v : JSON) (fs : Fields) :
  String.eqb k k' = false -> lookup k (set_field k' v fs) = lookup k fs.
Proof.
  intros H. induction fs as [|[k0 v0] fs IH]; simpl.
  - now rewrite H.
  - destruct (String.eqb k' k0) eqn:E; simpl.
    + apply String.eqb_eq in E. subst k0. now rewrite H.
    + now rewrite IH.
Qed.

Lemma lookup_In (k : string) (v : JSON) (fs : Fields) :
  lookup k fs = Some v -> In (k, v) fs.
Proof.
  induction fs as [|[k0 v0] fs IH]; simpl; [discriminate|].
  destruct (String.eqb k k0) eqn:E.
  - apply String.eqb_eq in E. intros [= ->]. left. now subst.
  - intros H. right. now apply IH.
Qed.

Lemma lookup_app_skip (k : string) (l1 l2 : Fields) :
  (forall kv, In kv l1 -> String.eqb k (fst kv) = false) ->
  lookup k (l1 ++ l2)%list = lookup k l2.
Proof.
  induction l1 as [|[k0 v0] l1 IH]; intros H; simpl; [reflexivity|].
  pose proof (H (k0, v0) (or_introl eq_refl)) as E. simpl in E. rewrite E.
  apply IH. intros kv Hin. apply H. now right.
Qed.

(** The key of an array element starts with a digit. *)
Lemma nat_key_digit (i : nat) :
  exists c rest, nat_key i = String c rest /\ is_digit c = true.
Proof.
  unfold nat_key. destruct (Nat.to_uint i); simpl; eauto.
Qed.

Lemma lookup_indexed_from_name (A : Type) (k : string) (i : nat) (l : list A) :
  starts_with_digit k = false ->
  forall kv, In kv (indexed_from i l) -> String.eqb k (fst kv) = false.
Proof.
  intros Hk. revert i. induction l as [|x l IH]; intros i kv; simpl; [tauto|].
  intros [<- | Hin]; [|now apply (IH (S i))].
  simpl. destruct (String.eqb k (nat_key i)) eqn:E; [|reflexivity].
  apply String.eqb_eq in E. subst k.
  destruct (nat_key_digit i) as (c & rest & Hc & Hd).
  rewrite Hc in Hk. simpl in Hk. congruence.
Qed.

Lemma lookup_indexed_name (k : string) (l : list JSON) :
  starts_with_digit k = false -> lookup k (indexed l) = None.
Proof.
  intros Hk. unfold indexed.
  pose proof (lookup_indexed_from_name JSON k 0 l Hk) as H.
  induction (indexed_from 0 l) as [|[k0 v0] fs IH]; simpl; [reflexivity|].
  pose proof (H (k0, v0) (or_introl eq_refl)) as E. simpl in E. rewrite E.
  apply IH. intros kv Hin. apply H. now right.
Qed.

(** A value that is not an object has no named property. *)
Lemma get_name_not_object (v : JSON) (k : string) :
  starts_with_digit k = false -> String.eqb k "length" = false ->
  (forall fs, v <> JObj fs) -> get v k = None.
Proof.
  intros Hk Hl Hv. destruct v; simpl; try reflexivity.
  - rewrite Hl. now apply lookup_indexed_name.
  - rewrite Hl. now apply lookup_indexed_name.
  - now elim (Hv fields).
Qed.

Lemma map_fst_indexed_from (A B : Type) (f : A -> B) (i : nat) (l : list A) :
  map fst (indexed_from i (map f l)) = map fst (indexed_from i l).
Proof.
  revert i. induction l as [|x l IH]; intros i; simpl; [reflexivity|].
  now rewrite IH.
Qed.

Lemma In_indexed_from (A : Type) (k : string) (x : A) (i : nat) (l : list A) :
  In (k, x) (indexed_from i l) -> In x l.
Proof.
  revert i. induction l as [|y l IH]; intros i; simpl; [tauto|].
  intros [[= _ ->] | H]; [now left | right; eapply IH; eauto].
Qed.

Lemma gemini_entry_key (names : list string) (kv kv' : string * JSON) :
  In kv' (gemini_entry names kv) -> fst kv' = fst kv.
Proof.
  destruct kv as [key value]. unfold gemini_entry. cbn [fst snd].
  destruct value; try (intros [<- | []]; reflexivity).
  destruct (_ || _); [intros [<- | []]; reflexivity|].
  destruct (String.eqb key "required"); [|intros [<- | []]; reflexivity].
  destruct names; [intros [<- | []]; reflexivity|].
  destruct (valid_required _ _); [intros []|intros [<- | []]; reflexivity].
Qed.

Lemma is_union_key_required : is_union_key "required" = false.
Proof. reflexivity. Qed.

Lemma gemini_entry_other (names : list string) (key : string) (value : JSON) :
  String.eqb key "required" = false ->
  gemini_entry names (key, value) = [(key, gemini_value key value)].
Proof.
  intros H. unfold gemini_entry, gemini_value. cbn [fst snd].
  destruct value; try reflexivity.
  destruct (String.eqb key "properties"); [reflexivity|].
  destruct (String.eqb key "items"); [reflexivity|].
  cbn. destruct (is_union_key key); [reflexivity|]. now rewrite H.
Qed.

Lemma lookup_gemini_other (names : list string) (k : string) (fs : Fields) :
  String.eqb k "required" = false ->
  lookup k (flat_map (gemini_entry names) fs) = option_map (gemini_value k) (lookup k fs).
Proof.
  intros H. induction fs as [|[key value] fs IH]; [reflexivity|].
  cbn [flat_map lookup].
  destruct (String.eqb k key) eqn:E.
  - apply String.eqb_eq in E. subst key.
    rewrite gemini_entry_other by assumption. simpl. now rewrite String.eqb_refl.
  - rewrite lookup_app_skip; [exact IH|].
    intros kv' Hin. apply gemini_entry_key in Hin. cbn in Hin. now rewrite Hin.
Qed.

Lemma valid_required_spec (names : list string) (elems : list JSON) (entry : JSON) :
  In entry (valid_required names elems) ->
  exists name, entry = JStr name /\ In name names.
Proof.
  unfold valid_required. rewrite filter_In. intros [_ H].
  destruct entry; try discriminate. exists s. split; [reflexivity|].
  apply existsb_exists in H. destruct H as (n & Hn & E).
  apply String.eqb_eq in E. now subst.
Qed.

Lemma lookup_gemini_required (names : list string) (fs : Fields) (required : list JSON) :
  lookup "required" (flat_map (gemini_entry names) fs) = Some (JArr required) ->
  names <> [] ->
  required <> []
  /\ forall entry, In entry required -> exists name, entry = JStr name /\ In name names.
Proof.
  intros H Hn. induction fs as [|[key value] fs IH]; [discriminate|].
  cbn [flat_map] in H.
  destruct (String.eqb "required" key) eqn:E.
  - apply String.eqb_eq in E. subst key.
    unfold gemini_entry in H. cbn [fst snd] in H.
    destruct value; try (cbn in H; discriminate).
    + cbn in H. destruct names as [|n names]; [contradiction|].
      destruct (valid_required (n :: names) items) as [|e valid] eqn:V.
      * now apply IH.
      * cbn in H. injection H as <-. split; [discriminate|].
        intros entry Hin. rewrite <- V in Hin. now apply valid_required_spec in Hin.
  - rewrite lookup_app_skip in H; [now apply IH|].
    intros kv' Hin. apply gemini_entry_key in Hin. cbn in Hin. now rewrite Hin.
Qed.

Lemma property_names_gemini (fs : Fields) :
  property_names (flat_map (gemini_entry (property_names fs)) fs) = property_names fs.
Proof.
  unfold property_names at 1 3.
  rewrite lookup_gemini_other by reflexivity.
  destruct (lookup "properties" fs) as [p|]; [|reflexivity].
  destruct p; try reflexivity; cbn.
  - unfold keys, entries, indexed. apply map_fst_indexed_from.
  - unfold keys, entries. rewrite map_map. reflexivity.
Qed.

(** ** Size of a value, for inductions through nested values *)

Lemma list_sum_In_le (A : Type) (f : A -> nat) (x : A) (l : list A) :
  In x l -> f x <= list_sum (map f l).
Proof.
  induction l as [|y l IH]; simpl; [tauto|].
  intros [-> | H]; [lia | specialize (IH H); lia].
Qed.

Lemma size_element (x : JSON) (items : list JSON) :
  In x items -> size x < size (JArr items).
Proof.
  intros H. simpl. pose proof (list_sum_In_le _ size x items H). lia.
Qed.

Lemma size_field (k : string) (x : JSON) (fs : Fields) :
  In (k, x) fs -> size x < size (JObj fs).
Proof.
  intros H. simpl.
  pose proof (list_sum_In_le _ (fun kv => size (snd kv)) (k, x) fs H) as L.
  simpl in L. lia.
Qed.

Lemma size_entry (k : string) (x v : JSON) :
  In (k, x) (entries v) -> size x < size v \/ size x = 0.
Proof.
  destruct v; simpl; try tauto.
  - intros H. right. unfold indexed in H.
    assert (G : forall i l, In (k, x) (indexed_from i (chars l)) -> size x = 0).
    { intros i l. revert i. induction l as [|c l IH]; intros i; simpl; [tauto|].
      intros [[= _ <-] | H']; [reflexivity | eapply IH; eauto]. }
    eapply G; eauto.
  - intros H. left. apply In_indexed_from in H.
    pose proof (list_sum_In_le _ size x items H). lia.
  - intros H. left.
    pose proof (list_sum_In_le _ (fun kv => size (snd kv)) (k, x) fields H) as L.
    simpl in L. lia.
Qed.

Lemma schema_node_not_container (v node : JSON) :
  is_object v = false -> schema_node v node -> node = v.
Proof.
  intros H Hn. destruct Hn; try reflexivity; discriminate.
Qed.

Lemma is_union_key_not_special (k : string) :
  is_union_key k = true ->
  String.eqb k "required" = false /\ String.eqb k "items" = false
  /\ String.eqb k "properties" = false.
Proof.
  unfold is_union_key. intros H.
  apply orb_true_iff in H. destruct H as [H | H];
    [apply orb_true_iff in H; destruct H as [H | H]|];
    apply String.eqb_eq in H; subst k; repeat split; reflexivity.
Qed.

Lemma bind_Normal (A B : Type) (c : Completion A) (k : A -> Completion B) (b : B) :
  bind c k = Normal b -> exists a, c = Normal a /\ k a = Normal b.
Proof.
  destruct c as [a| |]; simpl; try discriminate. intros H. now exists a.
Qed.

(** ** The walkers *)

Lemma walk_not_object edit (n : nat) (v : JSON) :
  is_object v = false -> walk edit n v = Normal v.
Proof. destruct n, v; try discriminate; reflexivity. Qed.

Lemma walk_arr edit (n : nat) (items : list JSON) (r : JSON) :
  walk edit n (JArr items) = Normal r ->
  exists m items', n = S m /\ mapM (walk edit m) items = Normal items' /\ r = JArr items'.
Proof.
  destruct n as [|m]; [discriminate|]. cbn [walk]. intros H.
  apply bind_Normal in H. destruct H as (items' & H & [= <-]). eauto.
Qed.

Lemma walk_obj_edit (f : JSON -> Completion JSON) (n : nat) (fs : Fields) (r : JSON) :
  walk (node_edit f) n (JObj fs) = Normal r ->
  exists m e fs',
    n = S m
    /\ f (JObj fs) = Normal e
    /\ map_children (walk (node_edit f) m) (entries e) = Normal fs'
    /\ r = JObj fs'.
Proof.
  destruct n as [|m]; [discriminate|]. cbn [walk]. unfold node_edit at 1. intros H.
  apply bind_Normal in H. destruct H as (e & He & H).
  apply bind_Normal in H. destruct H as (fs' & H & [= <-]).
  exists m, e, fs'. auto.
Qed.

Lemma walk_obj (f : JSON -> JSON) (n : nat) (fs : Fields) (r : JSON) :
  walk (pure_edit f) n (JObj fs) = Normal r ->
  exists m fs',
    n = S m
    /\ map_children (walk (pure_edit f) m) (entries (f (JObj fs))) = Normal fs'
    /\ r = JObj fs'.
Proof.
  destruct n as [|m]; [discriminate|]. cbn [walk pure_edit bind]. intros H.
  apply bind_Normal in H. destruct H as (fs' & H & [= <-]). eauto.
Qed.

Lemma mapM_In (A B : Type) (g : A -> Completion B) (l : list A) (l' : list B) :
  mapM g l = Normal l' ->
  forall y, In y l' -> exists x, In x l /\ g x = Normal y.
Proof.
  revert l'. induction l as [|x l IH]; intros l' H y Hy.
  - injection H as <-. destruct Hy.
  - cbn [mapM] in H. apply bind_Normal in H. destruct H as (y0 & Hy0 & H).
    apply bind_Normal in H. destruct H as (ys & Hys & [= <-]).
    destruct Hy as [<- | Hy].
    + exists x. split; [now left | exact Hy0].
    + destruct (IH ys Hys y Hy) as (x' & Hin & Hg). exists x'. split; [now right | exact Hg].
Qed.

Lemma map_children_In (self : JSON -> Completion JSON) (fs fs' : Fields) :
  map_children self fs = Normal fs' ->
  forall k x', In (k, x') fs' -> exists x, In (k, x) fs /\ child_rel self x x'.
Proof.
  unfold map_children. intros H k x' Hin.
  destruct (mapM_In _ _ _ _ _ H (k, x') Hin) as ([k0 x] & Hin0 & Hg).
  cbn [fst snd] in Hg. unfold child_rel.
  destruct (is_object x) eqn:E.
  - apply bind_Normal in Hg. destruct Hg as (v & Hv & [= <- <-]).
    exists x. split; [exact Hin0|]. now rewrite E.
  - injection Hg as <- <-. exists x. split; [exact Hin0|]. now rewrite E.
Qed.

Lemma map_children_lookup (self : JSON -> Completion JSON) (fs fs' : Fields) (k : string) :
  map_children self fs = Normal fs' ->
  match lookup k fs with
  | Some x => exists x', lookup k fs' = Some x' /\ child_rel self x x'
  | None => lookup k fs' = None
  end.
Proof.
  unfold map_children. revert fs'. induction fs as [|[k0 x] fs IH]; intros fs' H.
  - injection H as <-. reflexivity.
  - cbn [mapM] in H. apply bind_Normal in H. destruct H as ([k1 y] & Hy & H).
    apply bind_Normal in H. destruct H as (ys & Hys & [= <-]).
    cbn [fst snd] in Hy.
    assert (K : k1 = k0 /\ child_rel self x y).
    { unfold child_rel. destruct (is_object x).
      - apply bind_Normal in Hy. destruct Hy as (v & Hv & [= <- <-]). now split.
      - injection Hy as <- <-. now split. }
    destruct K as [-> K]. cbn [lookup].
    destruct (String.eqb k k0); [now exists y|]. now apply IH.
Qed.

Lemma child_rel_kind edit (m : nat) (x x' : JSON) :
  child_rel (walk edit m) x x' ->
  match x with
  | JArr _ => exists items', x' = JArr items'
  | JObj _ => exists fs', x' = JObj fs'
  | _ => x' = x
  end.
Proof.
  unfold child_rel. destruct x; cbn [is_object]; try (intros ->; reflexivity).
  - intros H. apply walk_arr in H. destruct H as (? & items' & _ & _ & ->). eauto.
  - destruct m as [|m]; [discriminate|]. cbn [walk]. intros H.
    apply bind_Normal in H. destruct H as (r & _ & H).
    apply bind_Normal in H. destruct H as (fs' & _ & [= <-]). eauto.
Qed.

Lemma schema_node_trans (a b c : JSON) :
  schema_node a b -> schema_node b c -> schema_node a c.
Proof.
  intros H. revert c. induction H; intros c Hc; eauto using schema_node.
Qed.

Lemma at_nodes_node (P : JSON -> Prop) (v n : JSON) :
  at_nodes P v -> schema_node v n -> at_nodes P n.
Proof. intros H Hn x Hx. apply H. eapply schema_node_trans; eauto. Qed.

Lemma not_object_not_JObj (v : JSON) : is_object v = false -> forall fs, v <> JObj fs.
Proof. intros H fs ->. discriminate. Qed.

(** ** A property of the nodes, through a walker *)

Section WalkEditNodes.
Variable f : JSON -> Completion JSON.
Variable Pre Inv : JSON -> Prop.

Hypothesis Inv_other : forall v, (forall fs, v <> JObj fs) -> Inv v.
Hypothesis Pre_element : forall items x, Pre (JArr items) -> In x items -> Pre x.
Hypothesis Inv_root :
  forall m fs e fs',
    Pre (JObj fs) ->
    f (JObj fs) = Normal e ->
    map_children (walk (node_edit f) m) (entries e) = Normal fs' ->
    Inv (JObj fs').
Hypothesis Pre_property :
  forall fs e pf ep k x,
    Pre (JObj fs) ->
    f (JObj fs) = Normal e ->
    lookup "properties" (entries e) = Some (JObj pf) ->
    f (JObj pf) = Normal ep ->
    In (k, x) (entries ep) -> Pre x.
Hypothesis Pre_property_element :
  forall fs e items x,
    Pre (JObj fs) ->
    f (JObj fs) = Normal e ->
    lookup "properties" (entries e) = Some (JArr items) ->
    In x items -> Pre x.
Hypothesis Pre_items :
  forall fs e x,
    Pre (JObj fs) -> f (JObj fs) = Normal e ->
    lookup "items" (entries e) = Some x -> Pre x.
Hypothesis Pre_branch :
  forall fs e k bs b,
    Pre (JObj fs) -> f (JObj fs) = Normal e -> is_union_key k = true ->
    lookup k (entries e) = Some (JArr bs) -> In b bs -> Pre b.

Theorem walk_edit_at_nodes (m : nat) :
  forall v r, Pre v -> walk (node_edit f) m v = Normal r -> at_nodes Inv r.
Proof.
  induction m as [m IH] using lt_wf_ind. intros v r HPre Hw.
  assert (IHc : forall m0 x x', m0 < m -> Pre x ->
                                child_rel (walk (node_edit f) m0) x x' ->
                                at_nodes Inv x').
  { intros m0 x x' Hlt Hx Hrel. unfold child_rel in Hrel.
    destruct (is_object x) eqn:E.
    - now apply (IH m0 Hlt x x').
    - subst x'. intros node Hnode.
      apply schema_node_not_container in Hnode; [|exact E]. subst node.
      apply Inv_other. now apply not_object_not_JObj. }
  destruct v as [| b | num | s | items | fs];
    try (rewrite walk_not_object in Hw by reflexivity; injection Hw as <-;
         intros node Hnode;
         apply schema_node_not_container in Hnode; [|reflexivity]; subst node;
         apply Inv_other; discriminate).
  - (* array *)
    apply walk_arr in Hw. destruct Hw as (m' & items' & -> & HM & ->).
    intros node Hnode.
    inversion Hnode as [v | its x n' Hin Hx | | |]; subst.
    + apply Inv_other. discriminate.
    + destruct (mapM_In _ _ _ _ _ HM x Hin) as (x0 & Hin0 & Hw0).
      apply (IH m' (Nat.lt_succ_diag_r m') x0 x); eauto.
  - (* object *)
    apply walk_obj_edit in Hw. destruct Hw as (m' & e & fs' & -> & He & HM & ->).
    intros node Hnode.
    inversion Hnode as [v | | fs0 p' k x' n' Hp Hobj Hin Hx
                       | fs0 x' n' Hi Hx | fs0 k bs' b' n' Hk Hb Hin Hx]; subst.
    + now apply (Inv_root m' fs e fs').
    + (* below a property *)
      pose proof (map_children_lookup _ _ _ "properties" HM) as L.
      destruct (lookup "properties" (entries e)) as [p|] eqn:Ep;
        [|congruence].
      destruct L as (p0 & Hp0 & Hrel). rewrite Hp in Hp0. injection Hp0 as <-.
      pose proof (child_rel_kind _ _ _ _ Hrel) as K.
      unfold child_rel in Hrel.
      destruct p as [| b | num | s | items | pf]; try (subst p'; discriminate).
      * cbn [is_object] in Hrel. apply walk_arr in Hrel.
        destruct Hrel as (m'' & items'' & -> & HM2 & ->).
        cbn [entries] in Hin. apply In_indexed_from in Hin.
        destruct (mapM_In _ _ _ _ _ HM2 x' Hin) as (x0 & Hin0 & Hw0).
        apply (IH m'' (Nat.lt_lt_succ_r _ _ (Nat.lt_succ_diag_r m'')) x0 x'); eauto.
      * cbn [is_object] in Hrel. apply walk_obj_edit in Hrel.
        destruct Hrel as (m'' & ep & pf' & -> & Hep & HM2 & ->).
        cbn [entries] in Hin.
        destruct (map_children_In _ _ _ HM2 k x' Hin) as (x0 & Hin0 & Hrel0).
        apply (IHc m'' x0 x'); eauto.
    + (* below items *)
      pose proof (map_children_lookup _ _ _ "items" HM) as L.
      destruct (lookup "items" (entries e)) as [x|] eqn:Ex; [|congruence].
      destruct L as (x0 & Hx0 & Hrel). rewrite Hi in Hx0. injection Hx0 as <-.
      apply (IHc m' x x'); eauto.
    + (* below a union *)
      pose proof (map_children_lookup _ _ _ k HM) as L.
      destruct (lookup k (entries e)) as [x|] eqn:Ex; [|congruence].
      destruct L as (x0 & Hx0 & Hrel). rewrite Hb in Hx0. injection Hx0 as <-.
      pose proof (child_rel_kind _ _ _ _ Hrel) as K.
      unfold child_rel in Hrel.
      destruct x as [| b | num | s | bs | pf]; try discriminate;
        [|destruct K as (? & ?); discriminate].
      cbn [is_object] in Hrel. apply walk_arr in Hrel.
      destruct Hrel as (m'' & bs2 & -> & HM2 & [= <-]).
      destruct (mapM_In _ _ _ _ _ HM2 b' Hin) as (b0 & Hin0 & Hw0).
      apply (IH m'' (Nat.lt_lt_succ_r _ _ (Nat.lt_succ_diag_r m'')) b0 b'); eauto.
Qed.
End WalkEditNodes.

Section WalkNodes.
Variable f : JSON -> JSON.
Variable Pre Inv : JSON -> Prop.

Hypothesis Inv_other : forall v, (forall fs, v <> JObj fs) -> Inv v.
Hypothesis Pre_element : forall items x, Pre (JArr items) -> In x items -> Pre x.
Hypothesis Inv_root :
  forall m fs fs',
    Pre (JObj fs) ->
    map_children (walk (pure_edit f) m) (entries (f (JObj fs))) = Normal fs' ->
    Inv (JObj fs').
Hypothesis Pre_property :
  forall fs pf k x,
    Pre (JObj fs) ->
    lookup "properties" (entries (f (JObj fs))) = Some (JObj pf) ->
    In (k, x) (entries (f (JObj pf))) -> Pre x.
Hypothesis Pre_property_element :
  forall fs items x,
    Pre (JObj fs) ->
    lookup "properties" (entries (f (JObj fs))) = Some (JArr items) ->
    In x items -> Pre x.
Hypothesis Pre_items :
  forall fs x,
    Pre (JObj fs) -> lookup "items" (entries (f (JObj fs))) = Some x -> Pre x.
Hypothesis Pre_branch :
  forall fs k bs b,
    Pre (JObj fs) -> is_union_key k = true ->
    lookup k (entries (f (JObj fs))) = Some (JArr bs) -> In b bs -> Pre b.

Theorem walk_at_nodes (m : nat) :
  forall v r, Pre v -> walk (pure_edit f) m v = Normal r -> at_nodes Inv r.
Proof.
  intros v r. change (pure_edit f) with (node_edit (fun x => Normal (f x))).
  apply (walk_edit_at_nodes (fun x => Normal (f x)) Pre Inv).
  - exact Inv_other.
  - exact Pre_element.
  - intros m' fs e fs' HPre [= <-]. now apply Inv_root.
  - intros fs e pf ep k x HPre [= <-] Hp [= <-]. now apply (Pre_property fs pf k x).
  - intros fs e items x HPre [= <-]. now apply (Pre_property_element fs items x).
  - intros fs e x HPre [= <-]. now apply (Pre_items fs x).
  - intros fs e k bs b HPre [= <-]. now apply (Pre_branch fs k bs b).
Qed.
End WalkNodes.

(** ** Property lists: deletion and assignment *)

Lemma lookup_delete_field_same (k : string) (fs : Fields) :
  lookup k (delete_field k fs) = None.
Proof.
  induction fs as [|[k0 v0] fs IH]; [reflexivity|]. cbn [delete_field].
  destruct (String.eqb k k0) eqn:E; [exact IH|]. cbn [lookup]. now rewrite E.
Qed.

Lemma lookup_delete_field_other (k k' : string) (fs : Fields) :
  String.eqb k k' = false -> lookup k (delete_field k' fs) = lookup k fs.
Proof.
  intros H. induction fs as [|[k0 v0] fs IH]; [reflexivity|]. cbn [delete_field lookup].
  destruct (String.eqb k' k0) eqn:E.
  - apply String.eqb_eq in E. subst k0. now rewrite H.
  - cbn [lookup]. now rewrite IH.
Qed.

Lemma In_delete_field (k : string) (kv : string * JSON) (fs : Fields) :
  In kv (delete_field k fs) -> In kv fs.
Proof.
  induction fs as [|[k0 v0] fs IH]; [tauto|]. cbn [delete_field].
  destruct (String.eqb k k0); cbn [In]; tauto.
Qed.

Lemma In_set_field (k : string) (v : JSON) (kv : string * JSON) (fs : Fields) :
  In kv (set_field k v fs) -> kv = (k, v) \/ In kv fs.
Proof.
  induction fs as [|[k0 v0] fs IH]; cbn [set_field In].
  - intros [<- | []]. now left.
  - destruct (String.eqb k k0); cbn [In].
    + intros [<- | H]; [now left | right; now right].
    + intros [<- | H]; [right; now left|].
      destruct (IH H) as [-> | H']; [now left | right; now right].
Qed.

Lemma set_field_not_nil (k : string) (v : JSON) (fs : Fields) : set_field k v fs <> [].
Proof. destruct fs as [|[k0 v0] fs]; cbn; [discriminate|]. now destruct (String.eqb k k0). Qed.

Lemma delete_field_nil (k : string) (fs : Fields) :
  delete_field k fs = [] -> forall k' v, In (k', v) fs -> k' = k.
Proof.
  induction fs as [|[k0 v0] fs IH]; [intros _ ? ? []|]. cbn [delete_field].
  destruct (String.eqb k k0) eqn:E; [|discriminate].
  apply String.eqb_eq in E. subst k0. intros H k' v [[= <- <-] | Hin]; eauto.
Qed.

Lemma map_children_nil (self : JSON -> Completion JSON) (fs : Fields) :
  map_children self fs = Normal [] -> fs = [].
Proof.
  destruct fs as [|kv fs]; [reflexivity|]. unfold map_children. cbn [mapM]. intros H.
  apply bind_Normal in H. destruct H as (y & _ & H).
  apply bind_Normal in H. destruct H as (ys & _ & H). discriminate.
Qed.

(** ** Phase 3a: [removeUnsupportedKeywords] *)

Lemma removeUnsupportedKeywords_obj (fs : Fields) :
  removeUnsupportedKeywords (JObj fs) false = JObj (flat_map kept_entry fs).
Proof.
  cbn [removeUnsupportedKeywords]. f_equal.
  match goal with
  | |- ?g fs = _ => set (lp := g)
  end.
  induction fs as [|[key value] fs IH]; [reflexivity|].
  cbn [flat_map]. rewrite <- IH. unfold kept_entry, kept_value. cbn [fst snd].
  destruct (is_unsupported key) eqn:E.
  - subst lp. cbn -[is_unsupported]. rewrite E. reflexivity.
  - subst lp. cbn -[is_unsupported]. rewrite E. destruct value; reflexivity.
Qed.

Lemma kept_entry_key (kv kv' : string * JSON) :
  In kv' (kept_entry kv) -> fst kv' = fst kv.
Proof.
  unfold kept_entry. destruct (is_unsupported (fst kv)); [intros []|].
  intros [<- | []]. reflexivity.
Qed.

Lemma lookup_kept (k : string) (fs : Fields) :
  is_unsupported k = false ->
  lookup k (flat_map kept_entry fs) = option_map (kept_value k) (lookup k fs).
Proof.
  intros H. induction fs as [|[key value] fs IH]; [reflexivity|].
  cbn [flat_map lookup]. destruct (String.eqb k key) eqn:E.
  - apply String.eqb_eq in E. subst key. unfold kept_entry. cbn [fst snd].
    rewrite H. cbn. now rewrite String.eqb_refl.
  - rewrite lookup_app_skip; [exact IH|].
    intros kv' Hin. apply kept_entry_key in Hin. cbn in Hin. now rewrite Hin.
Qed.

Lemma properties_not_array_other (v : JSON) :
  (forall fs, v <> JObj fs) -> properties_not_array v.
Proof.
  intros H items. rewrite get_name_not_object; auto; discriminate.
Qed.

Lemma removeUnsupportedKeywords_nodes (n : nat) :
  forall schema,
    size schema <= n ->
    at_nodes properties_not_array (removeUnsupportedKeywords schema false).
Proof.
  induction n as [|n IH]; intros schema Hs node Hnode.
  - destruct schema; simpl in Hs; try lia;
      apply schema_node_not_container in Hnode; try reflexivity; subst node;
      apply properties_not_array_other; discriminate.
  - destruct schema as [| b | r | s | items | fs];
      try (apply schema_node_not_container in Hnode; [|reflexivity]; subst node;
           apply properties_not_array_other; discriminate).
    + cbn [removeUnsupportedKeywords] in Hnode.
      inversion Hnode as [v | items' x n' Hin Hx | | |]; subst.
      * apply properties_not_array_other; discriminate.
      * apply in_map_iff in Hin. destruct Hin as (x0 & <- & Hin0).
        apply (IH x0); [|assumption].
        pose proof (size_element _ _ Hin0). lia.
    + rewrite removeUnsupportedKeywords_obj in Hnode.
      inversion Hnode as [v | | fs' p k x n' Hp Hobj Hin Hx
                         | fs' x n' Hi Hx | fs' k bs x n' Hk Hb Hin Hx]; subst.
      * intros items. cbn [get]. rewrite lookup_kept by reflexivity.
        destruct (lookup "properties" fs) as [[| | | | |]|]; discriminate.
      * rewrite lookup_kept in Hp by reflexivity.
        destruct (lookup "properties" fs) as [p0|] eqn:Ep; [|discriminate].
        apply lookup_In in Ep. apply size_field in Ep.
        injection Hp as <-.
        destruct p0 as [| b | r | s | elems | props]; try discriminate.
        -- cbn in Hin. apply In_indexed_from in Hin.
           apply in_map_iff in Hin. destruct Hin as (x0 & <- & Hin0).
           apply (IH x0); [|assumption].
           pose proof (size_element _ _ Hin0). lia.
        -- cbn in Hin. apply in_map_iff in Hin.
           destruct Hin as ([k0 x0] & [= <- <-] & Hin0).
           apply (IH x0); [|assumption].
           pose proof (size_field _ _ _ Hin0). lia.
      * rewrite lookup_kept in Hi by reflexivity.
        destruct (lookup "items" fs) as [v0|] eqn:Ev; [|discriminate].
        apply lookup_In in Ev. apply size_field in Ev.
        injection Hi as <-.
        destruct v0 as [| b | r | s | elems | props];
          try (apply schema_node_not_container in Hx; [|reflexivity]; subst node;
               apply properties_not_array_other; discriminate).
        -- apply (IH (JArr elems)); [lia | exact Hx].
        -- apply (IH (JObj props)); [lia | exact Hx].
      * pose proof (is_union_key_not_special _ Hk) as (Kr & Ki & Kp).
        assert (Ku : is_unsupported k = false).
        { unfold is_union_key in Hk.
          apply orb_true_iff in Hk. destruct Hk as [Hk | Hk];
            [apply orb_true_iff in Hk; destruct Hk as [Hk | Hk]|];
            apply String.eqb_eq in Hk; subst k; reflexivity. }
        rewrite lookup_kept in Hb by assumption.
        destruct (lookup k fs) as [v0|] eqn:Ev; [|discriminate].
        apply lookup_In in Ev. apply size_field in Ev.
        injection Hb as Hb.
        destruct v0 as [| b | r | s | elems | props]; try discriminate.
        -- unfold kept_value in Hb. rewrite Kp in Hb. cbn in Hb. injection Hb as <-.
           apply in_map_iff in Hin. destruct Hin as (x0 & <- & Hin0).
           apply (IH x0); [|assumption].
           pose proof (size_element _ _ Hin0). lia.
        -- unfold kept_value in Hb. rewrite Kp in Hb.
           cbn [removeUnsupportedKeywords] in Hb. discriminate.
Qed.

Lemma settled_other (v : JSON) : (forall fs, v <> JObj fs) -> settled v.
Proof.
  intros H. split; [now apply properties_not_array_other|].
  intros Hp. rewrite get_name_not_object in Hp; auto; discriminate.
Qed.

Lemma at_nodes_element (P : JSON -> Prop) (items : list JSON) (x : JSON) :
  at_nodes P (JArr items) -> In x items -> at_nodes P x.
Proof. intros H Hin n Hn. apply H. now apply (node_element items x). Qed.

Lemma at_nodes_sublist (P : JSON -> Prop) (l l' : list JSON) :
  (forall items, P (JArr items)) ->
  at_nodes P (JArr l) -> (forall x, In x l' -> In x l) -> at_nodes P (JArr l').
Proof.
  intros HP H Hsub n Hn.
  inversion Hn as [v | items x n' Hin Hx | | |]; subst; [apply HP|].
  apply H. apply (node_element l x); auto.
Qed.

Lemma at_nodes_property (P : JSON -> Prop) (fs pf : Fields) (k : string) (x : JSON) :
  at_nodes P (JObj fs) ->
  lookup "properties" fs = Some (JObj pf) -> In (k, x) pf -> at_nodes P x.
Proof.
  intros H Hp Hin n Hn. apply H.
  now apply (node_property fs (JObj pf) k x).
Qed.

Lemma at_nodes_items (P : JSON -> Prop) (fs : Fields) (x : JSON) :
  at_nodes P (JObj fs) -> lookup "items" fs = Some x -> at_nodes P x.
Proof. intros H Hi n Hn. apply H. now apply (node_items fs x). Qed.

Lemma at_nodes_branch (P : JSON -> Prop) (fs : Fields) (k : string)
    (bs : list JSON) (b : JSON) :
  at_nodes P (JObj fs) -> is_union_key k = true ->
  lookup k fs = Some (JArr bs) -> In b bs -> at_nodes P b.
Proof. intros H Hk Hb Hin n Hn. apply H. now apply (node_branch fs k bs b). Qed.

(** ** Phase 3b: [cleanupRequiredFields] *)

Lemma own_required_In (properties : JSON) (required valid : list JSON) :
  own_required properties required = Normal valid ->
  forall e, In e valid -> In e required.
Proof.
  revert valid. induction required as [|req required IH]; intros valid H e He.
  - injection H as <-. destruct He.
  - cbn [own_required] in H. apply bind_Normal in H. destruct H as (key & _ & H).
    apply bind_Normal in H. destruct H as (valid0 & Hv & [= <-]).
    destruct (hasOwnProperty properties key).
    + destruct He as [<- | He]; [now left | right; now apply (IH valid0)].
    + right. now apply (IH valid0).
Qed.

Lemma own_required_no_keys (required valid : list JSON) :
  own_required (JObj []) required = Normal valid -> valid = [].
Proof.
  revert valid. induction required as [|req required IH]; intros valid H.
  - now injection H as <-.
  - cbn [own_required] in H. apply bind_Normal in H. destruct H as (key & _ & H).
    apply bind_Normal in H. destruct H as (valid0 & Hv & [= <-]).
    cbn. now apply IH.
Qed.

(** What the edit of [cleanupRequiredFields] returns. *)
Lemma cleanup_cases (fs : Fields) (e : JSON) :
  cleanupRequiredFields_node (JObj fs) = Normal e ->
  e = JObj fs
  \/ (e = obj_delete "required" (JObj fs)
      /\ exists properties, lookup "properties" fs = Some properties)
  \/ exists required valid,
       lookup "required" fs = Some (JArr required)
       /\ (forall x, In x valid -> In x required)
       /\ valid <> []
       /\ e = obj_set "required" (JArr valid) (JObj fs).
Proof.
  unfold cleanupRequiredFields_node. cbn [get].
  destruct (lookup "required" fs) as [[| | | | required |]|] eqn:Er;
    try (intros [= <-]; now left).
  destruct (lookup "properties" fs) as [properties|] eqn:Ep; [|intros [= <-]; now left].
  destruct (is_object properties) eqn:Eo; [|intros [= <-]; now left].
  intros H. apply bind_Normal in H. destruct H as (valid & Hv & H).
  destruct valid as [|x valid].
  - injection H as <-. right. left. split; [reflexivity | now exists properties].
  - destruct (negb _); injection H as <-; [|now left].
    right. right. exists required, (x :: valid). repeat split; try discriminate.
    exact (own_required_In _ _ _ Hv).
Qed.

Lemma cleanup_lookup_other (k : string) (fs : Fields) (e : JSON) :
  cleanupRequiredFields_node (JObj fs) = Normal e ->
  String.eqb k "required" = false ->
  lookup k (entries e) = lookup k fs.
Proof.
  intros He H.
  destruct (cleanup_cases fs e He) as [-> | [[-> _] | (required & valid & _ & _ & _ & ->)]].
  - reflexivity.
  - cbn. now apply lookup_delete_field_other.
  - cbn. now apply lookup_set_field_other.
Qed.

Lemma cleanup_In (k : string) (x : JSON) (fs : Fields) (e : JSON) :
  cleanupRequiredFields_node (JObj fs) = Normal e ->
  In (k, x) (entries e) ->
  In (k, x) fs
  \/ exists required valid,
       lookup "required" fs = Some (JArr required)
       /\ (forall e, In e valid -> In e required) /\ x = JArr valid.
Proof.
  intros He.
  destruct (cleanup_cases fs e He)
    as [-> | [[-> _] | (required & valid & Hr & Hsub & _ & ->)]].
  - now left.
  - cbn. intros H. left. now apply In_delete_field in H.
  - cbn. intros H. apply In_set_field in H. destruct H as [[= -> ->] | H]; [|now left].
    right. exists required, valid. now repeat split.
Qed.

Lemma cleanup_not_nil (fs : Fields) (e : JSON) :
  cleanupRequiredFields_node (JObj fs) = Normal e ->
  entries e = [] -> fs = [].
Proof.
  intros He.
  destruct (cleanup_cases fs e He)
    as [-> | [[-> (properties & Ep)] | (required & valid & Hr & Hsub & _ & ->)]].
  - auto.
  - cbn. intros H. apply lookup_In in Ep.
    pose proof (delete_field_nil _ _ H _ _ Ep). discriminate.
  - cbn. intros H. now apply set_field_not_nil in H.
Qed.

Lemma cleanup_required_empty_properties (fs : Fields) (e : JSON)
    (required : list JSON) :
  cleanupRequiredFields_node (JObj fs) = Normal e ->
  lookup "properties" fs = Some (JObj []) ->
  lookup "required" (entries e) <> Some (JArr required).
Proof.
  intros He Hp. unfold cleanupRequiredFields_node in He. cbn [get] in He.
  rewrite Hp in He.
  destruct (lookup "required" fs) as [[| | | | req |]|] eqn:Er;
    try (injection He as <-; cbn [entries]; rewrite Er; discriminate).
  cbn [is_object] in He.
  apply bind_Normal in He. destruct He as (valid & Hv & He).
  apply own_required_no_keys in Hv. subst valid. injection He as <-.
  cbn. rewrite lookup_delete_field_same. discriminate.
Qed.

Lemma child_rel_arr edit (m : nat) (x : JSON) (items' : list JSON) :
  child_rel (walk edit m) x (JArr items') -> exists items, x = JArr items.
Proof.
  intros H. pose proof (child_rel_kind _ _ _ _ H) as K.
  destruct x; try discriminate; eauto. destruct K as (? & ?). discriminate.
Qed.

Lemma child_rel_obj_nil_edit (f : JSON -> Completion JSON) (m : nat) (x : JSON) :
  child_rel (walk (node_edit f) m) x (JObj []) ->
  exists pf e, x = JObj pf /\ f (JObj pf) = Normal e /\ entries e = [].
Proof.
  intros H. pose proof (child_rel_kind _ _ _ _ H) as K.
  destruct x; try discriminate; [destruct K as (? & ?); discriminate|].
  unfold child_rel in H. cbn [is_object] in H. apply walk_obj_edit in H.
  destruct H as (m' & e & fs' & -> & He & HM & [= <-]).
  apply map_children_nil in HM. eauto.
Qed.

Lemma child_rel_obj_nil (f : JSON -> JSON) (m : nat) (x : JSON) :
  child_rel (walk (pure_edit f) m) x (JObj []) ->
  exists pf, x = JObj pf /\ entries (f (JObj pf)) = [].
Proof.
  intros H. pose proof (child_rel_kind _ _ _ _ H) as K.
  destruct x; try discriminate; [destruct K as (? & ?); discriminate|].
  unfold child_rel in H. cbn [is_object] in H. apply walk_obj in H.
  destruct H as (m' & fs' & -> & HM & [= <-]).
  apply map_children_nil in HM. eauto.
Qed.

Theorem cleanupRequiredFields_settles (m : nat) (v r : JSON) :
  at_nodes properties_not_array v ->
  cleanupRequiredFields m v = Normal r ->
  at_nodes settled r.
Proof.
  unfold cleanupRequiredFields.
  apply (walk_edit_at_nodes cleanupRequiredFields_node
           (at_nodes properties_not_array) settled).
  - apply settled_other.
  - intros items x. apply at_nodes_element.
  - (* the node itself *)
    intros m' fs e fs' HPre He HM.
    pose proof (HPre (JObj fs) (node_here _)) as Hroot.
    pose proof (map_children_lookup _ _ _ "properties" HM) as L.
    rewrite (cleanup_lookup_other _ fs e He) in L by reflexivity.
    split.
    + intros items Hget. cbn [get] in Hget.
      destruct (lookup "properties" fs) as [p|] eqn:Ep; [|congruence].
      destruct L as (p' & Hp' & Hrel). rewrite Hget in Hp'. injection Hp' as <-.
      apply child_rel_arr in Hrel. destruct Hrel as (items0 & ->).
      now apply (Hroot items0).
    + intros Hget required Hreq. cbn [get] in Hget, Hreq.
      destruct (lookup "properties" fs) as [p|] eqn:Ep; [|congruence].
      destruct L as (p' & Hp' & Hrel). rewrite Hget in Hp'. injection Hp' as <-.
      apply child_rel_obj_nil_edit in Hrel. destruct Hrel as (pf & ep & -> & Hep & Hnil).
      apply (cleanup_not_nil pf ep Hep) in Hnil. subst pf.
      pose proof (map_children_lookup _ _ _ "required" HM) as L'.
      destruct (lookup "required" (entries e)) as [x|] eqn:Ex; [|congruence].
      destruct L' as (x' & Hx' & Hrel'). rewrite Hreq in Hx'. injection Hx' as <-.
      apply child_rel_arr in Hrel'. destruct Hrel' as (req0 & ->).
      now apply (cleanup_required_empty_properties fs e req0 He Ep).
  - (* values of the properties object *)
    intros fs e pf ep k x HPre He Hp Hep Hin.
    rewrite (cleanup_lookup_other _ fs e He) in Hp by reflexivity.
    apply (cleanup_In _ _ pf ep Hep) in Hin.
    destruct Hin as [Hin | (required & valid & Hr & Hsub & ->)].
    + now apply (at_nodes_property _ fs pf k x).
    + apply (at_nodes_sublist _ required valid).
      * intros items. apply properties_not_array_other. discriminate.
      * apply (at_nodes_property _ fs pf "required" (JArr required)); auto.
        now apply lookup_In.
      * exact Hsub.
  - intros fs e items x HPre He Hp Hin.
    rewrite (cleanup_lookup_other _ fs e He) in Hp by reflexivity.
    now elim (HPre (JObj fs) (node_here _) items).
  - intros fs e x HPre He Hi.
    rewrite (cleanup_lookup_other _ fs e He) in Hi by reflexivity.
    now apply (at_nodes_items _ fs x).
  - intros fs e k bs b HPre He Hk Hb Hin.
    pose proof (is_union_key_not_special _ Hk) as (Kr & _ & _).
    rewrite (cleanup_lookup_other _ fs e He) in Hb by assumption.
    now apply (at_nodes_branch _ fs k bs b).
Qed.

(** ** Phase 4: [addEmptySchemaPlaceholder] *)

Lemma placeholder_cases (fs : Fields) :
  entries (addEmptySchemaPlaceholder_node (JObj fs)) = fs
  \/ entries (addEmptySchemaPlaceholder_node (JObj fs))
     = set_field "required" (JArr [JStr EMPTY_SCHEMA_PLACEHOLDER_NAME])
         (set_field "properties" placeholder_properties fs).
Proof.
  unfold addEmptySchemaPlaceholder_node.
  destruct (_ || _); [|now left].
  destruct (negb _); [now right | now left].
Qed.

Lemma placeholder_lookup_other (k : string) (fs : Fields) :
  String.eqb k "required" = false -> String.eqb k "properties" = false ->
  lookup k (entries (addEmptySchemaPlaceholder_node (JObj fs))) = lookup k fs.
Proof.
  intros Hr Hp. destruct (placeholder_cases fs) as [-> | ->]; [reflexivity|].
  now rewrite !lookup_set_field_other.
Qed.

Lemma placeholder_In (k : string) (x : JSON) (fs : Fields) :
  In (k, x) (entries (addEmptySchemaPlaceholder_node (JObj fs))) ->
  In (k, x) fs \/ x = placeholder_properties
  \/ x = JArr [JStr EMPTY_SCHEMA_PLACEHOLDER_NAME].
Proof.
  destruct (placeholder_cases fs) as [-> | ->]; [now left|].
  intros H. apply In_set_field in H. destruct H as [[= _ ->] | H]; [now right; right|].
  apply In_set_field in H. destruct H as [[= _ ->] | H]; [now right; left | now left].
Qed.

Lemma placeholder_not_nil (fs : Fields) :
  entries (addEmptySchemaPlaceholder_node (JObj fs)) = [] -> fs = [].
Proof.
  destruct (placeholder_cases fs) as [-> | ->]; [auto|].
  intros H. now apply set_field_not_nil in H.
Qed.

Lemma settled_placeholder_schema : at_nodes settled placeholder_schema.
Proof.
  intros n Hn.
  inversion Hn as [v | | fs p k x n' Hp | fs x n' Hi | fs k bs x n' Hk Hb]; subst;
    try (cbn in *; discriminate).
  - split; [intros items H; cbv in H; discriminate | intros H; cbv in H; discriminate].
  - cbn in Hb. destruct (String.eqb k "type"); [discriminate|].
    destruct (String.eqb k "description"); discriminate.
Qed.

Lemma settled_placeholder_properties : at_nodes settled placeholder_properties.
Proof.
  intros n Hn.
  inversion Hn as [v | | fs p k x n' Hp | fs x n' Hi | fs k bs x n' Hk Hb]; subst;
    try (cbn in *; discriminate).
  - split; [intros items H; cbv in H; discriminate | intros H; cbv in H; discriminate].
  - unfold EMPTY_SCHEMA_PLACEHOLDER_NAME in Hb. cbn in Hb.
    destruct (String.eqb k "_placeholder"); discriminate.
Qed.

Lemma settled_placeholder_required :
  at_nodes settled (JArr [JStr EMPTY_SCHEMA_PLACEHOLDER_NAME]).
Proof.
  intros n Hn. inversion Hn as [v | items x n' Hin Hx | | |]; subst.
  - apply settled_other. discriminate.
  - destruct Hin as [<- | []].
    apply schema_node_not_container in Hx; [|reflexivity]. subst n.
    apply settled_other. discriminate.
Qed.

Theorem addEmptySchemaPlaceholder_settled (m : nat) (v r : JSON) :
  at_nodes settled v ->
  addEmptySchemaPlaceholder m v = Normal r ->
  at_nodes settled r.
Proof.
  unfold addEmptySchemaPlaceholder.
  apply (walk_at_nodes addEmptySchemaPlaceholder_node (at_nodes settled) settled).
  - apply settled_other.
  - intros items x. apply at_nodes_element.
  - (* the node itself *)
    intros m' fs fs' HPre HM.
    destruct (HPre (JObj fs) (node_here _)) as [Hnot Hreq0].
    pose proof (map_children_lookup _ _ _ "properties" HM) as L.
    pose proof (map_children_lookup _ _ _ "required" HM) as L'.
    destruct (placeholder_cases fs) as [E | E]; rewrite E in L, L'.
    + split.
      * intros items Hget. cbn [get] in Hget.
        destruct (lookup "properties" fs) as [p|] eqn:Ep; [|congruence].
        destruct L as (p' & Hp' & Hrel). rewrite Hget in Hp'. injection Hp' as <-.
        apply child_rel_arr in Hrel. destruct Hrel as (items0 & ->).
        now apply (Hnot items0).
      * intros Hget required Hreq. cbn [get] in Hget, Hreq.
        destruct (lookup "properties" fs) as [p|] eqn:Ep; [|congruence].
        destruct L as (p' & Hp' & Hrel). rewrite Hget in Hp'. injection Hp' as <-.
        apply child_rel_obj_nil in Hrel. destruct Hrel as (pf & -> & Hnil).
        apply placeholder_not_nil in Hnil. subst pf.
        destruct (lookup "required" fs) as [x|] eqn:Ex; [|congruence].
        destruct L' as (x' & Hx' & Hrel'). rewrite Hreq in Hx'. injection Hx' as <-.
        apply child_rel_arr in Hrel'. destruct Hrel' as (req0 & ->).
        now apply (Hreq0 Ep req0).
    + rewrite lookup_set_field_other, lookup_set_field_same in L by reflexivity.
      destruct L as (p' & Hp' & Hrel).
      split.
      * intros items Hget. cbn [get] in Hget. rewrite Hget in Hp'. injection Hp' as <-.
        apply child_rel_arr in Hrel. destruct Hrel as (? & ?). discriminate.
      * intros Hget. cbn [get] in Hget. rewrite Hget in Hp'. injection Hp' as <-.
        apply child_rel_obj_nil in Hrel. destruct Hrel as (pf & [= <-] & Hnil).
        apply placeholder_not_nil in Hnil. discriminate.
  - (* values of the properties object *)
    intros fs pf k x HPre Hp Hin.
    assert (K : forall pf0, In (k, x) (entries (addEmptySchemaPlaceholder_node (JObj pf0))) ->
                            (forall x0, In (k, x0) pf0 -> at_nodes settled x0) ->
                            at_nodes settled x).
    { intros pf0 H0 Hold. apply placeholder_In in H0.
      destruct H0 as [H0 | [-> | ->]];
        [now apply Hold | apply settled_placeholder_properties
         | apply settled_placeholder_required]. }
    destruct (placeholder_cases fs) as [E | E]; rewrite E in Hp.
    + apply (K pf Hin). intros x0 Hx0. now apply (at_nodes_property _ fs pf k x0).
    + rewrite lookup_set_field_other, lookup_set_field_same in Hp by reflexivity.
      injection Hp as <-. apply (K _ Hin).
      intros x0 [H0 | []]. inversion H0. apply settled_placeholder_schema.
  - intros fs items x HPre Hp Hin.
    destruct (placeholder_cases fs) as [E | E]; rewrite E in Hp.
    + destruct (HPre (JObj fs) (node_here _)) as [Hnot _]. now elim (Hnot items).
    + rewrite lookup_set_field_other, lookup_set_field_same in Hp by reflexivity.
      discriminate.
  - intros fs x HPre Hi.
    rewrite placeholder_lookup_other in Hi by reflexivity.
    now apply (at_nodes_items _ fs x).
  - intros fs k bs b HPre Hk Hb Hin.
    pose proof (is_union_key_not_special _ Hk) as (Kr & _ & Kp).
    rewrite placeholder_lookup_other in Hb by assumption.
    now apply (at_nodes_branch _ fs k bs b).
Qed.

(* ------------------------------------------------------------------ *)
(** * Fuel: every phase of the cleaner returns or throws *)
(* ------------------------------------------------------------------ *)

(** ** Depth *)

Lemma list_max_In_le (A : Type) (g : A -> nat) (x : A) (l : list A) :
  In x l -> g x <= list_max (map g l).
Proof.
  induction l as [|y l IH]; [intros []|].
  change (list_max (map g (y :: l))) with (Nat.max (g y) (list_max (map g l))).
  intros [-> | H]; [lia | specialize (IH H); lia].
Qed.

Lemma list_max_bound (A : Type) (g : A -> nat) (l : list A) (n : nat) :
  (forall x, In x l -> g x <= n) -> list_max (map g l) <= n.
Proof.
  induction l as [|y l IH]; intros H; [cbn; lia|].
  change (list_max (map g (y :: l))) with (Nat.max (g y) (list_max (map g l))).
  pose proof (H y (or_introl eq_refl)).
  assert (list_max (map g l) <= n) by (apply IH; intros x Hx; apply H; now right).
  lia.
Qed.

Lemma depth_element (x : JSON) (items : list JSON) :
  In x items -> depth x + 1 <= depth (JArr items).
Proof. intros H. cbn. pose proof (list_max_In_le _ depth x items H). lia. Qed.

Lemma depth_field (k : string) (x : JSON) (fs : Fields) :
  In (k, x) fs -> depth x + 1 <= depth (JObj fs).
Proof.
  intros H. cbn.
  pose proof (list_max_In_le _ (fun kv => depth (snd kv)) (k, x) fs H) as L.
  cbn in L. lia.
Qed.

Lemma depth_arr_bound (items : list JSON) (n : nat) :
  (forall x, In x items -> depth x <= n) -> depth (JArr items) <= S n.
Proof. intros H. cbn. apply le_n_S. now apply list_max_bound. Qed.

Lemma depth_obj_bound (fs : Fields) (n : nat) :
  (forall k x, In (k, x) fs -> depth x <= n) -> depth (JObj fs) <= S n.
Proof.
  intros H. cbn. apply le_n_S. apply list_max_bound.
  intros [k x] Hin. cbn. now apply (H k x).
Qed.

Lemma depth_not_object (v : JSON) : is_object v = false -> depth v = 0.
Proof. destruct v; try discriminate; reflexivity. Qed.

Lemma depth_object_pos (v : JSON) : is_object v = true -> 1 <= depth v.
Proof. destruct v; try discriminate; cbn; lia. Qed.

Lemma chars_not_object (s : string) (x : JSON) : In x (chars s) -> is_object x = false.
Proof.
  induction s as [|c s IH]; cbn; [tauto|]. intros [<- | H]; [reflexivity | auto].
Qed.

(** An object or array among the own properties of a value is one level
    less deep. *)
Lemma depth_entry (k : string) (x v : JSON) :
  In (k, x) (entries v) -> is_object x = true -> depth x + 1 <= depth v.
Proof.
  destruct v; cbn [entries]; try (intros []).
  - intros H Hx. apply In_indexed_from in H. apply chars_not_object in H. congruence.
  - intros H _. apply In_indexed_from in H. now apply depth_element.
  - intros H _. now apply (depth_field k).
Qed.

Lemma get_object_entry (v : JSON) (k : string) (x : JSON) :
  get v k = Some x -> is_object x = true -> In (k, x) (entries v).
Proof.
  destruct v; cbn [get entries]; try discriminate.
  - destruct (String.eqb k "length"); [intros [= <-]; discriminate|].
    intros H _. now apply lookup_In.
  - destruct (String.eqb k "length"); [intros [= <-]; discriminate|].
    intros H _. now apply lookup_In.
  - intros H _. now apply lookup_In.
Qed.

Lemma depth_get (v : JSON) (k : string) (x : JSON) :
  get v k = Some x -> is_object x = true -> depth x + 1 <= depth v.
Proof. intros H Hx. apply (depth_entry k); [now apply get_object_entry | exact Hx]. Qed.

(** ** Completion of the walkers *)

Lemma mapM_finishes (g : JSON -> Completion JSON) (l : list JSON) (n : nat) :
  (forall x, In x l -> finishes (g x) n) ->
  mapM g l = Throw
  \/ exists l', mapM g l = Normal l' /\ forall y, In y l' -> depth y <= n.
Proof.
  induction l as [|x l IH]; intros H.
  - right. exists []. split; [reflexivity | intros y []].
  - cbn [mapM]. destruct (H x (or_introl eq_refl)) as [-> | (y & -> & Hy)]; [now left|].
    cbn [bind]. destruct IH as [-> | (l' & -> & Hl')].
    + intros x' Hx'. apply H. now right.
    + now left.
    + right. exists (y :: l'). split; [reflexivity|].
      intros y' [<- | Hy']; auto.
Qed.

Lemma map_children_finishes (self : JSON -> Completion JSON) (fs : Fields) (n : nat) :
  (forall k x, In (k, x) fs -> is_object x = true -> finishes (self x) n) ->
  map_children self fs = Throw
  \/ exists fs', map_children self fs = Normal fs'
                 /\ forall k y, In (k, y) fs' -> depth y <= n.
Proof.
  unfold map_children. induction fs as [|[k x] fs IH]; intros H.
  - right. exists []. split; [reflexivity | intros k y []].
  - cbn [mapM fst snd].
    assert (IH' : mapM
                    (fun kv => if is_object (snd kv)
                               then v' <- self (snd kv);; Normal (fst kv, v')
                               else Normal kv) fs = Throw
                  \/ exists fs',
                       mapM
                         (fun kv => if is_object (snd kv)
                                    then v' <- self (snd kv);; Normal (fst kv, v')
                                    else Normal kv) fs = Normal fs'
                       /\ forall k y, In (k, y) fs' -> depth y <= n).
    { apply IH. intros k' x' Hin. apply (H k'). now right. }
    destruct (is_object x) eqn:E.
    + destruct (H k x (or_introl eq_refl) E) as [-> | (y & -> & Hy)]; [now left|].
      cbn [bind]. destruct IH' as [-> | (fs' & -> & Hfs')]; [now left|].
      right. exists ((k, y) :: fs'). split; [reflexivity|].
      intros k' y' [[= <- <-] | Hin]; eauto.
    + cbn [bind]. destruct IH' as [-> | (fs' & -> & Hfs')]; [now left|].
      right. exists ((k, x) :: fs'). split; [reflexivity|].
      intros k' y' [[= <- <-] | Hin]; eauto.
      rewrite depth_not_object by assumption. lia.
Qed.

Lemma walk_flat_array edit (m : nat) (v : JSON) :
  flat_array v -> 1 <= m -> walk edit m v = Normal v.
Proof.
  intros (items & -> & H) Hm. destruct m as [|m]; [lia|]. cbn [walk].
  assert (E : mapM (walk edit m) items = Normal items).
  { induction items as [|x items IH]; [reflexivity|]. cbn [mapM].
    rewrite walk_not_object by (apply H; now left). cbn [bind].
    rewrite IH; [reflexivity|]. intros y Hy. apply H. now right. }
  now rewrite E.
Qed.

Lemma depth_flat_array (v : JSON) : flat_array v -> depth v = 1.
Proof.
  intros (items & -> & H). cbn. f_equal.
  assert (L : list_max (map depth items) <= 0).
  { apply list_max_bound. intros x Hx. rewrite depth_not_object; auto. }
  lia.
Qed.

Section WalkFinishes.
Variable edit : (JSON -> Completion JSON) -> JSON -> Completion JSON.
Variable Fresh : JSON -> Prop.

Hypothesis Fresh_finishes :
  forall c m, Fresh c -> 2 <= m -> exists r, walk edit m c = Normal r /\ depth r <= 2.

Hypothesis edit_finishes :
  forall m self fs,
    (forall x, depth x + 2 <= m -> finishes (self x) (depth x + 2)) ->
    (forall x, is_object x = false -> self x = Normal x) ->
    depth (JObj fs) + 1 <= m ->
    edit self (JObj fs) = Throw
    \/ exists r, edit self (JObj fs) = Normal r
                 /\ bounded_children Fresh (depth (JObj fs)) r.

Theorem walk_finishes (n : nat) :
  forall v, depth v + 2 <= n -> finishes (walk edit n v) (depth v + 2).
Proof.
  induction n as [|m IH]; intros v Hn; [lia|].
  destruct v as [| b | num | s | items | fs];
    try (right; eexists; split; [reflexivity | cbn; lia]).
  - (* array *)
    cbn [walk].
    destruct (mapM_finishes (walk edit m) items (depth (JArr items) + 1))
      as [E | (items' & E & Hd)].
    + intros x Hx. pose proof (depth_element _ _ Hx).
      destruct (IH x) as [Ht | (r & Hr & Hdr)]; [lia | now left|].
      right. exists r. split; [exact Hr | lia].
    + left. now rewrite E.
    + right. rewrite E. cbn [bind]. eexists. split; [reflexivity|].
      pose proof (depth_arr_bound items' _ Hd). lia.
  - (* object *)
    cbn [walk].
    destruct (edit_finishes m (walk edit m) fs) as [E | (r & E & Hb)].
    + intros x Hx. now apply IH.
    + intros x Hx. now apply walk_not_object.
    + lia.
    + left. now rewrite E.
    + rewrite E. cbn [bind].
      pose proof (depth_object_pos (JObj fs) eq_refl) as Hpos.
      destruct (map_children_finishes (walk edit m) (entries r) (depth (JObj fs) + 1))
        as [E' | (fs' & E' & Hd)].
      * intros k c Hin Hc. destruct (Hb k c Hin Hc) as [Hold | Hf].
        -- destruct (IH c) as [Ht | (r' & Hr' & Hdr)]; [lia | now left|].
           right. exists r'. split; [exact Hr' | lia].
        -- destruct (Fresh_finishes c m Hf) as (r' & Hr' & Hdr); [lia|].
           right. exists r'. split; [exact Hr' | lia].
      * left. now rewrite E'.
      * right. rewrite E'. cbn [bind]. eexists. split; [reflexivity|].
        pose proof (depth_obj_bound fs' _ Hd). lia.
Qed.
End WalkFinishes.

(** ** Children of an edited node *)

Section BoundedChildren.
Variable Fresh : JSON -> Prop.
Variable d : nat.

Lemma bounded_self (r : JSON) : depth r <= d -> bounded_children Fresh d r.
Proof.
  intros Hd k c Hin Hc. left. pose proof (depth_entry k c r Hin Hc). lia.
Qed.

Lemma bounded_set (k : string) (x r : JSON) :
  bounded_children Fresh d r ->
  (is_object x = true -> depth x + 1 <= d \/ Fresh x) ->
  bounded_children Fresh d (obj_set k x r).
Proof.
  intros Hr Hx k' c Hin Hc. cbn [obj_set entries] in Hin.
  apply In_set_field in Hin. destruct Hin as [[= -> ->] | Hin]; [auto|].
  now apply (Hr k').
Qed.

Lemma bounded_delete (k : string) (r : JSON) :
  bounded_children Fresh d r -> bounded_children Fresh d (obj_delete k r).
Proof.
  intros Hr k' c Hin Hc. cbn [obj_delete entries] in Hin.
  apply In_delete_field in Hin. now apply (Hr k').
Qed.

Lemma bounded_hint (r : JSON) (hint : string) :
  bounded_children Fresh d r -> bounded_children Fresh d (appendDescriptionHint r hint).
Proof.
  intros Hr. unfold appendDescriptionHint.
  destruct (includes _ _); [exact Hr|].
  apply bounded_set; [exact Hr | discriminate].
Qed.

Lemma bounded_get (r : JSON) (k : string) (x : JSON) :
  bounded_children Fresh d r -> get r k = Some x -> is_object x = true ->
  depth x + 1 <= d \/ Fresh x.
Proof.
  intros Hr Hg Hx. apply (Hr k); [now apply get_object_entry | exact Hx].
Qed.

Lemma bounded_or_default (r : JSON) (k s : string) :
  bounded_children Fresh d r ->
  is_object (or_default (get r k) (JStr s)) = true ->
  depth (or_default (get r k) (JStr s)) + 1 <= d \/ Fresh (or_default (get r k) (JStr s)).
Proof.
  intros Hr. unfold or_default. destruct (get r k) as [x|] eqn:E; [|discriminate].
  destruct (truthy x); [|discriminate].
  intros Hx. now apply (bounded_get r k).
Qed.
End BoundedChildren.

Lemma flat_array_finishes edit (c : JSON) (m : nat) :
  flat_array c -> 2 <= m -> exists r, walk edit m c = Normal r /\ depth r <= 2.
Proof.
  intros Hc Hm. exists c. split; [apply walk_flat_array; [exact Hc | lia]|].
  rewrite (depth_flat_array c Hc). lia.
Qed.

(** An edit that only rearranges the node finishes whenever its result has
    bounded children. *)
Lemma pure_edit_finishes (f : JSON -> JSON) (n : nat) (v : JSON) :
  (forall fs, bounded_children flat_array (depth (JObj fs)) (f (JObj fs))) ->
  depth v + 2 <= n ->
  finishes (walk (pure_edit f) n v) (depth v + 2).
Proof.
  intros Hf. apply (walk_finishes (pure_edit f) flat_array).
  - intros c m. apply flat_array_finishes.
  - intros m self fs _ _ _. right. exists (f (JObj fs)). split; [reflexivity | apply Hf].
Qed.

(** The same for an edit that may throw. *)
Lemma node_edit_finishes (f : JSON -> Completion JSON) (n : nat) (v : JSON) :
  (forall fs,
     f (JObj fs) = Throw
     \/ exists r, f (JObj fs) = Normal r
                  /\ bounded_children flat_array (depth (JObj fs)) r) ->
  depth v + 2 <= n ->
  finishes (walk (node_edit f) n v) (depth v + 2).
Proof.
  intros Hf. apply (walk_finishes (node_edit f) flat_array).
  - intros c m. apply flat_array_finishes.
  - intros m self fs _ _ _. exact (Hf fs).
Qed.

(** ** String conversion returns or throws *)

Lemma mapM_fuel (A B : Type) (g : A -> Completion B) (l : list A) :
  (forall x, In x l -> g x <> OutOfFuel) -> mapM g l <> OutOfFuel.
Proof.
  induction l as [|x l IH]; intros H; [discriminate|].
  cbn [mapM]. pose proof (H x (or_introl eq_refl)) as Hx.
  destruct (g x) as [y| |]; cbn [bind]; [|discriminate | contradiction].
  assert (Hl : mapM g l <> OutOfFuel) by (apply IH; intros x' Hx'; apply H; now right).
  destruct (mapM g l) as [ys| |]; cbn [bind]; [discriminate | discriminate | contradiction].
Qed.

Lemma to_String_fuel (v : JSON) : to_String v <> OutOfFuel.
Proof.
  remember (S (size v)) as n eqn:En.
  assert (Hn : size v < n) by lia. clear En. revert v Hn.
  induction n as [|n IH]; intros v Hn; [lia|].
  destruct v as [| [|] | num | s | items | fs]; cbn [to_String]; try discriminate.
  - assert (E : forall l,
               (forall x, In x l -> size x < n) ->
               (fix each (l : list JSON) : Completion (list string) :=
                  match l with
                  | [] => Normal []
                  | x :: rest =>
                      s <- match x with
                           | JNull => Normal EmptyString
                           | _ => to_String x
                           end ;;
                      ss <- each rest ;;
                      Normal (s :: ss)
                  end) l <> OutOfFuel).
    { induction l as [|x l IHl]; intros Hl; [discriminate|].
      assert (Hx : match x with
                   | JNull => Normal EmptyString
                   | _ => to_String x
                   end <> OutOfFuel).
      { pose proof (IH x (Hl x (or_introl eq_refl))). destruct x; auto; discriminate. }
      destruct (match x with JNull => Normal EmptyString | _ => to_String x end)
        as [s0| |]; cbn [bind]; [|discriminate | contradiction].
      assert (Hr := IHl (fun y Hy => Hl y (or_intror Hy))).
      match goal with
      | |- bind ?c _ <> _ => destruct c as [ss| |]
      end; cbn [bind]; [discriminate | discriminate | contradiction]. }
    specialize (E items (fun x Hx => ltac:(pose proof (size_element x items Hx); lia))).
    match goal with
    | |- bind ?c _ <> _ => destruct c as [ss| |]
    end; cbn [bind]; [discriminate | discriminate | contradiction].
  - destruct (lookup "toString" fs); discriminate.
Qed.

Lemma join_element_fuel (x : JSON) : join_element x <> OutOfFuel.
Proof. destruct x; try discriminate; apply to_String_fuel. Qed.

Lemma join_fuel (sep : string) (items : list JSON) : join sep items <> OutOfFuel.
Proof.
  unfold join.
  pose proof (mapM_fuel _ _ join_element items (fun x _ => join_element_fuel x)) as H.
  destruct (mapM join_element items); cbn [bind]; [discriminate | discriminate | contradiction].
Qed.

Lemma own_required_fuel (properties : JSON) (required : list JSON) :
  own_required properties required <> OutOfFuel.
Proof.
  induction required as [|req required IH]; [discriminate|].
  cbn [own_required]. unfold to_property_key.
  pose proof (to_String_fuel req) as Hk.
  destruct (to_String req); cbn [bind]; [|discriminate | contradiction].
  destruct (own_required properties required); cbn [bind];
    [discriminate | discriminate | contradiction].
Qed.

Lemma flat_singleton (x : JSON) : is_object x = false -> flat_array (JArr [x]).
Proof. intros H. exists [x]. split; [reflexivity|]. intros y [<- | []]. exact H. Qed.

Lemma convertRefsToHints_finishes (n : nat) (v : JSON) :
  depth v + 2 <= n -> finishes (convertRefsToHints n v) (depth v + 2).
Proof.
  apply pure_edit_finishes. intros fs. unfold convertRefsToHints_node.
  pose proof (bounded_self flat_array _ (JObj fs) (le_n _)) as B.
  destruct (get (JObj fs) "$ref") as [[]|]; try exact B.
  apply bounded_hint. apply bounded_set; [now apply bounded_delete|].
  apply bounded_or_default. now apply bounded_delete.
Qed.

Lemma convertConstToEnum_finishes (n : nat) (v : JSON) :
  depth v + 2 <= n -> finishes (convertConstToEnum n v) (depth v + 2).
Proof.
  apply node_edit_finishes. intros fs. unfold convertConstToEnum_node.
  pose proof (bounded_self flat_array _ (JObj fs) (le_n _)) as B.
  destruct (get (JObj fs) "const") as [c|]; [|right; eexists; split; [reflexivity | exact B]].
  pose proof (to_String_fuel c) as Hc.
  destruct (to_String c) as [s| |]; cbn [bind]; [|now left | contradiction].
  right. eexists. split; [reflexivity|].
  assert (B' : bounded_children flat_array (depth (JObj fs))
                 (obj_set "enum" (JArr [JStr s]) (JObj fs))).
  { apply bounded_set; [exact B|]. intros _. right. now apply flat_singleton. }
  apply bounded_delete. apply bounded_set; [exact B'|].
  now apply bounded_or_default.
Qed.

Lemma addEnumHints_finishes (n : nat) (v : JSON) :
  depth v + 2 <= n -> finishes (addEnumHints n v) (depth v + 2).
Proof.
  apply node_edit_finishes. intros fs. unfold addEnumHints_node.
  pose proof (bounded_self flat_array _ (JObj fs) (le_n _)) as B.
  destruct (get (JObj fs) "enum") as [[| | | | [|e enum] |]|]; try (right; eexists; split; [reflexivity | exact B]).
  pose proof (join_fuel ", " (firstn 10 (e :: enum))) as Hj.
  destruct (join ", " (firstn 10 (e :: enum))) as [values| |]; cbn [bind];
    [|now left | contradiction].
  right. eexists. split; [reflexivity|]. now apply bounded_hint.
Qed.

Lemma addAdditionalPropertiesHints_finishes (n : nat) (v : JSON) :
  depth v + 2 <= n -> finishes (addAdditionalPropertiesHints n v) (depth v + 2).
Proof.
  apply pure_edit_finishes. intros fs. unfold addAdditionalPropertiesHints_node.
  pose proof (bounded_self flat_array _ (JObj fs) (le_n _)) as B.
  destruct (get (JObj fs) "additionalProperties") as [[| [|] | | | |]|]; try exact B.
  now apply bounded_hint.
Qed.

Lemma moveConstraintsToDescription_finishes (n : nat) (v : JSON) :
  depth v + 2 <= n -> finishes (moveConstraintsToDescription n v) (depth v + 2).
Proof.
  apply node_edit_finishes. intros fs. unfold moveConstraintsToDescription_node.
  pose proof (bounded_self flat_array _ (JObj fs) (le_n _)) as B.
  revert B. generalize (depth (JObj fs)) as d. generalize (JObj fs) as r.
  induction UNSUPPORTED_CONSTRAINTS as [|c l IH]; intros r d B; [right; eexists; split; [reflexivity | exact B]|].
  cbn [move_constraints].
  destruct (get r c) as [x|]; [|now apply IH].
  pose proof (to_String_fuel x) as Hx.
  destruct (to_String x) as [s| |]; cbn [bind]; [|now left | contradiction].
  apply IH. now apply bounded_hint.
Qed.

Lemma flattenTypeArrays_finishes (n : nat) (v : JSON) :
  depth v + 2 <= n -> finishes (flattenTypeArrays n v) (depth v + 2).
Proof.
  apply node_edit_finishes. intros fs. unfold flattenTypeArrays_node.
  pose proof (bounded_self flat_array _ (JObj fs) (le_n _)) as B.
  destruct (get (JObj fs) "type") as [[| | | | types |]|] eqn:E;
    try (right; eexists; split; [reflexivity | exact B]).
  assert (Ht : depth (JArr types) + 1 <= depth (JObj fs))
    by (apply (depth_get _ "type"); [exact E | reflexivity]).
  set (nonNull := filter _ types).
  assert (B' : bounded_children flat_array (depth (JObj fs))
                 (obj_set "type" match nonNull with t :: _ => t | [] => JStr "string" end
                    (JObj fs))).
  { apply bounded_set; [exact B|]. intros _. left.
    destruct nonNull as [|t rest] eqn:En; [cbn; lia|].
    assert (In t types).
    { assert (H : In t nonNull) by (rewrite En; now left).
      unfold nonNull in H. now apply filter_In in H. }
    pose proof (depth_element t types H). lia. }
  pose proof (join_fuel " | " nonNull) as Hj.
  destruct (1 <? List.length nonNull); cbn [bind].
  - destruct (join " | " nonNull) as [accepted| |]; cbn [bind];
      [|now left | contradiction].
    right. eexists. split; [reflexivity|].
    destruct (existsb _ types); repeat apply bounded_hint; exact B'.
  - right. eexists. split; [reflexivity|].
    destruct (existsb _ types); repeat apply bounded_hint; exact B'.
Qed.

Lemma cleanupRequiredFields_finishes (n : nat) (v : JSON) :
  depth v + 2 <= n -> finishes (cleanupRequiredFields n v) (depth v + 2).
Proof.
  apply node_edit_finishes. intros fs. unfold cleanupRequiredFields_node.
  pose proof (bounded_self flat_array _ (JObj fs) (le_n _)) as B.
  destruct (get (JObj fs) "required") as [[| | | | required |]|] eqn:E;
    try (right; eexists; split; [reflexivity | exact B]).
  destruct (get (JObj fs) "properties") as [properties|]; try (right; eexists; split; [reflexivity | exact B]).
  destruct (is_object properties); try (right; eexists; split; [reflexivity | exact B]).
  assert (Ht : depth (JArr required) + 1 <= depth (JObj fs))
    by (apply (depth_get _ "required"); [exact E | reflexivity]).
  pose proof (own_required_fuel properties required) as Hf.
  destruct (own_required properties required) as [valid| |] eqn:Ev; cbn [bind];
    [|now left | contradiction].
  right.
  destruct valid as [|x rest]; [eexists; split; [reflexivity | now apply bounded_delete]|].
  destruct (negb _); eexists; (split; [reflexivity|]); [|exact B].
  apply bounded_set; [exact B|]. intros _. left.
  assert (depth (JArr (x :: rest)) <= depth (JArr required)); [|lia].
  apply depth_arr_bound. intros y Hy.
  assert (In y required) by exact (own_required_In _ _ _ Ev y Hy).
  now apply list_max_In_le.
Qed.

Lemma addEmptySchemaPlaceholder_finishes (n : nat) (v : JSON) :
  depth v + 2 <= n -> finishes (addEmptySchemaPlaceholder n v) (depth v + 2).
Proof.
  apply (walk_finishes (pure_edit addEmptySchemaPlaceholder_node)
           (fun c => flat_array c \/ c = placeholder_properties)).
  - intros c m [Hc | ->] Hm; [now apply flat_array_finishes|].
    exists placeholder_properties. split; [|cbn; lia].
    destruct m as [|[|m]]; [lia | lia | reflexivity].
  - intros m self fs _ _ _. right. eexists. split; [reflexivity|].
    unfold addEmptySchemaPlaceholder_node.
    pose proof (bounded_self (fun c => flat_array c \/ c = placeholder_properties)
                  _ (JObj fs) (le_n _)) as B.
    destruct (_ || _); [|exact B].
    destruct (negb _); [|exact B].
    apply bounded_set.
    + apply bounded_set; [exact B|]. intros _. right. now right.
    + intros _. right. left. now apply flat_singleton.
Qed.

Lemma In_spread_into (kv : string * JSON) (v : JSON) (base : Fields) :
  In kv (spread_into base v) -> In kv base \/ In kv (entries v).
Proof.
  unfold spread_into. generalize (entries v) as l. intros l. revert base.
  induction l as [|[k x] l IH]; intros base; cbn [fold_left fst snd]; [tauto|].
  intros H. apply IH in H. destruct H as [H | H]; [|right; now right].
  apply In_set_field in H. destruct H as [-> | H]; [right; now left | now left].
Qed.

Lemma In_dedupe_acc (x : JSON) (l seen : list JSON) :
  In x (dedupe_acc seen l) -> In x l.
Proof.
  revert seen. induction l as [|y l IH]; intros seen; cbn [dedupe_acc]; [tauto|].
  destruct (existsb _ seen).
  - intros H. right. now apply (IH seen).
  - intros [<- | H]; [now left | right; now apply (IH (y :: seen))].
Qed.

Lemma bounded_spread (Fresh : JSON -> Prop) (d : nat) (a b : JSON) :
  bounded_children Fresh d a -> bounded_children Fresh d b ->
  bounded_children Fresh d (JObj (spread_into (entries a) b)).
Proof.
  intros Ha Hb k c Hin Hc. cbn [entries] in Hin.
  apply In_spread_into in Hin. destruct Hin; [now apply (Ha k) | now apply (Hb k)].
Qed.

(** ** mergeAllOf *)

Lemma small_set (d : nat) (k : string) (x r : JSON) :
  small_children d r -> depth x + 1 <= d -> small_children d (obj_set k x r).
Proof.
  intros Hr Hx k' c Hin. cbn [obj_set entries] in Hin.
  apply In_set_field in Hin. destruct Hin as [[= -> ->] | Hin]; [auto|].
  now apply (Hr k').
Qed.

Lemma small_of_depth (d : nat) (r : JSON) :
  1 <= d -> depth r <= d -> small_children d r.
Proof.
  intros Hd Hr k c Hin. destruct (is_object c) eqn:E.
  - pose proof (depth_entry k c r Hin E). lia.
  - rewrite depth_not_object by exact E. lia.
Qed.

Lemma get_small (d : nat) (v : JSON) (k : string) (x : JSON) :
  1 <= d -> depth v <= d -> get v k = Some x -> depth x + 1 <= d.
Proof.
  intros Hd Hv Hg. destruct (is_object x) eqn:E.
  - pose proof (depth_get v k x Hg E). lia.
  - rewrite depth_not_object by exact E. lia.
Qed.

Lemma small_get (d : nat) (r : JSON) (k : string) (x : JSON) :
  1 <= d -> small_children d r -> get r k = Some x -> depth x + 1 <= d.
Proof.
  intros Hd Hr Hg. destruct (is_object x) eqn:E.
  - apply (Hr k). now apply get_object_entry.
  - rewrite depth_not_object by exact E. lia.
Qed.

Lemma entries_small (d : nat) (v : JSON) (k : string) (c : JSON) :
  2 <= d -> depth v + 1 <= d -> In (k, c) (entries v) -> depth c + 2 <= d.
Proof.
  intros Hd Hv Hin. destruct (is_object c) eqn:E.
  - pose proof (depth_entry k c v Hin E). lia.
  - rewrite depth_not_object by exact E. lia.
Qed.

Section MergeAllOf.
Variable self : JSON -> Completion JSON.
Variables m d : nat.
Hypothesis self_finishes : forall x, depth x + 2 <= m -> finishes (self x) (depth x + 2).
Hypothesis d_fuel : d + 1 <= m.
Hypothesis d_two : 2 <= d.

Lemma merge_subs_finishes (subs : list JSON) :
  forall merged allRequired,
    (forall sub, In sub subs -> depth sub + 2 <= d) ->
    small_children d merged ->
    (forall e, In e allRequired -> depth e + 2 <= d) ->
    merge_subs self subs merged allRequired = Throw
    \/ exists merged' allRequired',
         merge_subs self subs merged allRequired = Normal (merged', allRequired')
         /\ small_children d merged'
         /\ forall e, In e allRequired' -> depth e + 2 <= d.
Proof.
  induction subs as [|sub rest IH]; intros merged allRequired Hsubs Hm Hr.
  - right. exists merged, allRequired. auto.
  - cbn [merge_subs].
    pose proof (Hsubs sub (or_introl eq_refl)) as Hsub.
    destruct (self_finishes sub) as [-> | (processed & -> & Hp)]; [lia | now left|].
    cbn [bind].
    assert (Hp' : depth processed <= d) by lia.
    assert (Hg : get_or_throw processed "properties" = Throw
                 \/ get_or_throw processed "properties"
                    = Normal (get processed "properties"))
      by (destruct processed; auto).
    destruct Hg as [-> | ->]; [now left|]. cbn [bind].
    apply IH; [intros x Hx; apply Hsubs; now right | |].
    all: try (* the merged object *)
      (repeat match goal with
         | |- small_children _ (match ?o with Some _ => _ | None => _ end) =>
             let E := fresh "E" in destruct o eqn:E
         | |- small_children _ (if ?b then _ else _) => destruct b
         | |- small_children _ (obj_set _ _ _) => apply small_set
         end; try exact Hm; try (eapply get_small; [| exact Hp' | eassumption]; lia)).
    all: try (* the required entries *)
      (destruct (get processed "required") as [[| | | | required |]|] eqn:Er;
       try exact Hr;
       intros e He; apply in_app_or in He; destruct He as [He | He]; [now apply Hr|];
       pose proof (depth_get processed "required" (JArr required) Er eq_refl);
       pose proof (depth_element e required He); lia).
    all: (* the merged properties *)
      match goal with
      | E : get _ "properties" = Some ?p |- depth (JObj (spread_into _ ?p)) + 1 <= _ =>
          assert (Hpp : depth p + 1 <= d) by (eapply get_small; [| exact Hp' | exact E]; lia)
      end.
    all: match goal with
         | |- depth (JObj (spread_into ?base ?p)) + 1 <= d =>
             assert (depth (JObj (spread_into base p)) <= S (d - 2)); [|lia];
             apply depth_obj_bound; intros k c Hin;
             apply In_spread_into in Hin; destruct Hin as [Hin | Hin];
             [|pose proof (entries_small d p k c d_two Hpp Hin); lia]
         end.
    all: destruct (get merged "properties") as [mp|] eqn:Emp; [|destruct Hin].
    all: pose proof (small_get d merged "properties" mp ltac:(lia) Hm Emp) as Hmp.
    all: pose proof (entries_small d mp k c d_two Hmp Hin); lia.
Qed.
End MergeAllOf.

Lemma mergeAllOf_node_finishes (m : nat) (self : JSON -> Completion JSON) (fs : Fields) :
  (forall x, depth x + 2 <= m -> finishes (self x) (depth x + 2)) ->
  depth (JObj fs) + 1 <= m ->
  mergeAllOf_node self (JObj fs) = Throw
  \/ exists r, mergeAllOf_node self (JObj fs) = Normal r
               /\ bounded_children flat_array (depth (JObj fs)) r.
Proof.
  intros Hself Hm. unfold mergeAllOf_node.
  pose proof (bounded_self flat_array _ (JObj fs) (le_n _)) as B.
  destruct (get (JObj fs) "allOf") as [[| | | | [|sub subs] |]|] eqn:E;
    try (right; eexists; split; [reflexivity | exact B]).
  set (d := depth (JObj fs)) in *.
  pose proof (depth_get (JObj fs) "allOf" _ E eq_refl) as Hall. fold d in Hall.
  assert (Hd : 2 <= d) by (cbn [depth] in Hall; lia).
  destruct (merge_subs_finishes self m d Hself Hm Hd (sub :: subs) (JObj []) [])
    as [-> | (merged & allRequired & -> & Hmerged & Hreq)].
  - intros x Hx. pose proof (depth_element x _ Hx). lia.
  - intros k c [].
  - intros e [].
  - now left.
  - cbn [bind fst snd].
    assert (Hres : small_children d
                     (JObj (spread_into (entries (obj_delete "allOf" (JObj fs))) merged))).
    { intros k c Hin. cbn [entries obj_delete] in Hin. apply In_spread_into in Hin.
      destruct Hin as [Hin | Hin]; [|now apply (Hmerged k)].
      apply In_delete_field in Hin.
      apply (small_of_depth d (JObj fs)) with (k := k); [lia | unfold d; lia | exact Hin]. }
    assert (Hb : forall r, small_children d r -> bounded_children flat_array d r).
    { intros r Hr k c Hin _. left. now apply (Hr k). }
    destruct allRequired as [|e0 allRequired'] eqn:Ea;
      [right; eexists; split; [reflexivity | now apply Hb]|].
    rewrite <- Ea in *. clear Ea.
    set (result := JObj (spread_into _ merged)) in *.
    assert (He : match get result "required" with
                 | Some required => if truthy required then iterate required else Normal []
                 | None => Normal []
                 end = Throw
                 \/ exists existing,
                      match get result "required" with
                      | Some required =>
                          if truthy required then iterate required else Normal []
                      | None => Normal []
                      end = Normal existing
                      /\ forall e, In e existing -> depth e + 2 <= d).
    { destruct (get result "required") as [required|] eqn:Er;
        [|right; exists []; split; [reflexivity | intros e []]].
      destruct (truthy required);
        [|right; exists []; split; [reflexivity | intros e []]].
      pose proof (small_get d result "required" required ltac:(lia) Hres Er) as Hr.
      destruct required as [| b | num | s | items | gs]; cbn [iterate]; try now left.
      - right. eexists. split; [reflexivity|]. intros e He.
        apply chars_not_object in He. rewrite depth_not_object by exact He. lia.
      - right. eexists. split; [reflexivity|]. intros e He.
        pose proof (depth_element e items He). lia. }
    destruct He as [-> | (existing & -> & Hex)]; [now left|].
    cbn [bind]. right. eexists. split; [reflexivity|].
    apply Hb. apply small_set; [exact Hres|].
    assert (depth (JArr (dedupe (existing ++ allRequired)%list)) <= S (d - 2)); [|lia].
    apply depth_arr_bound. intros e He. apply In_dedupe_acc in He.
    apply in_app_or in He. destruct He as [He | He]; [apply Hex in He | apply Hreq in He]; lia.
Qed.

Lemma mergeAllOf_finishes (n : nat) (v : JSON) :
  depth v + 2 <= n -> finishes (mergeAllOf n v) (depth v + 2).
Proof.
  apply (walk_finishes mergeAllOf_node flat_array).
  - intros c m. apply flat_array_finishes.
  - intros m self fs Hself _ Hm. now apply (mergeAllOf_node_finishes m).
Qed.

(** ** flattenAnyOfOneOf *)

Lemma flat_strings (l : list string) : flat_array (JArr (map JStr l)).
Proof.
  exists (map JStr l). split; [reflexivity|].
  intros x Hx. apply in_map_iff in Hx. destruct Hx as (s & <- & _). reflexivity.
Qed.

Lemma collect_enum_fuel (options : list JSON) :
  forall enumValues, collect_enum options enumValues <> OutOfFuel.
Proof.
  induction options as [|option rest IH]; intros enumValues; [discriminate|].
  cbn [collect_enum]. destruct (negb (is_object option)); [discriminate|].
  destruct (get option "const") as [c|].
  - pose proof (to_String_fuel c) as Hc.
    destruct (to_String c); cbn [bind]; [apply IH | discriminate | contradiction].
  - destruct (get option "enum") as [[| | | | [|e enum] |]|];
      try (destruct (_ || _); [discriminate|]; destruct (_ && _); [discriminate | apply IH]).
    pose proof (mapM_fuel _ _ to_String (e :: enum) (fun x _ => to_String_fuel x)) as Hm.
    destruct (mapM to_String (e :: enum)); cbn [bind];
      [apply IH | discriminate | contradiction].
Qed.

Lemma tryMergeEnumFromUnion_fuel (options : list JSON) :
  tryMergeEnumFromUnion options <> OutOfFuel.
Proof.
  unfold tryMergeEnumFromUnion. destruct options as [|o os]; [discriminate|].
  pose proof (collect_enum_fuel (o :: os) []) as H.
  destruct (collect_enum (o :: os) []) as [[[|v vs]|]| |]; cbn [bind];
    try discriminate; contradiction.
Qed.

Section FlattenUnion.
Variable self : JSON -> Completion JSON.
Variables m d : nat.
Hypothesis self_finishes : forall x, depth x + 2 <= m -> finishes (self x) (depth x + 2).
Hypothesis self_not_object : forall x, is_object x = false -> self x = Normal x.
Hypothesis d_fuel : d + 1 <= m.
Hypothesis d_one : 1 <= d.

Lemma flatten_union_finishes (unionKey : string) (result : JSON) :
  bounded_children flat_array d result ->
  flatten_union self unionKey result = Throw
  \/ exists r, flatten_union self unionKey result = Normal r
               /\ bounded_children flat_array d r.
Proof.
  intros B. unfold flatten_union.
  destruct (get result unionKey) as [[| | | | [|o os] |]|] eqn:E;
    try (right; eexists; split; [reflexivity | exact B]).
  set (options := o :: os) in *.
  pose proof (tryMergeEnumFromUnion_fuel options) as Hmerge.
  destruct (tryMergeEnumFromUnion options) as [[mergedEnum|]| |]; cbn [bind];
    [| |now left | contradiction].
  - right. eexists. split; [reflexivity|].
    assert (B' : bounded_children flat_array d
                   (obj_set "enum" (JArr (map JStr mergedEnum))
                      (obj_set "type" (JStr "string") (obj_delete unionKey result)))).
    { apply bounded_set.
      - apply bounded_set; [now apply bounded_delete | discriminate].
      - intros _. right. apply flat_strings. }
    destruct (nonempty _); [|exact B'].
    apply bounded_set; [exact B' | discriminate].
  - set (x := nth _ options JNull).
    assert (Hx : self x = Throw \/ exists flattened, self x = Normal flattened
                                                  /\ depth flattened <= d).
    { destruct (is_object x) eqn:Ex.
      - assert (Hin : In x options).
        { destruct (nth_in_or_default (fst (select_best options 0 0 (-1)%Z []))
                      options JNull) as [H | H]; [exact H|].
          fold x in H. rewrite H in Ex. discriminate. }
        destruct (bounded_get flat_array d result unionKey (JArr options) B E eq_refl)
          as [Hold | (items & [= <-] & Hflat)].
        + pose proof (depth_element x options Hin).
          destruct (self_finishes x) as [-> | (r & -> & Hr)]; [lia | now left|].
          right. exists r. split; [reflexivity | lia].
        + rewrite (Hflat x Hin) in Ex. discriminate.
      - right. exists x. split; [now apply self_not_object|].
        rewrite depth_not_object by exact Ex. lia. }
    destruct Hx as [-> | (flattened & -> & Hf)]; [now left|].
    cbn [bind].
    set (selected := if truthy flattened then flattened else _).
    assert (Bs : bounded_children flat_array d selected).
    { apply bounded_self. unfold selected. destruct (truthy flattened); [exact Hf|].
      cbn. lia. }
    set (described := if nonempty (description_of result) then _ else selected).
    assert (Bd : bounded_children flat_array d described).
    { unfold described.
      repeat match goal with
        | |- bounded_children _ _ (if ?b then _ else _) => destruct b
        | |- bounded_children _ _ (obj_set _ (JStr _) _) =>
            apply bounded_set; [|discriminate]
        end; exact Bs. }
    set (allTypes := snd (select_best options 0 0 (-1)%Z [])).
    pose proof (join_fuel " | " (dedupe allTypes)) as Hj.
    destruct (1 <? List.length allTypes).
    + destruct (join " | " (dedupe allTypes)) as [types| |]; cbn [bind];
        [|now left | contradiction].
      right. eexists. split; [reflexivity|].
      apply bounded_spread; [apply bounded_delete; now apply bounded_delete|].
      now apply bounded_hint.
    + cbn [bind]. right. eexists. split; [reflexivity|].
      apply bounded_spread; [apply bounded_delete; now apply bounded_delete | exact Bd].
Qed.
End FlattenUnion.

Lemma flattenAnyOfOneOf_finishes (n : nat) (v : JSON) :
  depth v + 2 <= n -> finishes (flattenAnyOfOneOf n v) (depth v + 2).
Proof.
  apply (walk_finishes flattenAnyOfOneOf_node flat_array).
  - intros c m. apply flat_array_finishes.
  - intros m self fs Hself Hprim Hm. unfold flattenAnyOfOneOf_node.
    pose proof (bounded_self flat_array _ (JObj fs) (le_n _)) as B.
    pose proof (depth_object_pos (JObj fs) eq_refl) as Hd.
    destruct (flatten_union_finishes self m _ Hself Hprim Hm Hd "anyOf" (JObj fs) B)
      as [-> | (r & -> & Br)]; [now left|].
    cbn [bind].
    now apply (flatten_union_finishes self m _ Hself Hprim Hm Hd "oneOf" r).
Qed.

(** ** removeUnsupportedKeywords and the whole pipeline *)

Lemma removeUnsupportedKeywords_depth (v : JSON) :
  depth (removeUnsupportedKeywords v false) <= depth v.
Proof.
  remember (size v) as n eqn:Hn. revert v Hn.
  induction n as [n IH] using lt_wf_ind. intros v Hn.
  assert (R : forall z, size z < size v ->
                        depth (removeUnsupportedKeywords z false) <= depth z).
  { intros z Hz. apply (IH (size z)); [lia | reflexivity]. }
  assert (A : forall items z, (forall x, In x items -> size x < size v) ->
                In z (map (fun x => removeUnsupportedKeywords x false) items) ->
                depth z <= list_max (map depth items)).
  { intros items z Hs Hz. apply in_map_iff in Hz. destruct Hz as (x & <- & Hx).
    pose proof (list_max_In_le _ depth x items Hx). pose proof (R x (Hs x Hx)). lia. }
  destruct v as [| b | num | s | items | fs]; try (cbn; lia).
  - cbn [removeUnsupportedKeywords]. apply depth_arr_bound.
    intros y Hy. apply (A items y); [|exact Hy].
    intros x Hx. now apply size_element.
  - rewrite removeUnsupportedKeywords_obj. apply depth_obj_bound.
    intros k y Hy. apply in_flat_map in Hy. destruct Hy as ([k0 x] & Hx & Hy).
    pose proof (size_field k0 x fs Hx) as Hs.
    pose proof (list_max_In_le _ (fun kv => depth (snd kv)) (k0, x) fs Hx) as Hdx.
    cbn [snd] in Hdx.
    unfold kept_entry in Hy. cbn [fst snd] in Hy.
    destruct (is_unsupported k0); [destruct Hy|].
    destruct Hy as [[= <- <-] | []].
    apply Nat.le_trans with (m := depth x); [|exact Hdx].
    unfold kept_value. destruct x as [| b | num | s | items | gs]; try lia.
    + destruct (String.eqb k0 "properties"); [|apply R; lia].
      apply depth_obj_bound. intros k' c Hc. apply In_indexed_from in Hc.
      apply (A items c); [|exact Hc].
      intros z Hz. pose proof (size_element z items Hz). lia.
    + destruct (String.eqb k0 "properties"); [|apply R; lia].
      apply depth_obj_bound. intros k' c Hc.
      apply in_map_iff in Hc. destruct Hc as ([k1 z] & [= <- <-] & Hz).
      pose proof (size_field k1 z gs Hz).
      pose proof (list_max_In_le _ (fun kv => depth (snd kv)) (k1, z) gs Hz) as Hdz.
      cbn [snd] in *.
      apply Nat.le_trans with (m := depth z); [apply R; lia | exact Hdz].
Qed.

(** With twenty units of fuel above the depth of the input, no phase of
    [cleanSchema] runs out of fuel. *)
Lemma cleanSchema_finishes (fuel : nat) (schema : JSON) :
  depth schema + 20 <= fuel ->
  cleanSchema fuel schema = Throw \/ exists out, cleanSchema fuel schema = Normal out.
Proof.
  intros Hfuel. unfold cleanSchema.
  destruct (negb (truthy schema) || negb (is_object schema)); [right; eauto|].
  destruct (convertRefsToHints_finishes fuel schema) as [-> | (r1 & -> & H1)];
    [lia | now left | cbn [bind]].
  destruct (convertConstToEnum_finishes fuel r1) as [-> | (r2 & -> & H2)];
    [lia | now left | cbn [bind]].
  destruct (addEnumHints_finishes fuel r2) as [-> | (r3 & -> & H3)];
    [lia | now left | cbn [bind]].
  destruct (addAdditionalPropertiesHints_finishes fuel r3) as [-> | (r4 & -> & H4)];
    [lia | now left | cbn [bind]].
  destruct (moveConstraintsToDescription_finishes fuel r4) as [-> | (r5 & -> & H5)];
    [lia | now left | cbn [bind]].
  destruct (mergeAllOf_finishes fuel r5) as [-> | (r6 & -> & H6)];
    [lia | now left | cbn [bind]].
  destruct (flattenAnyOfOneOf_finishes fuel r6) as [-> | (r7 & -> & H7)];
    [lia | now left | cbn [bind]].
  destruct (flattenTypeArrays_finishes fuel r7) as [-> | (r8 & -> & H8)];
    [lia | now left | cbn [bind]].
  pose proof (removeUnsupportedKeywords_depth r8) as H9.
  destruct (cleanupRequiredFields_finishes fuel (removeUnsupportedKeywords r8 false))
    as [-> | (r10 & -> & H10)]; [lia | now left | cbn [bind]].
  destruct (addEmptySchemaPlaceholder_finishes fuel r10) as [-> | (r11 & -> & H11)];
    [lia | now left | cbn [bind]].
  right. eauto.
Qed.

(** Every phase of [cleanSchema] that walks the tree adds at most two
    levels, and [removeUnsupportedKeywords] adds none, so twenty units of
    fuel above the depth of the input are enough. *)
Theorem cleanSchema_enough_fuel (fuel : nat) (schema : JSON) :
  depth schema + 20 <= fuel ->
  cleanSchema fuel schema = Throw \/ exists out, cleanSchema fuel schema = Normal out.
Proof. apply cleanSchema_finishes. Qed.

(** ** C1, amended: the schemas that the cleaner leaves as they are *)






(** A walker returns a value as it is when its edit leaves every object
    of the value as it is. *)
Section WalkFixed.
Variable edit : (JSON -> Completion JSON) -> JSON -> Completion JSON.
Variable test : JSON -> bool.
Hypothesis edit_fixed :
  forall self fs, test (JObj fs) = true -> edit self (JObj fs) = Normal (JObj fs).

End WalkFixed.




















(** The cleaned union of two constants is not in cleaned form: its enum
    has no hint yet. *)
Lemma string_enum_not_stable :
  stable string_enum = false /\ stable string_enum_with_hint = true.
Proof. split; reflexivity. Qed.


(** ** C7 *)

Lemma gemini_entry_no_names (kv : string * JSON) :
  gemini_entry [] kv = [(fst kv, gemini_value (fst kv) (snd kv))].
Proof.
  destruct kv as [key value]. unfold gemini_entry, gemini_value. cbn [fst snd].
  destruct value; try reflexivity.
  destruct (String.eqb key "properties"); [reflexivity|].
  destruct (String.eqb key "items"); [reflexivity|].
  cbn. destruct (is_union_key key); [reflexivity|].
  destruct (String.eqb key "required"); reflexivity.
Qed.

Lemma lookup_gemini_no_names (k : string) (fs : Fields) :
  lookup k (flat_map (gemini_entry []) fs) = option_map (gemini_value k) (lookup k fs).
Proof.
  induction fs as [|[key value] fs IH]; [reflexivity|].
  cbn [flat_map]. rewrite gemini_entry_no_names. cbn [fst snd app lookup].
  destruct (String.eqb k key) eqn:E; [|exact IH].
  apply String.eqb_eq in E. now subst.
Qed.

Lemma gemini_value_required (v : JSON) (required : list JSON) :
  gemini_value "required" v = JArr required -> v = JArr required.
Proof. destruct v; cbn; congruence. Qed.

Lemma required_fits_other (v : JSON) : (forall fs, v <> JObj fs) -> required_fits_properties v.
Proof.
  intros H required properties Hreq. rewrite get_name_not_object in Hreq; auto; discriminate.
Qed.

Lemma toGeminiFormat_fits (n : nat) :
  forall schema node,
    size schema <= n ->
    at_nodes settled schema ->
    schema_node (toGeminiFormat schema) node ->
    required_fits_properties node.
Proof.
  induction n as [|n IH]; intros schema node Hs Hset Hnode.
  - destruct schema; simpl in Hs; try lia;
      apply schema_node_not_container in Hnode; try reflexivity; subst node;
      apply required_fits_other; discriminate.
  - destruct schema as [| b | r | s | items | fs];
      try (apply schema_node_not_container in Hnode; [|reflexivity]; subst node;
           apply required_fits_other; discriminate).
    + (* array *)
      cbn [toGeminiFormat] in Hnode.
      inversion Hnode as [v | items' x n' Hin Hx | | |]; subst.
      * apply required_fits_other; discriminate.
      * apply in_map_iff in Hin. destruct Hin as (x0 & <- & Hin0).
        apply (IH x0); [| now apply (at_nodes_element _ items) | assumption].
        pose proof (size_element _ _ Hin0). lia.
    + (* object *)
      destruct (Hset (JObj fs) (node_here _)) as [Hnot Hreq0].
      rewrite toGeminiFormat_obj in Hnode. cbv zeta in Hnode.
      set (result := flat_map (gemini_entry (property_names fs)) fs) in *.
      set (out := if is_string (lookup "type" result) "ARRAY"
                     && negb (truthy_opt (lookup "items" result))
                  then set_field "items" (JObj [("type", JStr "STRING")]) result
                  else result).
      assert (Hout : schema_node (JObj out) node).
      { unfold out. destruct (_ && _); exact Hnode. }
      clear Hnode.
      assert (Hother : forall k, String.eqb k "items" = false ->
                                 lookup k out = lookup k result).
      { intros k Hk. unfold out. destruct (_ && _); [|reflexivity].
        now apply lookup_set_field_other. }
      assert (Hitems : lookup "items" out = Some (JObj [("type", JStr "STRING")])
                       \/ lookup "items" out = lookup "items" result).
      { unfold out. destruct (_ && _); [left|right; reflexivity].
        apply lookup_set_field_same. }
      inversion Hout as [v | | fs' p k x n' Hp Hobj Hin Hx
                        | fs' x n' Hi Hx | fs' k bs x n' Hk Hb Hin Hx]; subst.
      * (* the node itself *)
        intros required properties Hreq Hprop Hobj. cbn [get] in *.
        rewrite Hother in Hreq, Hprop by reflexivity.
        unfold result in Hprop. rewrite lookup_gemini_other in Hprop by reflexivity.
        destruct (lookup "properties" fs) as [p0|] eqn:Ep; [|discriminate].
        injection Hprop as <-.
        destruct p0 as [| b | r | s | elems | pf]; try discriminate.
        -- now elim (Hnot elems).
        -- assert (Hn : property_names fs = map fst pf).
           { unfold property_names. now rewrite Ep. }
           assert (Hk : keys (gemini_value "properties" (JObj pf)) = map fst pf).
           { cbn. unfold keys, entries. now rewrite map_map. }
           rewrite Hk. unfold result in Hreq. rewrite Hn in Hreq.
           destruct pf as [|kv pf].
           ++ cbn [map] in Hreq. rewrite lookup_gemini_no_names in Hreq.
              destruct (lookup "required" fs) as [v|] eqn:Er; [|discriminate].
              injection Hreq as Hreq. apply gemini_value_required in Hreq. subst v.
              now elim (Hreq0 Ep required).
           ++ apply (lookup_gemini_required _ fs required Hreq). discriminate.
      * (* below a property *)
        rewrite Hother in Hp by reflexivity. unfold result in Hp.
        rewrite lookup_gemini_other in Hp by reflexivity.
        destruct (lookup "properties" fs) as [p0|] eqn:Ep; [|discriminate].
        pose proof (size_field _ _ _ (lookup_In _ _ _ Ep)) as Sz.
        injection Hp as <-.
        destruct p0 as [| b | r | s | elems | props]; try discriminate.
        -- now elim (Hnot elems).
        -- cbn in Hin. apply in_map_iff in Hin.
           destruct Hin as ([k0 x0] & [= <- <-] & Hin0).
           apply (IH x0);
             [| now apply (at_nodes_property _ fs props k0 x0) | assumption].
           pose proof (size_field _ _ _ Hin0). lia.
      * (* below items *)
        destruct Hitems as [Hd | Hr].
        -- rewrite Hd in Hi. injection Hi as <-.
           inversion Hx as [v | | fs' p k x' n' Hp | fs' x' n' Hi' | fs' k bs x' n' Hk Hb];
             subst; try discriminate.
           cbn in Hb. destruct (String.eqb k "type"); discriminate.
        -- rewrite Hr in Hi. unfold result in Hi.
           rewrite lookup_gemini_other in Hi by reflexivity.
           destruct (lookup "items" fs) as [v0|] eqn:Ev; [|discriminate].
           pose proof (size_field _ _ _ (lookup_In _ _ _ Ev)) as Sz.
           pose proof (at_nodes_items _ fs v0 Hset Ev) as Hv0.
           injection Hi as <-.
           destruct v0 as [| b | r | s | elems | props];
             try (apply schema_node_not_container in Hx; [|reflexivity]; subst node;
                  apply required_fits_other; discriminate).
           ++ cbn [gemini_value] in Hx. cbn in Hx.
              apply (IH (JArr elems)); [lia | exact Hv0 | exact Hx].
           ++ cbn [gemini_value] in Hx. cbn in Hx.
              apply (IH (JObj props)); [lia | exact Hv0 | exact Hx].
      * (* below a union *)
        pose proof (is_union_key_not_special _ Hk) as (Kr & Ki & Kp).
        rewrite Hother in Hb by assumption. unfold result in Hb.
        rewrite lookup_gemini_other in Hb by assumption.
        destruct (lookup k fs) as [v0|] eqn:Ev; [|discriminate].
        pose proof (size_field _ _ _ (lookup_In _ _ _ Ev)) as Sz.
        injection Hb as Hb.
        destruct v0 as [| b | r | s | elems | props]; try discriminate.
        -- cbn in Hb. destruct (String.eqb k "type"); discriminate.
        -- unfold gemini_value in Hb. rewrite Kp, Ki, Hk in Hb.
           injection Hb as <-.
           apply in_map_iff in Hin. destruct Hin as (x0 & <- & Hin0).
           apply (IH x0);
             [| now apply (at_nodes_branch _ fs k elems x0) | assumption].
           pose proof (size_element _ _ Hin0). lia.
        -- unfold gemini_value in Hb. rewrite Kp, Ki in Hb. discriminate.
Qed.

Lemma cleanSchema_phases (fuel : nat) (schema out : JSON) :
  cleanSchema fuel schema = Normal out ->
  out = default_string_schema
  \/ exists x2 x3 x4,
       cleanupRequiredFields fuel (removeUnsupportedKeywords x2 false) = Normal x3
       /\ addEmptySchemaPlaceholder fuel x3 = Normal x4
       /\ out = toGeminiFormat x4.
Proof.
  unfold cleanSchema. destruct (_ || _).
  - intros [= <-]. now left.
  - intros H. right.
    do 8 (apply bind_Normal in H; destruct H as (? & _ & H)).
    cbv zeta in H.
    apply bind_Normal in H. destruct H as (y3 & H3 & H).
    apply bind_Normal in H. destruct H as (y4 & H4 & H).
    injection H as <-. exists x6, y3, y4. auto.
Qed.

(** C7, as stated, fails: a node without a [properties] object keeps its
    [required] array, whose entries then name no property. *)
Lemma cleanSchema_keeps_required_without_properties :
  cleanSchema 2 (JObj [("required", JArr [JStr "a"])])
  = Normal (JObj [("required", JArr [JStr "a"])])
  /\ ~ required_names_properties (JObj [("required", JArr [JStr "a"])]).
Proof.
  split; [reflexivity|].
  intros H. destruct (H [JStr "a"] eq_refl (JStr "a") (or_introl eq_refl))
    as (name & _ & []).
Qed.

(** C7, amended.  In the output of [cleanSchema], every node that
    carries a [required] array and has a sibling [properties] object
    satisfies: each entry of the array is a string naming a key of that
    [properties] object, and the array is not empty (an array of which no
    entry survives is removed from the node).  The statement is about
    every call that returns; by [cleanSchema_enough_fuel] a call returns or
    throws as soon as the fuel exceeds the depth of the schema by twenty. *)
Theorem cleanSchema_required_fits_properties
    (fuel : nat) (schema out node : JSON) :
  cleanSchema fuel schema = Normal out ->
  schema_node out node ->
  required_fits_properties node.
Proof.
  intros H Hnode. apply cleanSchema_phases in H.
  destruct H as [-> | (x2 & x3 & x4 & H3 & H4 & ->)].
  - change default_string_schema with (toGeminiFormat default_string_schema) in Hnode.
    apply (toGeminiFormat_fits _ default_string_schema node (Nat.le_refl _));
      [|exact Hnode].
    intros n Hn.
    inversion Hn as [v | | fs p k x n' Hp | fs x n' Hi | fs k bs x n' Hk Hb]; subst;
      try (cbn in *; discriminate).
    + split; [intros items H; cbv in H; discriminate | intros H; cbv in H; discriminate].
    + cbn in Hb. destruct (String.eqb k "type"); discriminate.
  - apply (toGeminiFormat_fits (size x4) x4 node (Nat.le_refl _)); [|exact Hnode].
    apply (addEmptySchemaPlaceholder_settled fuel x3 x4); [|exact H4].
    apply (cleanupRequiredFields_settles fuel (removeUnsupportedKeywords x2 false) x3);
      [|exact H3].
    apply (removeUnsupportedKeywords_nodes (size x2)). apply Nat.le_refl.
Qed.

Lemma cleanSchema_required_fits_properties_witness :
  cleanSchema 4 person_schema = Normal person_schema_cleaned
  /\ schema_node person_schema_cleaned person_schema_cleaned
  /\ required_fits_properties person_schema_cleaned.
Proof.
  split; [reflexivity|]. split; [constructor|].
  apply (cleanSchema_required_fits_properties 4 person_schema person_schema_cleaned);
    [reflexivity | constructor].
Defined.

(* ================================================================== *)
(** * Properties of the request transformer *)
(* ================================================================== *)


Section RequestProperties.
Variable JSON_parse : string -> option JSON.

Lemma transform_messages_fold (messages : list OpenAIMessage) :
  transform_messages JSON_parse messages = fold_left (message_step JSON_parse) messages [].
Proof. reflexivity. Qed.

Lemma Role_eqb_eq (a b : Role) : Role_eqb a b = true <-> a = b.
Proof. destruct a, b; simpl; split; congruence. Qed.

Lemma Role_eqb_refl (a : Role) : Role_eqb a a = true.
Proof. now destruct a. Qed.

(** ** Adjacent contents alternate *)

Lemma push_content_app (l r : list AntigravityContent) (c : AntigravityContent) :
  r <> [] -> push_content (l ++ r)%list c = (l ++ push_content r c)%list.
Proof.
  intros Hr. induction l as [|x l IH]; [reflexivity|].
  cbn [app]. rewrite <- IH.
  destruct (l ++ r)%list eqn:E; [|reflexivity].
  apply app_eq_nil in E. destruct E as [_ E]. contradiction.
Qed.

Lemma push_content_last (l : list AntigravityContent) (last c : AntigravityContent) :
  push_content (l ++ [last])%list c
  = if Role_eqb (role last) (role c)
    then (l ++ [{| role := role last; parts := (parts last ++ parts c)%list |}])%list
    else (l ++ [last; c])%list.
Proof.
  rewrite push_content_app by discriminate. cbn [push_content].
  now destruct (Role_eqb (role last) (role c)).
Qed.

Lemma alternating_snoc (l : list AntigravityContent) (a b : AntigravityContent) :
  alternating (l ++ [a])%list = true ->
  Role_eqb (role a) (role b) = false ->
  alternating (l ++ [a; b])%list = true.
Proof.
  induction l as [|x l IH]; intros H E; cbn.
  - now rewrite E.
  - destruct l as [|y l]; cbn in *.
    + apply andb_true_iff in H. destruct H as [H _]. now rewrite H, E.
    + apply andb_true_iff in H. destruct H as [H1 H2]. rewrite H1. cbn.
      now apply IH.
Qed.

Lemma alternating_replace_last (l : list AntigravityContent) (a b : AntigravityContent) :
  alternating (l ++ [a])%list = true ->
  role b = role a ->
  alternating (l ++ [b])%list = true.
Proof.
  induction l as [|x l IH]; intros H E; [reflexivity|].
  destruct l as [|y l]; cbn in *.
  - now rewrite E.
  - apply andb_true_iff in H. destruct H as [H1 H2]. rewrite H1. cbn.
    now apply IH.
Qed.

Lemma alternating_push (contents : list AntigravityContent) (c : AntigravityContent) :
  alternating contents = true -> alternating (push_content contents c) = true.
Proof.
  intros H. induction contents as [|last l _] using rev_ind; [reflexivity|].
  rewrite push_content_last.
  destruct (Role_eqb (role last) (role c)) eqn:E.
  - now apply (alternating_replace_last l last).
  - now apply alternating_snoc.
Qed.

Lemma alternating_transform_messages (messages : list OpenAIMessage) :
  alternating (transform_messages JSON_parse messages) = true.
Proof.
  rewrite transform_messages_fold.
  assert (G : forall contents, alternating contents = true ->
                               alternating (fold_left (message_step JSON_parse) messages contents) = true).
  { induction messages as [|msg messages IH]; intros contents H; [exact H|].
    cbn [fold_left]. apply IH. unfold message_step.
    destruct (String.eqb (msg_role msg) "system"); [exact H|].
    destruct (transformMessage JSON_parse msg); [|exact H].
    now apply alternating_push. }
  now apply G.
Qed.

(** ** A content that was pushed stays, with its parts in order *)

Lemma holds_parts_push (r : Role) (ps : list AntigravityPart)
    (contents : list AntigravityContent) (c : AntigravityContent) :
  holds_parts r ps contents -> holds_parts r ps (push_content contents c).
Proof.
  intros (before & b & a & after & ->).
  induction after as [|last after' _] using rev_ind.
  - rewrite push_content_last. cbn [role parts].
    destruct (Role_eqb r (role c)).
    + exists before, b, (a ++ parts c)%list, [].
      now rewrite <- !app_assoc.
    + exists before, b, a, [c]. reflexivity.
  - replace (before ++ {| role := r; parts := b ++ ps ++ a |} :: after' ++ [last])%list
      with ((before ++ {| role := r; parts := b ++ ps ++ a |} :: after') ++ [last])%list
      by now rewrite <- app_assoc.
    rewrite push_content_last.
    destruct (Role_eqb (role last) (role c)).
    + exists before, b, a,
        (after' ++ [{| role := role last; parts := parts last ++ parts c |}])%list.
      now rewrite <- app_assoc.
    + exists before, b, a, (after' ++ [last; c])%list.
      now rewrite <- app_assoc.
Qed.

Lemma holds_parts_fold (r : Role) (ps : list AntigravityPart)
    (messages : list OpenAIMessage) (contents : list AntigravityContent) :
  holds_parts r ps contents -> holds_parts r ps (fold_left (message_step JSON_parse) messages contents).
Proof.
  revert contents. induction messages as [|msg messages IH]; intros contents H;
    [exact H|].
  cbn [fold_left]. apply IH. unfold message_step.
  destruct (String.eqb (msg_role msg) "system"); [exact H|].
  destruct (transformMessage JSON_parse msg); [|exact H].
  now apply holds_parts_push.
Qed.

Lemma push_content_shape (contents : list AntigravityContent) (c : AntigravityContent) :
  exists before b,
    push_content contents c
    = (before ++ [{| role := role c; parts := b ++ parts c |}])%list.
Proof.
  induction contents as [|last l _] using rev_ind.
  - exists [], []. now destruct c.
  - rewrite push_content_last. destruct (Role_eqb (role last) (role c)) eqn:E.
    + apply Role_eqb_eq in E. exists l, (parts last). now rewrite E.
    + exists (l ++ [last])%list, []. rewrite <- app_assoc. now destruct c.
Qed.

Lemma holds_parts_pushed (contents : list AntigravityContent) (c : AntigravityContent) :
  holds_parts (role c) (parts c) (push_content contents c).
Proof.
  destruct (push_content_shape contents c) as (before & b & ->).
  exists before, b, [], []. now rewrite app_nil_r.
Qed.

Lemma holds_parts_pushed_twice (contents : list AntigravityContent)
    (c1 c2 : AntigravityContent) :
  role c1 = role c2 ->
  holds_parts (role c1) (parts c1 ++ parts c2)
    (push_content (push_content contents c1) c2).
Proof.
  intros E. destruct (push_content_shape contents c1) as (before & b & ->).
  rewrite push_content_last. cbn [role parts]. rewrite E, Role_eqb_refl.
  exists before, b, [], []. now rewrite app_nil_r, <- app_assoc.
Qed.

Lemma transformMessage_user (msg : OpenAIMessage) (c : AntigravityContent) :
  msg_role msg = "user" -> transformMessage JSON_parse msg = Some c ->
  role c = RoleUser.
Proof.
  unfold transformMessage. intros ->. cbn.
  destruct (msg_tool_calls msg);
    (destruct (content_parts (msg_content msg)); [discriminate|]);
    now intros [= <-].
Qed.

Lemma step_user (contents : list AntigravityContent) (msg : OpenAIMessage)
    (c : AntigravityContent) :
  String.eqb (msg_role msg) "system" = false ->
  transformMessage JSON_parse msg = Some c ->
  message_step JSON_parse contents msg = push_content contents c.
Proof. intros H E. unfold message_step. now rewrite H, E. Qed.

Lemma transformRequest_Normal (fuel : nat) (request : OpenAIRequest)
    (out : AntigravityRequest) :
  transformRequest JSON_parse fuel request = Normal out ->
  contents out = transform_messages JSON_parse (req_messages request)
  /\ generationConfig out = generation_config request
  /\ match req_tools request with
     | Some ((_ :: _) as ts) => exists r, transformTools fuel ts = Normal r
                                          /\ tools out = Some r
     | _ => tools out = None
     end.
Proof.
  unfold transformRequest. intros H.
  apply bind_Normal in H. destruct H as (ts & Ht & H).
  injection H as <-. cbn. repeat split.
  destruct (req_tools request) as [[|t l]|]; try (now injection Ht as <-).
  apply bind_Normal in Ht. destruct Ht as (r & Hr & Ht).
  injection Ht as <-. now exists r.
Qed.

(** ** C3 *)

(** C3.  The contents produced by [transformRequest] never hold two
    adjacent entries with the same role.  Two consecutive user messages
    that both render to a content end up in one content of role [user],
    their parts side by side in the original order; when they are the
    whole conversation, that content is the whole list. *)
Theorem transformRequest_contents_alternate (fuel : nat) (request : OpenAIRequest)
    (out : AntigravityRequest) :
  transformRequest JSON_parse fuel request = Normal out ->
  alternating (contents out) = true
  /\ forall pre m1 m2 post c1 c2,
       req_messages request = (pre ++ m1 :: m2 :: post)%list ->
       msg_role m1 = "user" -> msg_role m2 = "user" ->
       transformMessage JSON_parse m1 = Some c1 ->
       transformMessage JSON_parse m2 = Some c2 ->
       holds_parts RoleUser (parts c1 ++ parts c2) (contents out)
       /\ (pre = [] -> post = [] ->
           contents out = [{| role := RoleUser; parts := parts c1 ++ parts c2 |}]).
Proof.
  intros H. apply transformRequest_Normal in H. destruct H as (Hc & _ & _).
  rewrite Hc. split; [apply alternating_transform_messages|].
  intros pre m1 m2 post c1 c2 Hm R1 R2 T1 T2.
  pose proof (transformMessage_user m1 c1 R1 T1) as U1.
  pose proof (transformMessage_user m2 c2 R2 T2) as U2.
  assert (S1 : String.eqb (msg_role m1) "system" = false) by now rewrite R1.
  assert (S2 : String.eqb (msg_role m2) "system" = false) by now rewrite R2.
  rewrite Hm, transform_messages_fold, fold_left_app. cbn [fold_left].
  rewrite (step_user _ m1 c1 S1 T1), (step_user _ m2 c2 S2 T2).
  split.
  - apply holds_parts_fold. rewrite <- U1.
    apply holds_parts_pushed_twice. congruence.
  - intros -> ->. cbn. rewrite U1, U2. reflexivity.
Qed.

(** ** C9 *)

Lemma transformMessage_tool_unparseable (msg : OpenAIMessage) (id body : string) :
  msg_role msg = "tool" ->
  msg_tool_call_id msg = Some id -> nonempty id = true ->
  msg_content msg = ContentString body ->
  JSON_parse body = None ->
  transformMessage JSON_parse msg
  = Some {| role := RoleUser;
            parts := content_parts (msg_content msg)
                     ++ [PartFunctionResponse (tool_result_name msg)
                           (ResponseContent (ContentString body))] |}.
Proof.
  intros R I N C P. unfold transformMessage, tool_result_name.
  rewrite R, I, C, P. cbn. rewrite N. cbn.
  now destruct (msg_tool_calls msg).
Qed.

Lemma mapM_returns (A B : Type) (g : A -> Completion B) (l : list A) :
  (forall x, In x l -> exists y, g x = Normal y) -> exists r, mapM g l = Normal r.
Proof.
  induction l as [|x l IH]; intros H; [eexists; reflexivity|].
  cbn [mapM]. destruct (H x (or_introl eq_refl)) as (y & ->). cbn [bind].
  destruct IH as (r & ->); [intros x' Hx'; apply H; now right|].
  cbn [bind]. eexists. reflexivity.
Qed.

Lemma mapM_Throw (A B : Type) (g : A -> Completion B) (l : list A) :
  mapM g l = Throw -> exists x, In x l /\ g x = Throw.
Proof.
  induction l as [|x l IH]; cbn [mapM]; [discriminate|].
  destruct (g x) as [y| |] eqn:E; cbn [bind].
  - destruct (mapM g l) as [ys| |]; cbn [bind]; try discriminate.
    intros _. destruct (IH eq_refl) as (x' & Hin & Hx'). exists x'. split; [now right | exact Hx'].
  - intros _. exists x. split; [now left | exact E].
  - discriminate.
Qed.

(** The declaration of a tool is there as soon as its schema is cleaned. *)
Lemma declaration_cases (fuel : nat) (tool : OpenAITool) :
  let declare :=
    parameters <- match tool_parameters tool with
                  | Some schema => cleanSchema fuel schema
                  | None => cleanSchema fuel JNull
                  end ;;
    Normal {| decl_name := tool_name tool;
              decl_description := tool_description tool;
              decl_parameters := parameters |} in
  ((exists p, cleanSchema fuel (Vocabulary.tool_schema tool) = Normal p) ->
   exists d, declare = Normal d)
  /\ (declare = Throw -> cleanSchema fuel (Vocabulary.tool_schema tool) = Throw)
  /\ (declare = OutOfFuel -> cleanSchema fuel (Vocabulary.tool_schema tool) = OutOfFuel).
Proof.
  unfold Vocabulary.tool_schema. cbv zeta.
  destruct (tool_parameters tool) as [schema|].
  - destruct (cleanSchema fuel schema) as [p| |]; cbn [bind];
      (split; [intros (q & Hq); try discriminate; eexists; reflexivity|]);
      split; (discriminate || reflexivity).
  - destruct (cleanSchema fuel JNull) as [p| |]; cbn [bind];
      (split; [intros (q & Hq); try discriminate; eexists; reflexivity|]);
      split; (discriminate || reflexivity).
Qed.

Lemma transformTools_returns (fuel : nat) (ts : list OpenAITool) :
  (forall tool, In tool (filter Vocabulary.is_function_tool ts) ->
                exists p, cleanSchema fuel (Vocabulary.tool_schema tool) = Normal p) ->
  exists r, transformTools fuel ts = Normal r.
Proof.
  intros H. unfold transformTools.
  match goal with
  | |- context [mapM ?g ?l] =>
      destruct (mapM_returns _ _ g l) as (ds & ->)
  end.
  - intros tool Hin. apply (proj1 (declaration_cases fuel tool)). now apply H.
  - cbn [bind]. destruct ds; eexists; reflexivity.
Qed.

Lemma transformTools_Throw (fuel : nat) (ts : list OpenAITool) :
  transformTools fuel ts = Throw ->
  exists tool, In tool (filter Vocabulary.is_function_tool ts)
               /\ cleanSchema fuel (Vocabulary.tool_schema tool) = Throw.
Proof.
  unfold transformTools. intros H.
  match type of H with
  | context [mapM ?g ?l] => destruct (mapM g l) as [ds| |] eqn:E
  end; cbn [bind] in H.
  - destruct ds; discriminate.
  - apply mapM_Throw in E. destruct E as (tool & Hin & Ht).
    exists tool. split; [exact Hin|].
    now apply (proj1 (proj2 (declaration_cases fuel tool))).
  - discriminate.
Qed.

Lemma transformTools_fuel (fuel : nat) (ts : list OpenAITool) :
  (forall tool, In tool (filter Vocabulary.is_function_tool ts) ->
                cleanSchema fuel (Vocabulary.tool_schema tool) <> OutOfFuel) ->
  transformTools fuel ts <> OutOfFuel.
Proof.
  intros H. unfold transformTools.
  match goal with
  | |- context [mapM ?g ?l] =>
      pose proof (mapM_fuel _ _ g l) as M; destruct (mapM g l) as [ds| |]
  end; cbn [bind]; [destruct ds; discriminate | discriminate |].
  exfalso. apply M; [|reflexivity].
  intros tool Hin E. apply (H tool Hin).
  now apply (proj2 (proj2 (declaration_cases fuel tool))).
Qed.

Lemma transformRequest_returns (fuel : nat) (request : OpenAIRequest) :
  (forall tool, In tool (Vocabulary.function_tools request) ->
                exists p, cleanSchema fuel (Vocabulary.tool_schema tool) = Normal p) ->
  exists out, transformRequest JSON_parse fuel request = Normal out.
Proof.
  unfold transformRequest, Vocabulary.function_tools. intros H.
  destruct (req_tools request) as [[|t ts]|]; cbn [bind]; try (eexists; reflexivity).
  destruct (transformTools_returns fuel (t :: ts) H) as (r & ->).
  cbn [bind]. eexists. reflexivity.
Qed.

Lemma transformRequest_Throw (fuel : nat) (request : OpenAIRequest) :
  transformRequest JSON_parse fuel request = Throw ->
  exists tool, In tool (Vocabulary.function_tools request)
               /\ cleanSchema fuel (Vocabulary.tool_schema tool) = Throw.
Proof.
  unfold transformRequest, Vocabulary.function_tools.
  destruct (req_tools request) as [[|t ts]|]; cbn [bind]; try discriminate.
  destruct (transformTools fuel (t :: ts)) eqn:E; cbn [bind]; try discriminate.
  intros _. now apply transformTools_Throw.
Qed.

Lemma transformRequest_fuel (fuel : nat) (request : OpenAIRequest) :
  Vocabulary.budget_covers_tools fuel request = true ->
  transformRequest JSON_parse fuel request <> OutOfFuel.
Proof.
  unfold Vocabulary.budget_covers_tools, transformRequest, Vocabulary.function_tools.
  intros H.
  destruct (req_tools request) as [[|t ts]|]; cbn [bind]; try discriminate.
  pose proof (transformTools_fuel fuel (t :: ts)) as F.
  destruct (transformTools fuel (t :: ts)); cbn [bind]; try discriminate.
  exfalso. apply F; [|reflexivity].
  intros tool Hin E.
  pose proof (proj1 (forallb_forall _ _) H tool Hin) as Hd.
  apply Nat.leb_le in Hd.
  destruct (cleanSchema_finishes fuel _ Hd) as [T | (out & T)]; congruence.
Qed.

(** C9.  A tool message that carries a tool-call id and whose string
    content does not parse as JSON is transformed, without an exception,
    into a content of role [user] that ends with a function response whose
    response is [{content: <the string>}] and whose name is the name of the
    message, or ["unknown_tool"] when the message has no name (an empty
    name counts as none).  [transformRequest] returns a request as soon as
    [cleanSchema] returns for the schema of every function tool, so for
    every request without such tools; the request that it returns holds
    that content, parts in order.  With a recursion budget that covers the
    schemas of the tools, [transformRequest] returns that request or
    throws, and it throws only when the cleaning of a tool schema does:
    never for the content of the message. *)
Theorem transformRequest_tool_result_unparseable (fuel : nat)
    (request : OpenAIRequest) (msg : OpenAIMessage) (id body : string) :
  In msg (req_messages request) ->
  msg_role msg = "tool" ->
  msg_tool_call_id msg = Some id -> nonempty id = true ->
  msg_content msg = ContentString body ->
  JSON_parse body = None ->
  let response :=
    PartFunctionResponse (tool_result_name msg) (ResponseContent (ContentString body)) in
  let node := (content_parts (msg_content msg) ++ [response])%list in
  transformMessage JSON_parse msg = Some {| role := RoleUser; parts := node |}
  /\ ((forall tool, In tool (Vocabulary.function_tools request) ->
                    exists p, cleanSchema fuel (Vocabulary.tool_schema tool) = Normal p) ->
      exists out, transformRequest JSON_parse fuel request = Normal out
                  /\ holds_parts RoleUser node (contents out))
  /\ (Vocabulary.budget_covers_tools fuel request = true ->
      (exists out, transformRequest JSON_parse fuel request = Normal out
                   /\ holds_parts RoleUser node (contents out))
      \/ (transformRequest JSON_parse fuel request = Throw
          /\ exists tool, In tool (Vocabulary.function_tools request)
                          /\ cleanSchema fuel (Vocabulary.tool_schema tool) = Throw))
  /\ (forall out,
        transformRequest JSON_parse fuel request = Normal out ->
        holds_parts RoleUser node (contents out)).
Proof.
  intros Hin R I N C P response node.
  pose proof (transformMessage_tool_unparseable msg id body R I N C P) as T.
  assert (Holds : forall out,
             transformRequest JSON_parse fuel request = Normal out ->
             holds_parts RoleUser node (contents out)).
  { intros out H.
    apply transformRequest_Normal in H. destruct H as (Hc & _ & _).
    apply in_split in Hin. destruct Hin as (pre & post & Hm).
    assert (S1 : String.eqb (msg_role msg) "system" = false) by now rewrite R.
    rewrite Hc, Hm, transform_messages_fold, fold_left_app. cbn [fold_left].
    rewrite (step_user _ msg _ S1 T).
    apply holds_parts_fold.
    match goal with
    | |- holds_parts _ _ (push_content ?c ?n) =>
        apply (holds_parts_pushed c n)
    end. }
  split; [exact T|]. split; [|split; [|exact Holds]].
  - intros Hclean. destruct (transformRequest_returns fuel request Hclean) as (out & Hout).
    exists out. split; [exact Hout | now apply Holds].
  - intros Hfuel. pose proof (transformRequest_fuel fuel request Hfuel) as F.
    destruct (transformRequest JSON_parse fuel request) as [out| |] eqn:E.
    + left. exists out. split; [reflexivity | now apply Holds].
    + right. split; [reflexivity | now apply transformRequest_Throw].
    + now elim F.
Qed.

(** A request without tools is always transformed. *)
Lemma transformRequest_without_tools (fuel : nat) (request : OpenAIRequest) :
  req_tools request = None ->
  exists out, transformRequest JSON_parse fuel request = Normal out.
Proof.
  intros H. unfold transformRequest. rewrite H. cbn. eauto.
Qed.

(** ** C6 *)

Lemma transformTools_no_function (fuel : nat) (ts : list OpenAITool) :
  (forall t, In t ts -> String.eqb (tool_type t) "function" = false) ->
  transformTools fuel ts = Normal [].
Proof.
  intros H. unfold transformTools.
  replace (filter (fun tool => String.eqb (tool_type tool) "function") ts)
    with (@nil OpenAITool); [reflexivity|].
  symmetry. induction ts as [|t ts IH]; [reflexivity|].
  cbn. rewrite (H t (or_introl eq_refl)). apply IH.
  intros t' Hin. apply H. now right.
Qed.

(** C6, amended.  For a request whose tools array is not empty and
    holds no entry of type ["function"], [transformRequest] returns a
    request whose [tools] field is the empty array; the field is absent
    exactly when the tools array of the request is absent or empty. *)
Theorem transformRequest_tools_without_function (fuel : nat)
    (request : OpenAIRequest) :
  (forall ts,
      req_tools request = Some ts -> ts <> [] ->
      (forall t, In t ts -> String.eqb (tool_type t) "function" = false) ->
      exists out, transformRequest JSON_parse fuel request = Normal out
                  /\ tools out = Some [])
  /\ (forall out,
        transformRequest JSON_parse fuel request = Normal out ->
        (tools out = None
         <-> req_tools request = None \/ req_tools request = Some [])).
Proof.
  split.
  - intros ts Ht Hne Hf. unfold transformRequest. rewrite Ht.
    destruct ts as [|t ts]; [contradiction|].
    rewrite (transformTools_no_function fuel (t :: ts) Hf). cbn. eauto.
  - intros out H. apply transformRequest_Normal in H. destruct H as (_ & _ & H).
    destruct (req_tools request) as [[|t ts]|].
    + split; auto.
    + destruct H as (r & _ & ->). split; [discriminate|].
      intros [E | E]; discriminate.
    + split; auto.
Qed.

(** C2, amended.  A model identifier that, in lower case, contains none
    of ["thinking"], ["gemini-3"] and ["opus"] gets no [thinkingConfig] and
    keeps its output-token cap.  An identifier that contains ["gemini-3"]
    gets the thinking level ["medium"], and the cap 65535 when the request
    gives none; both ["gemini-3-pro"] and ["gemini-3-pro-thinking"] are
    such identifiers. *)
Theorem transformRequest_thinking (fuel : nat) (request : OpenAIRequest)
    (out : AntigravityRequest) :
  transformRequest JSON_parse fuel request = Normal out ->
  (isThinkingModel (toLowerCase (req_model request)) = false ->
   thinkingConfig (generationConfig out) = None
   /\ maxOutputTokens (generationConfig out) = req_max_tokens request)
  /\ (includes (toLowerCase (req_model request)) "gemini-3" = true ->
      thinkingConfig (generationConfig out) = Some medium_thinking
      /\ (req_max_tokens request = None ->
          maxOutputTokens (generationConfig out) = Some 65535%Z))
  /\ includes (toLowerCase "gemini-3-pro") "gemini-3" = true
  /\ includes (toLowerCase "gemini-3-pro-thinking") "gemini-3" = true.
Proof.
  intros H. apply transformRequest_Normal in H. destruct H as (_ & -> & _).
  unfold generation_config. split; [|split; [|split; reflexivity]].
  - intros H. now rewrite H.
  - intros H. unfold isThinkingModel. rewrite H, orb_true_r. cbn.
    split; [reflexivity|]. now intros ->.
Qed.
End RequestProperties.

(* ================================================================== *)
(** * Properties of the response transformers *)
(* ================================================================== *)

(** A falsy value has no property but the [length] of the empty string. *)
Lemma falsy_get (v : JSON) (k : string) :
  truthy v = false -> String.eqb k "length" = false -> get v k = None.
Proof.
  intros Hv Hk. destruct v as [| b | num | s | items | fs]; try reflexivity;
    try discriminate.
  destruct s; [|discriminate]. cbn [get]. rewrite Hk. reflexivity.
Qed.

(** ** The two tables of finish reasons *)

(** The helper of the single-shot transformer answers by the table, and
    "stop" outside it; the helper of the streaming transformer answers by
    the table, and [null] outside it. *)
Lemma whole_reason_table (reason : option JSON) :
  ResponseTransformer.mapFinishReason reason
  = Some (match table_entry reason with Some mapped => mapped | None => "stop" end).
Proof.
  destruct reason as [[| | | r | |]|]; try reflexivity.
  unfold ResponseTransformer.mapFinishReason, table_entry, finish_reason_table.
  cbn [find fst snd option_map].
  repeat (destruct (String.eqb r _); [reflexivity|]). reflexivity.
Qed.

Lemma stream_reason_table (reason : option JSON) :
  Streaming.mapFinishReason reason = table_entry reason.
Proof.
  destruct reason as [[| | | r | |]|]; try reflexivity.
  unfold Streaming.mapFinishReason, table_entry, finish_reason_table.
  cbn [find fst snd option_map].
  repeat (destruct (String.eqb r _); [reflexivity|]). reflexivity.
Qed.

Lemma table_entry_unknown (reason : option JSON) :
  known_reason reason = false -> table_entry reason = None.
Proof.
  intros H. unfold known_reason in H.
  repeat (apply orb_false_iff in H; destruct H as [H ?]).
  destruct reason as [[| | | r | |]|]; try reflexivity.
  unfold table_entry, finish_reason_table, is_string in *.
  cbn [find fst snd] in *.
  repeat match goal with E : String.eqb r _ = false |- _ => rewrite E; clear E end.
  reflexivity.
Qed.

(* ================================================================== *)
(** * Properties of the SSE parser *)
(* ================================================================== *)


Lemma data_truthy_spec (e : SSEParsedEvent) :
  data_truthy e = true <-> exists d, data e = Some d /\ d <> EmptyString.
Proof.
  unfold data_truthy. destruct (data e) as [d|].
  - destruct d as [|c d]; simpl; split.
    + discriminate.
    + intros (d0 & [= <-] & H). congruence.
    + intros _. eexists. split; [reflexivity | discriminate].
    + reflexivity.
  - split; [discriminate | intros (d & H & _); discriminate].
Qed.

Lemma parse_line_events (st : list SSEParsedEvent * SSEParsedEvent) (line : string) :
  Forall (fun e => data_truthy e = true) (fst st) ->
  Forall (fun e => data_truthy e = true) (fst (parse_line st line)).
Proof.
  intros H. unfold parse_line.
  destruct (negb (nonempty (trim line))).
  - cbn [fst]. destruct (data_truthy (snd st)) eqn:E; [|exact H].
    apply Forall_app. split; [exact H|]. now constructor.
  - destruct (indexOf ":"%char line); [|exact H].
    destruct (String.eqb _ "data"); [exact H|].
    destruct (String.eqb _ "event"); [exact H|].
    destruct (String.eqb _ "id"); exact H.
Qed.

Lemma fold_parse_line_events (lines : list string)
    (st : list SSEParsedEvent * SSEParsedEvent) :
  Forall (fun e => data_truthy e = true) (fst st) ->
  Forall (fun e => data_truthy e = true) (fst (fold_left parse_line lines st)).
Proof.
  revert st. induction lines as [|line lines IH]; intros st H; [exact H|].
  cbn [fold_left]. apply IH. now apply parse_line_events.
Qed.

Lemma nonempty_app_r (a b : string) : nonempty (a ++ b) = nonempty a || nonempty b.
Proof. destruct a; [reflexivity|]. reflexivity. Qed.

Lemma parse_line_no_data (st : list SSEParsedEvent * SSEParsedEvent) (line : string) :
  gives_data line = false ->
  fst st = [] -> data_truthy (snd st) = false ->
  fst (parse_line st line) = [] /\ data_truthy (snd (parse_line st line)) = false.
Proof.
  intros G E D. unfold parse_line, gives_data in *.
  destruct (nonempty (trim line)); cbn [negb andb] in *.
  - destruct (indexOf ":"%char line) as [i|]; [|now split].
    destruct (String.eqb (trim (slice_to i line)) "data") eqn:F; cbn [andb] in G.
    + cbn [fst snd]. split; [exact E|].
      unfold data_truthy in *. cbn [data].
      destruct (data (snd st)) as [d|].
      * rewrite D. cbn. exact G.
      * cbn. exact G.
    + destruct (String.eqb _ "event"); [now split|].
      destruct (String.eqb _ "id"); now split.
  - rewrite D. now split.
Qed.

(** ** C10 *)

(** C10.  Every event returned by [parseSSEChunk] has a [data] field that
    is present and not empty; and a chunk none of whose lines adds a
    non-empty value to [data] (only [event:] and [id:] lines, or [data:]
    lines with an empty value) yields no event, whether it ends with a
    blank line or not. *)
Theorem parseSSEChunk_data_not_empty (chunk : string) :
  (forall e, In e (parseSSEChunk chunk) -> exists d, data e = Some d /\ d <> EmptyString)
  /\ ((forall line, In line (split_lines chunk EmptyString) -> gives_data line = false) ->
      parseSSEChunk chunk = []).
Proof.
  split.
  - intros e Hin. apply data_truthy_spec. unfold parseSSEChunk in Hin.
    pose proof (fold_parse_line_events (split_lines chunk EmptyString) ([], empty_event)
                  (Forall_nil _)) as F.
    rewrite Forall_forall in F.
    destruct (data_truthy (snd _)) eqn:E in Hin.
    + apply in_app_or in Hin. destruct Hin as [Hin | [<- | []]]; [now apply F | exact E].
    + now apply F.
  - intros H. unfold parseSSEChunk.
    assert (G : forall lines st,
               (forall line, In line lines -> gives_data line = false) ->
               fst st = [] -> data_truthy (snd st) = false ->
               fst (fold_left parse_line lines st) = []
               /\ data_truthy (snd (fold_left parse_line lines st)) = false).
    { induction lines as [|line lines IH]; intros st Hl E D; [now split|].
      cbn [fold_left].
      destruct (parse_line_no_data st line (Hl line (or_introl eq_refl)) E D) as [E' D'].
      apply IH; auto. intros l Hin. apply Hl. now right. }
    destruct (G (split_lines chunk EmptyString) ([], empty_event) H eq_refl eq_refl)
      as [E D].
    now rewrite D, E.
Qed.

(* ================================================================== *)
(** * Properties of the streaming transformer *)
(* ================================================================== *)

Section StreamingProperties.
Variable JSON_parse : string -> option JSON.
Variable JSON_stringify : option JSON -> option string.
Variable Date_now : nat -> Z.


Lemma process_parts_spec (parts : list JSON) :
  forall state chunks out state',
    process_parts JSON_stringify Date_now parts state chunks = (Normal out, state') ->
    hasEmittedRole state' = hasEmittedRole state
    /\ exists more, out = (chunks ++ more)%list /\ Forall no_role more.
Proof.
  induction parts as [|part parts IH]; intros state chunks out state' H.
  - injection H as <- <-. split; [reflexivity|]. exists []. now rewrite app_nil_r.
  - cbn [process_parts] in H.
    set (chunks1 := match get part "text" with
                    | Some text =>
                        if truthy text
                        then (chunks ++ [make_chunk state (content_delta text) None])%list
                        else chunks
                    | None => chunks
                    end) in *.
    set (state1 := match get part "thoughtSignature" with
                   | Some sig =>
                       if truthy sig then set_lastThoughtSignature state sig else state
                   | None => state
                   end) in *.
    assert (C1 : exists m1, chunks1 = (chunks ++ m1)%list /\ Forall no_role m1).
    { unfold chunks1. destruct (get part "text") as [text|].
      - destruct (truthy text).
        + eexists. split; [reflexivity|]. now repeat constructor.
        + exists []. now rewrite app_nil_r.
      - exists []. now rewrite app_nil_r. }
    assert (S1 : hasEmittedRole state1 = hasEmittedRole state).
    { unfold state1. destruct (get part "thoughtSignature") as [sig|]; [|reflexivity].
      now destruct (truthy sig). }
    destruct C1 as (m1 & E1 & F1).
    assert (K : forall st ch,
               hasEmittedRole st = hasEmittedRole state ->
               (exists m, ch = (chunks ++ m)%list /\ Forall no_role m) ->
               process_parts JSON_stringify Date_now parts st ch = (Normal out, state') ->
               hasEmittedRole state' = hasEmittedRole state
               /\ exists more, out = (chunks ++ more)%list /\ Forall no_role more).
    { intros st ch Hs (m & -> & Fm) Hp. apply IH in Hp.
      destruct Hp as (Hs' & more & -> & Fmore). split; [congruence|].
      exists (m ++ more)%list. rewrite app_assoc. split; [reflexivity|].
      now apply Forall_app. }
    destruct part; try discriminate;
      (destruct (get _ "functionCall") as [fc|];
       [destruct (truthy fc);
        [apply K in H; [exact H | exact S1 |];
         exists (m1 ++ [make_chunk state1
                          (tool_calls_delta
                             [{| tc_index := toolCallIndex state1;
                                 tc_id := "call_"
                                          ++ render_Z (Date_now (toolCallIndex state1))
                                          ++ "_" ++ nat_key (toolCallIndex state1);
                                 tc_name := get fc "name";
                                 tc_arguments := JSON_stringify (get fc "args") |}])
                          None])%list;
         rewrite E1, app_assoc; split; [reflexivity|];
         apply Forall_app; split; [exact F1 | now repeat constructor]
        | apply K in H; [exact H | exact S1 | now exists m1]]
       | apply K in H; [exact H | exact S1 | now exists m1]]).
Qed.

Lemma transformAntigravityEvent_spec (e : SSEParsedEvent)
    (state state' : TransformState) (out : list OpenAIStreamChunk) :
  transformAntigravityEvent JSON_parse JSON_stringify Date_now e state = (Normal out, state') ->
  match event_candidate JSON_parse e with
  | None => out = [] /\ state' = state
  | Some _ =>
      hasEmittedRole state' = true
      /\ exists more,
           out = ((if hasEmittedRole state then []
                   else [make_chunk state role_delta None]) ++ more)%list
           /\ Forall no_role more
  end.
Proof.
  unfold transformAntigravityEvent, event_candidate.
  destruct (data e) as [d|]; [|now intros [= <- <-]].
  destruct (negb (nonempty d) || String.eqb d "[DONE]"); [now intros [= <- <-]|].
  destruct (JSON_parse d) as [payload|]; [|now intros [= <- <-]].
  destruct (first_candidate payload) as [[candidate|]| |];
    try discriminate; [|now intros [= <- <-]].
  destruct (truthy candidate); cbn [negb]; [|now intros [= <- <-]].
  set (chunks0 := if hasEmittedRole state then []
                  else [make_chunk state role_delta None]).
  set (state0 := set_hasEmittedRole state).
  match goal with
  | |- context [fst ?p] => set (processed := p)
  end.
  assert (P : forall o s, processed = (Normal o, s) ->
                          hasEmittedRole s = true
                          /\ exists more, o = (chunks0 ++ more)%list
                                          /\ Forall no_role more).
  { intros o s. unfold processed.
    assert (Z0 : (Normal chunks0, state0) = (Normal o, s) ->
                 hasEmittedRole s = true
                 /\ exists more, o = (chunks0 ++ more)%list /\ Forall no_role more).
    { intros [= <- <-]. split; [reflexivity|]. exists []. now rewrite app_nil_r. }
    destruct (get candidate "content") as [content|]; [|exact Z0].
    destruct (truthy content); [|exact Z0].
    destruct (get content "parts") as [parts|]; [|exact Z0].
    destruct (truthy parts); [|exact Z0].
    destruct (iterate parts) as [l| |]; try discriminate.
    intros Hp. apply process_parts_spec in Hp. destruct Hp as (Hs & Hm).
    split; [now rewrite Hs | exact Hm]. }
  destruct processed as [[o| |] s]; cbn [fst snd]; try discriminate.
  destruct (P o s eq_refl) as (Hs & more & -> & Fm).
  destruct (get candidate "finishReason") as [finishReason|].
  - destruct (truthy finishReason).
    + intros [= <- <-]. split; [exact Hs|].
      eexists. rewrite <- app_assoc. split; [reflexivity|].
      apply Forall_app. split; [exact Fm | now repeat constructor].
    + intros [= <- <-]. split; [exact Hs|]. now exists more.
  - intros [= <- <-]. split; [exact Hs|]. now exists more.
Qed.

Lemma stream_after_role (events : list SSEParsedEvent) :
  forall state, hasEmittedRole state = true ->
                Forall no_role (fst (transform_stream JSON_parse JSON_stringify Date_now events state)).
Proof.
  induction events as [|e events IH]; intros state H; [constructor|].
  cbn [transform_stream].
  destruct (transformAntigravityEvent JSON_parse JSON_stringify Date_now e state)
    as [[out| |] state'] eqn:E; cbn [fst]; try constructor.
  pose proof (transformAntigravityEvent_spec e state state' out E) as S.
  apply Forall_app.
  destruct (event_candidate JSON_parse e).
  - destruct S as (Hs & more & -> & Fm). rewrite H. split; [exact Fm|].
    now apply IH.
  - destruct S as [-> ->]. split; [constructor | now apply IH].
Qed.

(** ** C4 *)

(** C4, amended.  On a state whose preamble has not been emitted, a
    call that returns normally for an event in which the transformer
    finds a candidate (its data is not empty, is not the [DONE] sentinel,
    parses as JSON and holds a truthy first candidate) returns a list whose
    element zero is the role preamble, with role ["assistant"] and empty
    content, followed by chunks that announce no role; for any other event
    it returns the empty list and leaves the state as it is.  Over the
    whole stream of one connection the preamble is emitted at most once,
    and before every other chunk. *)
Theorem transformAntigravityEvent_preamble
    (e : SSEParsedEvent) (state : TransformState) :
  hasEmittedRole state = false ->
  (forall out state',
      transformAntigravityEvent JSON_parse JSON_stringify Date_now e state = (Normal out, state') ->
      (event_candidate JSON_parse e <> None ->
       exists rest, out = make_chunk state role_delta None :: rest
                    /\ Forall no_role rest)
      /\ (event_candidate JSON_parse e = None -> out = [] /\ state' = state))
  /\ (forall events,
        fst (transform_stream JSON_parse JSON_stringify Date_now events state) = []
        \/ exists first rest,
             fst (transform_stream JSON_parse JSON_stringify Date_now events state) = first :: rest
             /\ is_preamble first /\ Forall no_role rest).
Proof.
  intros H. split.
  - intros out state' E.
    pose proof (transformAntigravityEvent_spec e state state' out E) as S.
    destruct (event_candidate JSON_parse e).
    + destruct S as (_ & more & -> & Fm). rewrite H. split; [|discriminate].
      intros _. now exists more.
    + split; [congruence | now intros _].
  - intros events. revert state H.
    induction events as [|ev events IH]; intros state H; [now left|].
    cbn [transform_stream].
    destruct (transformAntigravityEvent JSON_parse JSON_stringify Date_now ev state)
      as [[out| |] state'] eqn:E; cbn [fst]; try now left.
    pose proof (transformAntigravityEvent_spec ev state state' out E) as S.
    destruct (event_candidate JSON_parse ev).
    + destruct S as (Hs & more & -> & Fm). rewrite H. right.
      exists (make_chunk state role_delta None),
             (more ++ fst (transform_stream JSON_parse JSON_stringify Date_now
                             events state'))%list.
      split; [reflexivity|]. split; [now split|].
      apply Forall_app. split; [exact Fm|]. now apply stream_after_role.
    + destruct S as [-> ->]. cbn [app]. now apply IH.
Qed.
End StreamingProperties.

(* ================================================================== *)
(** * The finish reason of a response *)
(* ================================================================== *)

Import ChatCompletion.

Section FinishReasons.
Variable JSON_parse : string -> option JSON.
Variable JSON_stringify : option JSON -> option string.
Variable Date_now : nat -> Z.

(** The loop over the parts writes no finish reason. *)
Lemma process_parts_unfinished (parts : list JSON) :
  forall state chunks out state',
    process_parts JSON_stringify Date_now parts state chunks = (Normal out, state') ->
    Forall unfinished chunks -> Forall unfinished out.
Proof.
  induction parts as [|part parts IH]; intros state chunks out state' H F.
  - now injection H as <- _.
  - cbn [process_parts] in H.
    destruct part as [| b | num | s | items | fs]; [discriminate | | | | |];
      (destruct (get _ "functionCall") as [fc|]; [destruct (truthy fc)|];
       (eapply IH; [exact H|]);
       repeat (apply Forall_app; split; [|now repeat constructor]);
       (destruct (get _ "text") as [text|]; [destruct (truthy text)|]);
       try (apply Forall_app; split; [|now repeat constructor]); exact F).
Qed.

(** ** C5 *)

(** C5.  The finish reason of the first candidate goes through the table
    STOP to "stop", MAX_TOKENS to "length", SAFETY and RECITATION to
    "content_filter", OTHER to "stop" in both transformers.  Every
    response that [transformResponse] returns carries the entry of the
    table, and "stop" for a reason outside the table or for none.  The
    chunks that [transformAntigravityEvent] returns for the same payload
    end, when the reason is truthy, with a chunk of empty delta that
    carries the entry of the table, and [null] for a reason outside the
    table; without a truthy reason no chunk carries a finish reason.
    Both transformers do return when the candidate has no parts.  The
    two helpers [mapFinishReason] answer in the same way on every value,
    and on none. *)
Theorem finish_reason_mapped (payload : JSON) (candidate : option JSON) (model : string) :
  first_candidate payload = Normal candidate ->
  let reason := nullish_get candidate "finishReason" in
  (forall out,
     transformResponse JSON_stringify Date_now payload model = Normal out ->
     response_finish_reason out
     = Some (match table_entry reason with Some mapped => mapped | None => "stop" end))
  /\ (forall event d state chunks state',
        data event = Some d -> nonempty d = true -> d <> "[DONE]" ->
        JSON_parse d = Some payload ->
        transformAntigravityEvent JSON_parse JSON_stringify Date_now event state
        = (Normal chunks, state') ->
        if truthy_opt reason then ends_with_reason chunks (table_entry reason)
        else Forall unfinished chunks)
  /\ (nullish_get (nullish_get candidate "content") "parts" = None ->
      (exists out, transformResponse JSON_stringify Date_now payload model = Normal out)
      /\ forall event d state,
           data event = Some d -> nonempty d = true -> d <> "[DONE]" ->
           JSON_parse d = Some payload ->
           exists chunks,
             fst (transformAntigravityEvent JSON_parse JSON_stringify Date_now event state)
             = Normal chunks)
  /\ (forall r,
        ResponseTransformer.mapFinishReason r
        = Some (match table_entry r with Some mapped => mapped | None => "stop" end)
        /\ Streaming.mapFinishReason r = table_entry r).
Proof.
  intros Hc reason. split; [|split; [|split]];
    [| | |intros r; split; [apply whole_reason_table | apply stream_reason_table]].
  - intros out H. unfold transformResponse in H. rewrite Hc in H. cbn [bind] in H.
    destruct (match nullish_get (nullish_get candidate "content") "parts" with
              | Some parts => if truthy parts then iterate parts else Normal []
              | None => Normal []
              end) as [l| |]; try discriminate.
    cbn [bind] in H.
    destruct (collect_parts JSON_stringify Date_now l EmptyString []) as [st| |];
      try discriminate.
    cbn [bind] in H. injection H as <-. cbn [response_finish_reason].
    apply whole_reason_table.
  - intros event d state chunks state' Hd Hn Hdone Hp H.
    unfold transformAntigravityEvent in H. rewrite Hd, Hn in H.
    apply String.eqb_neq in Hdone. rewrite Hdone in H. cbn [negb orb] in H.
    rewrite Hp, Hc in H. subst reason.
    destruct candidate as [c|]; [|injection H as <- _; constructor].
    cbn [nullish_get].
    destruct (truthy c) eqn:Tc; cbn [negb] in H.
    2:{ injection H as <- _. rewrite (falsy_get c "finishReason" Tc eq_refl). constructor. }
    set (chunks0 := if hasEmittedRole state then []
                    else [make_chunk state role_delta None]) in *.
    assert (F0 : Forall unfinished chunks0).
    { subst chunks0. destruct (hasEmittedRole state); now repeat constructor. }
    set (processed := match get c "content" with
                      | Some content => _
                      | None => _
                      end) in *.
    assert (Fp : forall l, fst processed = Normal l -> Forall unfinished l).
    { intros l Hl. subst processed.
      destruct (get c "content") as [content|]; [|now injection Hl as <-].
      destruct (truthy content); [|now injection Hl as <-].
      destruct (get content "parts") as [parts|]; [|now injection Hl as <-].
      destruct (truthy parts); [|now injection Hl as <-].
      destruct (iterate parts) as [items| |]; try discriminate.
      destruct (process_parts JSON_stringify Date_now items (set_hasEmittedRole state)
                  chunks0) as [r s'] eqn:Epp.
      cbn [fst] in Hl. subst r.
      exact (process_parts_unfinished _ _ _ _ _ Epp F0). }
    destruct (fst processed) as [l| |] eqn:El; try (injection H as E _; discriminate).
    specialize (Fp l eq_refl).
    destruct (get c "finishReason") as [fr|]; cbn [truthy_opt];
      [destruct (truthy fr)|]; injection H as <- _; [|exact Fp | exact Fp].
    exists l, (make_chunk (snd processed) empty_delta (Streaming.mapFinishReason (Some fr))).
    split; [reflexivity|]. split; [exact Fp|]. split; [reflexivity|].
    apply stream_reason_table.
  - intros Hparts. split.
    + unfold transformResponse. rewrite Hc. cbn [bind]. rewrite Hparts.
      cbn [bind collect_parts]. eexists. reflexivity.
    + intros event d state Hd Hn Hdone Hp.
      unfold transformAntigravityEvent. rewrite Hd, Hn.
      apply String.eqb_neq in Hdone. rewrite Hdone. cbn [negb orb].
      rewrite Hp, Hc.
      destruct candidate as [c|]; [|eexists; reflexivity].
      destruct (truthy c); cbn [negb]; [|eexists; reflexivity].
      cbn [nullish_get] in Hparts.
      assert (E : exists l s,
                match get c "content" with
                | Some content =>
                    if truthy content then
                      match get content "parts" with
                      | Some parts =>
                          if truthy parts then
                            match iterate parts with
                            | Normal l =>
                                process_parts JSON_stringify Date_now l
                                  (set_hasEmittedRole state)
                                  (if hasEmittedRole state then []
                                   else [make_chunk state role_delta None])
                            | _ => (Throw, set_hasEmittedRole state)
                            end
                          else (Normal (if hasEmittedRole state then []
                                        else [make_chunk state role_delta None]),
                                set_hasEmittedRole state)
                      | None => (Normal (if hasEmittedRole state then []
                                         else [make_chunk state role_delta None]),
                                 set_hasEmittedRole state)
                      end
                    else (Normal (if hasEmittedRole state then []
                                  else [make_chunk state role_delta None]),
                          set_hasEmittedRole state)
                | None => (Normal (if hasEmittedRole state then []
                                   else [make_chunk state role_delta None]),
                           set_hasEmittedRole state)
                end = (Normal l, s)).
      { destruct (get c "content") as [content|]; [|eexists; eexists; reflexivity].
        cbn [nullish_get] in Hparts. rewrite Hparts.
        destruct (truthy content); eexists; eexists; reflexivity. }
      destruct E as (l & s & E). cbv zeta. rewrite E. cbn [fst snd].
      destruct (get c "finishReason") as [fr|]; [destruct (truthy fr)|];
        eexists; reflexivity.
Qed.
End FinishReasons.

(* ================================================================== *)
(** * The statements on concrete inputs *)
(* ================================================================== *)

Lemma finish_reason_mapped_witness :
  (exists out chunks state',
     transformResponse JSONLite.stringify (fun _ => 0%Z)
       (finished_payload (JStr "SAFETY")) "gemini-3-pro" = Normal out
     /\ response_finish_reason out = Some "content_filter"
     /\ transformAntigravityEvent JSONLite.parse JSONLite.stringify (fun _ => 0%Z)
          (payload_event (finished_payload (JStr "SAFETY")))
          (createTransformState 0 "gemini-3-pro") = (Normal chunks, state')
     /\ ends_with_reason chunks (Some "content_filter"))
  /\ (exists out chunks state',
        transformResponse JSONLite.stringify (fun _ => 0%Z)
          (finished_payload (JStr "BLOCKLIST")) "gemini-3-pro" = Normal out
        /\ response_finish_reason out = Some "stop"
        /\ transformAntigravityEvent JSONLite.parse JSONLite.stringify (fun _ => 0%Z)
             (payload_event (finished_payload (JStr "BLOCKLIST")))
             (createTransformState 0 "gemini-3-pro") = (Normal chunks, state')
        /\ ends_with_reason chunks None).
Proof.
  split.
  - destruct (finish_reason_mapped JSONLite.parse JSONLite.stringify (fun _ => 0%Z)
                (finished_payload (JStr "SAFETY")) _ "gemini-3-pro" eq_refl)
      as (Hwhole & Hstream & _).
    eexists. eexists. eexists.
    split; [reflexivity|]. split; [apply Hwhole; reflexivity|].
    split; [reflexivity|].
    refine (Hstream (payload_event (finished_payload (JStr "SAFETY"))) _
              (createTransformState 0 "gemini-3-pro") _ _
              eq_refl eq_refl _ eq_refl eq_refl).
    discriminate.
  - destruct (finish_reason_mapped JSONLite.parse JSONLite.stringify (fun _ => 0%Z)
                (finished_payload (JStr "BLOCKLIST")) _ "gemini-3-pro" eq_refl)
      as (Hwhole & Hstream & _).
    eexists. eexists. eexists.
    split; [reflexivity|]. split; [apply Hwhole; reflexivity|].
    split; [reflexivity|].
    refine (Hstream (payload_event (finished_payload (JStr "BLOCKLIST"))) _
              (createTransformState 0 "gemini-3-pro") _ _
              eq_refl eq_refl _ eq_refl eq_refl).
    discriminate.
Defined.

(** C2, as stated, fails: ["gemini-3-pro"] contains ["gemini-3"], so the
    request gets a [thinkingConfig] of level ["medium"] and the raised cap. *)
Lemma gemini_3_pro_gets_thinkingConfig :
  transformRequest JSONLite.parse 0 (chat_request "gemini-3-pro" [user_message "hi"] None)
  = Normal {| contents := hi_contents; systemInstruction := None; tools := None;
              toolConfig := None; generationConfig := thinking_config |}
  /\ thinkingConfig thinking_config <> None.
Proof. split; [reflexivity | discriminate]. Qed.

Lemma transformRequest_thinking_witness :
  (transformRequest JSONLite.parse 0
     (chat_request "gemini-2.5-pro" [user_message "hi"] None)
   = Normal {| contents := hi_contents; systemInstruction := None; tools := None;
               toolConfig := None; generationConfig := plain_config |}
   /\ thinkingConfig plain_config = None)
  /\ (transformRequest JSONLite.parse 0
        (chat_request "gemini-3-pro-thinking" [user_message "hi"] None)
      = Normal {| contents := hi_contents; systemInstruction := None; tools := None;
                  toolConfig := None; generationConfig := thinking_config |}
      /\ thinkingConfig thinking_config = Some medium_thinking
      /\ maxOutputTokens thinking_config = Some 65535%Z).
Proof.
  split.
  - split; [reflexivity|].
    exact (proj1 (proj1 (transformRequest_thinking JSONLite.parse 0
                           (chat_request "gemini-2.5-pro" [user_message "hi"] None)
                           _ eq_refl) eq_refl)).
  - split; [reflexivity|].
    destruct (proj1 (proj2 (transformRequest_thinking JSONLite.parse 0
                              (chat_request "gemini-3-pro-thinking" [user_message "hi"] None)
                              _ eq_refl)) eq_refl) as [H1 H2].
    split; [exact H1 | exact (H2 eq_refl)].
Defined.

Lemma transformRequest_contents_alternate_witness :
  exists out,
    transformRequest JSONLite.parse 0 two_user_messages = Normal out
    /\ alternating (contents out) = true
    /\ contents out = [{| role := RoleUser; parts := [PartText "hi"; PartText "there"] |}].
Proof.
  eexists. split; [reflexivity|].
  destruct (transformRequest_contents_alternate JSONLite.parse 0 two_user_messages
              _ eq_refl) as [A M].
  split; [exact A|].
  exact (proj2 (M [] (user_message "hi") (user_message "there") [] _ _
                  eq_refl eq_refl eq_refl eq_refl eq_refl) eq_refl eq_refl).
Defined.

(** C6, as stated, fails: with one tool that is not a function the
    [tools] field is present and is the empty array. *)
Lemma tools_field_is_empty_array :
  transformRequest JSONLite.parse 0
    (chat_request "gemini-2.5-pro" [user_message "hi"] (Some [retrieval_tool]))
  = Normal {| contents := hi_contents; systemInstruction := None; tools := Some [];
              toolConfig := None; generationConfig := plain_config |}
  /\ Some (@nil AntigravityTool) <> None.
Proof. split; [reflexivity | discriminate]. Qed.

Lemma transformRequest_tools_without_function_witness :
  exists out,
    transformRequest JSONLite.parse 0
      (chat_request "gemini-2.5-pro" [user_message "hi"] (Some [retrieval_tool]))
    = Normal out
    /\ tools out = Some [].
Proof.
  apply (proj1 (transformRequest_tools_without_function JSONLite.parse 0
                  (chat_request "gemini-2.5-pro" [user_message "hi"]
                     (Some [retrieval_tool])))
           [retrieval_tool] eq_refl).
  - discriminate.
  - intros t [<- | []]. reflexivity.
Defined.

Lemma transformRequest_tool_result_unparseable_witness :
  JSONLite.parse "not json" = None
  /\ Vocabulary.budget_covers_tools 30
       (chat_request "gemini-2.5-pro" [user_message "hi"; tool_result "not json"]
          (Some [Vocabulary.function_tool "lookup" (Some person_schema)])) = true
  /\ transformMessage JSONLite.parse (tool_result "not json")
     = Some {| role := RoleUser;
               parts := [PartText "not json";
                         PartFunctionResponse "unknown_tool"
                           (ResponseContent (ContentString "not json"))] |}
  /\ (exists out,
        transformRequest JSONLite.parse 30
          (chat_request "gemini-2.5-pro" [user_message "hi"; tool_result "not json"]
             (Some [Vocabulary.function_tool "lookup" (Some person_schema)]))
        = Normal out
        /\ holds_parts RoleUser
             [PartText "not json";
              PartFunctionResponse "unknown_tool"
                (ResponseContent (ContentString "not json"))]
             (contents out))
  /\ (exists out,
        transformRequest JSONLite.parse 0
          (chat_request "gemini-2.5-pro" [user_message "hi"; tool_result "not json"] None)
        = Normal out
        /\ holds_parts RoleUser
             [PartText "not json";
              PartFunctionResponse "unknown_tool"
                (ResponseContent (ContentString "not json"))]
             (contents out)).
Proof.
  split; [reflexivity|]. split; [reflexivity|].
  destruct (transformRequest_tool_result_unparseable JSONLite.parse 30
              (chat_request "gemini-2.5-pro" [user_message "hi"; tool_result "not json"]
                 (Some [Vocabulary.function_tool "lookup" (Some person_schema)]))
              (tool_result "not json") "call_1" "not json"
              (or_intror (or_introl eq_refl)) eq_refl eq_refl eq_refl eq_refl eq_refl)
    as (T & H & _).
  split; [exact T|]. split.
  - apply H. intros tool [<- | []]. eexists. reflexivity.
  - destruct (transformRequest_tool_result_unparseable JSONLite.parse 0
                (chat_request "gemini-2.5-pro" [user_message "hi"; tool_result "not json"]
                   None)
                (tool_result "not json") "call_1" "not json"
                (or_intror (or_introl eq_refl)) eq_refl eq_refl eq_refl eq_refl eq_refl)
      as (_ & H0 & _).
    apply H0. intros tool [].
Defined.

Lemma parseSSEChunk_data_not_empty_witness :
  parseSSEChunk no_data_chunk = [].
Proof.
  apply (proj2 (parseSSEChunk_data_not_empty no_data_chunk)).
  intros l Hin. cbv in Hin.
  repeat (destruct Hin as [<- | Hin]; [reflexivity|]). destruct Hin.
Defined.

(** C4, as stated, fails: for the [DONE] sentinel the first call on a
    fresh state returns the empty list, which has no element zero. *)
Lemma done_event_yields_no_preamble :
  hasEmittedRole fresh_state = false
  /\ transformAntigravityEvent JSONLite.parse JSONLite.stringify (fun _ => 0%Z)
       done_event fresh_state
     = (Normal [], fresh_state)
  /\ nth_error (@nil OpenAIStreamChunk) 0 = None.
Proof. repeat split. Qed.

Lemma transformAntigravityEvent_preamble_witness :
  hasEmittedRole fresh_state = false
  /\ exists rest,
       fst (transformAntigravityEvent JSONLite.parse JSONLite.stringify (fun _ => 0%Z)
              text_event fresh_state)
       = Normal (make_chunk fresh_state role_delta None :: rest)
       /\ Forall no_role rest.
Proof.
  split; [reflexivity|].
  destruct (proj1 (proj1 (transformAntigravityEvent_preamble
                            JSONLite.parse JSONLite.stringify (fun _ => 0%Z)
                            text_event fresh_state eq_refl)
                     _ _ eq_refl))
    as (rest & E & F); [discriminate|].
  exists rest. split; [|exact F].
  cbn [fst]. now rewrite <- E.
Defined.

(* ================================================================== *)
(** * Further properties *)
(* ================================================================== *)

Import ChatCompletion ChatRoute Vocabulary.

(* ================================================================== *)
(** * Further properties of the request transformer *)
(* ================================================================== *)

Section RequestFurther.
Variable JSON_parse : string -> option JSON.

(** ** What a message becomes *)

Lemma transformMessage_fits (msg : OpenAIMessage) (c : AntigravityContent) :
  transformMessage JSON_parse msg = Some c ->
  parts c <> []
  /\ (is_system msg = false -> role c <> RoleSystem).
Proof.
  unfold transformMessage, is_system.
  destruct (String.eqb (msg_role msg) "tool" && string_truthy (msg_tool_call_id msg)).
  - intros [= <-]. cbn [parts role]. split; [|discriminate].
    intros H. apply app_eq_nil in H. destruct H as [_ H]. discriminate.
  - match goal with |- context [match ?l with [] => None | _ :: _ => _ end] =>
      destruct l as [|p ps] eqn:E end; [discriminate|].
    intros [= <-]. cbn [parts role]. split; [discriminate|].
    intros ->. destruct (String.eqb (msg_role msg) "assistant"); discriminate.
Qed.

Lemma push_content_Forall (P : AntigravityContent -> Prop)
    (contents : list AntigravityContent) (c : AntigravityContent) :
  (forall last, P last -> role last = role c ->
                P {| role := role last; parts := (parts last ++ parts c)%list |}) ->
  Forall P contents -> P c -> Forall P (push_content contents c).
Proof.
  intros Hmerge Hl Hc. induction contents as [|last l _] using rev_ind.
  - cbn. now constructor.
  - rewrite push_content_last. apply Forall_app in Hl. destruct Hl as [Hl Hlast].
    inversion Hlast as [|? ? Hp _]; subst.
    destruct (Role_eqb (role last) (role c)) eqn:E.
    + apply Role_eqb_eq in E. apply Forall_app. split; [exact Hl|].
      constructor; [now apply Hmerge | constructor].
    + apply Forall_app. split; [exact Hl|]. repeat constructor; assumption.
Qed.

Lemma transform_messages_Forall (messages : list OpenAIMessage) :
  Forall (fun c => parts c <> [] /\ role c <> RoleSystem)
    (transform_messages JSON_parse messages).
Proof.
  rewrite transform_messages_fold.
  assert (G : forall contents,
             Forall (fun c => parts c <> [] /\ role c <> RoleSystem) contents ->
             Forall (fun c => parts c <> [] /\ role c <> RoleSystem)
               (fold_left (message_step JSON_parse) messages contents)).
  { induction messages as [|msg rest IH]; intros contents H; [exact H|].
    cbn [fold_left]. apply IH. unfold message_step.
    destruct (String.eqb (msg_role msg) "system") eqn:Es; [exact H|].
    destruct (transformMessage JSON_parse msg) as [c|] eqn:Ec; [|exact H].
    destruct (transformMessage_fits msg c Ec) as [Hp Hr].
    apply push_content_Forall; [|exact H | split; [exact Hp | now apply Hr]].
    intros last [Hlp Hlr] _. cbn [parts role]. split; [|exact Hlr].
    intros E. apply app_eq_nil in E. destruct E as [E _]. contradiction. }
  apply G. constructor.
Qed.

(** Every content of the request that [transformRequest] returns has at
    least one part, and none has the role [system]: system messages only
    feed [systemInstruction]. *)
Theorem transformRequest_contents_fit (fuel : nat) (request : OpenAIRequest)
    (out : AntigravityRequest) (c : AntigravityContent) :
  transformRequest JSON_parse fuel request = Normal out ->
  In c (contents out) ->
  parts c <> [] /\ role c <> RoleSystem.
Proof.
  intros H Hin. apply transformRequest_Normal in H. destruct H as (E & _).
  rewrite E in Hin.
  pose proof (transform_messages_Forall (req_messages request)) as F.
  rewrite Forall_forall in F. now apply F.
Qed.

(** ** Merging keeps every part, in order *)

Lemma flat_map_parts_push (contents : list AntigravityContent) (c : AntigravityContent) :
  flat_map parts (push_content contents c) = (flat_map parts contents ++ parts c)%list.
Proof.
  induction contents as [|last l _] using rev_ind.
  - cbn. now rewrite app_nil_r.
  - rewrite push_content_last.
    destruct (Role_eqb (role last) (role c));
      rewrite !flat_map_app; cbn [flat_map parts]; rewrite ?app_nil_r, <- ?app_assoc;
      reflexivity.
Qed.

Lemma flat_map_parts_fold (messages : list OpenAIMessage) :
  forall contents,
    flat_map parts (fold_left (message_step JSON_parse) messages contents)
    = (flat_map parts contents ++ flat_map (message_parts JSON_parse) messages)%list.
Proof.
  induction messages as [|msg rest IH]; intros contents.
  - cbn. now rewrite app_nil_r.
  - cbn [fold_left flat_map]. rewrite IH. rewrite app_assoc. f_equal.
    unfold message_step, message_parts, is_system.
    destruct (String.eqb (msg_role msg) "system"); [now rewrite app_nil_r|].
    destruct (transformMessage JSON_parse msg) as [c|];
      [apply flat_map_parts_push | now rewrite app_nil_r].
Qed.

(** The parts of the contents, read from the first content to the last,
    are the parts of the messages in the order of the messages: merging
    contents of equal role loses, repeats and moves nothing. *)
Theorem transformRequest_parts_in_order (fuel : nat) (request : OpenAIRequest)
    (out : AntigravityRequest) :
  transformRequest JSON_parse fuel request = Normal out ->
  flat_map parts (contents out)
  = flat_map (message_parts JSON_parse) (req_messages request).
Proof.
  intros H. apply transformRequest_Normal in H. destruct H as (-> & _).
  rewrite transform_messages_fold. apply flat_map_parts_fold.
Qed.

(** ** System messages *)

Lemma fold_message_step_no_system (messages : list OpenAIMessage) :
  forall contents,
    fold_left (message_step JSON_parse) (filter (fun m => negb (is_system m)) messages)
      contents
    = fold_left (message_step JSON_parse) messages contents.
Proof.
  induction messages as [|msg rest IH]; intros contents; [reflexivity|].
  cbn [filter]. unfold is_system at 1. destruct (String.eqb (msg_role msg) "system") eqn:E.
  - cbn [negb fold_left]. rewrite IH.
    assert (message_step JSON_parse contents msg = contents) as ->
      by (unfold message_step; now rewrite E).
    reflexivity.
  - cbn [negb fold_left]. apply IH.
Qed.

Lemma fold_message_step_first_system (messages : list OpenAIMessage) :
  forall contents,
    fold_left (message_step JSON_parse) (first_system_only messages) contents
    = fold_left (message_step JSON_parse) messages contents.
Proof.
  induction messages as [|msg rest IH]; intros contents; [reflexivity|].
  cbn [first_system_only]. destruct (is_system msg); cbn [fold_left].
  - apply fold_message_step_no_system.
  - apply IH.
Qed.

Lemma find_first_system_only (messages : list OpenAIMessage) :
  find is_system (first_system_only messages) = find is_system messages.
Proof.
  induction messages as [|msg rest IH]; [reflexivity|].
  cbn [first_system_only]. destruct (is_system msg) eqn:E; cbn [find]; rewrite E;
    [reflexivity | exact IH].
Qed.

(** Only the first system message counts: a request and the same request
    without its second and later system messages give the same result. *)
Theorem transformRequest_first_system_only (fuel : nat) (request : OpenAIRequest) :
  transformRequest JSON_parse fuel
    (with_messages request (first_system_only (req_messages request)))
  = transformRequest JSON_parse fuel request.
Proof.
  unfold transformRequest, with_messages, generation_config. cbn [req_messages req_tools
    req_tool_choice req_model req_max_tokens req_temperature req_top_p req_stop].
  change (fun m : OpenAIMessage => String.eqb (msg_role m) "system") with is_system.
  rewrite find_first_system_only.
  rewrite !transform_messages_fold, fold_message_step_first_system. reflexivity.
Qed.

(** ** Thinking models *)

(** For a model that counts as a thinking model the output-token cap of
    the result is at least 8192: a missing or lower cap is replaced by
    65535.  Unless the identifier contains ["gemini-3"], the thinking
    budget is 16000. *)
Theorem transformRequest_thinking_floor (fuel : nat) (request : OpenAIRequest)
    (out : AntigravityRequest) :
  transformRequest JSON_parse fuel request = Normal out ->
  isThinkingModel (toLowerCase (req_model request)) = true ->
  (exists n, maxOutputTokens (generationConfig out) = Some n /\ (8192 <= n)%Z)
  /\ (includes (toLowerCase (req_model request)) "gemini-3" = false ->
      thinkingConfig (generationConfig out) = Some budget_thinking).
Proof.
  intros H Ht. apply transformRequest_Normal in H. destruct H as (_ & -> & _).
  unfold generation_config. rewrite Ht. cbn [maxOutputTokens thinkingConfig]. split.
  - unfold low_token_limit. destruct (req_max_tokens request) as [n|];
      [|exists 65535%Z; split; [reflexivity | lia]].
    destruct ((n =? 0)%Z || (n <? 8192)%Z) eqn:E; [exists 65535%Z; split; [reflexivity | lia]|].
    exists n. split; [reflexivity|].
    apply orb_false_iff in E. destruct E as [_ E]. apply Z.ltb_ge in E. exact E.
  - intros ->. now destruct (includes _ "gemini-2.5").
Qed.

(** ** Tools *)

Lemma mapM_Forall2 (A B : Type) (g : A -> Completion B) (l : list A) (r : list B) :
  mapM g l = Normal r -> Forall2 (fun x y => g x = Normal y) l r.
Proof.
  revert r. induction l as [|x l IH]; intros r; cbn [mapM].
  - intros [= <-]. constructor.
  - destruct (g x) as [y| |] eqn:E; try discriminate. cbn [bind].
    destruct (mapM g l) as [ys| |]; try discriminate. cbn [bind].
    intros [= <-]. constructor; [exact E | now apply IH].
Qed.

(** When the tools hold a tool of type ["function"], the result has one
    tool entry; its declarations are the function tools in their order,
    names and descriptions unchanged, each with the parameters that
    [cleanSchema] returns for the tool's schema. *)
Theorem transformRequest_function_tools (fuel : nat) (request : OpenAIRequest)
    (out : AntigravityRequest) (ts : list OpenAITool) :
  transformRequest JSON_parse fuel request = Normal out ->
  req_tools request = Some ts ->
  existsb is_function_tool ts = true ->
  exists declarations,
    tools out = Some [{| functionDeclarations := declarations |}]
    /\ Forall2 (fun tool d =>
                  decl_name d = tool_name tool
                  /\ decl_description d = tool_description tool
                  /\ cleanSchema fuel (tool_schema tool) = Normal (decl_parameters d))
         (filter is_function_tool ts) declarations.
Proof.
  intros H Hts Hf. apply transformRequest_Normal in H. destruct H as (_ & _ & H).
  rewrite Hts in H. destruct ts as [|t ts']; [discriminate|].
  destruct H as (r & Hr & ->). unfold transformTools in Hr.
  apply bind_Normal in Hr. destruct Hr as (declarations & Hd & Hr).
  apply mapM_Forall2 in Hd.
  change (fun tool : OpenAITool => String.eqb (tool_type tool) "function")
    with is_function_tool in Hd.
  assert (F : Forall2 (fun tool d =>
                         decl_name d = tool_name tool
                         /\ decl_description d = tool_description tool
                         /\ cleanSchema fuel (tool_schema tool) = Normal (decl_parameters d))
                (filter is_function_tool (t :: ts')) declarations).
  { revert Hd. apply Forall2_impl. intros tool d Hx.
    apply bind_Normal in Hx. destruct Hx as (p & Hp & Hx). injection Hx as <-.
    cbn [decl_name decl_description decl_parameters]. repeat split.
    unfold tool_schema. now destruct (tool_parameters tool). }
  destruct declarations as [|d ds].
  - exfalso. apply existsb_exists in Hf. destruct Hf as (x & Hx & Hfx).
    assert (Hin : In x (filter is_function_tool (t :: ts'))) by now apply filter_In.
    destruct (filter is_function_tool (t :: ts')); [destruct Hin | inversion F].
  - injection Hr as <-. now exists (d :: ds).
Qed.

(** ** Tool calls of an assistant message *)

Lemma function_calls_app (a b : list AntigravityPart) :
  function_calls (a ++ b) = (function_calls a ++ function_calls b)%list.
Proof. apply flat_map_app. Qed.

Lemma function_calls_content (content : MessageContent) :
  function_calls (content_parts content) = [].
Proof.
  destruct content as [|s|ps]; cbn [content_parts]; [reflexivity | now destruct (nonempty s)|].
  induction ps as [|p ps IH]; [reflexivity|]. cbn [flat_map].
  rewrite function_calls_app, IH, app_nil_r.
  destruct (part_text p) as [t|]; [|reflexivity].
  now destruct (String.eqb (part_type p) "text" && nonempty t).
Qed.

Lemma function_calls_tool_calls (calls : list OpenAIToolCall) :
  function_calls (tool_call_parts JSON_parse calls)
  = map (fun call => (call_name call, call_args JSON_parse call))
      (filter is_function_call calls).
Proof.
  induction calls as [|call calls IH]; [reflexivity|].
  unfold tool_call_parts in *. cbn [flat_map filter].
  rewrite function_calls_app, IH. unfold is_function_call at 2.
  destruct (String.eqb (call_type call) "function"); [|reflexivity].
  cbn [map]. unfold call_args at 2.
  now destruct (JSON_parse (call_arguments call)).
Qed.

(** An assistant message that holds a tool call of type ["function"]
    always becomes a content of role [model], also when it has no text.
    Its function calls are the calls of type ["function"] in their order,
    each with its arguments parsed, or with [{}] when the arguments are
    not JSON. *)
Theorem transformMessage_tool_calls (msg : OpenAIMessage) (calls : list OpenAIToolCall) :
  msg_role msg = "assistant" ->
  msg_tool_calls msg = Some calls ->
  existsb is_function_call calls = true ->
  exists c,
    transformMessage JSON_parse msg = Some c
    /\ role c = RoleModel
    /\ function_calls (parts c)
       = map (fun call => (call_name call, call_args JSON_parse call))
           (filter is_function_call calls).
Proof.
  intros Hr Hc Hf. unfold transformMessage. rewrite Hr, Hc. cbn [String.eqb Ascii.eqb andb].
  cbn -[content_parts tool_call_parts].
  assert (F : function_calls (content_parts (msg_content msg)
                              ++ tool_call_parts JSON_parse calls)
              = map (fun call => (call_name call, call_args JSON_parse call))
                  (filter is_function_call calls)).
  { now rewrite function_calls_app, function_calls_content, function_calls_tool_calls. }
  destruct (content_parts (msg_content msg) ++ tool_call_parts JSON_parse calls)%list
    as [|p ps] eqn:E.
  - exfalso. cbn in F. apply existsb_exists in Hf. destruct Hf as (x & Hx & Hfx).
    assert (In x (filter is_function_call calls)) by now apply filter_In.
    destruct (filter is_function_call calls); [contradiction | discriminate].
  - eexists. split; [reflexivity|]. cbn [role parts]. split; [reflexivity | exact F].
Qed.
End RequestFurther.

(* ================================================================== *)
(** * Further properties of the streaming transformer *)
(* ================================================================== *)

Section StreamingFurther.
Variable JSON_parse : string -> option JSON.
Variable JSON_stringify : option JSON -> option string.
Variable Date_now : nat -> Z.

(** ** The loop over the parts, one part at a time *)

Lemma process_parts_cons (part : JSON) (rest : list JSON) (state : TransformState)
    (chunks : list OpenAIStreamChunk) :
  part <> JNull ->
  process_parts JSON_stringify Date_now (part :: rest) state chunks
  = process_parts JSON_stringify Date_now rest (part_state part state)
      (chunks ++ part_chunks JSON_stringify Date_now part state)%list.
Proof.
  intros Hp. cbn [process_parts]. unfold part_state, part_chunks, part_has_call.
  fold (after_signature part state).
  destruct part; try contradiction;
    (destruct (get _ "text") as [text|]; [destruct (truthy text)|];
     (destruct (get _ "functionCall") as [fc|]; [destruct (truthy fc)|]);
     cbn [app]; rewrite ?app_nil_r, <- ?app_assoc; reflexivity).
Qed.

Lemma emits_app (s s1 s2 : TransformState) (m1 m2 : list OpenAIStreamChunk) :
  emits s m1 s1 -> emits s1 m2 s2 -> emits s (m1 ++ m2)%list s2.
Proof.
  intros H1 H2. induction H1; cbn [app].
  - exact H2.
  - apply emits_role. auto.
  - apply (emits_signature _ _ sig). auto.
  - apply emits_chunk; auto.
  - apply (emits_call _ _ t); auto.
Qed.

Lemma emits_after_signature (part : JSON) (s : TransformState) :
  emits s [] (after_signature part s).
Proof.
  unfold after_signature. destruct (get part "thoughtSignature") as [sig|];
    [|constructor].
  destruct (truthy sig); [|constructor].
  apply (emits_signature _ _ sig). constructor.
Qed.

Lemma emits_part (part : JSON) (s : TransformState) :
  emits s (part_chunks JSON_stringify Date_now part s) (part_state part s).
Proof.
  unfold part_chunks, part_state, part_has_call.
  apply (emits_app s s).
  - destruct (get part "text") as [text|]; [|constructor].
    destruct (truthy text); [|constructor].
    apply emits_chunk; [reflexivity | constructor].
  - apply (emits_app s (after_signature part s) _ []); [apply emits_after_signature|].
    destruct (get part "functionCall") as [fc|]; [|constructor].
    destruct (truthy fc); [|constructor].
    apply (emits_call _ _ (Date_now (toolCallIndex (after_signature part s))));
      [reflexivity | reflexivity | constructor].
Qed.

Lemma process_parts_emits (parts : list JSON) :
  forall state chunks r state',
    process_parts JSON_stringify Date_now parts state chunks = (r, state') ->
    exists more,
      emits state more state'
      /\ forall out, r = Normal out -> out = (chunks ++ more)%list.
Proof.
  induction parts as [|part parts IH]; intros state chunks r state' H.
  - injection H as <- <-. exists []. split; [constructor|].
    intros out [= <-]. now rewrite app_nil_r.
  - destruct part as [| b | num | s | items | fs] eqn:Ep;
      [injection H as <- <-; exists []; split; [constructor | discriminate] | | | | |];
      rewrite <- Ep in *;
      (rewrite process_parts_cons in H by (rewrite Ep; discriminate);
       apply IH in H; destruct H as (more & Hm & Hout);
       exists (part_chunks JSON_stringify Date_now part state ++ more)%list;
       split; [exact (emits_app _ _ _ _ _ (emits_part part state) Hm)|];
       intros out Ho; rewrite (Hout out Ho); now rewrite app_assoc).
Qed.

(** ** One event, and a stream of events *)

Lemma transformAntigravityEvent_emits (e : SSEParsedEvent) (state state' : TransformState)
    (r : Completion (list OpenAIStreamChunk)) :
  transformAntigravityEvent JSON_parse JSON_stringify Date_now e state = (r, state') ->
  exists more,
    emits state more state' /\ forall out, r = Normal out -> out = more.
Proof.
  assert (Z0 : forall r0, (r0, state) = (r, state') ->
                          (forall out, r0 = Normal out -> out = []) ->
                          exists more, emits state more state'
                                       /\ forall out, r = Normal out -> out = more).
  { intros r0 [= <- <-] H0. exists []. split; [constructor | exact H0]. }
  unfold transformAntigravityEvent.
  destruct (data e) as [d|]; [|intros H; apply (Z0 _ H); now intros out [= <-]].
  destruct (negb (nonempty d) || String.eqb d "[DONE]");
    [intros H; apply (Z0 _ H); now intros out [= <-]|].
  destruct (JSON_parse d) as [payload|];
    [|intros H; apply (Z0 _ H); now intros out [= <-]].
  destruct (first_candidate payload) as [[candidate|]| |];
    try (intros H; apply (Z0 _ H); first [now intros out [= <-] | discriminate]).
  destruct (truthy candidate); cbn [negb];
    [|intros H; apply (Z0 _ H); now intros out [= <-]].
  clear Z0.
  set (chunks0 := if hasEmittedRole state then []
                  else [make_chunk state role_delta None]).
  set (state0 := set_hasEmittedRole state).
  assert (E0 : emits state chunks0 state0).
  { unfold chunks0. destruct (hasEmittedRole state).
    - apply emits_role. constructor.
    - apply emits_chunk; [reflexivity|]. apply emits_role. constructor. }
  match goal with
  | |- context [fst ?p] => set (processed := p)
  end.
  assert (P : exists more, emits state more (snd processed)
                           /\ forall o, fst processed = Normal o -> o = more).
  { assert (Z1 : exists more, emits state more (snd (Normal chunks0, state0))
                              /\ forall o, fst (Normal chunks0, state0) = Normal o
                                           -> o = more).
    { exists chunks0. split; [exact E0 | now intros o [= <-]]. }
    unfold processed.
    destruct (get candidate "content") as [content|]; [|exact Z1].
    destruct (truthy content); [|exact Z1].
    destruct (get content "parts") as [parts|]; [|exact Z1].
    destruct (truthy parts); [|exact Z1].
    destruct (iterate parts) as [l| |];
      try (exists chunks0; split; [exact E0 | discriminate]).
    destruct (process_parts JSON_stringify Date_now l state0 chunks0) as [r1 s1] eqn:Hp.
    apply process_parts_emits in Hp. destruct Hp as (more & Hm & Hout).
    exists (chunks0 ++ more)%list. split; [exact (emits_app _ _ _ _ _ E0 Hm) | exact Hout]. }
  destruct P as (more & Hm & Hout).
  destruct processed as [[o| |] s]; cbn [fst snd] in *;
    try (intros [= <- <-]; exists more; split; [exact Hm | discriminate]).
  rewrite (Hout o eq_refl).
  assert (F : emits state (more ++ [make_chunk s empty_delta
                                      (mapFinishReason (get candidate "finishReason"))])
                s).
  { apply (emits_app _ _ _ _ _ Hm). apply emits_chunk; [reflexivity | constructor]. }
  destruct (get candidate "finishReason") as [finishReason|] eqn:Ef.
  - destruct (truthy finishReason).
    + intros [= <- <-]. eexists. split; [exact F | now intros out [= <-]].
    + intros [= <- <-]. exists more. split; [exact Hm | now intros out [= <-]].
  - intros [= <- <-]. exists more. split; [exact Hm | now intros out [= <-]].
Qed.

Lemma transform_stream_emits (events : list SSEParsedEvent) :
  forall state,
    exists lost,
      emits state
        (fst (transform_stream JSON_parse JSON_stringify Date_now events state) ++ lost)
        (snd (transform_stream JSON_parse JSON_stringify Date_now events state)).
Proof.
  induction events as [|e events IH]; intros state.
  - exists []. constructor.
  - cbn [transform_stream].
    destruct (transformAntigravityEvent JSON_parse JSON_stringify Date_now e state)
      as [r state'] eqn:E.
    apply transformAntigravityEvent_emits in E. destruct E as (more & Hm & Hout).
    destruct r as [out| |]; cbn [fst snd];
      try (exists more; exact Hm).
    rewrite (Hout out eq_refl). destruct (IH state') as (lost & Hl).
    exists lost. rewrite <- app_assoc. exact (emits_app _ _ _ _ _ Hm Hl).
Qed.

(** ** What a run keeps *)

Lemma emits_of_stream (s s' : TransformState) (m : list OpenAIStreamChunk) :
  emits s m s' ->
  (state_id s' = state_id s /\ created s' = created s /\ model s' = model s)
  /\ Forall (of_stream s) m.
Proof.
  induction 1 as [s | s s' m _ IH | s s' sig m _ IH | s s' d r m _ _ IH
                 | s s' t call m _ _ _ IH].
  - repeat split. constructor.
  - exact IH.
  - exact IH.
  - destruct IH as [I F]. split; [exact I|]. constructor; [now repeat split | exact F].
  - destruct IH as [I F]. split; [exact I|]. constructor; [now repeat split | exact F].
Qed.

Lemma emits_tool_indices (s s' : TransformState) (m : list OpenAIStreamChunk) :
  emits s m s' ->
  tool_indices m = seq (toolCallIndex s) (List.length (tool_indices m))
  /\ toolCallIndex s' = toolCallIndex s + List.length (tool_indices m).
Proof.
  induction 1 as [s | s s' m _ IH | s s' sig m _ IH | s s' d r m Hd _ IH
                 | s s' t call m Hc _ _ IH].
  - cbn. split; [reflexivity | lia].
  - exact IH.
  - exact IH.
  - unfold tool_indices in *. cbn [flat_map make_chunk delta]. rewrite Hd. exact IH.
  - unfold tool_indices in *. cbn [flat_map make_chunk delta tool_calls_delta
      delta_tool_calls map app List.length seq].
    cbn [incr_toolCallIndex toolCallIndex] in IH. destruct IH as [I F].
    rewrite Hc. split; [f_equal; exact I | lia].
Qed.

(** Every chunk that a stream emits carries the id, the creation time and
    the model of the state the stream started with, and the state keeps
    them to the end, also when an event makes the transformer throw. *)
Theorem transform_stream_of_stream (events : list SSEParsedEvent) (state : TransformState) :
  Forall (of_stream state)
    (fst (transform_stream JSON_parse JSON_stringify Date_now events state))
  /\ state_id (snd (transform_stream JSON_parse JSON_stringify Date_now events state))
     = state_id state
  /\ created (snd (transform_stream JSON_parse JSON_stringify Date_now events state))
     = created state
  /\ model (snd (transform_stream JSON_parse JSON_stringify Date_now events state))
     = model state.
Proof.
  destruct (transform_stream_emits events state) as (lost & H).
  apply emits_of_stream in H. destruct H as [I F].
  apply Forall_app in F. destruct F as [F _]. split; [exact F | exact I].
Qed.

Lemma seq_app_prefix (a b : list nat) (start : nat) :
  (a ++ b)%list = seq start (List.length (a ++ b)%list) ->
  a = seq start (List.length a).
Proof.
  rewrite length_app, seq_app. intros H.
  apply (f_equal (firstn (List.length a))) in H.
  rewrite firstn_app, Nat.sub_diag, firstn_all, firstn_O, app_nil_r in H.
  rewrite H at 1. rewrite firstn_app, length_seq, Nat.sub_diag, firstn_O, app_nil_r.
  apply firstn_all2. now rewrite length_seq.
Qed.

(** The tool calls of a stream are numbered consecutively from the index
    of the state the stream starts with, in the order of the chunks; the
    index of the final state is at least the next free number. *)
Theorem transform_stream_tool_indices (events : list SSEParsedEvent)
    (state : TransformState) :
  tool_indices (fst (transform_stream JSON_parse JSON_stringify Date_now events state))
  = seq (toolCallIndex state)
      (List.length
         (tool_indices
            (fst (transform_stream JSON_parse JSON_stringify Date_now events state))))
  /\ toolCallIndex state
     + List.length
         (tool_indices
            (fst (transform_stream JSON_parse JSON_stringify Date_now events state)))
     <= toolCallIndex
          (snd (transform_stream JSON_parse JSON_stringify Date_now events state)).
Proof.
  destruct (transform_stream_emits events state) as (lost & H).
  apply emits_tool_indices in H. destruct H as [I F].
  unfold tool_indices in *. rewrite flat_map_app in *.
  split; [now apply seq_app_prefix in I|].
  rewrite F, length_app. lia.
Qed.
End StreamingFurther.

(* ================================================================== *)
(** * Further properties of the SSE parser *)
(* ================================================================== *)

Lemma string_app_nil_r (s : string) : s ++ EmptyString = s.
Proof. induction s as [|c s IH]; [reflexivity|]. cbn. now rewrite IH. Qed.

Lemma string_app_assoc (a b c : string) : (a ++ b) ++ c = a ++ b ++ c.
Proof. induction a as [|x a IH]; [reflexivity|]. cbn. now rewrite IH. Qed.

Lemma concat_empty_cons (x : string) (xs : list string) :
  String.concat EmptyString (x :: xs) = x ++ String.concat EmptyString xs.
Proof.
  destruct xs as [|y ys]; cbn [String.concat]; [now rewrite string_app_nil_r | reflexivity].
Qed.

(** ** Lines *)

Lemma split_lines_line (l : string) :
  single_line l = true ->
  forall rest cur,
    split_lines (l ++ String LF rest) cur = (cur ++ l) :: split_lines rest EmptyString.
Proof.
  induction l as [|c l IH]; intros H rest cur.
  - cbn. now rewrite string_app_nil_r.
  - cbn [single_line] in H. apply andb_true_iff in H. destruct H as [H Hl].
    apply andb_true_iff in H. destruct H as [Hlf Hcr].
    apply negb_true_iff in Hlf, Hcr.
    change ((String c l) ++ String LF rest) with (String c (l ++ String LF rest)).
    cbn [split_lines]. rewrite Hlf, Hcr. cbn [andb].
    assert (E : split_lines (l ++ String LF rest) (cur ++ String c EmptyString)
                = (cur ++ String c l) :: split_lines rest EmptyString).
    { rewrite (IH Hl). f_equal. now rewrite string_app_assoc. }
    destruct (l ++ String LF rest) eqn:El; [destruct l; discriminate | exact E].
Qed.

(** ** One line of an event *)

Lemma trimEnd_nonempty (c : ascii) (s : string) :
  is_space c = false -> nonempty (trimEnd (String c s)) = true.
Proof. intros H. cbn [trimEnd]. rewrite H. now destruct (trimEnd s). Qed.

Lemma parse_line_data (events : list SSEParsedEvent) (cur : SSEParsedEvent) (l : string) :
  wire_value l = true ->
  parse_line (events, cur) (data_line l)
  = (events,
     {| event := event cur;
        data := Some ((match data cur with
                       | Some d => if nonempty d then d ++ String LF EmptyString
                                   else EmptyString
                       | None => EmptyString
                       end) ++ l);
        id := id cur |}).
Proof.
  intros H. unfold parse_line, data_line.
  assert (T : nonempty (trim ("data: " ++ l)) = true) by (apply trimEnd_nonempty; reflexivity).
  rewrite T. cbn [negb fst snd].
  change (indexOf ":"%char ("data: " ++ l)) with (Some 4).
  change (trim (slice_to 4 ("data: " ++ l))) with "data".
  cbn [String.eqb Ascii.eqb Bool.eqb].
  change (trimStart (slice_from (4 + 1) ("data: " ++ l))) with (trimStart l).
  destruct l as [|c l]; [discriminate|].
  cbn [wire_value] in H. apply andb_true_iff in H. destruct H as [H _].
  apply negb_true_iff in H. cbn [trimStart]. rewrite H. reflexivity.
Qed.

Lemma parse_line_blank (events : list SSEParsedEvent) (cur : SSEParsedEvent) :
  parse_line (events, cur) EmptyString
  = ((if data_truthy cur then events ++ [cur] else events)%list, empty_event).
Proof. reflexivity. Qed.

(** ** One event *)

Lemma fold_data_lines (lines : list string) :
  forallb wire_value lines = true ->
  forall events acc,
    nonempty acc = true ->
    fold_left parse_line (map data_line lines)
      (events, data_event acc)
    = (events, data_event (String.concat (String LF EmptyString) (acc :: lines))).
Proof.
  induction lines as [|l lines IH]; intros H events acc Ha; [reflexivity|].
  cbn [forallb] in H. apply andb_true_iff in H. destruct H as [Hl H].
  cbn [map fold_left]. rewrite (parse_line_data events _ l Hl).
  cbn [data event id data_event]. rewrite Ha.
  fold (data_event ((acc ++ String LF EmptyString) ++ l)).
  rewrite (IH H).
  - f_equal. f_equal. cbn [String.concat].
    destruct lines; now rewrite !string_app_assoc.
  - destruct acc; [discriminate | reflexivity].
Qed.

Lemma wire_value_nonempty (l : string) : wire_value l = true -> nonempty l = true.
Proof. destruct l; [discriminate | reflexivity]. Qed.

Lemma fold_frame (lines : list string) (events : list SSEParsedEvent) :
  wire_frame lines = true ->
  fold_left parse_line (map data_line lines ++ [EmptyString])%list
    (events, empty_event)
  = ((events ++ [data_event (String.concat (String LF EmptyString) lines)])%list,
     empty_event).
Proof.
  intros H. destruct lines as [|l lines]; [discriminate|].
  cbn [wire_frame forallb] in H. apply andb_true_iff in H. destruct H as [Hl H].
  rewrite fold_left_app. cbn [map fold_left].
  rewrite (parse_line_data events empty_event l Hl). cbn [data event id empty_event].
  change {| event := None; data := Some (EmptyString ++ l); id := None |}
    with (data_event l).
  rewrite (fold_data_lines lines H events l (wire_value_nonempty l Hl)).
  rewrite parse_line_blank.
  assert (T : data_truthy (data_event (String.concat (String LF EmptyString) (l :: lines)))
              = true).
  { unfold data_truthy. cbn [data data_event String.concat].
    destruct l; [discriminate|]. now destruct lines. }
  now rewrite T.
Qed.

(** ** A sequence of events *)

Lemma wire_value_single_line (l : string) :
  wire_value l = true -> single_line (data_line l) = true.
Proof.
  destruct l as [|c l]; [discriminate|]. cbn [wire_value].
  intros H. apply andb_true_iff in H. destruct H as [_ H]. exact H.
Qed.

Lemma split_lines_data_lines (lines : list string) (rest : string) :
  forallb wire_value lines = true ->
  split_lines
    (String.concat EmptyString
       (map (fun l => data_line l ++ String LF EmptyString) lines) ++ rest)
    EmptyString
  = (map data_line lines ++ split_lines rest EmptyString)%list.
Proof.
  induction lines as [|l lines IH]; intros H; [reflexivity|].
  cbn [forallb] in H. apply andb_true_iff in H. destruct H as [Hl H].
  cbn [map app]. rewrite concat_empty_cons, !string_app_assoc.
  change (String LF EmptyString
          ++ String.concat EmptyString
               (map (fun l0 => data_line l0 ++ String LF EmptyString) lines) ++ rest)
    with (String LF
            (String.concat EmptyString
               (map (fun l0 => data_line l0 ++ String LF EmptyString) lines) ++ rest)).
  rewrite (split_lines_line _ (wire_value_single_line l Hl)).
  cbn [append]. f_equal. now apply IH.
Qed.

Lemma split_lines_frames (frames : list (list string)) (rest : string) :
  forallb wire_frame frames = true ->
  split_lines (String.concat EmptyString (map data_frame frames) ++ rest) EmptyString
  = (flat_map (fun lines => map data_line lines ++ [EmptyString]) frames
     ++ split_lines rest EmptyString)%list.
Proof.
  induction frames as [|lines frames IH]; intros H; [reflexivity|].
  cbn [forallb] in H. apply andb_true_iff in H. destruct H as [Hl H].
  assert (Hv : forallb wire_value lines = true) by (destruct lines; [discriminate | exact Hl]).
  cbn [map flat_map]. rewrite concat_empty_cons. unfold data_frame at 1.
  rewrite !string_app_assoc.
  rewrite (split_lines_data_lines lines _ Hv).
  rewrite <- !app_assoc. f_equal.
  change (split_lines (String LF EmptyString
                       ++ String.concat EmptyString (map data_frame frames) ++ rest)
            EmptyString)
    with (EmptyString
          :: split_lines (String.concat EmptyString (map data_frame frames) ++ rest)
               EmptyString).
  cbn [app]. f_equal. now apply IH.
Qed.

Lemma fold_frames (frames : list (list string)) :
  forallb wire_frame frames = true ->
  forall events,
    fold_left parse_line
      (flat_map (fun lines => (map data_line lines ++ [EmptyString])%list) frames)
      (events, empty_event)
    = ((events
        ++ map (fun lines => data_event (String.concat (String LF EmptyString) lines))
             frames)%list,
       empty_event).
Proof.
  induction frames as [|lines frames IH]; intros H events.
  - cbn. now rewrite app_nil_r.
  - cbn [forallb] in H. apply andb_true_iff in H. destruct H as [Hl H].
    cbn [flat_map map]. rewrite fold_left_app, (fold_frame lines events Hl), (IH H).
    now rewrite <- app_assoc.
Qed.

(** Reading back what was written: a chunk made of events in the format
    of the chat route, each a run of [data:] lines closed by a blank line,
    parses into exactly those events, in order; the lines of an event are
    joined by a line feed, and [event] and [id] stay unset. *)
Theorem parseSSEChunk_data_frames (frames : list (list string)) :
  forallb wire_frame frames = true ->
  parseSSEChunk (String.concat EmptyString (map data_frame frames))
  = map (fun lines => data_event (String.concat (String LF EmptyString) lines)) frames.
Proof.
  intros H. unfold parseSSEChunk.
  rewrite <- (string_app_nil_r (String.concat EmptyString (map data_frame frames))).
  rewrite (split_lines_frames frames EmptyString H).
  rewrite fold_left_app, (fold_frames frames H []). reflexivity.
Qed.

(* ================================================================== *)
(** * Further properties of the schema cleaner *)
(* ================================================================== *)

(** ** The nodes of a schema in the Gemini dialect *)

Lemma In_indexed_from_key (A : Type) (x : A) (l : list A) :
  forall i, In x l -> exists k, In (k, x) (indexed_from i l).
Proof.
  induction l as [|y l IH]; intros i H; [destruct H|].
  cbn [indexed_from]. destruct H as [-> | H].
  - eexists. left. reflexivity.
  - destruct (IH (S i) H) as (k & Hk). exists k. now right.
Qed.

Lemma string_schema_nodes (node : JSON) :
  schema_node default_string_schema node -> node = default_string_schema.
Proof.
  intros H.
  inversion H as [v | | fs p k x n Hp | fs x n Hi | fs k bs x n Hk Hb]; subst;
    try reflexivity; try discriminate.
  cbn in Hb. destruct (String.eqb k "type"); discriminate.
Qed.

(** Every node of [toGeminiFormat schema] is [toGeminiFormat] of a node
    of [schema], or the [items] that the function adds to an array. *)
Lemma toGeminiFormat_nodes (n : nat) :
  forall schema node,
    size schema <= n ->
    schema_node (toGeminiFormat schema) node ->
    exists x, node = toGeminiFormat x
              /\ (schema_node schema x \/ x = default_string_schema).
Proof.
  induction n as [n IH] using lt_wf_ind. intros schema node Hs Hnode.
  assert (IHc : forall x, size x < size schema ->
                          schema_node (toGeminiFormat x) node ->
                          exists y, node = toGeminiFormat y
                                    /\ (schema_node x y \/ y = default_string_schema)).
  { intros x Hx. apply (IH (size x)); lia. }
  clear IH.
  destruct schema as [| b | r | s | items | fs];
    try (apply schema_node_not_container in Hnode; [|reflexivity]; subst node;
         eexists; split; [reflexivity | left; constructor]).
  - (* array *)
    cbn [toGeminiFormat] in Hnode.
    inversion Hnode as [v | items' x n' Hin Hx | | |]; subst.
    + exists (JArr items). split; [reflexivity | left; constructor].
    + apply in_map_iff in Hin. destruct Hin as (x0 & <- & Hin0).
      destruct (IHc x0 (size_element _ _ Hin0) Hx) as (y & Hy & [Hn | Hd]).
      * exists y. split; [exact Hy | left; now apply (node_element items x0)].
      * exists y. split; [exact Hy | now right].
  - (* object *)
    pose proof Hnode as Hroot.
    rewrite toGeminiFormat_obj in Hnode. cbv zeta in Hnode.
    set (result := flat_map (gemini_entry (property_names fs)) fs) in *.
    set (out := if is_string (lookup "type" result) "ARRAY"
                   && negb (truthy_opt (lookup "items" result))
                then set_field "items" (JObj [("type", JStr "STRING")]) result
                else result).
    assert (Hout : schema_node (JObj out) node).
    { unfold out. destruct (_ && _); exact Hnode. }
    clear Hnode.
    assert (Hother : forall k, String.eqb k "items" = false ->
                               lookup k out = lookup k result).
    { intros k Hk. unfold out. destruct (_ && _); [|reflexivity].
      now apply lookup_set_field_other. }
    assert (Hitems : lookup "items" out = Some default_string_schema
                     \/ lookup "items" out = lookup "items" result).
    { unfold out. destruct (_ && _); [left|right; reflexivity].
      apply lookup_set_field_same. }
    inversion Hout as [v | | fs' p k x n' Hp Hobj Hin Hx
                      | fs' x n' Hi Hx | fs' k bs x n' Hk Hb Hin Hx]; subst.
    + (* the node itself *)
      exists (JObj fs). split; [|left; constructor].
      rewrite toGeminiFormat_obj. cbv zeta. fold result. unfold out.
      now destruct (_ && _).
    + (* below a property *)
      rewrite Hother in Hp by reflexivity. unfold result in Hp.
      rewrite lookup_gemini_other in Hp by reflexivity.
      destruct (lookup "properties" fs) as [p0|] eqn:Ep; [|discriminate].
      pose proof (size_field _ _ _ (lookup_In _ _ _ Ep)) as Sz.
      injection Hp as <-.
      destruct p0 as [| b | r | s | elems | props]; try discriminate.
      * cbn in Hin. apply In_indexed_from in Hin. apply in_map_iff in Hin.
        destruct Hin as (x0 & <- & Hin0).
        pose proof (size_element _ _ Hin0).
        destruct (IHc x0 ltac:(lia) Hx) as (y & Hy & [Hn | Hd]);
          exists y; (split; [exact Hy|]); [left | now right].
        destruct (In_indexed_from_key _ x0 elems 0 Hin0) as (k0 & Hk0).
        now apply (node_property fs (JArr elems) k0 x0).
      * cbn in Hin. apply in_map_iff in Hin.
        destruct Hin as ([k0 x0] & [= <- <-] & Hin0).
        pose proof (size_field _ _ _ Hin0).
        destruct (IHc x0 ltac:(lia) Hx) as (y & Hy & [Hn | Hd]);
          exists y; (split; [exact Hy|]); [left | now right].
        now apply (node_property fs (JObj props) k0 x0).
    + (* below items *)
      destruct Hitems as [Hd | Hr].
      * rewrite Hd in Hi. injection Hi as <-.
        apply string_schema_nodes in Hx. subst node.
        exists default_string_schema. split; [reflexivity | now right].
      * rewrite Hr in Hi. unfold result in Hi.
        rewrite lookup_gemini_other in Hi by reflexivity.
        destruct (lookup "items" fs) as [v0|] eqn:Ev; [|discriminate].
        pose proof (size_field _ _ _ (lookup_In _ _ _ Ev)) as Sz.
        injection Hi as <-.
        assert (E : gemini_value "items" v0 = toGeminiFormat v0) by (now destruct v0).
        rewrite E in Hx.
        destruct (IHc v0 Sz Hx) as (y & Hy & [Hn | Hd]);
          exists y; (split; [exact Hy|]); [left | now right].
        now apply (node_items fs v0).
    + (* below a union *)
      pose proof (is_union_key_not_special _ Hk) as (Kr & Ki & Kp).
      rewrite Hother in Hb by assumption. unfold result in Hb.
      rewrite lookup_gemini_other in Hb by assumption.
      destruct (lookup k fs) as [v0|] eqn:Ev; [|discriminate].
      pose proof (size_field _ _ _ (lookup_In _ _ _ Ev)) as Sz.
      injection Hb as Hb.
      destruct v0 as [| b | r | s | elems | props]; try discriminate.
      * cbn in Hb. destruct (String.eqb k "type"); discriminate.
      * unfold gemini_value in Hb. rewrite Kp, Ki, Hk in Hb.
        injection Hb as <-.
        apply in_map_iff in Hin. destruct Hin as (x0 & <- & Hin0).
        pose proof (size_element _ _ Hin0).
        destruct (IHc x0 ltac:(lia) Hx) as (y & Hy & [Hn | Hd]);
          exists y; (split; [exact Hy|]); [left | now right].
        now apply (node_branch fs k elems x0).
      * unfold gemini_value in Hb. rewrite Kp, Ki in Hb. discriminate.
Qed.

(** ** Types in upper case, arrays with items *)

Lemma upper_char_idempotent (c : ascii) : upper_char (upper_char c) = upper_char c.
Proof. destruct c as [[] [] [] [] [] [] [] []]; reflexivity. Qed.

Lemma toUpperCase_idempotent (s : string) : toUpperCase (toUpperCase s) = toUpperCase s.
Proof.
  unfold toUpperCase. induction s as [|c s IH]; [reflexivity|].
  cbn [map_string]. now rewrite upper_char_idempotent, IH.
Qed.

Lemma toGeminiFormat_lookup (fs : Fields) (k : string) :
  String.eqb k "required" = false -> String.eqb k "items" = false ->
  get (toGeminiFormat (JObj fs)) k = option_map (gemini_value k) (lookup k fs).
Proof.
  intros Kr Ki. rewrite toGeminiFormat_obj. cbv zeta.
  destruct (_ && _); cbn [get];
    rewrite ?lookup_set_field_other by exact Ki; now apply lookup_gemini_other.
Qed.

Lemma toGeminiFormat_type (x : JSON) : type_is_upper_case (toGeminiFormat x).
Proof.
  intros s H. destruct x as [| b | r | t | items | fs]; try discriminate;
    try (cbn [toGeminiFormat] in H;
         rewrite get_name_not_object in H; try reflexivity; discriminate).
  - rewrite toGeminiFormat_lookup in H by reflexivity.
    destruct (lookup "type" fs) as [v|]; [|discriminate].
    injection H as H. destruct v as [| b | r | t | items | props]; try discriminate.
    cbn in H. injection H as <-. apply toUpperCase_idempotent.
Qed.

Lemma toGeminiFormat_items (x : JSON) : array_has_items (toGeminiFormat x).
Proof.
  intros H. destruct x as [| b | r | t | items | fs]; try discriminate;
    try (cbn [toGeminiFormat] in H;
         rewrite get_name_not_object in H; try reflexivity; discriminate).
  - assert (T : get (toGeminiFormat (JObj fs)) "type"
                = lookup "type" (flat_map (gemini_entry (property_names fs)) fs)).
    { rewrite toGeminiFormat_lookup by reflexivity.
      symmetry. now apply lookup_gemini_other. }
    rewrite T in H. rewrite toGeminiFormat_obj. cbv zeta. rewrite H. cbn [andb].
    destruct (truthy_opt (lookup "items" _)) eqn:E; cbn [negb get].
    + exact E.
    + now rewrite lookup_set_field_same.
Qed.

(** In a schema that [cleanSchema] returns, every node whose type is a
    string has it in upper case. *)
Theorem cleanSchema_types_upper_case (fuel : nat) (schema out node : JSON) :
  cleanSchema fuel schema = Normal out ->
  schema_node out node ->
  type_is_upper_case node.
Proof.
  intros H Hnode. apply cleanSchema_phases in H.
  destruct H as [-> | (x2 & x3 & x4 & _ & _ & ->)].
  - apply string_schema_nodes in Hnode. subst node.
    intros s [= <-]. reflexivity.
  - destruct (toGeminiFormat_nodes (size x4) x4 node (Nat.le_refl _) Hnode)
      as (x & -> & _).
    apply toGeminiFormat_type.
Qed.

(** In a schema that [cleanSchema] returns, every node of type ["ARRAY"]
    has an [items] schema: where there was none, or a falsy one,
    [{type: "STRING"}] stands. *)
Theorem cleanSchema_arrays_have_items (fuel : nat) (schema out node : JSON) :
  cleanSchema fuel schema = Normal out ->
  schema_node out node ->
  array_has_items node.
Proof.
  intros H Hnode. apply cleanSchema_phases in H.
  destruct H as [-> | (x2 & x3 & x4 & _ & _ & ->)].
  - apply string_schema_nodes in Hnode. subst node. discriminate.
  - destruct (toGeminiFormat_nodes (size x4) x4 node (Nat.le_refl _) Hnode)
      as (x & -> & _).
    apply toGeminiFormat_items.
Qed.

(** ** No unsupported keyword is left *)

Lemma no_unsupported_other (v : JSON) :
  (forall fs, v <> JObj fs) -> no_unsupported_keyword v.
Proof. intros H fs key ->. now elim (H fs). Qed.

Lemma lookup_kept_unsupported (k : string) (fs : Fields) :
  is_unsupported k = true -> lookup k (flat_map kept_entry fs) = None.
Proof.
  intros H. induction fs as [|[key value] fs IH]; [reflexivity|].
  cbn [flat_map]. rewrite lookup_app_skip; [exact IH|].
  intros kv' Hin. pose proof (kept_entry_key _ _ Hin) as K. cbn [fst] in K.
  unfold kept_entry in Hin. cbn [fst snd] in Hin.
  destruct (is_unsupported key) eqn:E; [destruct Hin|].
  rewrite K. destruct (String.eqb k key) eqn:Ek; [|reflexivity].
  apply String.eqb_eq in Ek. congruence.
Qed.

Lemma kept_value_other (k : string) (v : JSON) :
  String.eqb k "properties" = false ->
  kept_value k v = removeUnsupportedKeywords v false.
Proof. intros H. unfold kept_value. rewrite H. now destruct v. Qed.

(** Every node of [removeUnsupportedKeywords schema] is the function
    applied to some value. *)
Lemma removeUnsupportedKeywords_image (n : nat) :
  forall schema node,
    size schema <= n ->
    schema_node (removeUnsupportedKeywords schema false) node ->
    exists x, node = removeUnsupportedKeywords x false.
Proof.
  induction n as [n IH] using lt_wf_ind. intros schema node Hs Hnode.
  assert (IHc : forall x, size x < size schema ->
                          schema_node (removeUnsupportedKeywords x false) node ->
                          exists y, node = removeUnsupportedKeywords y false).
  { intros x Hx. apply (IH (size x)); lia. }
  clear IH.
  destruct schema as [| b | r | s | items | fs];
    try (apply schema_node_not_container in Hnode; [|reflexivity]; subst node;
         eexists; reflexivity).
  - cbn [removeUnsupportedKeywords] in Hnode.
    inversion Hnode as [v | items' x n' Hin Hx | | |]; subst.
    + now exists (JArr items).
    + apply in_map_iff in Hin. destruct Hin as (x0 & <- & Hin0).
      exact (IHc x0 (size_element _ _ Hin0) Hx).
  - pose proof Hnode as Hroot. rewrite removeUnsupportedKeywords_obj in Hnode.
    inversion Hnode as [v | | fs' p k x n' Hp Hobj Hin Hx
                       | fs' x n' Hi Hx | fs' k bs x n' Hk Hb Hin Hx]; subst.
    + exists (JObj fs). now rewrite removeUnsupportedKeywords_obj.
    + rewrite lookup_kept in Hp by reflexivity.
      destruct (lookup "properties" fs) as [p0|] eqn:Ep; [|discriminate].
      apply lookup_In in Ep. apply size_field in Ep.
      injection Hp as <-.
      destruct p0 as [| b | r | s | elems | props]; try discriminate.
      * cbn in Hin. apply In_indexed_from in Hin.
        apply in_map_iff in Hin. destruct Hin as (x0 & <- & Hin0).
        pose proof (size_element _ _ Hin0). apply (IHc x0); [lia | exact Hx].
      * cbn in Hin. apply in_map_iff in Hin.
        destruct Hin as ([k0 x0] & [= <- <-] & Hin0).
        pose proof (size_field _ _ _ Hin0). apply (IHc x0); [lia | exact Hx].
    + rewrite lookup_kept in Hi by reflexivity.
      destruct (lookup "items" fs) as [v0|] eqn:Ev; [|discriminate].
      apply lookup_In in Ev. apply size_field in Ev.
      injection Hi as <-. rewrite kept_value_other in Hx by reflexivity.
      now apply (IHc v0).
    + pose proof (is_union_key_not_special _ Hk) as (Kr & Ki & Kp).
      assert (Ku : is_unsupported k = false).
      { unfold is_union_key in Hk.
        apply orb_true_iff in Hk. destruct Hk as [Hk | Hk];
          [apply orb_true_iff in Hk; destruct Hk as [Hk | Hk]|];
          apply String.eqb_eq in Hk; subst k; reflexivity. }
      rewrite lookup_kept in Hb by assumption.
      destruct (lookup k fs) as [v0|] eqn:Ev; [|discriminate].
      apply lookup_In in Ev. apply size_field in Ev.
      injection Hb as Hb. rewrite kept_value_other in Hb by assumption.
      destruct v0 as [| b | r | s | elems | props]; try discriminate.
      cbn [removeUnsupportedKeywords] in Hb. injection Hb as <-.
      apply in_map_iff in Hin. destruct Hin as (x0 & <- & Hin0).
      pose proof (size_element _ _ Hin0). apply (IHc x0); [lia | exact Hx].
Qed.

Lemma removeUnsupportedKeywords_clean (schema : JSON) :
  at_nodes no_unsupported_keyword (removeUnsupportedKeywords schema false).
Proof.
  intros node Hnode.
  destruct (removeUnsupportedKeywords_image (size schema) schema node (Nat.le_refl _) Hnode)
    as (x & ->).
  destruct x as [| b | r | s | items | fs];
    try (apply no_unsupported_other; discriminate).
  rewrite removeUnsupportedKeywords_obj. intros fs' key [= <-] Hkey.
  now apply lookup_kept_unsupported.
Qed.

Lemma In_indexed_key (x : JSON) (l : list JSON) :
  In x l -> exists k, In (k, x) (entries (JArr l)).
Proof. intros H. cbn [entries]. unfold indexed. now apply In_indexed_from_key. Qed.

Lemma at_nodes_property_element (P : JSON -> Prop) (fs : Fields) (items : list JSON)
    (x : JSON) :
  at_nodes P (JObj fs) ->
  lookup "properties" fs = Some (JArr items) -> In x items -> at_nodes P x.
Proof.
  intros H Hp Hin n Hn. destruct (In_indexed_key x items Hin) as (k & Hk).
  apply H. now apply (node_property fs (JArr items) k x).
Qed.

Lemma map_children_no_unsupported (self : JSON -> Completion JSON) (fs fs' : Fields) :
  map_children self fs = Normal fs' ->
  no_unsupported_keyword (JObj fs) -> no_unsupported_keyword (JObj fs').
Proof.
  intros HM H fs0 key [= <-] Hkey.
  pose proof (map_children_lookup _ _ _ key HM) as L.
  now rewrite (H fs key eq_refl Hkey) in L.
Qed.

Lemma cleanupRequiredFields_clean (m : nat) (v r : JSON) :
  at_nodes no_unsupported_keyword v ->
  cleanupRequiredFields m v = Normal r ->
  at_nodes no_unsupported_keyword r.
Proof.
  unfold cleanupRequiredFields.
  apply (walk_edit_at_nodes cleanupRequiredFields_node
           (at_nodes no_unsupported_keyword) no_unsupported_keyword).
  - apply no_unsupported_other.
  - intros items x. apply at_nodes_element.
  - intros m' fs e fs' HPre He HM.
    apply (map_children_no_unsupported _ _ _ HM).
    intros fs0 key [= <-] Hkey.
    rewrite (cleanup_lookup_other key fs e He).
    + exact (HPre (JObj fs) (node_here _) fs key eq_refl Hkey).
    + destruct (String.eqb key "required") eqn:E; [|reflexivity].
      apply String.eqb_eq in E. subst key. discriminate.
  - intros fs e pf ep k x HPre He Hp Hep Hin.
    rewrite (cleanup_lookup_other _ fs e He) in Hp by reflexivity.
    apply (cleanup_In _ _ pf ep Hep) in Hin.
    destruct Hin as [Hin | (required & valid & Hr & Hsub & ->)].
    + now apply (at_nodes_property _ fs pf k x).
    + apply (at_nodes_sublist _ required valid).
      * intros items. apply no_unsupported_other. discriminate.
      * apply (at_nodes_property _ fs pf "required" (JArr required)); auto.
        now apply lookup_In.
      * exact Hsub.
  - intros fs e items x HPre He Hp Hin.
    rewrite (cleanup_lookup_other _ fs e He) in Hp by reflexivity.
    now apply (at_nodes_property_element _ fs items x).
  - intros fs e x HPre He Hi.
    rewrite (cleanup_lookup_other _ fs e He) in Hi by reflexivity.
    now apply (at_nodes_items _ fs x).
  - intros fs e k bs b HPre He Hk Hb Hin.
    pose proof (is_union_key_not_special _ Hk) as (Kr & _ & _).
    rewrite (cleanup_lookup_other _ fs e He) in Hb by assumption.
    now apply (at_nodes_branch _ fs k bs b).
Qed.

Lemma clean_placeholder_schema : at_nodes no_unsupported_keyword placeholder_schema.
Proof.
  intros n Hn.
  inversion Hn as [v | | fs p k x n' Hp | fs x n' Hi | fs k bs x n' Hk Hb]; subst;
    try (cbn in *; discriminate).
  - intros fs key [= <-] Hkey. cbn [lookup].
    destruct (String.eqb key "type") eqn:E1;
      [apply String.eqb_eq in E1; subst key; discriminate|].
    destruct (String.eqb key "description") eqn:E2;
      [apply String.eqb_eq in E2; subst key; discriminate | reflexivity].
  - cbn in Hb. destruct (String.eqb k "type"); [discriminate|].
    destruct (String.eqb k "description"); discriminate.
Qed.

Lemma clean_placeholder_properties :
  at_nodes no_unsupported_keyword placeholder_properties.
Proof.
  intros n Hn.
  inversion Hn as [v | | fs p k x n' Hp | fs x n' Hi | fs k bs x n' Hk Hb]; subst;
    try (cbn in *; discriminate).
  - intros fs key [= <-] Hkey. cbn [lookup].
    destruct (String.eqb key EMPTY_SCHEMA_PLACEHOLDER_NAME) eqn:E1;
      [apply String.eqb_eq in E1; subst key; discriminate | reflexivity].
  - unfold EMPTY_SCHEMA_PLACEHOLDER_NAME in Hb. cbn in Hb.
    destruct (String.eqb k "_placeholder"); discriminate.
Qed.

Lemma clean_placeholder_required :
  at_nodes no_unsupported_keyword (JArr [JStr EMPTY_SCHEMA_PLACEHOLDER_NAME]).
Proof.
  intros n Hn. inversion Hn as [v | items x n' Hin Hx | | |]; subst.
  - apply no_unsupported_other. discriminate.
  - destruct Hin as [<- | []].
    apply schema_node_not_container in Hx; [|reflexivity]. subst n.
    apply no_unsupported_other. discriminate.
Qed.

Lemma addEmptySchemaPlaceholder_clean (m : nat) (v r : JSON) :
  at_nodes no_unsupported_keyword v ->
  addEmptySchemaPlaceholder m v = Normal r ->
  at_nodes no_unsupported_keyword r.
Proof.
  unfold addEmptySchemaPlaceholder.
  apply (walk_at_nodes addEmptySchemaPlaceholder_node
           (at_nodes no_unsupported_keyword) no_unsupported_keyword).
  - apply no_unsupported_other.
  - intros items x. apply at_nodes_element.
  - intros m' fs fs' HPre HM.
    apply (map_children_no_unsupported _ _ _ HM).
    intros fs0 key [= <-] Hkey. rewrite placeholder_lookup_other.
    + exact (HPre (JObj fs) (node_here _) fs key eq_refl Hkey).
    + destruct (String.eqb key "required") eqn:E; [|reflexivity].
      apply String.eqb_eq in E. subst key. discriminate.
    + destruct (String.eqb key "properties") eqn:E; [|reflexivity].
      apply String.eqb_eq in E. subst key. discriminate.
  - intros fs pf k x HPre Hp Hin.
    assert (K : forall pf0,
               In (k, x) (entries (addEmptySchemaPlaceholder_node (JObj pf0))) ->
               (forall x0, In (k, x0) pf0 -> at_nodes no_unsupported_keyword x0) ->
               at_nodes no_unsupported_keyword x).
    { intros pf0 H0 Hold. apply placeholder_In in H0.
      destruct H0 as [H0 | [-> | ->]];
        [now apply Hold | apply clean_placeholder_properties
         | apply clean_placeholder_required]. }
    destruct (placeholder_cases fs) as [E | E]; rewrite E in Hp.
    + apply (K pf Hin). intros x0 Hx0. now apply (at_nodes_property _ fs pf k x0).
    + rewrite lookup_set_field_other, lookup_set_field_same in Hp by reflexivity.
      injection Hp as <-. apply (K _ Hin).
      intros x0 [H0 | []]. inversion H0. apply clean_placeholder_schema.
  - intros fs items x HPre Hp Hin.
    destruct (placeholder_cases fs) as [E | E]; rewrite E in Hp.
    + now apply (at_nodes_property_element _ fs items x).
    + rewrite lookup_set_field_other, lookup_set_field_same in Hp by reflexivity.
      discriminate.
  - intros fs x HPre Hi.
    rewrite placeholder_lookup_other in Hi by reflexivity.
    now apply (at_nodes_items _ fs x).
  - intros fs k bs b HPre Hk Hb Hin.
    pose proof (is_union_key_not_special _ Hk) as (Kr & _ & Kp).
    rewrite placeholder_lookup_other in Hb by assumption.
    now apply (at_nodes_branch _ fs k bs b).
Qed.

Lemma gemini_entry_key_of (names : list string) (kv kv' : string * JSON) :
  In kv' (gemini_entry names kv) -> fst kv' = fst kv.
Proof.
  unfold gemini_entry. destruct kv as [key value]. cbn [fst snd].
  destruct value as [| b | r | s | elems | props];
    try (intros [<- | []]; reflexivity).
  destruct (_ || _); [intros [<- | []]; reflexivity|].
  destruct (String.eqb key "required"); [|intros [<- | []]; reflexivity].
  destruct names; [intros [<- | []]; reflexivity|].
  destruct (valid_required _ elems); [intros []|].
  intros [<- | []]. reflexivity.
Qed.

Lemma lookup_flat_map_absent (g : string * JSON -> Fields) (k : string) (fs : Fields) :
  (forall kv kv', In kv' (g kv) -> fst kv' = fst kv) ->
  lookup k fs = None -> lookup k (flat_map g fs) = None.
Proof.
  intros Hg. induction fs as [|[key value] fs IH]; [reflexivity|].
  cbn [lookup flat_map]. destruct (String.eqb k key) eqn:E; [discriminate|].
  intros H. rewrite lookup_app_skip; [now apply IH|].
  intros kv' Hin. rewrite (Hg _ _ Hin). exact E.
Qed.

Lemma toGeminiFormat_clean (x : JSON) :
  no_unsupported_keyword x -> no_unsupported_keyword (toGeminiFormat x).
Proof.
  intros H fs' key E Hkey.
  destruct x as [| b | r | s | items | fs]; try discriminate.
  rewrite toGeminiFormat_obj in E. cbv zeta in E.
  pose proof (lookup_flat_map_absent (gemini_entry (property_names fs)) key fs
                (gemini_entry_key_of _) (H fs key eq_refl Hkey)) as L.
  destruct (_ && _); injection E as <-; [|exact L].
  rewrite lookup_set_field_other; [exact L|].
  destruct (String.eqb key "items") eqn:Ei; [|reflexivity].
  apply String.eqb_eq in Ei. subst key. discriminate.
Qed.

(** No node of a schema that [cleanSchema] returns carries one of the
    keywords of [UNSUPPORTED_KEYWORDS]: [$ref], [const],
    [additionalProperties], the constraints and the others are gone from
    the schema itself, from the schemas of its properties, from [items]
    and from the branches of a union. *)
Theorem cleanSchema_no_unsupported_keyword (fuel : nat) (schema out node : JSON) :
  cleanSchema fuel schema = Normal out ->
  schema_node out node ->
  no_unsupported_keyword node.
Proof.
  intros H Hnode. apply cleanSchema_phases in H.
  destruct H as [-> | (x2 & x3 & x4 & H3 & H4 & ->)].
  - apply string_schema_nodes in Hnode. subst node.
    intros fs key [= <-] Hkey. cbn [lookup].
    destruct (String.eqb key "type") eqn:E; [|reflexivity].
    apply String.eqb_eq in E. subst key. discriminate.
  - destruct (toGeminiFormat_nodes (size x4) x4 node (Nat.le_refl _) Hnode)
      as (x & -> & [Hx | ->]).
    + apply toGeminiFormat_clean.
      apply (addEmptySchemaPlaceholder_clean fuel x3 x4); [|exact H4|exact Hx].
      apply (cleanupRequiredFields_clean fuel (removeUnsupportedKeywords x2 false) x3);
        [|exact H3].
      apply removeUnsupportedKeywords_clean.
    + intros fs key [= <-] Hkey. cbn [lookup].
      destruct (String.eqb key "type") eqn:E; [|reflexivity].
      apply String.eqb_eq in E. subst key. discriminate.
Qed.

(* ================================================================== *)
(** * Properties of the chat route *)
(* ================================================================== *)

(** ** Splitting at blank lines *)

Lemma split_blank_two (c d : ascii) (rest : string) :
  split_blank (String c (String d rest))
  = if Ascii.eqb c LF && Ascii.eqb d LF then EmptyString :: split_blank rest
    else cons_first c (split_blank (String d rest)).
Proof. reflexivity. Qed.

Lemma split_blank_not_nil (s : string) : split_blank s <> [].
Proof.
  destruct s as [|c [|d rest]]; [discriminate | discriminate|].
  rewrite split_blank_two.
  destruct (Ascii.eqb c LF && Ascii.eqb d LF); [discriminate|].
  unfold cons_first. destruct (split_blank (String d rest)); discriminate.
Qed.

Lemma split_blank_cons (c : ascii) (s : string) :
  (Ascii.eqb c LF = false \/ forall rest, s <> String LF rest) ->
  split_blank (String c s) = cons_first c (split_blank s).
Proof.
  intros H. destruct s as [|d rest]; [reflexivity|]. rewrite split_blank_two.
  destruct (Ascii.eqb c LF && Ascii.eqb d LF) eqn:E; [|reflexivity].
  apply andb_true_iff in E. destruct E as [Ec Ed]. destruct H as [H | H]; [congruence|].
  apply Ascii.eqb_eq in Ed. subst d. now elim (H rest).
Qed.

(** The first piece of a text that does not start with a line feed
    starts with the first character of the text. *)
Lemma split_blank_first (d : ascii) (s : string) :
  Ascii.eqb d LF = false ->
  exists x xs, split_blank (String d s) = String d x :: xs.
Proof.
  intros H. rewrite split_blank_cons by now left.
  unfold cons_first. destruct (split_blank s) as [|p ps]; eauto.
Qed.

Lemma removelast_cons (A : Type) (x : A) (l : list A) :
  l <> [] -> removelast (x :: l) = x :: removelast l.
Proof. destruct l; [contradiction | reflexivity]. Qed.

Lemma last_cons (A : Type) (x d : A) (l : list A) :
  l <> [] -> last (x :: l) d = last l d.
Proof. destruct l; [contradiction | reflexivity]. Qed.

Lemma last_app_r (A : Type) (d : A) (l l' : list A) :
  l' <> [] -> last (l ++ l') d = last l' d.
Proof.
  intros H. induction l as [|x l IH]; [reflexivity|].
  cbn [app]. rewrite last_cons; [exact IH|].
  intros E. apply app_eq_nil in E. destruct E as [_ E]. contradiction.
Qed.

(** Splitting a text that comes in two pieces: the complete parts of the
    first piece, then the parts of what the first piece left joined with
    the second. *)
Lemma split_blank_app (n : nat) :
  forall p q,
    String.length p <= n ->
    split_blank (p ++ q)
    = (removelast (split_blank p)
       ++ split_blank (last (split_blank p) EmptyString ++ q))%list.
Proof.
  induction n as [n IH] using lt_wf_ind. intros p q Hn.
  destruct p as [|c [|d rest]]; [reflexivity | reflexivity|].
  assert (IHr : forall r, String.length r < String.length (String c (String d rest)) ->
                          split_blank (r ++ q)
                          = (removelast (split_blank r)
                             ++ split_blank (last (split_blank r) EmptyString ++ q))%list).
  { intros r Hr. apply (IH (String.length r)); [lia | reflexivity]. }
  clear IH.
  change ((String c (String d rest)) ++ q) with (String c (String d (rest ++ q))).
  rewrite !split_blank_two.
  destruct (Ascii.eqb c LF && Ascii.eqb d LF) eqn:E.
  - rewrite (IHr rest) by (cbn; lia).
    rewrite removelast_cons, last_cons by apply split_blank_not_nil. reflexivity.
  - change (String d (rest ++ q)) with ((String d rest) ++ q).
    rewrite (IHr (String d rest)) by (cbn; lia).
    destruct (split_blank (String d rest)) as [|x xs] eqn:Ex;
      [now elim (split_blank_not_nil (String d rest))|].
    cbn [cons_first]. destruct xs as [|y ys].
    + cbn [removelast last app].
      change ((String c x) ++ q) with (String c (x ++ q)).
      symmetry. apply split_blank_cons.
      destruct (Ascii.eqb c LF) eqn:Ec; [right | now left].
      cbn [andb] in E.
      destruct (split_blank_first d rest E) as (x' & xs' & Ex').
      rewrite Ex in Ex'. injection Ex' as -> _.
      intros r [= Hd _]. subst d. discriminate.
    + rewrite (removelast_cons _ x (y :: ys)) by discriminate.
      rewrite (removelast_cons _ (String c x) (y :: ys)) by discriminate.
      rewrite (last_cons _ x _ (y :: ys)) by discriminate.
      rewrite (last_cons _ (String c x) _ (y :: ys)) by discriminate.
      reflexivity.
Qed.

(** What is left after the last separator holds no separator. *)
Lemma split_blank_last (n : nat) :
  forall p,
    String.length p <= n ->
    split_blank (last (split_blank p) EmptyString) = [last (split_blank p) EmptyString].
Proof.
  induction n as [n IH] using lt_wf_ind. intros p Hn.
  destruct p as [|c [|d rest]]; [reflexivity | reflexivity|].
  assert (IHr : forall r, String.length r < String.length (String c (String d rest)) ->
                          split_blank (last (split_blank r) EmptyString)
                          = [last (split_blank r) EmptyString]).
  { intros r Hr. apply (IH (String.length r)); [lia | reflexivity]. }
  clear IH. rewrite split_blank_two.
  destruct (Ascii.eqb c LF && Ascii.eqb d LF) eqn:E.
  - rewrite last_cons by apply split_blank_not_nil. apply IHr. cbn. lia.
  - pose proof (IHr (String d rest) ltac:(cbn; lia)) as H.
    destruct (split_blank (String d rest)) as [|x xs] eqn:Ex;
      [now elim (split_blank_not_nil (String d rest))|].
    cbn [cons_first]. destruct xs as [|y ys].
    + cbn [last] in *. rewrite split_blank_cons; [now rewrite H|].
      destruct (Ascii.eqb c LF) eqn:Ec; [right | now left].
      cbn [andb] in E.
      destruct (split_blank_first d rest E) as (x' & xs' & Ex').
      rewrite Ex in Ex'. injection Ex' as -> _.
      intros r [= Hd _]. subst d. discriminate.
    + rewrite (last_cons _ (String c x) _ (y :: ys)) by discriminate.
      rewrite (last_cons _ x _ (y :: ys)) in H by discriminate. exact H.
Qed.

(** ** The loops over the parts and over the reads *)

Section StreamLoop.
Variable JSON_parse : string -> option JSON.
Variable JSON_stringify : option JSON -> option string.
Variable Date_now : nat -> Z.

Lemma send_parts_app (a b : list string) (state : TransformState) :
  send_parts JSON_parse JSON_stringify Date_now (a ++ b) state
  = match send_parts JSON_parse JSON_stringify Date_now a state with
    | (chunks, Some state') =>
        ((chunks ++ fst (send_parts JSON_parse JSON_stringify Date_now b state'))%list,
         snd (send_parts JSON_parse JSON_stringify Date_now b state'))
    | (chunks, None) => (chunks, None)
    end.
Proof.
  revert state. induction a as [|part a IH]; intros state.
  - cbn [app send_parts]. now destruct (send_parts _ _ _ b state).
  - cbn [app send_parts]. destruct (negb (nonempty (trim part))); [apply IH|].
    destruct (send_events _ _ _ _ state) as [chunks [state'|]]; [|reflexivity].
    rewrite IH.
    destruct (send_parts _ _ _ a state') as [chunks' [state''|]]; cbn [fst snd];
      now rewrite ?app_assoc.
Qed.

Lemma read_loop_joined (reads : list string) (done : bool) :
  forall buffer state,
    split_blank buffer = [buffer] ->
    read_loop JSON_parse JSON_stringify Date_now reads done buffer state
    = read_loop JSON_parse JSON_stringify Date_now [String.concat EmptyString reads] done
        buffer state.
Proof.
  induction reads as [|value rest IH]; intros buffer state Hb.
  - cbn [read_loop String.concat]. rewrite string_app_nil_r, Hb. reflexivity.
  - rewrite concat_empty_cons.
    cbn [read_loop]. rewrite <- string_app_assoc.
    rewrite (split_blank_app _ (buffer ++ value) _ (Nat.le_refl _)).
    set (parts := split_blank (buffer ++ value)).
    set (left := last parts EmptyString).
    pose proof (split_blank_not_nil (left ++ String.concat EmptyString rest)) as Hne.
    rewrite removelast_app, last_app_r by exact Hne.
    rewrite send_parts_app.
    destruct (send_parts _ _ _ (removelast parts) state) as [chunks [state'|]];
      [|reflexivity].
    rewrite (IH left state') by apply (split_blank_last _ _ (Nat.le_refl _)).
    cbn [read_loop].
    assert (Hl : split_blank left = [left]) by apply (split_blank_last _ _ (Nat.le_refl _)).
    destruct (send_parts _ _ _ (removelast (split_blank (left ++ _))) state')
      as [chunks' [state''|]]; cbn [fst snd]; now rewrite ?app_assoc.
Qed.

(** The chunks written do not depend on how the network cut the body
    into reads: any sequence of reads gives what the one read of the whole
    text gives. *)
Theorem stream_callback_chunking (now : Z) (originalModel : string)
    (reads : list string) (done : bool) :
  stream_callback JSON_parse JSON_stringify Date_now now originalModel (Some (reads, done))
  = stream_callback JSON_parse JSON_stringify Date_now now originalModel
      (Some ([String.concat EmptyString reads], done)).
Proof.
  unfold stream_callback. f_equal. f_equal. now apply read_loop_joined.
Qed.

(** ** A body of well-formed events *)

Lemma prepend_line (l t : string) :
  single_line l = true ->
  split_blank (l ++ t)
  = match split_blank t with
    | p :: ps => (l ++ p) :: ps
    | [] => [l]
    end.
Proof.
  induction l as [|c l IH]; intros H.
  - change (EmptyString ++ t) with t.
    destruct (split_blank t) eqn:E; [now elim (split_blank_not_nil t) | reflexivity].
  - cbn [single_line] in H. apply andb_true_iff in H. destruct H as [H Hl].
    apply andb_true_iff in H. destruct H as [Hlf _]. apply negb_true_iff in Hlf.
    change ((String c l) ++ t) with (String c (l ++ t)).
    rewrite split_blank_cons by now left. rewrite (IH Hl).
    destruct (split_blank t); reflexivity.
Qed.

Lemma split_blank_body (lines : list string) (rest : string) :
  wire_frame lines = true ->
  split_blank (frame_body lines ++ String LF (String LF rest))
  = frame_body lines :: split_blank rest.
Proof.
  intros H. destruct lines as [|l lines]; [discriminate|].
  cbn [wire_frame] in H. revert l H.
  induction lines as [|l' lines IH]; intros l H.
  - cbn [forallb] in H. apply andb_true_iff in H. destruct H as [Hl _].
    unfold frame_body. cbn [map String.concat].
    rewrite (prepend_line _ _ (wire_value_single_line l Hl)).
    change (split_blank (String LF (String LF rest)))
      with (EmptyString :: split_blank rest).
    cbv iota. now rewrite string_app_nil_r.
  - cbn [forallb] in H. apply andb_true_iff in H. destruct H as [Hl H].
    specialize (IH l' H).
    unfold frame_body in *. cbn [map] in *.
    change (String.concat (String LF EmptyString)
              (data_line l :: data_line l' :: map data_line lines))
      with (data_line l ++ String LF EmptyString
            ++ String.concat (String LF EmptyString) (data_line l' :: map data_line lines)).
    rewrite !string_app_assoc.
    rewrite (prepend_line _ _ (wire_value_single_line l Hl)).
    change (String LF EmptyString
            ++ String.concat (String LF EmptyString) (data_line l' :: map data_line lines)
            ++ String LF (String LF rest))
      with (String LF
              (String.concat (String LF EmptyString) (data_line l' :: map data_line lines)
               ++ String LF (String LF rest))).
    rewrite split_blank_cons.
    + rewrite IH. reflexivity.
    + right. intros r E. destruct lines; discriminate.
Qed.

Lemma data_frame_body (lines : list string) :
  lines <> [] ->
  data_frame lines = frame_body lines ++ String LF (String LF EmptyString).
Proof.
  intros H. unfold data_frame, frame_body. destruct lines as [|l lines]; [contradiction|].
  clear H. revert l. induction lines as [|l' lines IH]; intros l.
  - cbn [map String.concat]. now rewrite !string_app_assoc.
  - cbn [map]. rewrite concat_empty_cons.
    change (String.concat (String LF EmptyString)
              (data_line l :: data_line l' :: map data_line lines))
      with (data_line l ++ String LF EmptyString
            ++ String.concat (String LF EmptyString) (data_line l' :: map data_line lines)).
    specialize (IH l'). cbn [map] in IH.
    rewrite !string_app_assoc. f_equal. f_equal. exact IH.
Qed.

Lemma split_blank_frames (frames : list (list string)) :
  forallb wire_frame frames = true ->
  split_blank (String.concat EmptyString (map data_frame frames))
  = (map frame_body frames ++ [EmptyString])%list.
Proof.
  induction frames as [|lines frames IH]; intros H; [reflexivity|].
  cbn [forallb] in H. apply andb_true_iff in H. destruct H as [Hl H].
  cbn [map]. rewrite concat_empty_cons.
  rewrite data_frame_body by (destruct lines; [discriminate | discriminate]).
  rewrite string_app_assoc. cbn [append].
  rewrite (split_blank_body lines _ Hl). cbn [app]. now rewrite (IH H).
Qed.

Lemma parseSSEChunk_frame (lines : list string) :
  wire_frame lines = true ->
  parseSSEChunk (frame_body lines ++ String LF (String LF EmptyString))
  = [data_event (String.concat (String LF EmptyString) lines)].
Proof.
  intros H. rewrite <- data_frame_body by (destruct lines; discriminate).
  unfold parseSSEChunk.
  assert (F : forallb wire_frame [lines] = true) by (cbn; now rewrite H).
  pose proof (split_lines_frames [lines] EmptyString F) as S.
  cbn [map String.concat flat_map] in S. rewrite string_app_nil_r, app_nil_r in S.
  rewrite S, fold_left_app, (fold_frame lines [] H). reflexivity.
Qed.

Lemma frame_body_not_blank (lines : list string) :
  lines <> [] -> nonempty (trim (frame_body lines)) = true.
Proof.
  intros H. destruct lines as [|l lines]; [contradiction|].
  unfold frame_body. cbn [map]. 
  assert (E : exists x, String.concat (String LF EmptyString)
                          (data_line l :: map data_line lines) = String "d" x).
  { destruct (map data_line lines); eexists; reflexivity. }
  destruct E as (x & ->). now apply trimEnd_nonempty.
Qed.

Lemma send_events_stream (events : list SSEParsedEvent) :
  forall state,
    fst (send_events JSON_parse JSON_stringify Date_now events state)
    = fst (transform_stream JSON_parse JSON_stringify Date_now events state).
Proof.
  induction events as [|e events IH]; intros state; [reflexivity|].
  cbn [send_events transform_stream].
  destruct (transformAntigravityEvent _ _ _ e state) as [[chunks| |] state'];
    cbn [fst]; try reflexivity.
  now rewrite IH.
Qed.

Lemma send_parts_frames (frames : list (list string)) :
  forallb wire_frame frames = true ->
  forall state,
    send_parts JSON_parse JSON_stringify Date_now (map frame_body frames) state
    = send_events JSON_parse JSON_stringify Date_now
        (map (fun lines => data_event (String.concat (String LF EmptyString) lines)) frames)
        state.
Proof.
  induction frames as [|lines frames IH]; intros H state; [reflexivity|].
  cbn [forallb] in H. apply andb_true_iff in H. destruct H as [Hl H].
  cbn [map send_parts send_events].
  rewrite frame_body_not_blank by (destruct lines; discriminate). cbn [negb].
  rewrite (parseSSEChunk_frame lines Hl). cbn [send_events].
  destruct (transformAntigravityEvent _ _ _ _ state) as [[chunks| |] state'];
    cbn [fst snd]; try reflexivity.
  rewrite app_nil_r, (IH H). reflexivity.
Qed.

(** End to end: when the body of the upstream response is a sequence of
    well-formed events, the route writes, however the body was cut into
    reads and whether or not the reader fails after the last event, the
    chunks that the transformer gives for the data of those events, in
    order, up to the first event that makes it throw, and then the closing
    marker. *)
Theorem stream_callback_data_frames (now : Z) (originalModel : string)
    (reads : list string) (done : bool) (frames : list (list string)) :
  forallb wire_frame frames = true ->
  String.concat EmptyString reads = String.concat EmptyString (map data_frame frames) ->
  stream_callback JSON_parse JSON_stringify Date_now now originalModel (Some (reads, done))
  = (map Data
       (fst (transform_stream JSON_parse JSON_stringify Date_now
               (map (fun lines => data_event (String.concat (String LF EmptyString) lines))
                  frames)
               (createTransformState now originalModel)))
     ++ [Done])%list.
Proof.
  intros H E. unfold stream_callback. f_equal. f_equal.
  rewrite read_loop_joined by reflexivity. rewrite E.
  cbn [read_loop append]. rewrite (split_blank_frames frames H).
  rewrite removelast_last, last_last, (send_parts_frames frames H).
  rewrite <- send_events_stream.
  destruct (send_events _ _ _ _ _) as [chunks [state'|]]; cbn [fst]; [|reflexivity].
  cbn [trim trimStart trimEnd nonempty]. rewrite andb_false_r. now rewrite app_nil_r.
Qed.
End StreamLoop.

(* ================================================================== *)
(** * Properties of the response transformer *)
(* ================================================================== *)

Section ResponseProperties.
Variable JSON_parse : string -> option JSON.
Variable JSON_stringify : option JSON -> option string.
Variable Date_now : nat -> Z.

(** ** Rendering the texts *)

Lemma concat_empty_app (a b : list string) :
  String.concat EmptyString (a ++ b)
  = String.concat EmptyString a ++ String.concat EmptyString b.
Proof.
  induction a as [|x a IH]; [reflexivity|].
  cbn [app]. now rewrite !concat_empty_cons, IH, string_app_assoc.
Qed.

Lemma mapM_app (A B : Type) (g : A -> Completion B) (a b : list A) :
  mapM g (a ++ b) = xs <- mapM g a ;; ys <- mapM g b ;; Normal (xs ++ ys)%list.
Proof.
  induction a as [|x a IH]; cbn [app mapM bind].
  - now destruct (mapM g b).
  - destruct (g x) as [y| |]; cbn [bind]; try reflexivity.
    rewrite IH. destruct (mapM g a) as [xs| |]; cbn [bind]; try reflexivity.
    now destruct (mapM g b).
Qed.

Lemma rendered_app (a b : list JSON) :
  rendered (a ++ b) = x <- rendered a ;; y <- rendered b ;; Normal (x ++ y).
Proof.
  unfold rendered. rewrite mapM_app.
  destruct (mapM to_String a) as [xs| |]; cbn [bind]; try reflexivity.
  destruct (mapM to_String b) as [ys| |]; cbn [bind]; try reflexivity.
  now rewrite concat_empty_app.
Qed.

Lemma rendered_fuel (values : list JSON) : rendered values <> OutOfFuel.
Proof.
  unfold rendered.
  pose proof (mapM_fuel _ _ to_String values (fun x _ => to_String_fuel x)) as H.
  destruct (mapM to_String values); cbn [bind]; [discriminate | discriminate | contradiction].
Qed.

Lemma rendered_part (part : JSON) : rendered (part_contents part) = text_of_part part.
Proof.
  unfold part_contents, text_of_part, rendered.
  destruct (get part "text") as [text|]; [|reflexivity].
  destruct (truthy text); [|reflexivity].
  cbn [mapM]. destruct (to_String text); reflexivity.
Qed.

Lemma text_of_part_fuel (part : JSON) : text_of_part part <> OutOfFuel.
Proof. rewrite <- rendered_part. apply rendered_fuel. Qed.

Lemma rendered_parts_Throw (parts : list JSON) (part : JSON) :
  In part parts -> text_of_part part = Throw ->
  rendered (flat_map part_contents parts) = Throw.
Proof.
  intros Hin Hp. induction parts as [|p parts IH]; [destruct Hin|].
  cbn [flat_map]. rewrite rendered_app, rendered_part.
  destruct Hin as [-> | Hin]; [now rewrite Hp|].
  pose proof (text_of_part_fuel p) as Hf.
  destruct (text_of_part p); cbn [bind]; [|reflexivity | contradiction].
  now rewrite (IH Hin).
Qed.

Lemma rendered_parts_Normal (parts : list JSON) :
  (forall part, In part parts -> text_of_part part <> Throw) ->
  exists text, rendered (flat_map part_contents parts) = Normal text.
Proof.
  induction parts as [|p parts IH]; intros H; [now exists EmptyString|].
  cbn [flat_map]. rewrite rendered_app, rendered_part.
  pose proof (text_of_part_fuel p) as Hf.
  pose proof (H p (or_introl eq_refl)) as Ht.
  destruct (text_of_part p) as [s| |]; [|contradiction | contradiction].
  destruct IH as (text & ->); [intros part Hin; apply H; now right|].
  cbn [bind]. eauto.
Qed.

(** ** The loop over the parts *)

Lemma collect_parts_cons (part : JSON) (rest : list JSON) (content : string)
    (calls : list ResponseToolCall) :
  part <> JNull ->
  collect_parts JSON_stringify Date_now (part :: rest) content calls
  = s <- text_of_part part ;;
    collect_parts JSON_stringify Date_now rest (content ++ s)
      (if part_has_call part
       then (calls
             ++ [{| rtc_id := "call_" ++ render_Z (Date_now (List.length calls))
                              ++ "_" ++ nat_key (List.length calls);
                    rtc_name := fst (part_call JSON_stringify part);
                    rtc_arguments := snd (part_call JSON_stringify part) |}])%list
       else calls).
Proof.
  intros Hp. cbn [collect_parts]. unfold text_of_part, part_has_call, part_call.
  destruct part; try contradiction;
    (destruct (get _ "text") as [text|];
     [destruct (truthy text); [destruct (to_String text)|]|];
     (destruct (get _ "functionCall") as [fc|]; [destruct (truthy fc)|]);
     cbn [bind]; rewrite ?string_app_nil_r; reflexivity).
Qed.

Lemma collect_parts_Normal (parts : list JSON) :
  forall content calls content' calls',
    collect_parts JSON_stringify Date_now parts content calls = Normal (content', calls') ->
    ~ In JNull parts
    /\ (exists text,
          rendered (flat_map part_contents parts) = Normal text
          /\ content' = content ++ text)
    /\ map (fun c => (rtc_name c, rtc_arguments c)) calls'
       = (map (fun c => (rtc_name c, rtc_arguments c)) calls
          ++ map (part_call JSON_stringify) (filter part_has_call parts))%list
    /\ (map rtc_id calls = map (fun k => "call_" ++ render_Z (Date_now k)
                                         ++ "_" ++ nat_key k)
                             (seq 0 (List.length calls)) ->
        map rtc_id calls' = map (fun k => "call_" ++ render_Z (Date_now k)
                                          ++ "_" ++ nat_key k)
                              (seq 0 (List.length calls'))).
Proof.
  induction parts as [|part parts IH]; intros content calls content' calls' H.
  - injection H as <- <-. cbn. rewrite app_nil_r.
    split; [intros []|]. split; [exists EmptyString; now rewrite string_app_nil_r|].
    split; [reflexivity | intros Hi; exact Hi].
  - assert (Hp : part <> JNull) by (intros ->; discriminate).
    rewrite collect_parts_cons in H by exact Hp.
    apply bind_Normal in H. destruct H as (s & Hs & H).
    apply IH in H. destruct H as (Hn & (text & Ht & Hc) & Hcalls & Hids).
    split; [intros [E | E]; [now elim Hp | contradiction]|].
    split.
    { exists (s ++ text). cbn [flat_map]. rewrite rendered_app, rendered_part, Hs, Ht.
      cbn [bind]. split; [reflexivity|]. now rewrite Hc, string_app_assoc. }
    split.
    + rewrite Hcalls. cbn [filter]. destruct (part_has_call part); [|reflexivity].
      rewrite map_app. cbn [map rtc_name rtc_arguments]. rewrite <- app_assoc.
      cbn [app]. now destruct (part_call JSON_stringify part).
    + intros Hi. apply Hids. destruct (part_has_call part); [|exact Hi].
      rewrite map_app, length_app, seq_app, map_app, Hi. reflexivity.
Qed.

Lemma collect_parts_Throw (parts : list JSON) :
  forall content calls,
    In JNull parts \/ (exists part, In part parts /\ text_of_part part = Throw) ->
    collect_parts JSON_stringify Date_now parts content calls = Throw.
Proof.
  induction parts as [|part parts IH]; intros content calls H;
    [destruct H as [[] | (p & [] & _)]|].
  destruct part as [| b | num | s | items | fs] eqn:Ep; [reflexivity | | | | |];
    rewrite <- Ep in *;
    (rewrite collect_parts_cons by (rewrite Ep; discriminate);
     pose proof (text_of_part_fuel part) as Hf;
     destruct (text_of_part part) as [t| |] eqn:Et; cbn [bind];
     [|reflexivity | contradiction];
     apply IH;
     destruct H as [[H | H] | (p & [<- | Hin] & Hp)];
     [rewrite Ep in H; discriminate | now left | congruence | right; now exists p]).
Qed.

Lemma collect_parts_returns (parts : list JSON) :
  forall content calls,
    ~ In JNull parts ->
    (forall part, In part parts -> text_of_part part <> Throw) ->
    exists st, collect_parts JSON_stringify Date_now parts content calls = Normal st.
Proof.
  induction parts as [|part parts IH]; intros content calls H Ht; [eexists; reflexivity|].
  rewrite collect_parts_cons by (intros ->; apply H; now left).
  pose proof (text_of_part_fuel part) as Hf.
  pose proof (Ht part (or_introl eq_refl)) as Hp.
  destruct (text_of_part part) as [t| |]; [|contradiction | contradiction].
  cbn [bind]. apply IH.
  - intros E. apply H. now right.
  - intros p Hin. apply Ht. now right.
Qed.

Lemma JSON_is_null (v : JSON) : {v = JNull} + {v <> JNull}.
Proof. destruct v; [now left | | | | |]; right; discriminate. Qed.

Lemma In_JNull_dec (l : list JSON) : {In JNull l} + {~ In JNull l}.
Proof.
  induction l as [|x l IH]; [now right|].
  destruct (JSON_is_null x) as [-> | Hx]; [left; now left|].
  destruct IH as [H | H]; [left; now right|].
  right. intros [E | E]; [now elim Hx | contradiction].
Qed.

(** Whether some part stops the loop is decided by looking at them. *)
Lemma parts_fail_dec (l : list JSON) :
  {In JNull l \/ exists part, In part l /\ text_of_part part = Throw}
  + {~ In JNull l /\ forall part, In part l -> text_of_part part <> Throw}.
Proof.
  induction l as [|x l IH]; [right; split; [tauto | intros p []]|].
  destruct (JSON_is_null x) as [-> | Hx]; [left; left; now left|].
  destruct (text_of_part x) as [t| |] eqn:Et.
  - destruct IH as [H | [Hn Ht]].
    + left. destruct H as [H | (p & Hin & Hp)]; [left; now right|].
      right. exists p. split; [now right | exact Hp].
    + right. split.
      * intros [E | E]; [now elim Hx | contradiction].
      * intros p [<- | Hin]; [congruence | now apply Ht].
  - left. right. exists x. split; [now left | exact Et].
  - now elim (text_of_part_fuel x).
Qed.

(** ** When [transformResponse] fails *)

(** [transformResponse] throws in four cases only: the response is
    [null]; the [parts] of the first candidate are truthy but neither an
    array nor a string; one of the parts is [null]; the truthy [text] of
    one of the parts has no string form.  In every other case it returns
    a response, whatever else the upstream body holds. *)
Theorem transformResponse_throws (antigravityResponse : JSON) (model : string) :
  (transformResponse JSON_stringify Date_now antigravityResponse model = Throw
   <-> antigravityResponse = JNull
       \/ exists candidate parts,
            first_candidate antigravityResponse = Normal candidate
            /\ candidate_parts candidate = Some parts
            /\ truthy parts = true
            /\ (iterate parts = Throw
                \/ exists l,
                     iterate parts = Normal l
                     /\ (In JNull l
                         \/ exists part, In part l /\ text_of_part part = Throw)))
  /\ transformResponse JSON_stringify Date_now antigravityResponse model <> OutOfFuel.
Proof.
  unfold transformResponse, candidate_parts.
  assert (F : first_candidate antigravityResponse = Throw /\ antigravityResponse = JNull
              \/ exists c, first_candidate antigravityResponse = Normal c
                           /\ antigravityResponse <> JNull).
  { unfold first_candidate. destruct antigravityResponse; [left; now split | | | | |];
      right; cbn [get_or_throw bind];
      match goal with
      | |- context [get ?i "candidates"] =>
          destruct (get i "candidates") as [[| | | | |]|]
      end; eexists; (split; [reflexivity | discriminate]). }
  destruct F as [[-> ->] | (c & -> & Hr)].
  - cbn [bind]. split; [|discriminate]. split; [now left | reflexivity].
  - cbn [bind].
    assert (R : forall P : Prop,
               ((forall p, nullish_get (nullish_get c "content") "parts" = Some p ->
                           truthy p = true ->
                           (iterate p = Throw
                            \/ exists l,
                                 iterate p = Normal l
                                 /\ (In JNull l
                                     \/ exists part,
                                          In part l /\ text_of_part part = Throw)) -> P) ->
                (antigravityResponse = JNull
                 \/ exists candidate parts,
                      Normal c = Normal candidate
                      /\ nullish_get (nullish_get candidate "content") "parts" = Some parts
                      /\ truthy parts = true
                      /\ (iterate parts = Throw
                          \/ exists l,
                               iterate parts = Normal l
                               /\ (In JNull l
                                   \/ exists part,
                                        In part l /\ text_of_part part = Throw))) -> P)).
    { intros P HP [E | (c0 & p0 & Hc & Hp & Ht & Hi)]; [contradiction|].
      injection Hc as <-. exact (HP p0 Hp Ht Hi). }
    destruct (nullish_get (nullish_get c "content") "parts") as [p|] eqn:Ep.
    + destruct (truthy p) eqn:Tp.
      * destruct (iterate p) as [l| |] eqn:Il.
        -- cbn [bind].
           destruct (collect_parts JSON_stringify Date_now l EmptyString []) as [st| |] eqn:Ec.
           ++ cbn [bind]. split; [|discriminate]. split; [discriminate|].
              apply R. intros p0 [= <-] _ [Hi | (l0 & Hl0 & Hin)].
              ** rewrite Il in Hi. discriminate.
              ** rewrite Il in Hl0. injection Hl0 as <-.
                 rewrite (collect_parts_Throw l _ _ Hin) in Ec. discriminate.
           ++ cbn [bind]. split; [|discriminate]. split; [|reflexivity]. intros _. right.
              exists c, p. repeat split; auto. right. exists l. split; [exact Il|].
              destruct (parts_fail_dec l) as [Hin | [Hout Ht]]; [exact Hin|].
              destruct (collect_parts_returns l EmptyString [] Hout Ht) as (st & Hst).
              rewrite Hst in Ec. discriminate.
           ++ exfalso.
              destruct (parts_fail_dec l) as [Hin | [Hout Ht]].
              ** rewrite (collect_parts_Throw l _ _ Hin) in Ec. discriminate.
              ** destruct (collect_parts_returns l EmptyString [] Hout Ht) as (st & Hst).
                 rewrite Hst in Ec. discriminate.
        -- cbn [bind]. split; [|discriminate]. split; [|reflexivity]. intros _. right.
           exists c, p. repeat split; auto.
        -- destruct p; discriminate.
      * cbn [bind collect_parts]. split; [|discriminate]. split; [discriminate|].
        apply R. intros p0 [= <-] T _. congruence.
    + cbn [bind collect_parts]. split; [|discriminate]. split; [discriminate|].
      apply R. intros p0 Hp _ _. discriminate.
Qed.

(** ** The two response transformers on the same payload *)

Lemma streamed_contents_app (a b : list OpenAIStreamChunk) :
  streamed_contents (a ++ b) = (streamed_contents a ++ streamed_contents b)%list.
Proof. unfold streamed_contents. now rewrite flat_map_app. Qed.

Lemma streamed_calls_app (a b : list OpenAIStreamChunk) :
  streamed_calls (a ++ b) = (streamed_calls a ++ streamed_calls b)%list.
Proof. unfold streamed_calls. now rewrite flat_map_app. Qed.

Lemma part_chunks_contents (part : JSON) (state : TransformState) :
  streamed_contents (part_chunks JSON_stringify Date_now part state) = part_contents part.
Proof.
  unfold part_chunks, part_contents.
  destruct (get part "text") as [text|]; [destruct (truthy text)|];
    (destruct (get part "functionCall") as [fc|]; [destruct (truthy fc)|]);
    reflexivity.
Qed.

Lemma part_chunks_calls (part : JSON) (state : TransformState) :
  streamed_calls (part_chunks JSON_stringify Date_now part state)
  = if part_has_call part then [part_call JSON_stringify part] else [].
Proof.
  unfold part_chunks, part_has_call, part_call.
  destruct (get part "text") as [text|]; [destruct (truthy text)|];
    (destruct (get part "functionCall") as [fc|]; [destruct (truthy fc)|]);
    reflexivity.
Qed.

Lemma process_parts_Normal (parts : list JSON) :
  forall state chunks out,
    fst (process_parts JSON_stringify Date_now parts state chunks) = Normal out ->
    streamed_contents out
    = (streamed_contents chunks ++ flat_map part_contents parts)%list
    /\ streamed_calls out
       = (streamed_calls chunks
          ++ map (part_call JSON_stringify) (filter part_has_call parts))%list.
Proof.
  induction parts as [|part parts IH]; intros state chunks out H.
  - injection H as <-. cbn. now rewrite !app_nil_r.
  - assert (Hp : part <> JNull) by (intros ->; discriminate).
    rewrite process_parts_cons in H by exact Hp.
    apply IH in H. destruct H as [Ht Hc]. split.
    + rewrite Ht, streamed_contents_app, part_chunks_contents. cbn [flat_map].
      now rewrite app_assoc.
    + rewrite Hc, streamed_calls_app, part_chunks_calls, <- app_assoc. cbn [filter].
      now destruct (part_has_call part).
Qed.

Lemma process_parts_Throw (parts : list JSON) :
  forall state chunks,
    In JNull parts ->
    fst (process_parts JSON_stringify Date_now parts state chunks) = Throw.
Proof.
  induction parts as [|part parts IH]; intros state chunks H; [destruct H|].
  destruct part as [| b | num | s | items | fs] eqn:Ep; [reflexivity | | | | |];
    rewrite <- Ep in *;
    (rewrite process_parts_cons by (rewrite Ep; discriminate); apply IH;
     destruct H as [H | H]; [rewrite Ep in H; discriminate | exact H]).
Qed.

Lemma process_parts_returns (parts : list JSON) :
  forall state chunks,
    ~ In JNull parts ->
    exists out, fst (process_parts JSON_stringify Date_now parts state chunks) = Normal out.
Proof.
  induction parts as [|part parts IH]; intros state chunks H; [eexists; reflexivity|].
  rewrite process_parts_cons by (intros ->; apply H; now left).
  apply IH. intros E. apply H. now right.
Qed.

(** The three ways in which the two results go together. *)
Lemma agree_throws : responses_agree Throw Throw.
Proof. repeat split; [discriminate | discriminate]. Qed.

Lemma agree_returns (chunks : list OpenAIStreamChunk) (out : OpenAIResponse) :
  streamed_text chunks = Normal (response_text out) ->
  streamed_calls chunks = response_calls out ->
  responses_agree (Normal chunks) (Normal out).
Proof.
  intros Ht Hc. split; [discriminate|]. split; [|discriminate].
  intros out' [= <-]. now exists chunks.
Qed.

Lemma agree_text_fails (chunks : list OpenAIStreamChunk) :
  streamed_text chunks = Throw -> responses_agree (Normal chunks) Throw.
Proof.
  intros Ht. split; [discriminate|]. split; [discriminate|].
  now intros chunks' [= <-] _.
Qed.

(** Upstream answers with the same body whether the request streams or
    not.  On a payload that the streaming transformer receives in one
    event, it returns whenever [transformResponse] returns on that
    payload, and then its chunks carry, rendered and joined, the text of
    the message of [transformResponse], and the same tool calls (names and
    arguments) in the same order.  [transformResponse] alone throws on a
    text that has no string form, which the streaming transformer hands on
    as it is. *)
Theorem transformResponse_agrees_with_stream (e : SSEParsedEvent) (d : string)
    (payload : JSON) (state : TransformState) (model : string) :
  data e = Some d ->
  nonempty d = true ->
  d <> "[DONE]" ->
  JSON_parse d = Some payload ->
  responses_agree
    (fst (transformAntigravityEvent JSON_parse JSON_stringify Date_now e state))
    (transformResponse JSON_stringify Date_now payload model).
Proof.
  intros Hd Hn Hdone Hp.
  unfold transformAntigravityEvent, transformResponse. rewrite Hd, Hn.
  apply String.eqb_neq in Hdone. rewrite Hdone. cbn [negb orb]. rewrite Hp.
  destruct (first_candidate payload) as [c| |] eqn:Ec; cbn [bind fst];
    [|apply agree_throws
     |exfalso; unfold first_candidate in Ec; destruct payload; try discriminate;
      cbn [get_or_throw bind] in Ec;
      match type of Ec with
      | context [get ?i "candidates"] => destruct (get i "candidates") as [[| | | | |]|]
      end; discriminate].
  assert (Empty : forall fr,
    responses_agree (Normal (@nil OpenAIStreamChunk))
      (Normal {| response_id := "chatcmpl-" ++ render_Z (Date_now 0);
                 response_created := (Date_now 1 / 1000)%Z;
                 response_model := model;
                 message_content := None;
                 message_tool_calls := None;
                 response_finish_reason := fr |})).
  { intros fr. apply agree_returns; reflexivity. }
  destruct c as [candidate|]; [|cbn [nullish_get bind collect_parts fst snd nonempty];
                                apply Empty].
  cbn [nullish_get].
  destruct (truthy candidate) eqn:Tc; cbn [negb fst].
  2:{ rewrite (falsy_get candidate "content" Tc eq_refl).
      cbn [nullish_get bind collect_parts fst snd nonempty]. apply Empty. }
  set (role := if hasEmittedRole state then []
               else [make_chunk state role_delta None]).
  assert (Hrole : streamed_contents role = [] \/ streamed_contents role = [JStr EmptyString]).
  { subst role. destruct (hasEmittedRole state); [now left | now right]. }
  assert (Rc : streamed_calls role = []).
  { subst role. now destruct (hasEmittedRole state). }
  assert (Rt : forall values, rendered (streamed_contents role ++ values) = rendered values).
  { intros values. rewrite rendered_app.
    destruct Hrole as [-> | ->]; cbn [rendered mapM to_String bind String.concat];
      now destruct (rendered values). }
  (* the chunk of the finish reason adds no text and no call *)
  assert (Fin : forall (chunks : list OpenAIStreamChunk) (s : TransformState)
                       (whole : Completion OpenAIResponse),
    (forall tail, streamed_contents tail = [] -> streamed_calls tail = [] ->
                  responses_agree (Normal (chunks ++ tail)%list) whole) ->
    responses_agree
      (fst match get candidate "finishReason" with
           | Some finishReason =>
               if truthy finishReason
               then (Normal (chunks ++ [make_chunk s empty_delta
                                          (Streaming.mapFinishReason (Some finishReason))])%list,
                     s)
               else (Normal chunks, s)
           | None => (Normal chunks, s)
           end)
      whole).
  { intros chunks s whole H.
    destruct (get candidate "finishReason") as [fr|]; [destruct (truthy fr)|]; cbn [fst].
    - now apply H.
    - rewrite <- (app_nil_r chunks). now apply H.
    - rewrite <- (app_nil_r chunks). now apply H. }
  (* the response for a content and a list of calls *)
  assert (Whole : forall (chunks : list OpenAIStreamChunk) content calls,
    streamed_text chunks = Normal content ->
    streamed_calls chunks = map (fun c => (rtc_name c, rtc_arguments c)) calls ->
    forall tail, streamed_contents tail = [] -> streamed_calls tail = [] ->
    responses_agree (Normal (chunks ++ tail)%list)
      (Normal {| response_id := "chatcmpl-" ++ render_Z (Date_now (List.length calls));
                 response_created := (Date_now (S (List.length calls)) / 1000)%Z;
                 response_model := model;
                 message_content := if nonempty content then Some content else None;
                 message_tool_calls := match calls with
                                       | [] => None
                                       | _ :: _ => Some calls
                                       end;
                 response_finish_reason :=
                   ResponseTransformer.mapFinishReason (get candidate "finishReason") |})).
  { intros chunks content calls Ht Hc tail Tt Tc'. apply agree_returns.
    - unfold streamed_text in *. rewrite streamed_contents_app, Tt, app_nil_r, Ht.
      unfold response_text. cbn [message_content]. now destruct content.
    - rewrite streamed_calls_app, Tc', app_nil_r, Hc.
      unfold response_calls. cbn [message_tool_calls]. now destruct calls. }
  assert (Whole0 := Whole role EmptyString []).
  cbn [nonempty List.length map] in Whole0.
  assert (Fin0 : forall s,
    responses_agree
      (fst match get candidate "finishReason" with
           | Some finishReason =>
               if truthy finishReason
               then (Normal (role ++ [make_chunk s empty_delta
                                        (Streaming.mapFinishReason (Some finishReason))])%list,
                     s)
               else (Normal role, s)
           | None => (Normal role, s)
           end)
      (Normal {| response_id := "chatcmpl-" ++ render_Z (Date_now 0);
                 response_created := (Date_now 1 / 1000)%Z;
                 response_model := model;
                 message_content := None;
                 message_tool_calls := None;
                 response_finish_reason :=
                   ResponseTransformer.mapFinishReason (get candidate "finishReason") |})).
  { intros s. apply Fin. apply Whole0; [|exact Rc].
    unfold streamed_text. rewrite <- (app_nil_r (streamed_contents role)).
    now rewrite Rt. }
  destruct (get candidate "content") as [content|] eqn:Econtent;
    [|cbn [nullish_get bind collect_parts fst snd nonempty List.length]; apply Fin0].
  cbn [nullish_get].
  destruct (truthy content) eqn:Tcontent.
  2:{ rewrite (falsy_get content "parts" Tcontent eq_refl).
      cbn [bind collect_parts fst snd nonempty List.length]. apply Fin0. }
  destruct (get content "parts") as [parts|] eqn:Eparts;
    [|cbn [bind collect_parts fst snd nonempty List.length]; apply Fin0].
  destruct (truthy parts) eqn:Tparts;
    [|cbn [bind collect_parts fst snd nonempty List.length]; apply Fin0].
  destruct (iterate parts) as [l| |] eqn:Il;
    [|cbn [bind fst]; apply agree_throws
     |destruct parts; discriminate].
  cbn [bind].
  destruct (In_JNull_dec l) as [Hnull | Hnull].
  - rewrite (collect_parts_Throw l _ _ (or_introl Hnull)). cbn [bind].
    pose proof (process_parts_Throw l (set_hasEmittedRole state) role Hnull) as Hs.
    destruct (process_parts JSON_stringify Date_now l (set_hasEmittedRole state) role)
      as [r s']. cbn [fst] in Hs. subst r. cbn [fst]. apply agree_throws.
  - destruct (process_parts_returns l (set_hasEmittedRole state) role Hnull) as (out & Hs).
    pose proof (process_parts_Normal l _ _ _ Hs) as [Ht Hcalls].
    destruct (process_parts JSON_stringify Date_now l (set_hasEmittedRole state) role)
      as [r s']. cbn [fst] in Hs. subst r. cbn [fst snd].
    rewrite Rc in Hcalls. cbn [app] in Hcalls.
    destruct (collect_parts JSON_stringify Date_now l EmptyString [])
      as [[content' calls]| |] eqn:Ecol; cbn [bind fst snd].
    + apply collect_parts_Normal in Ecol.
      destruct Ecol as (_ & (text & Hr & Hc) & Hnames & _).
      cbn [map app String.append] in Hnames, Hc. subst content'.
      apply Fin. apply Whole.
      * unfold streamed_text. now rewrite Ht, Rt.
      * now rewrite Hcalls, Hnames.
    + apply Fin. intros tail Tt _. apply agree_text_fails.
      unfold streamed_text. rewrite streamed_contents_app, Tt, app_nil_r, Ht, Rt.
      destruct (parts_fail_dec l) as [[Hin | (part & Hin & Hpt)] | [_ Hok]].
      * contradiction.
      * exact (rendered_parts_Throw l part Hin Hpt).
      * destruct (collect_parts_returns l EmptyString [] Hnull Hok) as (st & Hst).
        rewrite Hst in Ecol. discriminate.
    + exfalso.
      destruct (parts_fail_dec l) as [Hf | [_ Hok]].
      * rewrite (collect_parts_Throw l _ _ Hf) in Ecol. discriminate.
      * destruct (collect_parts_returns l EmptyString [] Hnull Hok) as (st & Hst).
        rewrite Hst in Ecol. discriminate.
Qed.
End ResponseProperties.

(* ================================================================== *)
(** * The ids of the tool calls *)
(* ================================================================== *)

(** The decimal rendering of an index holds no underscore, and tells the
    index. *)
Lemma string_of_uint_no_underscore (d : Decimal.uint) (a b : string) :
  NilEmpty.string_of_uint d <> a ++ String "_" b.
Proof.
  revert a.
  induction d as [|d IH|d IH|d IH|d IH|d IH|d IH|d IH|d IH|d IH|d IH]; intros a;
    destruct a as [|c a]; cbn; try discriminate; intros [= _ E]; exact (IH a E).
Qed.

Lemma nat_key_no_underscore (i : nat) (a b : string) :
  nat_key i <> a ++ String "_" b.
Proof.
  unfold nat_key, NilZero.string_of_uint.
  destruct (Nat.to_uint i); try apply string_of_uint_no_underscore.
  destruct a as [|c [|c' a]]; discriminate.
Qed.

Lemma to_uint_not_Nil (i : nat) : Nat.to_uint i <> Decimal.Nil.
Proof.
  intros E. pose proof (Unsigned.of_to i) as H. rewrite E in H. cbn in H. subst i.
  discriminate.
Qed.

Lemma nat_key_inj (i j : nat) : nat_key i = nat_key j -> i = j.
Proof.
  unfold nat_key. intros E.
  pose proof (NilZero.usu _ (to_uint_not_Nil i)) as Hi.
  pose proof (NilZero.usu _ (to_uint_not_Nil j)) as Hj.
  rewrite E, Hj in Hi. injection Hi as Hi. symmetry. now apply Unsigned.to_uint_inj.
Qed.

Lemma last_underscore (x y k k' : string) :
  (forall a b, k <> a ++ String "_" b) ->
  (forall a b, k' <> a ++ String "_" b) ->
  x ++ String "_" k = y ++ String "_" k' -> k = k'.
Proof.
  intros Hk Hk'. revert y. induction x as [|c x IH]; intros y; destruct y as [|c' y];
    cbn [String.append].
  - now intros [= E].
  - intros [= _ E]. now elim (Hk y k').
  - intros [= _ E]. symmetry in E. now elim (Hk' x k).
  - intros [= _ E]. exact (IH y E).
Qed.

Lemma tool_call_id_inj (t t' : Z) (k k' : nat) :
  tool_call_id t k = tool_call_id t' k' -> k = k'.
Proof.
  unfold tool_call_id. intros E. apply nat_key_inj.
  rewrite <- (string_app_assoc "call_" (render_Z t)),
    <- (string_app_assoc "call_" (render_Z t')) in E.
  apply (last_underscore ("call_" ++ render_Z t) ("call_" ++ render_Z t'));
    [apply nat_key_no_underscore | apply nat_key_no_underscore | exact E].
Qed.

(** Ids that end with distinct indices are distinct. *)
Lemma ids_NoDup (ids : list string) (indices : list nat) :
  Forall2 (fun id k => exists t, id = tool_call_id t k) ids indices ->
  NoDup indices -> NoDup ids.
Proof.
  induction 1 as [|id k ids indices (t & ->) F IH]; intros N; [constructor|].
  inversion N as [|? ? Hk N']; subst. constructor; [|now apply IH].
  intros Hin. apply Hk. clear - Hin F.
  induction F as [|id' k' ids indices (t' & ->) F IH]; [destruct Hin|].
  destruct Hin as [E | Hin]; [left; symmetry; exact (tool_call_id_inj _ _ _ _ (eq_sym E))
                             |right; now apply IH].
Qed.

Section CallIds.
Variable JSON_parse : string -> option JSON.
Variable JSON_stringify : option JSON -> option string.
Variable Date_now : nat -> Z.

Lemma tool_ids_app (a b : list OpenAIStreamChunk) :
  tool_ids (a ++ b) = (tool_ids a ++ tool_ids b)%list.
Proof. unfold tool_ids. now rewrite flat_map_app. Qed.

Lemma emits_tool_ids (s s' : TransformState) (m : list OpenAIStreamChunk) :
  emits s m s' ->
  Forall2 (fun id k => exists t, id = tool_call_id t k)
    (tool_ids m) (seq (toolCallIndex s) (List.length (tool_ids m))).
Proof.
  induction 1 as [s | s s' m _ IH | s s' sig m _ IH | s s' d r m Hd _ IH
                 | s s' t call m Hc Hi _ IH].
  - constructor.
  - exact IH.
  - exact IH.
  - unfold tool_ids in *. cbn [flat_map make_chunk delta]. rewrite Hd. exact IH.
  - unfold tool_ids in *. cbn [flat_map make_chunk delta tool_calls_delta
      delta_tool_calls map app List.length seq].
    cbn [incr_toolCallIndex toolCallIndex] in IH.
    constructor; [exists t; exact Hi | exact IH].
Qed.

(** Within one stream no two tool calls carry the same id, whatever the
    clock reads: the index that ends the id grows with every call, from
    one event to the next too. *)
Theorem transform_stream_call_ids_distinct (events : list SSEParsedEvent)
    (state : TransformState) :
  NoDup (tool_ids (fst (transform_stream JSON_parse JSON_stringify Date_now events state))).
Proof.
  destruct (transform_stream_emits JSON_parse JSON_stringify Date_now events state)
    as (lost & H).
  apply emits_tool_ids in H. apply ids_NoDup in H; [|apply seq_NoDup].
  rewrite tool_ids_app in H. now apply NoDup_app_remove_r in H.
Qed.

(** The tool calls of a response carry pairwise distinct ids, whatever
    the clock reads; a response without tool calls has no [tool_calls]
    list rather than an empty one, and a response without text has the
    content [null] rather than an empty string. *)
Theorem transformResponse_call_ids_distinct (antigravityResponse : JSON) (model : string)
    (out : OpenAIResponse) :
  transformResponse JSON_stringify Date_now antigravityResponse model = Normal out ->
  match message_tool_calls out with
  | Some calls => calls <> [] /\ NoDup (map rtc_id calls)
  | None => True
  end
  /\ message_content out <> Some EmptyString.
Proof.
  unfold transformResponse.
  destruct (first_candidate antigravityResponse) as [c| |]; cbn [bind]; try discriminate.
  destruct (match nullish_get (nullish_get c "content") "parts" with
            | Some parts => if truthy parts then iterate parts else Normal []
            | None => Normal []
            end) as [l| |]; cbn [bind]; try discriminate.
  destruct (collect_parts JSON_stringify Date_now l EmptyString []) as [[content calls]| |]
    eqn:Ec; cbn [bind fst snd]; try discriminate.
  intros [= <-]. cbn [message_tool_calls message_content]. split.
  - destruct calls as [|call calls]; [exact I|]. split; [discriminate|].
    apply collect_parts_Normal in Ec. destruct Ec as (_ & _ & _ & Hids).
    specialize (Hids eq_refl).
    apply (ids_NoDup _ (seq 0 (List.length (call :: calls)))); [|apply seq_NoDup].
    rewrite Hids. clear. induction (seq 0 (List.length (call :: calls))) as [|k ks IH];
      cbn [map]; constructor; [eexists; reflexivity | exact IH].
  - destruct content; cbn [nonempty]; discriminate.
Qed.
End CallIds.

(* ================================================================== *)
(** * Properties of the model families *)
(* ================================================================== *)

Lemma prefix_app_l (p q s : string) : prefix (p ++ q) s = true -> prefix p s = true.
Proof.
  revert s. induction p as [|c p IH]; intros s; [now destruct s|].
  destruct s as [|c' s]; cbn [String.append prefix]; [discriminate|].
  destruct (ascii_dec c c'); [apply IH | discriminate].
Qed.

Lemma includes_app_l (s p q : string) : includes s (p ++ q) = true -> includes s p = true.
Proof.
  induction s as [|c s IH]; cbn [includes]; intros H; apply orb_true_iff in H;
    apply orb_true_iff; destruct H as [H | H].
  - left. exact (prefix_app_l _ _ _ H).
  - discriminate.
  - left. exact (prefix_app_l _ _ _ H).
  - right. exact (IH H).
Qed.

(** The family of a model depends on three words only, read in the
    lower-cased id: an id with "claude" is of the Claude family whatever
    else it holds; otherwise an id with "gemini" is of a Gemini family,
    the flash one when it holds "flash"; every other id is unknown.  The
    branch for "gemini-3" and "gemini-2.5-pro" changes nothing. *)
Theorem getModelFamily_by_words (modelId : string) :
  QuotaProtection.getModelFamily modelId
  = if includes (toLowerCase modelId) "claude" then QuotaProtection.claude
    else if includes (toLowerCase modelId) "gemini" then
      if includes (toLowerCase modelId) "flash" then QuotaProtection.gemini_flash
      else QuotaProtection.gemini_pro
    else QuotaProtection.unknown.
Proof.
  unfold QuotaProtection.getModelFamily.
  destruct (includes (toLowerCase modelId) "claude"); [reflexivity|].
  destruct (includes (toLowerCase modelId) "gemini") eqn:G.
  - now destruct (includes (toLowerCase modelId) "gemini-3"
                  || includes (toLowerCase modelId) "gemini-2.5-pro").
  - destruct (includes (toLowerCase modelId) "gemini-3") eqn:G3.
    + apply (includes_app_l _ "gemini" "-3") in G3. congruence.
    + destruct (includes (toLowerCase modelId) "gemini-2.5-pro") eqn:G25; [|reflexivity].
      apply (includes_app_l _ "gemini" "-2.5-pro") in G25. congruence.
Qed.

(* ================================================================== *)
(** * The chat route reads the body as a whole *)
(* ================================================================== *)

(** ** Strings of white space *)

Lemma trim_blank_cons (c : ascii) (s : string) :
  nonempty (trim (String c s)) = false
  <-> is_space c = true /\ nonempty (trim s) = false.
Proof.
  unfold trim. cbn [trimStart]. destruct (is_space c) eqn:E.
  - tauto.
  - rewrite (trimEnd_nonempty c s E). split; [discriminate | intros [H _]; discriminate].
Qed.

Lemma blank_app (a b : string) :
  nonempty (trim a) = false -> nonempty (trim b) = false ->
  nonempty (trim (a ++ b)) = false.
Proof.
  intros Ha Hb. induction a as [|c a IH]; [exact Hb|].
  apply trim_blank_cons in Ha. destruct Ha as [Hc Ha].
  cbn [String.append]. apply trim_blank_cons. split; [exact Hc | exact (IH Ha)].
Qed.

Lemma split_lines_blank (n : nat) :
  forall s cur,
    String.length s <= n ->
    nonempty (trim s) = false -> nonempty (trim cur) = false ->
    Forall (fun l => nonempty (trim l) = false) (split_lines s cur).
Proof.
  induction n as [|n IH]; intros s cur Hn Hs Hc.
  - destruct s; [|cbn in Hn; lia]. constructor; [exact Hc | constructor].
  - destruct s as [|c rest]; [constructor; [exact Hc | constructor]|].
    cbn [String.length] in Hn. apply trim_blank_cons in Hs. destruct Hs as [Sc Hrest].
    assert (Hcur : nonempty (trim (cur ++ String c EmptyString)) = false).
    { apply blank_app; [exact Hc|]. apply trim_blank_cons. now split. }
    cbn [split_lines]. destruct (Ascii.eqb c LF).
    + constructor; [exact Hc|]. apply IH; [lia | exact Hrest | reflexivity].
    + destruct rest as [|d rest']; [apply IH; [cbn; lia | exact Hrest | exact Hcur]|].
      destruct (Ascii.eqb c CR && Ascii.eqb d LF).
      * constructor; [exact Hc|]. apply trim_blank_cons in Hrest.
        apply IH; [cbn [String.length] in Hn; lia | tauto | reflexivity].
      * apply IH; [lia | exact Hrest | exact Hcur].
Qed.

Lemma fold_blank_lines (lines : list string) :
  Forall (fun l => nonempty (trim l) = false) lines ->
  fold_left parse_line lines ([], empty_event) = ([], empty_event).
Proof.
  induction 1 as [|l lines Hl _ IH]; [reflexivity|].
  cbn [fold_left]. unfold parse_line at 2. cbn [fst snd]. rewrite Hl. cbn [negb].
  exact IH.
Qed.

(** A text of white space holds no event. *)
Lemma parseSSEChunk_blank (s : string) :
  nonempty (trim s) = false -> parseSSEChunk s = [].
Proof.
  intros H. unfold parseSSEChunk.
  rewrite fold_blank_lines; [reflexivity|].
  now apply (split_lines_blank (String.length s)).
Qed.

(** ** Parsing before and after a blank line *)

Lemma split_lines_before (n : nat) :
  forall p cur,
    String.length p <= n ->
    exists lines,
      forall rest,
        split_lines (p ++ String LF rest) cur
        = (lines ++ split_lines rest EmptyString)%list.
Proof.
  induction n as [|n IH]; intros p cur Hn.
  - destruct p; [|cbn in Hn; lia]. exists [cur]. intros rest. reflexivity.
  - destruct p as [|c p]; [exists [cur]; intros rest; reflexivity|].
    cbn [String.length] in Hn. cbn [String.append split_lines].
    destruct (Ascii.eqb c LF) eqn:Ec.
    + destruct (IH p EmptyString ltac:(lia)) as (lines & H).
      exists (cur :: lines). intros rest. now rewrite H.
    + destruct p as [|d p'].
      * cbn [String.append]. rewrite Ascii.eqb_refl, andb_true_r.
        destruct (Ascii.eqb c CR).
        -- exists [cur]. intros rest. reflexivity.
        -- exists [cur ++ String c EmptyString]. intros rest.
           cbn [split_lines]. now rewrite Ascii.eqb_refl.
      * cbn [String.append]. destruct (Ascii.eqb c CR && Ascii.eqb d LF).
        -- cbn [String.length] in Hn.
           destruct (IH p' EmptyString ltac:(lia)) as (lines & H).
           exists (cur :: lines). intros rest. now rewrite H.
        -- destruct (IH (String d p') (cur ++ String c EmptyString) ltac:(lia))
             as (lines & H).
           exists lines. intros rest. exact (H rest).
Qed.

Lemma parse_line_events_prefix (events : list SSEParsedEvent) (cur : SSEParsedEvent)
    (line : string) :
  parse_line (events, cur) line
  = ((events ++ fst (parse_line ([], cur) line))%list, snd (parse_line ([], cur) line)).
Proof.
  unfold parse_line. cbn [fst snd].
  destruct (negb (nonempty (trim line))).
  - destruct (data_truthy cur); cbn [fst snd]; now rewrite ?app_nil_r.
  - destruct (indexOf ":"%char line) as [i|]; [|cbn [fst snd]; now rewrite app_nil_r].
    destruct (String.eqb _ "data"); [cbn [fst snd]; now rewrite app_nil_r|].
    destruct (String.eqb _ "event"); [cbn [fst snd]; now rewrite app_nil_r|].
    destruct (String.eqb _ "id"); cbn [fst snd]; now rewrite app_nil_r.
Qed.

Lemma fold_parse_line_prefix (lines : list string) :
  forall events cur,
    fold_left parse_line lines (events, cur)
    = ((events ++ fst (fold_left parse_line lines ([], cur)))%list,
       snd (fold_left parse_line lines ([], cur))).
Proof.
  induction lines as [|l lines IH]; intros events cur.
  - cbn. now rewrite app_nil_r.
  - cbn [fold_left]. rewrite parse_line_events_prefix.
    destruct (parse_line ([], cur) l) as [ev cur'] eqn:E. cbn [fst snd].
    rewrite IH. rewrite (IH ev cur'). cbn [fst snd]. now rewrite app_assoc.
Qed.

(** The events of a text are those of what comes before a blank line,
    then those of what comes after it. *)
Lemma parseSSEChunk_blank_line (p rest : string) :
  parseSSEChunk (p ++ String LF (String LF rest))
  = (parseSSEChunk (p ++ String LF (String LF EmptyString)) ++ parseSSEChunk rest)%list.
Proof.
  destruct (split_lines_before (String.length p) p EmptyString (Nat.le_refl _))
    as (lines & H).
  unfold parseSSEChunk. rewrite !H. cbn [split_lines]. rewrite Ascii.eqb_refl.
  rewrite !fold_left_app.
  destruct (fold_left parse_line lines ([], empty_event)) as [ev cur].
  cbn [fold_left]. rewrite !parse_line_blank. cbn [data_truthy data empty_event fst snd].
  set (ev' := (if data_truthy cur then ev ++ [cur] else ev)%list).
  fold empty_event.
  rewrite (fold_parse_line_prefix (split_lines rest EmptyString) ev' empty_event).
  cbn [fst snd].
  destruct (fold_left parse_line (split_lines rest EmptyString) ([], empty_event))
    as [ev2 cur2]. cbn [fst snd].
  destruct (data_truthy cur2); now rewrite ?app_assoc.
Qed.

(** ** The pieces of the body *)

Lemma concat_cons_first (sep : string) (c : ascii) (l : list string) :
  l <> [] ->
  String.concat sep (cons_first c l) = String c (String.concat sep l).
Proof. destruct l as [|x [|y l]]; [contradiction | reflexivity | reflexivity]. Qed.

Lemma split_blank_join (n : nat) :
  forall s,
    String.length s <= n ->
    String.concat (String LF (String LF EmptyString)) (split_blank s) = s.
Proof.
  induction n as [|n IH]; intros s Hn.
  - destruct s; [reflexivity | cbn in Hn; lia].
  - destruct s as [|c [|d rest]]; [reflexivity | reflexivity|].
    cbn [String.length] in Hn. rewrite split_blank_two.
    destruct (Ascii.eqb c LF && Ascii.eqb d LF) eqn:E.
    + apply andb_true_iff in E. destruct E as [Ec Ed].
      apply Ascii.eqb_eq in Ec, Ed. subst c d.
      pose proof (split_blank_not_nil rest) as Hne.
      pose proof (IH rest ltac:(lia)) as Hr.
      destruct (split_blank rest) as [|x xs]; [contradiction|].
      change (String.concat (String LF (String LF EmptyString)) (EmptyString :: x :: xs))
        with (String LF (String LF
                (String.concat (String LF (String LF EmptyString)) (x :: xs)))).
      now rewrite Hr.
    + rewrite concat_cons_first by apply split_blank_not_nil.
      rewrite IH by (cbn [String.length]; lia). reflexivity.
Qed.

Lemma parseSSEChunk_pieces (parts : list string) :
  parts <> [] ->
  parseSSEChunk (String.concat (String LF (String LF EmptyString)) parts)
  = (flat_map (fun p => parseSSEChunk (p ++ String LF (String LF EmptyString)))
       (removelast parts)
     ++ parseSSEChunk (last parts EmptyString))%list.
Proof.
  induction parts as [|x parts IH]; [contradiction|]. intros _.
  destruct parts as [|y parts]; [reflexivity|].
  change (String.concat (String LF (String LF EmptyString)) (x :: y :: parts))
    with (x ++ String LF (String LF
                 (String.concat (String LF (String LF EmptyString)) (y :: parts)))).
  rewrite parseSSEChunk_blank_line. rewrite IH by discriminate.
  rewrite (removelast_cons _ x (y :: parts)) by discriminate.
  rewrite (last_cons _ x EmptyString (y :: parts)) by discriminate.
  cbn [flat_map]. now rewrite app_assoc.
Qed.

Section WholeBody.
Variable JSON_parse : string -> option JSON.
Variable JSON_stringify : option JSON -> option string.
Variable Date_now : nat -> Z.

Lemma send_events_app (a b : list SSEParsedEvent) :
  forall state,
    send_events JSON_parse JSON_stringify Date_now (a ++ b) state
    = match send_events JSON_parse JSON_stringify Date_now a state with
      | (chunks, Some state') =>
          ((chunks ++ fst (send_events JSON_parse JSON_stringify Date_now b state'))%list,
           snd (send_events JSON_parse JSON_stringify Date_now b state'))
      | (chunks, None) => (chunks, None)
      end.
Proof.
  induction a as [|e a IH]; intros state.
  - cbn. now destruct (send_events _ _ _ b state).
  - cbn [app send_events].
    destruct (transformAntigravityEvent _ _ _ e state) as [[chunks| |] state'];
      try reflexivity.
    rewrite IH.
    destruct (send_events _ _ _ a state') as [chunks' [state''|]]; cbn [fst snd];
      now rewrite ?app_assoc.
Qed.

Lemma send_parts_events (parts : list string) :
  forall state,
    send_parts JSON_parse JSON_stringify Date_now parts state
    = send_events JSON_parse JSON_stringify Date_now
        (flat_map (fun p => parseSSEChunk (p ++ String LF (String LF EmptyString))) parts)
        state.
Proof.
  induction parts as [|p parts IH]; intros state; [reflexivity|].
  cbn [send_parts flat_map]. destruct (nonempty (trim p)) eqn:E; cbn [negb].
  - rewrite send_events_app.
    destruct (send_events _ _ _ (parseSSEChunk _) state) as [chunks [state'|]];
      [|reflexivity].
    now rewrite IH.
  - rewrite parseSSEChunk_blank; [exact (IH state)|].
    apply blank_app; [exact E | reflexivity].
Qed.

(** Cutting the body at the blank lines and parsing the pieces one by one
    changes nothing: when the body ends normally, the route writes the
    chunks that the transformer gives for the events of the whole body,
    parsed at once, up to the first event that makes it throw, and then
    the closing marker.  This holds for every body and every cut of it
    into reads. *)
Theorem stream_callback_whole_body (now : Z) (originalModel : string)
    (reads : list string) :
  stream_callback JSON_parse JSON_stringify Date_now now originalModel (Some (reads, true))
  = (map Data
       (fst (transform_stream JSON_parse JSON_stringify Date_now
               (parseSSEChunk (String.concat EmptyString reads))
               (createTransformState now originalModel)))
     ++ [Done])%list.
Proof.
  unfold stream_callback. f_equal. f_equal.
  rewrite read_loop_joined by reflexivity.
  set (body := String.concat EmptyString reads).
  set (state := createTransformState now originalModel).
  rewrite <- send_events_stream.
  rewrite <- (split_blank_join (String.length body) body (Nat.le_refl _)) at 2.
  rewrite parseSSEChunk_pieces by apply split_blank_not_nil.
  rewrite send_events_app, <- send_parts_events.
  cbn [read_loop String.append andb].
  destruct (send_parts _ _ _ (removelast (split_blank body)) state)
    as [chunks [state'|]]; [|reflexivity].
  cbn [fst]. f_equal. cbn [read_loop andb].
  destruct (nonempty (trim (last (split_blank body) EmptyString))) eqn:E; [reflexivity|].
  now rewrite (parseSSEChunk_blank _ E).
Qed.
End WholeBody.

(* ================================================================== *)
(** * The further statements on concrete inputs *)
(* ================================================================== *)

Lemma transformRequest_contents_fit_witness :
  exists out c,
    transformRequest JSONLite.parse 4 conversation = Normal out
    /\ In c (contents out)
    /\ parts c <> [] /\ role c <> RoleSystem.
Proof.
  eexists. eexists. split; [reflexivity|]. split; [left; reflexivity|].
  apply (transformRequest_contents_fit JSONLite.parse 4 conversation _ _ eq_refl).
  left. reflexivity.
Defined.

Lemma transformRequest_parts_in_order_witness :
  exists out,
    transformRequest JSONLite.parse 4 conversation = Normal out
    /\ flat_map parts (contents out)
       = flat_map (message_parts JSONLite.parse) (req_messages conversation).
Proof.
  eexists. split; [reflexivity|].
  apply (transformRequest_parts_in_order JSONLite.parse 4 conversation _ eq_refl).
Defined.

Lemma transformRequest_thinking_floor_witness :
  exists out,
    transformRequest JSONLite.parse 4 conversation = Normal out
    /\ (exists n, maxOutputTokens (generationConfig out) = Some n /\ (8192 <= n)%Z)
    /\ thinkingConfig (generationConfig out) = Some budget_thinking.
Proof.
  eexists. split; [reflexivity|].
  destruct (transformRequest_thinking_floor JSONLite.parse 4 conversation _ eq_refl eq_refl)
    as [F B].
  split; [exact F | exact (B eq_refl)].
Defined.

Lemma transformRequest_function_tools_witness :
  exists out declarations,
    transformRequest JSONLite.parse 4 conversation = Normal out
    /\ tools out = Some [{| functionDeclarations := declarations |}]
    /\ Forall2 (fun tool d =>
                  decl_name d = tool_name tool
                  /\ decl_description d = tool_description tool
                  /\ cleanSchema 4 (tool_schema tool) = Normal (decl_parameters d))
         [function_tool "lookup" (Some person_schema)] declarations.
Proof.
  eexists.
  destruct (transformRequest_function_tools JSONLite.parse 4 conversation _ _
              eq_refl eq_refl eq_refl) as (declarations & T & F).
  exists declarations. split; [reflexivity|]. split; [exact T | exact F].
Defined.

Lemma transformMessage_tool_calls_witness :
  exists c,
    transformMessage JSONLite.parse (assistant_call "lookup" "{oops") = Some c
    /\ role c = RoleModel
    /\ function_calls (parts c) = [("lookup", JObj [])].
Proof.
  exact (transformMessage_tool_calls JSONLite.parse (assistant_call "lookup" "{oops") _
           eq_refl eq_refl eq_refl).
Defined.

Lemma parseSSEChunk_data_frames_witness :
  parseSSEChunk (data_frame ["[1,2]"] ++ data_frame ["first"; "second"])
  = [data_event "[1,2]"; data_event ("first" ++ String LF "second")].
Proof.
  exact (parseSSEChunk_data_frames [["[1,2]"]; ["first"; "second"]] eq_refl).
Defined.

Lemma cleanSchema_types_upper_case_witness :
  cleanSchema 5 catalog_schema = Normal catalog_schema_cleaned
  /\ type_is_upper_case catalog_schema_cleaned.
Proof.
  split; [reflexivity|].
  exact (cleanSchema_types_upper_case 5 catalog_schema catalog_schema_cleaned _
           eq_refl (node_here _)).
Defined.

Lemma cleanSchema_arrays_have_items_witness :
  cleanSchema 5 catalog_schema = Normal catalog_schema_cleaned
  /\ array_has_items
       (JObj [("type", JStr "ARRAY"); ("description", JStr "(minItems: 1)");
              ("items", JObj [("type", JStr "STRING")])]).
Proof.
  split; [reflexivity|].
  apply (cleanSchema_arrays_have_items 5 catalog_schema catalog_schema_cleaned _ eq_refl).
  eapply node_property; [reflexivity | reflexivity | left; reflexivity | constructor].
Defined.

Lemma cleanSchema_no_unsupported_keyword_witness :
  cleanSchema 5 catalog_schema = Normal catalog_schema_cleaned
  /\ no_unsupported_keyword catalog_schema_cleaned.
Proof.
  split; [reflexivity|].
  exact (cleanSchema_no_unsupported_keyword 5 catalog_schema catalog_schema_cleaned _
           eq_refl (node_here _)).
Defined.

Lemma stream_callback_data_frames_witness :
  stream_callback JSONLite.parse JSONLite.stringify (fun _ => 0%Z) 0%Z "gemini-3-pro"
    (Some (["data: " ++ answer_text ++ String LF EmptyString;
            String LF "data: [DO";
            "NE]" ++ String LF (String LF EmptyString)], false))
  = (map Data
       (fst (transform_stream JSONLite.parse JSONLite.stringify (fun _ => 0%Z)
               [data_event answer_text; data_event "[DONE]"]
               (createTransformState 0%Z "gemini-3-pro")))
     ++ [Done])%list.
Proof.
  exact (stream_callback_data_frames JSONLite.parse JSONLite.stringify (fun _ => 0%Z)
           0%Z "gemini-3-pro" _ false [[answer_text]; ["[DONE]"]] eq_refl eq_refl).
Defined.

Lemma transformResponse_agrees_with_stream_witness :
  exists out chunks,
    transformResponse JSONLite.stringify (fun _ => 0%Z) answer_payload "gemini-3-pro"
    = Normal out
    /\ fst (transformAntigravityEvent JSONLite.parse JSONLite.stringify (fun _ => 0%Z)
              (data_event answer_text) (createTransformState 0%Z "gemini-3-pro"))
       = Normal chunks
    /\ streamed_text chunks = Normal (response_text out)
    /\ streamed_calls chunks = response_calls out.
Proof.
  assert (Hdone : answer_text <> "[DONE]") by discriminate.
  eexists.
  destruct (proj1 (proj2 (transformResponse_agrees_with_stream JSONLite.parse
                            JSONLite.stringify (fun _ => 0%Z) (data_event answer_text)
                            answer_text answer_payload
                            (createTransformState 0%Z "gemini-3-pro") "gemini-3-pro"
                            eq_refl eq_refl Hdone eq_refl)) _ eq_refl)
    as (chunks & Hs & Ht & Hc).
  exists chunks. split; [reflexivity|]. split; [exact Hs|]. split; [exact Ht | exact Hc].
Defined.

Lemma transformResponse_call_ids_distinct_witness :
  exists out calls,
    transformResponse JSONLite.stringify (fun _ => 0%Z) answer_payload "gemini-3-pro"
    = Normal out
    /\ message_tool_calls out = Some calls
    /\ List.length calls = 2
    /\ NoDup (map rtc_id calls).
Proof.
  eexists. eexists. split; [reflexivity|]. split; [reflexivity|]. split; [reflexivity|].
  exact (proj2 (proj1 (transformResponse_call_ids_distinct JSONLite.stringify
                         (fun _ => 0%Z) answer_payload "gemini-3-pro" _ eq_refl))).
Defined.

Lemma cleanSchema_enough_fuel_witness :
  depth catalog_schema + 20 <= 23
  /\ (cleanSchema 23 catalog_schema = Throw
      \/ exists out, cleanSchema 23 catalog_schema = Normal out).
Proof.
  assert (H : depth catalog_schema + 20 <= 23) by (apply Nat.leb_le; reflexivity).
  split; [exact H | exact (cleanSchema_enough_fuel 23 catalog_schema H)].
Defined.
